(** * Ash Diver: the procedural blueprint generator

    A shallow embedding of [generate_blueprint.py]: the nine-stage pipeline of
    [BlueprintGenerator], its flood fill, and the properties the
    specification states about them.

    Modelling conventions.
    - The grid is a NumPy [int8] array of shape [(height, width)]: a list of
      rows of [Z].  Column, row and config values are Python integers: [Z].
    - NumPy's pseudo random generator, [np.linspace], the floating point
      geometry of the cave blobs and CPython's set iteration order are not
      code of this repository: they are interfaces ([Generator], [Oracles])
      and every result holds for every implementation of them.
    - A Python exception is an [Outcome]: [Raise].  The only unbounded loop,
      the [while] of [_carve_tunnel], takes fuel and yields [OutOfFuel] when
      it is exhausted.
    - Integer widths ([int32] surface line, [int64] draws) are not modelled:
      config values are taken to fit them.  The one computation on
      [np.int32] scalars, the flatness of a window of the surface line,
      wraps as NumPy's does ([wrap_int32]). *)

From stdpp Require Import prelude.
From Stdlib Require Import ZArith Lia.
From Stdlib Require Ascii String DecimalString DecimalZ.

Local Open Scope Z_scope.

(** ** Outcomes of fallible code *)

Inductive Exn := ValueError | IndexError | TypeError.

Inductive Outcome (A : Type) : Type :=
| Ok (a : A)
| Raise (e : Exn)
| OutOfFuel.
Arguments Ok {A} a.
Arguments Raise {A} e.
Arguments OutOfFuel {A}.

#[global] Instance Outcome_bind : MBind Outcome := λ A B f m,
  match m with
  | Ok a => f a
  | Raise e => Raise e
  | OutOfFuel => OutOfFuel
  end.

Fixpoint foldM {A S : Type} (f : S → A → Outcome S) (l : list A) (s : S) : Outcome S :=
  match l with
  | [] => Ok s
  | a :: l => s' ← f s a; foldM f l s'
  end.

Fixpoint mapM {A B : Type} (f : A → Outcome B) (l : list A) : Outcome (list B) :=
  match l with
  | [] => Ok []
  | a :: l => b ← f a; bs ← mapM f l; Ok (b :: bs)
  end.

(** ** Tile constants *)

Definition T_AIR : Z := 0.
Definition T_TOP : Z := 1.
Definition T_FILL : Z := 2.
Definition T_GOAL : Z := 8.
Definition T_SPAWN : Z := 9.

(** ** Floats that the generator compares

    A finite double is the dyadic number [mant * 2^expo].  [rng.random()]
    yields [k / 2^53] for a 53-bit [k]; the literals below are the doubles
    nearest to 0.3, 0.4, 0.6 and 0.8.  Comparison of finite doubles is
    exact. *)

Record Float := { mant : Z; expo : Z }.

Definition flt_lt (a b : Float) : bool :=
  let e := Z.min (expo a) (expo b) in
  bool_decide (mant a * 2 ^ (expo a - e) < mant b * 2 ^ (expo b - e)).

Definition unit_float (k : Z) : Float := {| mant := k; expo := -53 |}.

Definition f0_3 : Float := {| mant := 5404319552844595; expo := -54 |}.
Definition f0_4 : Float := {| mant := 3602879701896397; expo := -53 |}.
Definition f0_6 : Float := {| mant := 5404319552844595; expo := -53 |}.
Definition f0_8 : Float := {| mant := 7205759403792794; expo := -53 |}.
Definition f0_15 : Float := {| mant := 5404319552844595; expo := -55 |}.
Definition f0_35 : Float := {| mant := 6305039478318694; expo := -54 |}.

(** ** Configuration *)

Record BlueprintConfig := {
  seed : Z;
  width : Z;
  height : Z;
  surface_y_min : Z;
  surface_y_max : Z;
  surface_step_max : Z;
  num_tunnels : Z;
  tunnel_min_width : Z;
  tunnel_vertical_clearance : Z;
  tunnel_branch_chance : Float;
  num_caves : Z;
  cave_radius_min : Z;
  cave_radius_max : Z;
  cave_noise_strength : Float;
  min_region_size : Z;
}.

Definition default_config : BlueprintConfig := {|
  seed := 42; width := 200; height := 120;
  surface_y_min := 8; surface_y_max := 18; surface_step_max := 2;
  num_tunnels := 5; tunnel_min_width := 3; tunnel_vertical_clearance := 3;
  tunnel_branch_chance := f0_15;
  num_caves := 12; cave_radius_min := 5; cave_radius_max := 18;
  cave_noise_strength := f0_35;
  min_region_size := 50;
|}.

(** ** Python ranges, NumPy indices and slices *)

(** [range(lo, hi)] *)
Definition py_range (lo hi : Z) : list Z := seqZ lo (hi - lo).

(** [range(hi - 1, -1, -1)] *)
Definition py_range_down (hi : Z) : list Z := reverse (seqZ 0 hi).

(** An index into an axis of length [n]: negative indices count from the
    end, anything outside [-n, n) is an [IndexError]. *)
Definition np_index (i n : Z) : Outcome Z :=
  if decide (0 ≤ i < n) then Ok i
  else if decide (- n ≤ i < 0) then Ok (i + n)
  else Raise IndexError.

(** A slice bound on an axis of length [n] is clipped, never an error. *)
Definition slice_bound (i n : Z) : Z :=
  if decide (i < 0) then Z.max 0 (n + i) else Z.min i n.

Definition np_slice {A} (lo hi : Z) (l : list A) : list A :=
  let n := Z.of_nat (length l) in
  let a := slice_bound lo n in
  let b := slice_bound hi n in
  take (Z.to_nat (b - a)) (drop (Z.to_nat a) l).

(** ** Two-dimensional arrays *)

Definition zlookup {A} (l : list A) (i : Z) : option A :=
  if decide (0 ≤ i) then l !! Z.to_nat i else None.

Definition zinsert {A} (i : Z) (v : A) (l : list A) : list A :=
  if decide (0 ≤ i) then <[Z.to_nat i := v]> l else l.

(** [cell a y x] is [a[y, x]] for an index known to be inside the array;
    [put a y x v] is the store [a[y, x] = v] for such an index. *)
Definition cell {A} (a : list (list A)) (y x : Z) : option A :=
  row ← zlookup a y; zlookup row x.

Definition put {A} (a : list (list A)) (y x : Z) (v : A) : list (list A) :=
  if decide (0 ≤ y) then alter (zinsert x v) (Z.to_nat y) a else a.

Abbreviation Grid := (list (list Z)).
Abbreviation Visited := (list (list bool)).

Definition nrows {A} (a : list (list A)) : Z := Z.of_nat (length a).
Definition ncols {A} (a : list (list A)) : Z := Z.of_nat (length (default [] (head a))).

(** [a[y, x]] and [a[y, x] = v] with NumPy's index rules on both axes. *)
Definition getitem (g : Grid) (y x : Z) : Outcome Z :=
  y' ← np_index y (nrows g);
  x' ← np_index x (ncols g);
  match cell g y' x' with
  | Some v => Ok v
  | None => Raise IndexError
  end.

Definition setitem (g : Grid) (y x : Z) (v : Z) : Outcome Grid :=
  y' ← np_index y (nrows g);
  x' ← np_index x (ncols g);
  Ok (put g y' x' v).

(** [v[i]] for a one-dimensional array or a Python list. *)
Definition getitem1 {A} (l : list A) (i : Z) : Outcome A :=
  i' ← np_index i (Z.of_nat (length l));
  match zlookup l i' with
  | Some v => Ok v
  | None => Raise IndexError
  end.

(** [a.max()] and [a.min()]: a [ValueError] on an empty array. *)
Definition array_max (l : list Z) : Outcome Z :=
  match l with
  | [] => Raise ValueError
  | v :: l => Ok (foldl Z.max v l)
  end.

Definition array_min (l : list Z) : Outcome Z :=
  match l with
  | [] => Raise ValueError
  | v :: l => Ok (foldl Z.min v l)
  end.

(** [np.clip(v, lo, hi)] is [minimum(maximum(v, lo), hi)]. *)
Definition clip (v lo hi : Z) : Z := Z.min (Z.max v lo) hi.

(** The [np.int32] that an operation on [np.int32] scalars returns for the
    exact result [v]: it wraps around. *)
Definition wrap_int32 (v : Z) : Z := (v + 2 ^ 31) `mod` 2 ^ 32 - 2 ^ 31.

(** ** The interfaces the generator is written against *)

(** [np.random.Generator].  [rng_random] returns the 53-bit numerator [k]
    of the double [k / 2^53]. *)
Class Generator (R : Type) := {
  default_rng : Z → R;
  rng_integers : Z → Z → R → Z * R;
  rng_random : R → Z * R;
  rng_random_n : nat → R → list Z * R;
  rng_choice_of : list Z → R → Z * R;
  rng_choice : Z → Z → R → list Z * R;
}.

(** What the generator computes in floating point, and the order in which
    CPython iterates over a set, given the order of its insertions. *)
Class Oracles := {
  linspace_int : Z → Z → list Z;
  cave_inside : BlueprintConfig → Z → Z → Z → list Z → Z → Z → bool;
  set_iteration : list (Z * Z) → list (Z * Z);
}.

(** ** The generator *)

Section Generator.
Context {R : Type} `{!Generator R} `{!Oracles}.

Record BlueprintGenerator_ := {
  cfg : BlueprintConfig;
  rng : R;
  grid : Grid;
  surface_line : option (list Z);
}.

Definition with_grid (st : BlueprintGenerator_) (g : Grid) : BlueprintGenerator_ :=
  {| cfg := cfg st; rng := rng st; grid := g; surface_line := surface_line st |}.

Definition with_grid_rng (st : BlueprintGenerator_) (g : Grid) (r : R) : BlueprintGenerator_ :=
  {| cfg := cfg st; rng := r; grid := g; surface_line := surface_line st |}.

(** [self.surface_line[...]] on [None] is a [TypeError]. *)
Definition the_surface_line (st : BlueprintGenerator_) : Outcome (list Z) :=
  match surface_line st with
  | Some s => Ok s
  | None => Raise TypeError
  end.

(** [rng.integers(low, high)] raises [ValueError] when [low >= high]. *)
Definition draw_integers (lo hi : Z) (r : R) : Outcome (Z * R) :=
  if decide (lo < hi) then Ok (rng_integers lo hi r) else Raise ValueError.

(** [__init__]: [default_rng] refuses a negative seed and [np.full] a
    negative dimension. *)
Definition BlueprintGenerator (c : BlueprintConfig) : Outcome BlueprintGenerator_ :=
  if decide (seed c < 0) then Raise ValueError
  else if decide (height c < 0 ∨ width c < 0) then Raise ValueError
  else Ok {| cfg := c;
             rng := default_rng (seed c);
             grid := replicate (Z.to_nat (height c)) (replicate (Z.to_nat (width c)) T_FILL);
             surface_line := None |}.

(** *** Step 1: init *)

Definition _step1_init (st : BlueprintGenerator_) : BlueprintGenerator_ :=
  with_grid st ((λ row : list Z, (λ _ : Z, T_FILL) <$> row) <$> grid st).

(** *** Step 2: surface *)

(** [grid[:y, x] = v] *)
Definition set_column_above (g : Grid) (y x : Z) (v : Z) : Grid :=
  foldl (λ g r, put g r x v) g (py_range 0 (slice_bound y (nrows g))).

Definition _step2_surface (st : BlueprintGenerator_) : Outcome BlueprintGenerator_ :=
  let w := width (cfg st) in
  let y_min := surface_y_min (cfg st) in
  let y_max := surface_y_max (cfg st) in
  let step_max := surface_step_max (cfg st) in
  if decide (w < 0) then Raise ValueError else
  let surface := replicate (Z.to_nat w) 0 in
  '(y, r) ← draw_integers y_min (y_max + 1) (rng st);
  '(y, g, r, surface) ←
    foldM (λ '(y, g, r, surface) x,
             '(dy, r) ← draw_integers (- step_max) (step_max + 1) r;
             let y := clip (y + dy) y_min y_max in
             Ok (y, set_column_above g y x T_AIR, r, zinsert x y surface))
          (py_range 0 w) (y, grid st, r, surface);
  Ok {| cfg := cfg st; rng := r; grid := g; surface_line := Some surface |}.

(** *** Step 3: tunnels *)

(** The cross-section carved around [(x, y)]. *)
Definition carve_cross (w h half clearance x y : Z) (g : Grid) : Grid :=
  foldl (λ g dx,
    foldl (λ g dy,
      let cx := x + dx in
      let cy := y + dy in
      if decide (0 ≤ cx < w ∧ 0 ≤ cy < h) then put g cy cx T_AIR else g)
    g (py_range 0 clearance))
  g (py_range (- half) (half + 1)).

(** The [for _ in range(branch_len)] loop with its [break]. *)
Fixpoint branch_walk (n : nat) (w h half clearance branch_dir bx by_ : Z)
    (g : Grid) (r : R) : Grid * R :=
  match n with
  | O => (g, r)
  | S n =>
    let g := carve_cross w h half clearance bx by_ g in
    let bx := bx + branch_dir in
    let '(k, r) := rng_random r in
    let by_ := if flt_lt (unit_float k) f0_4 then by_ + 1 else by_ in
    let bx := Z.max half (Z.min bx (w - 1 - half)) in
    if decide (h - 2 ≤ by_) then (g, r)
    else branch_walk n w h half clearance branch_dir bx by_ g r
  end.

(** One iteration of the [while] loop of [_carve_tunnel]. *)
Definition tunnel_step (c : BlueprintConfig) (half clearance : Z)
    (x y : Z) (g : Grid) (r : R) : Z * Z * Grid * R :=
  let w := width c in
  let h := height c in
  let g := carve_cross w h half clearance x y g in
  let '(direction, r) := rng_random r in
  let '(x, y) :=
    if flt_lt (unit_float direction) f0_6 then (x, y + 1)
    else if flt_lt (unit_float direction) f0_8
         then (Z.max half (Z.min (x - 1) (w - 1 - half)), y)
         else (Z.max half (Z.min (x + 1) (w - 1 - half)), y) in
  let '(k, r) := rng_random r in
  let y := if flt_lt (unit_float k) f0_3 then y + 1 else y in
  let '(k, r) := rng_random r in
  if flt_lt (unit_float k) (tunnel_branch_chance c) && bool_decide (y < h - 20) then
    let '(branch_len, r) := rng_integers 10 30 r in
    let '(branch_dir, r) := rng_choice_of [-1; 1] r in
    let '(g, r) := branch_walk (Z.to_nat branch_len) w h half clearance branch_dir x y g r in
    (x, y, g, r)
  else (x, y, g, r).

(** [while y < max_depth]: the loop has no step budget of its own. *)
Fixpoint tunnel_walk (fuel : nat) (c : BlueprintConfig) (half clearance : Z)
    (x y : Z) (g : Grid) (r : R) : Outcome (Grid * R) :=
  if decide (y < height c - 5) then
    match fuel with
    | O => OutOfFuel
    | S fuel =>
      let '(x, y, g, r) := tunnel_step c half clearance x y g r in
      tunnel_walk fuel c half clearance x y g r
    end
  else Ok (g, r).

Definition _carve_tunnel (fuel : nat) (c : BlueprintConfig) (surface : list Z)
    (start_x min_w clearance : Z) (g : Grid) (r : R) : Outcome (Grid * R) :=
  y ← getitem1 surface start_x;
  let half := min_w `div` 2 in
  tunnel_walk fuel c half clearance start_x y g r.

(** [np.linspace(w * 0.1, w * 0.9, n, dtype=int)] refuses a negative [n]. *)
Definition _step3_tunnels (fuel : nat) (st : BlueprintGenerator_) : Outcome BlueprintGenerator_ :=
  let c := cfg st in
  if decide (num_tunnels c < 0) then Raise ValueError else
  let start_xs := linspace_int (width c) (num_tunnels c) in
  '(g, r) ←
    foldM (λ '(g, r) sx,
             surface ← the_surface_line st;
             _carve_tunnel fuel c surface sx (tunnel_min_width c) (tunnel_vertical_clearance c) g r)
          start_xs (grid st, rng st);
  Ok (with_grid_rng st g r).

(** *** Step 4: caves *)

Definition carve_cave (c : BlueprintConfig) (surface_max cx cy : Z) (radii : list Z)
    (g : Grid) : Grid :=
  let w := width c in
  let h := height c in
  let r_max := cave_radius_max c in
  foldl (λ g y,
    foldl (λ g x,
      if cave_inside c surface_max cx cy radii x y then put g y x T_AIR else g)
    g (py_range (Z.max 0 (cx - r_max - 2)) (Z.min w (cx + r_max + 2))))
  g (py_range (Z.max 0 (cy - r_max - 2)) (Z.min h (cy + r_max + 2))).

Definition _step4_caves (st : BlueprintGenerator_) : Outcome BlueprintGenerator_ :=
  let c := cfg st in
  let w := width c in
  let h := height c in
  let r_max := cave_radius_max c in
  surface ← the_surface_line st;
  m ← array_max surface;
  let surface_max := m + 10 in
  '(g, r) ←
    foldM (λ '(g, r) _,
             '(cx, r) ← draw_integers (r_max + 2) (w - r_max - 2) r;
             '(cy, r) ← draw_integers surface_max (h - r_max - 2) r;
             let '(radii, r) := rng_random_n 36 r in
             Ok (carve_cave c surface_max cx cy radii g, r))
          (py_range 0 (num_caves c)) (grid st, rng st);
  Ok (with_grid_rng st g r).

(** *** Step 5: filter small regions *)

Definition neighbours (x y : Z) : list (Z * Z) :=
  [(x - 1, y); (x + 1, y); (x, y - 1); (x, y + 1)].

(** The body of the neighbour loop of [_bfs_flood]. *)
Definition bfs_visit (w h : Z) (g : Grid) (qv : list (Z * Z) * Visited) (n : Z * Z)
    : list (Z * Z) * Visited :=
  let '(nx, ny) := n in
  if bool_decide (0 ≤ nx < w ∧ 0 ≤ ny < h)
     && bool_decide (cell qv.2 ny nx = Some false)
     && bool_decide (cell g ny nx = Some T_AIR)
  then (qv.1 ++ [(nx, ny)], put qv.2 ny nx true)
  else qv.

(** [while queue]: every cell enters the queue at most once, so a budget of
    [w * h] iterations is never exhausted (see [bfs_flood_returns]). *)
Fixpoint bfs_loop (fuel : nat) (w h : Z) (g : Grid) (queue : list (Z * Z))
    (visited : Visited) (region : list (Z * Z)) : Outcome (list (Z * Z) * Visited) :=
  match queue with
  | [] => Ok (region, visited)
  | (x, y) :: queue =>
    match fuel with
    | O => OutOfFuel
    | S fuel =>
      let '(queue, visited) := foldl (bfs_visit w h g) (queue, visited) (neighbours x y) in
      bfs_loop fuel w h g queue visited (region ++ [(x, y)])
    end
  end.

Definition _bfs_flood (w h : Z) (g : Grid) (sx sy : Z) (visited : Visited)
    : Outcome (list (Z * Z) * Visited) :=
  bfs_loop (Z.to_nat (w * h)) w h g [(sx, sy)] (put visited sy sx true) [].

Definition fill_region (g : Grid) (region : list (Z * Z)) : Grid :=
  foldl (λ g '(rx, ry), put g ry rx T_FILL) g region.

(** [np.zeros((h, w), dtype=bool)] *)
Definition new_visited (w h : Z) : Outcome Visited :=
  if decide (h < 0 ∨ w < 0) then Raise ValueError
  else Ok (replicate (Z.to_nat h) (replicate (Z.to_nat w) false)).

Definition filter_cell (c : BlueprintConfig) (gv : Grid * Visited) (y x : Z)
    : Outcome (Grid * Visited) :=
  if bool_decide (cell gv.1 y x = Some T_AIR) && bool_decide (cell gv.2 y x = Some false) then
    '(region, visited) ← _bfs_flood (width c) (height c) gv.1 x y gv.2;
    if decide (Z.of_nat (length region) < min_region_size c)
    then Ok (fill_region gv.1 region, visited)
    else Ok (gv.1, visited)
  else Ok gv.

Definition filter_scan (c : BlueprintConfig) (gv : Grid * Visited) : Outcome (Grid * Visited) :=
  foldM (λ gv y, foldM (λ gv x, filter_cell c gv y x) (py_range 0 (width c)) gv)
        (py_range 0 (height c)) gv.

Definition _step5_filter (st : BlueprintGenerator_) : Outcome BlueprintGenerator_ :=
  let c := cfg st in
  visited ← new_visited (width c) (height c);
  gv ← filter_scan c (grid st, visited);
  Ok (with_grid st gv.1).

(** *** Step 6: connect *)

Definition find_cell (c : BlueprintConfig) (g : Grid) (rv : list (list (Z * Z)) * Visited)
    (y x : Z) : Outcome (list (list (Z * Z)) * Visited) :=
  if bool_decide (cell g y x = Some T_AIR) && bool_decide (cell rv.2 y x = Some false) then
    '(region, visited) ← _bfs_flood (width c) (height c) g x y rv.2;
    Ok (rv.1 ++ [region], visited)
  else Ok rv.

Definition _find_air_regions (c : BlueprintConfig) (g : Grid) : Outcome (list (list (Z * Z))) :=
  visited ← new_visited (width c) (height c);
  rv ← foldM (λ rv y, foldM (λ rv x, find_cell c g rv y x) (py_range 0 (width c)) rv)
             (py_range 0 (height c)) ([], visited);
  Ok rv.1.

(** The region that holds the topmost air tile (the first one found). *)
Definition surface_region_index (h : Z) (regions : list (list (Z * Z))) : nat :=
  (foldl (λ acc ir,
            foldl (λ (acc : Z * nat) (xy : Z * Z),
                     if decide (xy.2 < acc.1) then (xy.2, ir.1) else acc)
                  acc ir.2)
         (h, 0%nat) (imap (λ i (region : list (Z * Z)), (i, region)) regions)).2.

Definition _carve_l_tunnel (c : BlueprintConfig) (a b : Z * Z) (g : Grid) : Grid :=
  let '(ax, ay) := a in
  let '(bx, by_) := b in
  let half := tunnel_min_width c `div` 2 in
  let w := width c in
  let h := height c in
  let g :=
    foldl (λ g x,
      foldl (λ g dy,
        let cy := ay + dy in
        if decide (0 ≤ x < w ∧ 0 ≤ cy < h) then put g cy x T_AIR else g)
      g (py_range (- half) (half + 1)))
    g (py_range (Z.min ax bx) (Z.max ax bx + 1)) in
  foldl (λ g y,
    foldl (λ g dx,
      let cx := bx + dx in
      if decide (0 ≤ cx < w ∧ 0 ≤ y < h) then put g y cx T_AIR else g)
    g (py_range (- half) (half + 1)))
  g (py_range (Z.min ay by_) (Z.max ay by_ + 1)).

(** The closest sampled pair: [None] is [best_dist = inf], the first pair at
    the least distance wins. *)
Definition closest_pair (sample_region sample_surface : list (Z * Z))
    : option (Z * (Z * Z) * (Z * Z)) :=
  foldl (λ best a,
    foldl (λ best b,
      let d := Z.abs (a.1 - b.1) + Z.abs (a.2 - b.2) in
      match best with
      | None => Some (d, a, b)
      | Some (best_dist, _, _) => if decide (d < best_dist) then Some (d, a, b) else best
      end)
    best sample_surface)
  None sample_region.

(** The set [surface_set] is kept as the list of its insertions;
    [list(surface_set)] is [set_iteration] of it. *)
Definition connect_region (c : BlueprintConfig) (s : Grid * R * list (Z * Z))
    (region : list (Z * Z)) : Outcome (Grid * R * list (Z * Z)) :=
  let '(g, r, surface_set) := s in
  let n := Z.of_nat (length region) in
  let sample_size := Z.min 200 n in
  let '(js, r) := rng_choice n sample_size r in
  sample_region ← mapM (getitem1 region) js;
  let surface_list := set_iteration surface_set in
  let m := Z.of_nat (length surface_list) in
  let '(ks, r) := rng_choice m (Z.min 200 m) r in
  sample_surface ← mapM (getitem1 surface_list) ks;
  match closest_pair sample_region sample_surface with
  | Some (_, a, b) => Ok (_carve_l_tunnel c a b g, r, surface_set ++ region)
  | None => Ok (g, r, surface_set)
  end.

Definition _step6_connect (st : BlueprintGenerator_) : Outcome BlueprintGenerator_ :=
  let c := cfg st in
  regions ← _find_air_regions c (grid st);
  if decide (length regions ≤ 1)%nat then Ok st else
  let surface_region_idx := surface_region_index (height c) regions in
  let surface_set := default [] (regions !! surface_region_idx) in
  '(g, r, _) ←
    foldM (λ s (ir : nat * list (Z * Z)),
             if decide (ir.1 = surface_region_idx) then Ok s
             else connect_region c s ir.2)
          (imap (λ i (region : list (Z * Z)), (i, region)) regions)
          (grid st, rng st, surface_set);
  Ok (with_grid_rng st g r).

(** *** Step 7: surface entry check *)

(** The inner [for y] loop: stops at the first tile that is not air. *)
Fixpoint column_is_air (g : Grid) (x : Z) (ys : list Z) : Outcome bool :=
  match ys with
  | [] => Ok true
  | y :: ys =>
    v ← getitem g y x;
    if decide (v = T_AIR) then column_is_air g x ys else Ok false
  end.

(** The outer [for x] loop: returns at the first connected column. *)
Fixpoint find_entry (g : Grid) (surface : list Z) (limit : Z) (xs : list Z) : Outcome bool :=
  match xs with
  | [] => Ok false
  | x :: xs =>
    surf_y ← getitem1 surface x;
    column_is_air g x (py_range surf_y limit) ≫= λ connected : bool,
    if connected then Ok true else find_entry g surface limit xs
  end.

Definition carve_shaft (w half cx : Z) (ys : list Z) (g : Grid) : Outcome Grid :=
  foldM (λ g y,
    foldM (λ g dx,
      let xx := cx + dx in
      if decide (0 ≤ xx < w) then setitem g y xx T_AIR else Ok g)
    (py_range (- half) (half + 1)) g)
  ys g.

Definition _step7_surface_entry_check (st : BlueprintGenerator_) : Outcome BlueprintGenerator_ :=
  let c := cfg st in
  let w := width c in
  let h := height c in
  surface ← the_surface_line st;
  m ← array_max surface;
  let underground_start := m + 2 in
  find_entry (grid st) surface (Z.min (underground_start + 5) h) (py_range 0 w) ≫= λ found : bool,
  if found then Ok st else
  let cx := w `div` 2 in
  surf_y ← getitem1 surface cx;
  let half := tunnel_min_width c `div` 2 in
  g ← carve_shaft w half cx (py_range surf_y (Z.min (underground_start + 10) h)) (grid st);
  Ok (with_grid st g).

(** *** Step 8: spawn and goal *)

(** [None] is [best_score = inf]; the first column at the least score wins.
    The surface line is an [np.int32] array: [window.max() - window.min()]
    is an [np.int32], made a Python [int] after the subtraction. *)
Definition spawn_column (w : Z) (surface : list Z) : Outcome Z :=
  let center_x := w `div` 2 in
  bs ← foldM (λ (bs : option Z * Z) x,
               let window := np_slice (Z.max 0 (x - 2)) (x + 3) surface in
               hi ← array_max window;
               lo ← array_min window;
               let flatness := wrap_int32 (hi - lo) in
               let dist := Z.abs (x - center_x) in
               let score := flatness * 10 + dist in
               match bs.1 with
               | Some best_score => if decide (score < best_score) then Ok (Some score, x) else Ok bs
               | None => Ok (Some score, x)
               end)
             (py_range (Z.max 5 (center_x - w `div` 4)) (Z.min (w - 5) (center_x + w `div` 4)))
             (None, center_x);
  Ok bs.2.

Definition goal_score (spawn_x spawn_y x y : Z) : Z :=
  y * 2 + (Z.abs (x - spawn_x) + Z.abs (y - spawn_y)).

(** One tile of the goal scan: [(best_goal, best_goal_score)]. *)
Definition goal_visit (g : Grid) (spawn_x spawn_y : Z) (best : option (Z * Z) * Z) (y x : Z)
    : option (Z * Z) * Z :=
  if decide (cell g y x = Some T_AIR) then
    let score := goal_score spawn_x spawn_y x y in
    if decide (score > best.2) then (Some (x, y), score) else best
  else best.

Definition goal_scan (w h : Z) (g : Grid) (spawn_x spawn_y : Z) : option (Z * Z) * Z :=
  foldl (λ best y, foldl (λ best x, goal_visit g spawn_x spawn_y best y x) best (py_range 0 w))
        (None, -1) (py_range_down h).

Definition place_goal (w h : Z) (g : Grid) (spawn_x spawn_y : Z) : Grid :=
  match (goal_scan w h g spawn_x spawn_y).1 with
  | Some (x, y) => put g y x T_GOAL
  | None => g
  end.

Definition _step8_spawn_goal (st : BlueprintGenerator_) : Outcome BlueprintGenerator_ :=
  let c := cfg st in
  let w := width c in
  let h := height c in
  surface ← the_surface_line st;
  spawn_x ← spawn_column w surface;
  sy ← getitem1 surface spawn_x;
  let spawn_y := sy - 1 in
  g ← setitem (grid st) spawn_y spawn_x T_SPAWN;
  Ok (with_grid st (place_goal w h g spawn_x spawn_y)).

(** *** Step 9: top detection *)

Definition top_detection (g : Grid) : Grid :=
  let above := np_slice 0 (-1) g in
  let below := np_slice 1 (nrows g) g in
  let mask :=
    zip_with (zip_with (λ a b : Z, bool_decide (a = T_AIR) && bool_decide (b = T_FILL)))
             above below in
  take 1 g ++ zip_with (zip_with (λ (m : bool) (v : Z), if m then T_TOP else v)) mask below.

Definition _step9_top_detection (st : BlueprintGenerator_) : BlueprintGenerator_ :=
  with_grid st (top_detection (grid st)).

(** *** The pipeline *)

Definition generate (fuel : nat) (st : BlueprintGenerator_) : Outcome BlueprintGenerator_ :=
  let st := _step1_init st in
  st ← _step2_surface st;
  st ← _step3_tunnels fuel st;
  st ← _step4_caves st;
  st ← _step5_filter st;
  st ← _step6_connect st;
  st ← _step7_surface_entry_check st;
  st ← _step8_spawn_goal st;
  Ok (_step9_top_detection st).

End Generator.

(** * What the specification states

    The predicates of the properties, and the reference implementations
    of the interfaces on which they are tried. *)

(** ** Shapes and stores *)

(** A NumPy array of shape [(h, w)]. *)
Definition shape {A} (a : list (list A)) (h w : Z) : Prop :=
  nrows a = h ∧ Forall (λ row, Z.of_nat (length row) = w) a.

(** [g'] results from [g] by stores of values that satisfy [P]. *)
Definition writes (P : Z → Prop) (g g' : Grid) : Prop :=
  (∀ h w, shape g h w → shape g' h w) ∧
  ∀ y x, cell g' y x = cell g y x ∨ ∃ v, P v ∧ cell g' y x = Some v.

Definition is_air (v : Z) : Prop := v = T_AIR.
Definition is_fill (v : Z) : Prop := v = T_FILL.
Definition is_marker (v : Z) : Prop := v = T_SPAWN ∨ v = T_GOAL.

(** A stage from [g] to [g'] only opens tiles: air stays air, and a tile
    that changed is air. *)
Definition only_opens (g g' : Grid) : Prop :=
  ∀ y x,
    (cell g y x = Some T_AIR → cell g' y x = Some T_AIR) ∧
    (cell g' y x ≠ cell g y x → cell g' y x = Some T_AIR).

(** ** Top tiles *)

(** The tile that step 9 leaves where [v] was, under the tile [above]. *)
Definition derive (above v : option Z) : option Z :=
  (λ v, if decide (above = Some T_AIR ∧ v = T_FILL) then T_TOP else v) <$> v.

(** Every Top tile is under an Air tile, and no Fill tile is. *)
Definition tops_under_air (g : Grid) : Prop :=
  ∀ y x,
    (cell g y x = Some T_TOP → cell g (y - 1) x = Some T_AIR) ∧
    (cell g y x = Some T_FILL → cell g (y - 1) x ≠ Some T_AIR).

(** What step 9 makes of the grid [g] it finds: a tile of [g'] is Top iff
    it was Fill in [g] with Air immediately above it, and every other
    tile is as it was. *)
Definition top_tiles_derived (g g' : Grid) : Prop :=
  ∀ y x,
    (cell g' y x = Some T_TOP ↔
       cell g y x = Some T_FILL ∧ cell g (y - 1) x = Some T_AIR) ∧
    (cell g' y x ≠ Some T_TOP → cell g' y x = cell g y x).

(** ** Goal selection *)

(** The tiles in the order the goal scan visits them: rows from the bottom
    up, each row from left to right. *)
Definition scan_order (w h : Z) : list (Z * Z) :=
  y ← py_range_down h; (λ x, (x, y)) <$> py_range 0 w.

(** [a] is scanned before [b]. *)
Definition scans_before (a b : Z * Z) : Prop :=
  b.2 < a.2 ∨ (a.2 = b.2 ∧ a.1 < b.1).

(** What the specification says of ties: the last tile found wins. *)
Definition last_found_wins (w h : Z) (g : Grid) (spawn_x spawn_y : Z) : Prop :=
  ∀ x y,
    cell g y x = Some T_AIR →
    (∀ x' y', cell g y' x' = Some T_AIR →
       goal_score spawn_x spawn_y x' y' ≤ goal_score spawn_x spawn_y x y ∧
       (scans_before (x, y) (x', y') →
          goal_score spawn_x spawn_y x' y' < goal_score spawn_x spawn_y x y)) →
    cell (place_goal w h g spawn_x spawn_y) y x = Some T_GOAL.

(** What the code does: the first tile found wins. *)
Definition first_found_wins (w h : Z) (g : Grid) (spawn_x spawn_y : Z) : Prop :=
  ∀ x y,
    cell g y x = Some T_AIR →
    (∀ x' y', cell g y' x' = Some T_AIR →
       goal_score spawn_x spawn_y x' y' ≤ goal_score spawn_x spawn_y x y ∧
       (scans_before (x', y') (x, y) →
          goal_score spawn_x spawn_y x' y' < goal_score spawn_x spawn_y x y)) →
    cell (place_goal w h g spawn_x spawn_y) y x = Some T_GOAL.

(** The state of the scan after the tiles of [l]: the best tile so far is the
    first of [l] at the greatest score. *)
Definition first_best (g : Grid) (sx sy : Z) (l : list (Z * Z))
    (best : option (Z * Z) * Z) : Prop :=
  match best.1 with
  | None => best.2 = -1 ∧ ∀ c, c ∈ l → cell g c.2 c.1 ≠ Some T_AIR
  | Some b =>
    ∃ i, l !! i = Some b ∧ cell g b.2 b.1 = Some T_AIR ∧
         best.2 = goal_score sx sy b.1 b.2 ∧
         ∀ j c, l !! j = Some c → cell g c.2 c.1 = Some T_AIR →
           goal_score sx sy c.1 c.2 ≤ goal_score sx sy b.1 b.2 ∧
           ((j < i)%nat → goal_score sx sy c.1 c.2 < goal_score sx sy b.1 b.2)
  end.

(** ** Regions of air *)

(** Is [(x, y)] above the surface line [s] in a grid of height [h]? *)
Definition sky (s : list Z) (h : Z) (x y : Z) : Prop :=
  ∃ v, zlookup s x = Some v ∧ 0 ≤ y < slice_bound v h.

(** Tiles are [(x, y)] pairs, as in the regions of [_bfs_flood]. *)
Definition is_air_at (g : Grid) (c : Z * Z) : Prop := cell g c.2 c.1 = Some T_AIR.

Definition air_step (g : Grid) (a b : Z * Z) : Prop :=
  is_air_at g a ∧ is_air_at g b ∧ b ∈ neighbours a.1 a.2.

(** Two tiles are in one region iff a path of 4-adjacent air tiles joins them. *)
Definition connected (g : Grid) : Z * Z → Z * Z → Prop := rtc (air_step g).

Definition one_air_region (g : Grid) : Prop :=
  (∃ c, is_air_at g c) ∧ ∀ a b, is_air_at g a → is_air_at g b → connected g a b.

(** The region of [c] has at least [m] tiles. *)
Definition big_region (m : Z) (g : Grid) (c : Z * Z) : Prop :=
  ∃ l, NoDup l ∧ (∀ d, d ∈ l → connected g c d) ∧ m ≤ Z.of_nat (length l).

(** What the Region Filter leaves of [g]: regions of at least [m] tiles,
    each made of the air it was made of. *)
Definition regions_filtered (m : Z) (g g' : Grid) : Prop :=
  ∀ c, is_air_at g' c →
    big_region m g' c ∧ is_air_at g c ∧ ∀ d, connected g c d ↔ connected g' c d.

(** ** Flood fill *)

Definition vis_at (v : Visited) (c : Z * Z) : Prop := cell v c.2 c.1 = Some true.

(** Visited air is closed under adjacency: it is a union of regions. *)
Definition closed_visited (g : Grid) (v : Visited) : Prop :=
  ∀ a b, air_step g a b → vis_at v a → vis_at v b.

(** The state of the [while queue] loop of a fill that started at [s] with
    the tiles of [v0] visited: [rg] is the region so far. *)
Record flood_inv (w h : Z) (g : Grid) (v0 : Visited) (s : Z * Z)
    (rg q : list (Z * Z)) (v : Visited) : Prop := {
  fi_shape : shape v h w;
  fi_nodup : NoDup (rg ++ q);
  fi_start : s ∈ rg ++ q;
  fi_found : ∀ c, c ∈ rg ++ q → is_air_at g c ∧ ¬ vis_at v0 c ∧ connected g s c;
  fi_visited : ∀ c, vis_at v c ↔ vis_at v0 c ∨ c ∈ rg ++ q;
}.

(** The tiles of the grid in the order [_step5_filter] scans them. *)
Definition row_major (w h : Z) : list (Z * Z) :=
  y ← py_range 0 h; (λ x, (x, y)) <$> py_range 0 w.

(** The state of the filter's scan of [g0]: the tiles of [seen] are done. *)
Record filter_inv (w h m : Z) (g0 : Grid) (seen : list (Z * Z))
    (gv : Grid * Visited) : Prop := {
  fl_grid : shape gv.1 h w;
  fl_visited : shape gv.2 h w;
  fl_closed : closed_visited gv.1 gv.2;
  fl_big : ∀ c, is_air_at gv.1 c → vis_at gv.2 c → big_region m gv.1 c;
  fl_seen : ∀ c, c ∈ seen → is_air_at gv.1 c → vis_at gv.2 c;
  fl_sub : ∀ c, is_air_at gv.1 c → is_air_at g0 c;
  fl_same : ∀ c d, is_air_at gv.1 c → connected g0 c d → connected gv.1 c d;
}.

(** ** Runs *)

Definition no_fuel {A} (o : Outcome A) : Prop := o ≠ OutOfFuel.

Section Runs.
Context {R : Type} `{!Generator R} `{!Oracles}.
Implicit Types (st : BlueprintGenerator_ (R:=R)).

(** The grid of a generator has the shape its Config gives. *)
Definition grid_ok st : Prop := shape (grid st) (height (cfg st)) (width (cfg st)).

(** [gen = BlueprintGenerator(cfg); gen.generate()] *)
Definition run (fuel : nat) (c : BlueprintConfig) : Outcome (BlueprintGenerator_ (R:=R)) :=
  BlueprintGenerator c ≫= generate fuel.

(** What a run must do to terminate, as the specification has it. *)
Definition run_terminates (c : BlueprintConfig) : Prop :=
  ∃ fuel, no_fuel (run fuel c).

(** The depth [y] that [n] iterations of the loop body of [_carve_tunnel]
    reach, were the loop not to stop. *)
Fixpoint walk_depth (c : BlueprintConfig) (half clearance : Z) (n : nat)
    (x y : Z) (g : Grid) (r : R) : Z :=
  match n with
  | O => y
  | S n =>
    let '(x, y, g, r) := tunnel_step c half clearance x y g r in
    walk_depth c half clearance n x y g r
  end.

(** The run from [st] starts a tunnel walk in column [sx] at row [y], on
    the grid [g] and with the generator in state [r]: the Surface Carver
    has returned, [sx] is one of the start columns of step 3, the walks of
    the start columns before it have returned and have left [g] and [r],
    and [y] is the surface height of column [sx]. *)
Definition starts_walk (fuel : nat) st (sx y : Z) (g : Grid) (r : R) : Prop :=
  ∃ s2 surface l1 l2,
    _step2_surface (_step1_init st) = Ok s2 ∧
    surface_line s2 = Some surface ∧
    0 ≤ num_tunnels (cfg st) ∧
    linspace_int (width (cfg st)) (num_tunnels (cfg st)) = l1 ++ sx :: l2 ∧
    foldM (λ '(g, r) sx,
             _carve_tunnel fuel (cfg st) surface sx (tunnel_min_width (cfg st))
               (tunnel_vertical_clearance (cfg st)) g r)
          l1 (grid s2, rng s2) = Ok (g, r) ∧
    getitem1 surface sx = Ok y.

(** A run from [st] exhausts a budget of [fuel] iterations iff one of the
    tunnel walks that it starts is not down at [height - 5] after [fuel]
    iterations; a walk is still running after [n] iterations iff the draws
    have not taken [y] down to [height - 5]; an iteration takes [y] down by
    one for a direction draw below 0.6 and by one for a step draw below
    0.3; and a run that returns within the budget returns the same with
    every greater budget. *)
Definition only_walks_run_on (fuel : nat) st : Prop :=
  (generate fuel st = OutOfFuel ↔
     ∃ sx y g r,
       starts_walk fuel st sx y g r ∧
       walk_depth (cfg st) (tunnel_min_width (cfg st) `div` 2)
         (tunnel_vertical_clearance (cfg st)) fuel sx y g r < height (cfg st) - 5) ∧
  (∀ n half clearance x y g r,
     tunnel_walk n (cfg st) half clearance x y g r = OutOfFuel ↔
     walk_depth (cfg st) half clearance n x y g r < height (cfg st) - 5) ∧
  (∀ half clearance x y g r,
     walk_depth (cfg st) half clearance 1 x y g r =
       y + (if flt_lt (unit_float (rng_random r).1) f0_6 then 1 else 0)
         + (if flt_lt (unit_float (rng_random (rng_random r).2).1) f0_3 then 1 else 0)) ∧
  (∀ fuel', (fuel ≤ fuel')%nat → generate fuel st ≠ OutOfFuel →
            generate fuel' st = generate fuel st).

(** Every column of the surface line has a height within the bounds. *)
Definition heights_in_bounds st : Prop :=
  ∃ s, surface_line st = Some s ∧
       ∀ x, 0 ≤ x < width (cfg st) →
         ∃ v, zlookup s x = Some v ∧
              surface_y_min (cfg st) ≤ v ≤ surface_y_max (cfg st).

(** What the specification says of the Surface Carver, for the run that
    starts in [st]. *)
Definition sky_is_one_region st : Prop :=
  ∀ st', surface_step_max (cfg st) ≤ 2 →
         _step2_surface (_step1_init st) = Ok st' →
         heights_in_bounds st' ∧ one_air_region (grid st').

(** The one Spawn tile of [st] is on the bottom row, in a column of
    height 0. *)
Definition spawn_on_bottom_row st : Prop :=
  ∃ s x, surface_line st = Some s ∧ zlookup s x = Some 0 ∧
         ∀ y' x', cell (grid st) y' x' = Some T_SPAWN ↔
                  y' = height (cfg st) - 1 ∧ x' = x.

End Runs.

(** ** Two runs *)

(** Two generators draw the same: the states that a seed gives them are
    related by [sim], and from related states every draw returns the same
    value and leaves related states.  Two generator objects that NumPy makes
    from one seed are such a pair, whatever their internal state is. *)
Record same_draws {R1 R2 : Type} (G1 : Generator R1) (G2 : Generator R2)
    (sim : R1 → R2 → Prop) : Prop := {
  sd_default : ∀ sd, sim (default_rng sd) (default_rng sd);
  sd_integers : ∀ lo hi r1 r2, sim r1 r2 →
    (rng_integers lo hi r1).1 = (rng_integers lo hi r2).1 ∧
    sim (rng_integers lo hi r1).2 (rng_integers lo hi r2).2;
  sd_random : ∀ r1 r2, sim r1 r2 →
    (rng_random r1).1 = (rng_random r2).1 ∧ sim (rng_random r1).2 (rng_random r2).2;
  sd_random_n : ∀ n r1 r2, sim r1 r2 →
    (rng_random_n n r1).1 = (rng_random_n n r2).1 ∧
    sim (rng_random_n n r1).2 (rng_random_n n r2).2;
  sd_choice_of : ∀ l r1 r2, sim r1 r2 →
    (rng_choice_of l r1).1 = (rng_choice_of l r2).1 ∧
    sim (rng_choice_of l r1).2 (rng_choice_of l r2).2;
  sd_choice : ∀ n k r1 r2, sim r1 r2 →
    (rng_choice n k r1).1 = (rng_choice n k r2).1 ∧
    sim (rng_choice n k r1).2 (rng_choice n k r2).2;
}.

(** Two outcomes are the same up to [P]: results that [P] relates, the same
    exception, or two exhausted budgets. *)
Definition same_outcome {A B : Type} (P : A → B → Prop) (o1 : Outcome A) (o2 : Outcome B)
    : Prop :=
  match o1, o2 with
  | Ok a, Ok b => P a b
  | Raise e1, Raise e2 => e1 = e2
  | OutOfFuel, OutOfFuel => True
  | _, _ => False
  end.

(** The same value, with related states of the generator after it. *)
Definition same_draw {A R1 R2 : Type} (sim : R1 → R2 → Prop) (a : A * R1) (b : A * R2)
    : Prop :=
  a.1 = b.1 ∧ sim a.2 b.2.

(** Two generators hold the same Config, bit-identical grids and identical
    surface lines, and their generator states are related. *)
Definition same_state {R1 R2 : Type} (sim : R1 → R2 → Prop)
    (st1 : BlueprintGenerator_ (R:=R1)) (st2 : BlueprintGenerator_ (R:=R2)) : Prop :=
  cfg st1 = cfg st2 ∧ grid st1 = grid st2 ∧ surface_line st1 = surface_line st2 ∧
  sim (rng st1) (rng st2).

(** ** Reference implementations of the interfaces

    A generator that reads its draws off a stream [f seed 0, f seed 1, ...]:
    every finite run of a real generator is a run of one of these. *)

Definition stream_generator (f : Z → nat → Z) : Generator (Z * nat) := {|
  default_rng sd := (sd, 0%nat);
  rng_integers lo hi s := (lo + f s.1 s.2 `mod` (hi - lo), (s.1, S s.2));
  rng_random s := (f s.1 s.2 `mod` 2 ^ 53, (s.1, S s.2));
  rng_random_n n s := ((λ j, f s.1 j `mod` 2 ^ 53) <$> seq s.2 n, (s.1, (s.2 + n)%nat));
  rng_choice_of l s :=
    (default 0 (l !! Z.to_nat (f s.1 s.2 `mod` Z.of_nat (length l))), (s.1, S s.2));
  rng_choice n k s := ((λ j, (f s.1 s.2 + j) `mod` n) <$> seqZ 0 k, (s.1, S s.2));
|}.

(** The same stream read by a generator of another make: its state counts
    the draws in [Z]. *)
Definition counter_generator (f : Z → nat → Z) : Generator (Z * Z) := {|
  default_rng sd := (sd, 0);
  rng_integers lo hi s := (lo + f s.1 (Z.to_nat s.2) `mod` (hi - lo), (s.1, s.2 + 1));
  rng_random s := (f s.1 (Z.to_nat s.2) `mod` 2 ^ 53, (s.1, s.2 + 1));
  rng_random_n n s :=
    ((λ j, f s.1 j `mod` 2 ^ 53) <$> seq (Z.to_nat s.2) n, (s.1, s.2 + Z.of_nat n));
  rng_choice_of l s :=
    (default 0 (l !! Z.to_nat (f s.1 (Z.to_nat s.2) `mod` Z.of_nat (length l))),
     (s.1, s.2 + 1));
  rng_choice n k s := ((λ j, (f s.1 (Z.to_nat s.2) + j) `mod` n) <$> seqZ 0 k, (s.1, s.2 + 1));
|}.

(** The two are at the same place of the same stream. *)
Definition same_position (a : Z * nat) (b : Z * Z) : Prop :=
  a.1 = b.1 ∧ b.2 = Z.of_nat a.2.

(** A linear congruential stream, scaled to 53 bits. *)
Definition lcg_next (s : Z) : Z := (s * 1103515245 + 12345) `mod` 2147483648.
Definition lcg_stream (sd : Z) (i : nat) : Z := Nat.iter (S i) lcg_next sd * 4194304 + 77.
Definition lcg_generator : Generator (Z * nat) := stream_generator lcg_stream.

(** The stream that repeats its seed, and the stream that replays a script. *)
Definition constant_stream (sd : Z) (i : nat) : Z := sd.
Definition scripted_stream (script : list Z) (sd : Z) (i : nat) : Z := default 0 (script !! i).

(** [np.linspace] in exact arithmetic, round blobs of the least radius, and
    sets that iterate in insertion order. *)
Definition exact_oracles : Oracles := {|
  linspace_int w n :=
    if decide (n = 1) then [w `div` 10]
    else (λ i, (w * (n - 1) + i * 8 * w) `div` (10 * (n - 1))) <$> seqZ 0 n;
  cave_inside c surface_max cx cy radii x y :=
    bool_decide ((x - cx) * (x - cx) + (y - cy) * (y - cy)
                 < cave_radius_min c * cave_radius_min c);
  set_iteration l := l;
|}.

(** A small Config on which the whole pipeline runs. *)
Definition small_config : BlueprintConfig := {|
  seed := 7; width := 12; height := 20;
  surface_y_min := 2; surface_y_max := 4; surface_step_max := 2;
  num_tunnels := 2; tunnel_min_width := 3; tunnel_vertical_clearance := 3;
  tunnel_branch_chance := f0_15;
  num_caves := 1; cave_radius_min := 2; cave_radius_max := 2;
  cave_noise_strength := f0_35;
  min_region_size := 3;
|}.

(** The same with every column at height 0. *)
Definition flat_config : BlueprintConfig := {|
  seed := 7; width := 12; height := 20;
  surface_y_min := 0; surface_y_max := 0; surface_step_max := 2;
  num_tunnels := 2; tunnel_min_width := 3; tunnel_vertical_clearance := 3;
  tunnel_branch_chance := f0_15;
  num_caves := 1; cave_radius_min := 2; cave_radius_max := 2;
  cave_noise_strength := f0_35;
  min_region_size := 3;
|}.

(** A generator as [BlueprintGenerator small_config] makes it, one of the
    other make that has run before, and one after its Surface Carver. *)
Definition small_fresh : BlueprintGenerator_ (R := Z * nat) := {|
  cfg := small_config; rng := (7, 0%nat);
  grid := replicate 20 (replicate 12 T_FILL);
  surface_line := None;
|}.

Definition small_used_counter : BlueprintGenerator_ (R := Z * Z) := {|
  cfg := small_config; rng := (7, 0);
  grid := replicate 20 (replicate 12 T_AIR);
  surface_line := Some [1; 2; 3];
|}.

Definition small_carved : BlueprintGenerator_ (R := Z * nat) := {|
  cfg := small_config; rng := (7, 13%nat);
  grid := replicate 2 (replicate 12 T_AIR) ++ replicate 18 (replicate 12 T_FILL);
  surface_line := Some (replicate 12 2);
|}.

(** A grid with two pockets of air under a sky, before the Region Filter. *)
Definition pocket_state : BlueprintGenerator_ (R := Z * nat) := {|
  cfg := {| seed := 0; width := 4; height := 3;
            surface_y_min := 1; surface_y_max := 1; surface_step_max := 0;
            num_tunnels := 0; tunnel_min_width := 3; tunnel_vertical_clearance := 3;
            tunnel_branch_chance := f0_15;
            num_caves := 0; cave_radius_min := 5; cave_radius_max := 18;
            cave_noise_strength := f0_35;
            min_region_size := 3 |};
  rng := (0, 0%nat);
  grid := [[0; 0; 0; 0]; [2; 2; 2; 2]; [0; 2; 2; 0]];
  surface_line := Some [1; 1; 1; 1];
|}.

(** A generator at step 8 over a surface line of height 0. *)
Definition flat_state : BlueprintGenerator_ (R := Z * nat) := {|
  cfg := {| seed := 0; width := 3; height := 3;
            surface_y_min := 0; surface_y_max := 0; surface_step_max := 0;
            num_tunnels := 0; tunnel_min_width := 3; tunnel_vertical_clearance := 3;
            tunnel_branch_chance := f0_15;
            num_caves := 0; cave_radius_min := 5; cave_radius_max := 18;
            cave_noise_strength := f0_35;
            min_region_size := 3 |};
  rng := (0, 0%nat);
  grid := [[0; 0; 0]; [2; 0; 2]; [2; 2; 2]];
  surface_line := Some [0; 0; 0];
|}.

(** A surface line with a gap: heights 1, 0, 1 over three columns. *)
Definition gap_config : BlueprintConfig := {|
  seed := 0; width := 3; height := 2;
  surface_y_min := 0; surface_y_max := 1; surface_step_max := 1;
  num_tunnels := 0; tunnel_min_width := 3; tunnel_vertical_clearance := 3;
  tunnel_branch_chance := f0_15;
  num_caves := 0; cave_radius_min := 5; cave_radius_max := 18;
  cave_noise_strength := f0_35;
  min_region_size := 50;
|}.

Definition gap_generator : Generator (Z * nat) :=
  stream_generator (scripted_stream [1; 1; 0; 2]).

Definition gap_state : BlueprintGenerator_ (R := Z * nat) := {|
  cfg := gap_config; rng := (0, 0%nat);
  grid := replicate 2 (replicate 3 T_FILL);
  surface_line := None;
|}.

(** A stream that never lets a tunnel end: every draw is the largest
    double below 1. *)
Definition stuck_seed : Z := 9007199254740991.

Definition stuck_generator : Generator (Z * nat) := stream_generator constant_stream.

Definition stuck_config : BlueprintConfig := {|
  seed := stuck_seed; width := 12; height := 20;
  surface_y_min := 2; surface_y_max := 4; surface_step_max := 2;
  num_tunnels := 2; tunnel_min_width := 3; tunnel_vertical_clearance := 3;
  tunnel_branch_chance := f0_15;
  num_caves := 1; cave_radius_min := 2; cave_radius_max := 2;
  cave_noise_strength := f0_35;
  min_region_size := 3;
|}.

(** ** What NumPy promises of its generator and CPython of its sets *)

(** [rng.integers(low, high)] draws from [[low, high)]. *)
Definition integers_in_range (R : Type) `{!Generator R} : Prop :=
  ∀ lo hi (r : R), lo < hi → lo ≤ (rng_integers lo hi r).1 < hi.

(** What the scan of the Region Filter has kept so far of [g0]: the air of
    the regions of at least [m] tiles, and every tile that is not air. *)
Definition filter_keeps (m : Z) (g0 g : Grid) : Prop :=
  (∀ c, is_air_at g0 c → big_region m g0 c → is_air_at g c) ∧
  (∀ y x, cell g0 y x ≠ Some T_AIR → cell g y x = cell g0 y x).

(** ** The regions of a grid *)

(** [rg] is a whole region of air of [g], each of its tiles once. *)
Definition air_region (g : Grid) (rg : list (Z * Z)) : Prop :=
  ∃ s, head rg = Some s ∧ is_air_at g s ∧ NoDup rg ∧ ∀ c, c ∈ rg ↔ connected g s c.

(** [regions] are the regions of air of [g], each once. *)
Definition air_regions (g : Grid) (regions : list (list (Z * Z))) : Prop :=
  (∀ rg, rg ∈ regions → air_region g rg) ∧
  (∀ c, is_air_at g c → ∃ rg, rg ∈ regions ∧ c ∈ rg) ∧
  (∀ i j rg1 rg2 c, regions !! i = Some rg1 → regions !! j = Some rg2 →
     c ∈ rg1 → c ∈ rg2 → i = j).

(** The state of the scan of [_find_air_regions]: the tiles of [seen] are
    done. *)
Record find_inv (w h : Z) (g : Grid) (seen : list (Z * Z))
    (rv : list (list (Z * Z)) * Visited) : Prop := {
  fn_visited : shape rv.2 h w;
  fn_closed : closed_visited g rv.2;
  fn_regions : ∀ rg, rg ∈ rv.1 → air_region g rg;
  fn_found : ∀ c, vis_at rv.2 c ↔ ∃ rg, rg ∈ rv.1 ∧ c ∈ rg;
  fn_seen : ∀ c, c ∈ seen → is_air_at g c → vis_at rv.2 c;
  fn_once : ∀ i j rg1 rg2 c, rv.1 !! i = Some rg1 → rv.1 !! j = Some rg2 →
              c ∈ rg1 → c ∈ rg2 → i = j;
}.

(** The tiles of the grid that [_carve_l_tunnel] opens between [a] and [b]:
    a band around row [a.2] from column [a.1] to column [b.1], and a band
    around column [b.1] from row [a.2] to row [b.2]. *)
Definition in_l_tunnel (c : BlueprintConfig) (a b d : Z * Z) : Prop :=
  let half := tunnel_min_width c `div` 2 in
  (0 ≤ d.1 < width c ∧ 0 ≤ d.2 < height c) ∧
  ((Z.min a.1 b.1 ≤ d.1 ≤ Z.max a.1 b.1 ∧ - half ≤ d.2 - a.2 ≤ half) ∨
   (Z.min a.2 b.2 ≤ d.2 ≤ Z.max a.2 b.2 ∧ - half ≤ d.1 - b.1 ≤ half)).

(** [rng.choice(n, k, replace=False)] draws [k] indices below [n]: at least
    one when [k] is positive. *)
Definition choice_in_range (R : Type) `{!Generator R} : Prop :=
  ∀ n k (r : R), 0 < k ≤ n →
    (rng_choice n k r).1 ≠ [] ∧ ∀ j, j ∈ (rng_choice n k r).1 → 0 ≤ j < n.

(** [list(s)] holds the elements of the set [s]. *)
Definition set_iteration_keeps `{!Oracles} : Prop :=
  ∀ l c, c ∈ set_iteration l ↔ c ∈ l.

Definition manhattan (a b : Z * Z) : Z := Z.abs (a.1 - b.1) + Z.abs (a.2 - b.2).

(** The state of the loop of [_step6_connect] over the regions of [g0],
    [rs] the surface region: the regions of [seen] are done. *)
Record connect_inv {R : Type} (w h : Z) (g0 : Grid) (rs : list (Z * Z))
    (seen : list (nat * list (Z * Z))) (s : Grid * R * list (Z * Z)) : Prop := {
  cn_shape : shape s.1.1 h w;
  cn_mono : ∀ d, is_air_at g0 d → is_air_at s.1.1 d;
  cn_surface : ∀ d, d ∈ rs → d ∈ s.2;
  cn_air : ∀ d, d ∈ s.2 → is_air_at s.1.1 d;
  cn_joined : ∀ d e, d ∈ s.2 → e ∈ s.2 → connected s.1.1 d e;
  cn_seen : ∀ i rg d, (i, rg) ∈ seen → d ∈ rg → d ∈ s.2;
  cn_carved : ∀ d, is_air_at s.1.1 d →
                is_air_at g0 d ∨ ∃ e, e ∈ s.2 ∧ connected s.1.1 e d;
}.

(** ** [verify_blueprint] *)

(** The failure messages, each with the values that its text interpolates:
    - [RegionCount n]: "Expected 1 connected air region, found n"
    - [NoSpawn]: "No spawn point found"
    - [MultipleSpawn n]: "Multiple spawn points found: n"
    - [SpawnNotNear sy e]: "Spawn at y=sy not near surface y=e"
    - [NoGoal]: "No goal point found"
    - [GoalNotDeep gy m]: "Goal at y=gy not deep enough (min expected: m)"
    - [TopUnderSolid x y v]: "T_TOP at (x,y) has non-air tile above: v"
    - [ClearanceFailed k n]: "Vertical clearance spot check: k/n failed" *)
Inductive Failure :=
| RegionCount (found : Z)
| NoSpawn
| MultipleSpawn (found : Z)
| SpawnNotNear (sy expected_y : Z)
| NoGoal
| GoalNotDeep (gy min_goal_depth : Z)
| TopUnderSolid (x y above : Z)
| ClearanceFailed (clearance_fails sample_size : Z).

(** [np.isin(grid, [T_AIR, T_TOP, T_SPAWN, T_GOAL])] *)
Definition is_open (v : Z) : bool :=
  bool_decide (v = T_AIR ∨ v = T_TOP ∨ v = T_SPAWN ∨ v = T_GOAL).

Definition air_mask (g : Grid) : Visited := (λ row : list Z, is_open <$> row) <$> g.

(** [np.argwhere(grid == t)]: the [(y, x)] of the tiles [t], in row-major
    order. *)
Definition argwhere (g : Grid) (t : Z) : list (Z * Z) :=
  (λ c : Z * Z, (c.2, c.1)) <$>
    filter (λ c : Z * Z, cell g c.2 c.1 = Some t) (row_major (ncols g) (nrows g)).

(** Check 1: the flood fill over the mask, written out in the loop. *)
Definition mask_visit (w h : Z) (mask : Visited) (qv : list (Z * Z) * Visited) (n : Z * Z)
    : list (Z * Z) * Visited :=
  let '(nx, ny) := n in
  if bool_decide (0 ≤ nx < w ∧ 0 ≤ ny < h)
     && bool_decide (cell qv.2 ny nx = Some false)
     && bool_decide (cell mask ny nx = Some true)
  then (qv.1 ++ [(nx, ny)], put qv.2 ny nx true)
  else qv.

(** [while queue]: as in [_bfs_flood], a budget of [w * h] iterations is
    never exhausted. *)
Fixpoint mask_loop (fuel : nat) (w h : Z) (mask : Visited) (queue : list (Z * Z))
    (visited : Visited) : Outcome Visited :=
  match queue with
  | [] => Ok visited
  | (cx, cy) :: queue =>
    match fuel with
    | O => OutOfFuel
    | S fuel =>
      let '(queue, visited) := foldl (mask_visit w h mask) (queue, visited) (neighbours cx cy) in
      mask_loop fuel w h mask queue visited
    end
  end.

Definition count_cell (w h : Z) (mask : Visited) (cv : Z * Visited) (y x : Z)
    : Outcome (Z * Visited) :=
  if bool_decide (cell mask y x = Some true) && bool_decide (cell cv.2 y x = Some false) then
    visited ← mask_loop (Z.to_nat (w * h)) w h mask [(x, y)] (put cv.2 y x true);
    Ok (cv.1 + 1, visited)
  else Ok cv.

Definition count_regions (g : Grid) : Outcome Z :=
  let h := nrows g in
  let w := ncols g in
  let mask := air_mask g in
  visited ← new_visited w h;
  cv ← foldM (λ cv y, foldM (λ cv x, count_cell w h mask cv y x) (py_range 0 w) cv)
             (py_range 0 h) (0, visited);
  Ok cv.1.

Definition region_check (g : Grid) : Outcome (list Failure) :=
  region_count ← count_regions g;
  Ok (if decide (region_count ≠ 1) then [RegionCount region_count] else []).

(** Check 2: the spawn exists and is on the surface. *)
Definition spawn_check (g : Grid) (surface_line : list Z) : Outcome (list Failure) :=
  let spawn_positions := argwhere g T_SPAWN in
  match spawn_positions with
  | [] => Ok [NoSpawn]
  | [(sy, sx)] =>
    sv ← getitem1 surface_line sx;
    let expected_y := sv - 1 in
    Ok (if decide (Z.abs (sy - expected_y) > 2) then [SpawnNotNear sy expected_y] else [])
  | _ => Ok [MultipleSpawn (Z.of_nat (length spawn_positions))]
  end.

(** Check 3: the goal exists and is deep underground. *)
Definition goal_check (g : Grid) (surface_line : list Z) : Outcome (list Failure) :=
  let h := nrows g in
  match argwhere g T_GOAL with
  | [] => Ok [NoGoal]
  | (gy, gx) :: _ =>
    surface_max ← array_max surface_line;
    let min_goal_depth := surface_max + (h - surface_max) `div` 3 in
    Ok (if decide (gy < min_goal_depth) then [GoalNotDeep gy min_goal_depth] else [])
  end.

(** Check 4: the inner [for x] loop with its [break], and the outer
    [for y] loop that stops after the first failure. *)
Fixpoint top_row_check (g : Grid) (y : Z) (xs : list Z) : Outcome (option Failure) :=
  match xs with
  | [] => Ok None
  | x :: xs =>
    if bool_decide (cell g y x = Some T_TOP) then
      above ← getitem g (y - 1) x;
      if bool_decide (above = T_AIR ∨ above = T_SPAWN ∨ above = T_GOAL)
      then top_row_check g y xs
      else Ok (Some (TopUnderSolid x y above))
    else top_row_check g y xs
  end.

Fixpoint top_check (g : Grid) (w : Z) (ys : list Z) : Outcome (list Failure) :=
  match ys with
  | [] => Ok []
  | y :: ys =>
    top_row_check g y (py_range 0 w) ≫= λ f : option Failure,
    match f with
    | Some f => Ok [f]
    | None => top_check g w ys
    end
  end.

(** Check 5: the clearance spot check.  [clearance_fails > sample_size * 0.1]
    on a sample of at most 50 is [10 * clearance_fails > sample_size]: the
    double [k * 0.1] lies strictly between the integers around [k / 10], or
    on [k / 10] when that is an integer. *)
Definition clear_above (g : Grid) (ty tx : Z) : Z :=
  foldl (λ clear dy,
           let check_y := ty - dy in
           if bool_decide (0 ≤ check_y) &&
              match cell g check_y tx with
              | Some v => bool_decide (v = T_AIR ∨ v = T_SPAWN ∨ v = T_GOAL ∨ v = T_TOP)
              | None => false
              end
           then clear + 1 else clear)
        0 (py_range 1 4).

Definition clearance_check {R : Type} `{!Generator R} (g : Grid) : Outcome (list Failure) :=
  let top_positions := argwhere g T_TOP in
  let n := Z.of_nat (length top_positions) in
  if decide (0 < n) then
    let sample_size := Z.min 50 n in
    let rng : R := default_rng 0 in
    let indices := (rng_choice n sample_size rng).1 in
    clearance_fails ←
      foldM (λ fails idx,
               t ← getitem1 top_positions idx;
               Ok (if decide (clear_above g t.1 t.2 = 0) then fails + 1 else fails))
            indices 0;
    Ok (if decide (sample_size < 10 * clearance_fails)
        then [ClearanceFailed clearance_fails sample_size] else [])
  else Ok [].

Definition verify_blueprint {R : Type} `{!Generator R} (g : Grid) (surface_line : list Z)
    : Outcome (list Failure) :=
  f1 ← region_check g;
  f2 ← spawn_check g surface_line;
  f3 ← goal_check g surface_line;
  f4 ← top_check g (ncols g) (py_range 1 (nrows g));
  f5 ← clearance_check (R := R) g;
  Ok (f1 ++ f2 ++ f3 ++ f4 ++ f5).

(** The grid as check 1 sees it: the tiles of the mask as Air, the others
    as Fill. *)
Definition walkable (g : Grid) : Grid :=
  (λ row : list Z, (λ v, if is_open v then T_AIR else T_FILL) <$> row) <$> g.

(** A Top tile at [(x, y)] under a tile that is none of Air, Spawn and
    Goal: what check 4 looks for. *)
Definition top_under_solid (g : Grid) (x y : Z) : Prop :=
  cell g y x = Some T_TOP ∧
  ∃ above, cell g (y - 1) x = Some above ∧
           ¬ (above = T_AIR ∨ above = T_SPAWN ∨ above = T_GOAL).

(** The check of [verify_blueprint] that reports a failure. *)
Definition failure_check (f : Failure) : Z :=
  match f with
  | RegionCount _ => 1
  | NoSpawn | MultipleSpawn _ | SpawnNotNear _ _ => 2
  | NoGoal | GoalNotDeep _ _ => 3
  | TopUnderSolid _ _ _ => 4
  | ClearanceFailed _ _ => 5
  end.

(** ** The grid as a CSV file: [export_csv] and the game's [load_grid]

    Text is a sequence of characters, each a code point below U+0100.  A
    file holds the text that was written to it; reading it in text mode
    translates the line ends ([universal]).  The limit on the digits of an
    integer string is CPython's default of 4300. *)

Abbreviation Text := (list Ascii.ascii).

Definition chr (n : nat) : Ascii.ascii := Ascii.ascii_of_nat n.
Definition ord (c : Ascii.ascii) : Z := Z.of_nat (Ascii.nat_of_ascii c).

Definition comma : Ascii.ascii := chr 44.
Definition newline : Ascii.ascii := chr 10.
Definition carriage_return : Ascii.ascii := chr 13.
Definition minus_sign : Ascii.ascii := chr 45.
Definition plus_sign : Ascii.ascii := chr 43.
Definition underscore : Ascii.ascii := chr 95.

(** [str(n)] of an integer: its decimal digits, after a minus sign when it
    is negative. *)
Definition py_str (n : Z) : Text :=
  String.list_ascii_of_string (DecimalString.NilZero.string_of_int (Z.to_int n)).

(** [c.isspace()]: the white space of [str.strip] and of [int]. *)
Definition is_space (c : Ascii.ascii) : bool :=
  bool_decide (9 ≤ ord c ≤ 13 ∨ 28 ≤ ord c ≤ 32 ∨ ord c = 133 ∨ ord c = 160).

Definition is_digit (c : Ascii.ascii) : bool := bool_decide (48 ≤ ord c ≤ 57).

Fixpoint lstrip (s : Text) : Text :=
  match s with
  | [] => []
  | c :: s' => if is_space c then lstrip s' else s
  end.

(** [s.strip()] *)
Definition strip (s : Text) : Text := reverse (lstrip (reverse (lstrip s))).

(** [s.split(sep)] for a one-character separator: one piece more than
    there are separators. *)
Fixpoint split_on (sep : Ascii.ascii) (s : Text) : list Text :=
  match s with
  | [] => [[]]
  | c :: s' =>
    if Ascii.eqb c sep then [] :: split_on sep s'
    else match split_on sep s' with
         | piece :: pieces => (c :: piece) :: pieces
         | [] => [[c]]
         end
  end.

(** [sep.join(pieces)] *)
Fixpoint join (sep : Ascii.ascii) (pieces : list Text) : Text :=
  match pieces with
  | [] => []
  | [piece] => piece
  | piece :: pieces => piece ++ sep :: join sep pieces
  end.

(** The digits of an integer string: a digit, then digits with at most one
    underscore before each. *)
Fixpoint digits_ok (after_digit : bool) (s : Text) : bool :=
  match s with
  | [] => after_digit
  | c :: s' =>
    if is_digit c then digits_ok true s'
    else if Ascii.eqb c underscore then
      after_digit && match s' with d :: _ => is_digit d | [] => false end && digits_ok false s'
    else false
  end.

(** [int(s)]: white space around an optional sign and the digits; anything
    else is a [ValueError]. *)
Definition py_int (s : Text) : Outcome Z :=
  let s := strip s in
  let '(negative, body) :=
    match s with
    | c :: s' => if Ascii.eqb c minus_sign then (true, s')
                 else if Ascii.eqb c plus_sign then (false, s')
                 else (false, s)
    | [] => (false, s)
    end in
  if digits_ok false body then
    let digits := filter (λ c, Ascii.eqb c underscore = false) body in
    if decide (4300 < length digits)%nat then Raise ValueError else
    match DecimalString.NilEmpty.uint_of_string (String.string_of_list_ascii digits) with
    | Some u => Ok (if negative then - Z.of_uint u else Z.of_uint u)
    | None => Raise ValueError
    end
  else Raise ValueError.

(** Reading in text mode: [\r\n] and [\r] become [\n]. *)
Fixpoint universal (s : Text) : Text :=
  match s with
  | [] => []
  | c :: s' =>
    if Ascii.eqb c carriage_return then
      newline :: match s' with
                 | d :: s'' => if Ascii.eqb d newline then universal s'' else universal s'
                 | [] => []
                 end
    else c :: universal s'
  end.

(** [for line in f]: the lines, each with its line end. *)
Fixpoint lines (s : Text) : list Text :=
  match s with
  | [] => []
  | c :: s' =>
    if Ascii.eqb c newline then [newline] :: lines s'
    else match lines s' with
         | line :: rest => (c :: line) :: rest
         | [] => [[c]]
         end
  end.

(** [export_csv]: the text written to the file. *)
Definition export_csv (g : Grid) : Outcome Text :=
  let h := nrows g in
  let w := ncols g in
  rows ← mapM (λ y,
                 cells ← mapM (λ x, v ← getitem g y x; Ok (py_str v)) (py_range 0 w);
                 Ok (join comma cells ++ [newline]))
              (py_range 0 h);
  Ok (concat rows).

(** [load_grid] of [game.py], on the text of the file. *)
Definition load_grid (text : Text) : Outcome (list (list Z)) :=
  foldM (λ grid line,
           let line := strip line in
           if bool_decide (line ≠ []) then
             row ← mapM py_int (split_on comma line);
             Ok (grid ++ [row])
           else Ok grid)
        (lines (universal text)) [].

(** [find_tile] of [game.py]: the first [(col, row)] that holds [tile_id]. *)
Fixpoint find_col (tile_id : Z) (col_idx : Z) (row : list Z) : option Z :=
  match row with
  | [] => None
  | val :: row => if decide (val = tile_id) then Some col_idx
                  else find_col tile_id (col_idx + 1) row
  end.

Fixpoint find_row (tile_id : Z) (row_idx : Z) (grid : list (list Z)) : option (Z * Z) :=
  match grid with
  | [] => None
  | row :: grid =>
    match find_col tile_id 0 row with
    | Some col_idx => Some (col_idx, row_idx)
    | None => find_row tile_id (row_idx + 1) grid
    end
  end.

Definition find_tile (grid : list (list Z)) (tile_id : Z) : option (Z * Z) :=
  find_row tile_id 0 grid.

(** The cells of a [np.int8] array. *)
Definition int8 (v : Z) : Prop := -128 ≤ v < 128.
(** What the round trip needs of the text of a cell: [int] reads it back,
    it starts and ends with no white space and holds no separator. *)
Definition cell_text_ok (v : Z) : bool :=
  match py_int (py_str v) with Ok m => bool_decide (m = v) | _ => false end &&
  match head (py_str v) with Some c => negb (is_space c) | None => false end &&
  match last (py_str v) with Some c => negb (is_space c) | None => false end &&
  forallb (λ c, negb (Ascii.eqb c comma) && negb (Ascii.eqb c newline) &&
                negb (Ascii.eqb c carriage_return)) (py_str v).

(** The score of column [x] in the choice of the spawn column: ten times
    the flatness of the five-column window around it, an [np.int32], plus
    its distance from the centre. *)
Definition spawn_score (w : Z) (surface : list Z) (x : Z) : Outcome Z :=
  let window := np_slice (Z.max 0 (x - 2)) (x + 3) surface in
  hi ← array_max window;
  lo ← array_min window;
  Ok (wrap_int32 (hi - lo) * 10 + Z.abs (x - w `div` 2)).

(** * Proofs *)

(** ** Shapes and the write relation *)

Section Lists.
Context {A : Type}.
Implicit Types (l : list A).

Lemma zlookup_Some l i v : zlookup l i = Some v ↔ 0 ≤ i ∧ l !! Z.to_nat i = Some v.
Proof. unfold zlookup. case_decide; naive_solver. Qed.

Lemma zlookup_lt l i : 0 ≤ i < Z.of_nat (length l) → is_Some (zlookup l i).
Proof.
  intros Hi. unfold zlookup. rewrite decide_True by lia.
  apply lookup_lt_is_Some. lia.
Qed.

Lemma zlookup_bound l i v : zlookup l i = Some v → 0 ≤ i < Z.of_nat (length l).
Proof.
  rewrite zlookup_Some. intros [? Hl]. apply lookup_lt_Some in Hl. lia.
Qed.

Lemma length_zinsert l i v : length (zinsert i v l) = length l.
Proof. unfold zinsert. case_decide; [apply length_insert | done]. Qed.

Lemma zlookup_zinsert_eq l i v : zlookup (zinsert i v l) i = (λ _, v) <$> zlookup l i.
Proof.
  unfold zlookup, zinsert. case_decide; [|done].
  destruct (l !! Z.to_nat i) eqn:E; simpl.
  - apply list_lookup_insert_eq. by eapply lookup_lt_Some.
  - rewrite list_insert_ge; [done|]. by apply lookup_ge_None.
Qed.

Lemma zlookup_zinsert_ne l i j v : i ≠ j → zlookup (zinsert i v l) j = zlookup l j.
Proof.
  intros Hij. unfold zlookup, zinsert. repeat case_decide; try done.
  apply list_lookup_insert_ne. lia.
Qed.

End Lists.

Section Arrays.
Context {A : Type}.
Implicit Types (a : list (list A)).

Lemma cell_Some a y x v :
  cell a y x = Some v ↔ ∃ row, zlookup a y = Some row ∧ zlookup row x = Some v.
Proof. unfold cell. destruct (zlookup a y); simpl; naive_solver. Qed.

Lemma cell_unfold a y x :
  cell a y x = if decide (0 ≤ y) then a !! Z.to_nat y ≫= λ row, zlookup row x else None.
Proof.
  unfold cell. case_decide.
  - by replace (zlookup a y) with (a !! Z.to_nat y) by (unfold zlookup; by rewrite decide_True).
  - by replace (zlookup a y) with (@None (list A)) by (unfold zlookup; by rewrite decide_False).
Qed.

Lemma cell_put_eq a y x v : cell (put a y x v) y x = (λ _, v) <$> cell a y x.
Proof.
  rewrite !cell_unfold. unfold put. case_decide; [|done].
  rewrite list_lookup_alter_eq. destruct (a !! Z.to_nat y); simpl; [|done].
  apply zlookup_zinsert_eq.
Qed.

Lemma cell_put_ne a y x v y' x' :
  (y', x') ≠ (y, x) → cell (put a y x v) y' x' = cell a y' x'.
Proof.
  intros Hne. rewrite !cell_unfold. unfold put. case_decide; [|done].
  case_decide; [|done].
  destruct (decide (y' = y)) as [->|Hy].
  - rewrite list_lookup_alter_eq. destruct (a !! Z.to_nat y); simpl; [|done].
    apply zlookup_zinsert_ne. congruence.
  - rewrite list_lookup_alter_ne by lia. done.
Qed.

Lemma cell_put a y x v y' x' :
  cell (put a y x v) y' x' =
    if decide ((y', x') = (y, x)) then (λ _, v) <$> cell a y x else cell a y' x'.
Proof.
  case_decide as E.
  - injection E as -> ->. apply cell_put_eq.
  - by apply cell_put_ne.
Qed.

Lemma shape_put a h w y x v : shape a h w → shape (put a y x v) h w.
Proof.
  intros [Hh Hw]. unfold put, shape, nrows in *. case_decide; [|done].
  rewrite length_alter. split; [done|].
  apply Forall_alter; [done|]. intros row _ Hrow.
  by rewrite length_zinsert.
Qed.

Lemma cell_bounds a h w y x v :
  shape a h w → cell a y x = Some v → 0 ≤ y < h ∧ 0 ≤ x < w.
Proof.
  intros [Hh Hw] (row & Hrow & Hv)%cell_Some.
  pose proof (zlookup_bound _ _ _ Hrow). pose proof (zlookup_bound _ _ _ Hv).
  apply zlookup_Some in Hrow as [_ Hrow].
  rewrite Forall_lookup in Hw. specialize (Hw _ _ Hrow). unfold nrows in Hh. lia.
Qed.

Lemma cell_inside a h w y x :
  shape a h w → 0 ≤ y < h → 0 ≤ x < w → is_Some (cell a y x).
Proof.
  intros [Hh Hw] Hy Hx. unfold nrows in Hh.
  destruct (zlookup_lt a y) as [row Hrow]; [lia|].
  unfold cell. rewrite Hrow. simpl. apply zlookup_lt.
  apply zlookup_Some in Hrow as [_ Hrow].
  rewrite Forall_lookup in Hw. specialize (Hw _ _ Hrow). lia.
Qed.

Lemma cell_outside a h w y x :
  shape a h w → ¬ (0 ≤ y < h ∧ 0 ≤ x < w) → cell a y x = None.
Proof.
  intros Hs Hn. destruct (cell a y x) eqn:E; [|done].
  destruct Hn. by eapply cell_bounds.
Qed.

Lemma shape_replicate (h w : Z) (v : A) :
  0 ≤ h → 0 ≤ w → shape (replicate (Z.to_nat h) (replicate (Z.to_nat w) v)) h w.
Proof.
  intros Hh Hw. split.
  - unfold nrows. rewrite length_replicate. lia.
  - apply Forall_replicate. rewrite length_replicate. lia.
Qed.

Lemma cell_replicate (h w : Z) (v : A) y x :
  cell (replicate (Z.to_nat h) (replicate (Z.to_nat w) v)) y x =
    if decide (0 ≤ y < h ∧ 0 ≤ x < w) then Some v else None.
Proof.
  rewrite cell_unfold.
  destruct (decide (0 ≤ y)) as [Hy|Hy]; [|by rewrite decide_False by lia].
  destruct (decide (y < h)) as [Hh|Hh].
  - rewrite lookup_replicate_2 by lia. simpl. unfold zlookup.
    destruct (decide (0 ≤ x)) as [Hx|Hx]; [|by rewrite decide_False by lia].
    destruct (decide (x < w)).
    + rewrite lookup_replicate_2 by lia. by rewrite decide_True by lia.
    + rewrite decide_False by lia. apply lookup_replicate_None. lia.
  - rewrite decide_False by lia.
    replace (replicate (Z.to_nat h) (replicate (Z.to_nat w) v) !! Z.to_nat y)
      with (@None (list A)); [done|].
    symmetry. apply lookup_replicate_None. lia.
Qed.

(** Two arrays of one shape with the same cells are equal. *)
Lemma shape_cell_ext a1 a2 h w :
  shape a1 h w → shape a2 h w → (∀ y x, cell a1 y x = cell a2 y x) → a1 = a2.
Proof.
  intros [Hh1 Hw1] [Hh2 Hw2] Hc. unfold nrows in *.
  apply list_eq. intros i.
  destruct (a1 !! i) as [r1|] eqn:E1, (a2 !! i) as [r2|] eqn:E2.
  - f_equal. apply list_eq. intros j.
    specialize (Hc (Z.of_nat i) (Z.of_nat j)).
    rewrite !cell_unfold, !decide_True, !Nat2Z.id, E1, E2 in Hc by lia.
    simpl in Hc. unfold zlookup in Hc.
    by rewrite !decide_True, !Nat2Z.id in Hc by lia.
  - apply lookup_lt_Some in E1. apply lookup_ge_None in E2. lia.
  - apply lookup_lt_Some in E2. apply lookup_ge_None in E1. lia.
  - done.
Qed.

Lemma ncols_shape a h w : shape a h w → 0 < h → ncols a = w.
Proof.
  intros [Hh Hw] Hpos. unfold nrows, ncols in *.
  destruct a as [|row a]; simpl in *; [lia|]. by inversion Hw.
Qed.

End Arrays.

(** ** Python ranges *)

Lemma elem_of_py_range lo hi k : k ∈ py_range lo hi ↔ lo ≤ k < hi.
Proof. unfold py_range. rewrite elem_of_seqZ. lia. Qed.

Lemma py_range_nil lo hi : hi ≤ lo → py_range lo hi = [].
Proof. intros. unfold py_range. apply seqZ_nil. lia. Qed.

Lemma py_range_cons lo hi : lo < hi → py_range lo hi = lo :: py_range (lo + 1) hi.
Proof.
  intros. unfold py_range. rewrite seqZ_cons by lia. f_equal. f_equal; lia.
Qed.

Lemma py_range_snoc lo hi : lo ≤ hi → py_range lo (hi + 1) = py_range lo hi ++ [hi].
Proof.
  intros. unfold py_range.
  replace (hi + 1 - lo) with (Z.of_nat (S (Z.to_nat (hi - lo)))) by lia.
  rewrite seqZ_S. rewrite Z2Nat.id by lia. do 2 f_equal. lia.
Qed.

(** ** The write relation *)

Lemma writes_refl P g : writes P g g.
Proof. split; [done|]. intros; by left. Qed.

Lemma writes_trans P g1 g2 g3 : writes P g1 g2 → writes P g2 g3 → writes P g1 g3.
Proof.
  intros [Hs1 Hc1] [Hs2 Hc2]. split; [by auto|]. intros y x.
  destruct (Hc2 y x) as [->|?]; [apply Hc1 | by right].
Qed.

Lemma writes_weaken (P Q : Z → Prop) g g' :
  (∀ v, P v → Q v) → writes P g g' → writes Q g g'.
Proof.
  intros HPQ [Hs Hc]. split; [done|]. intros y x.
  destruct (Hc y x) as [?|(v & ? & ?)]; [by left | right; eauto].
Qed.

Lemma writes_put (P : Z → Prop) g y x v : P v → writes P g (put g y x v).
Proof.
  intros Hv. split; [intros; by apply shape_put|]. intros y' x'.
  rewrite cell_put. case_decide as E; [|by left].
  injection E as -> ->. destruct (cell g y x); simpl; [right; eauto | by left].
Qed.

Lemma writes_foldl {B} (P : Z → Prop) (f : Grid → B → Grid) l g :
  (∀ g b, writes P g (f g b)) → writes P g (foldl f g l).
Proof.
  intros Hf. revert g. induction l as [|b l IH]; intros g; simpl.
  - apply writes_refl.
  - eapply writes_trans; [apply Hf | apply IH].
Qed.

Lemma writes_shape P g g' h w : writes P g g' → shape g h w → shape g' h w.
Proof. intros [Hs _]. apply Hs. Qed.

(** Tiles of a kind that is never written keep their kind. *)
Lemma writes_keeps (P : Z → Prop) g g' y x v :
  writes P g g' → ¬ P v → cell g' y x = Some v → cell g y x = Some v.
Proof.
  intros [_ Hc] Hv E. destruct (Hc y x) as [<-|(v' & ? & E')]; [done|].
  congruence.
Qed.

(** Tiles of the only kind written are never lost. *)
Lemma writes_only v g g' y x :
  writes (λ u, u = v) g g' → cell g y x = Some v → cell g' y x = Some v.
Proof.
  intros [_ Hc] E. destruct (Hc y x) as [->|(v' & -> & E')]; done.
Qed.

Lemma writes_is_Some P g g' y x h w :
  shape g h w → writes P g g' → is_Some (cell g' y x) ↔ is_Some (cell g y x).
Proof.
  intros Hs Hw. pose proof (writes_shape _ _ _ _ _ Hw Hs) as Hs'.
  split; intros [v E].
  - eapply cell_inside; [done| |]; eapply cell_bounds in E; try done; lia.
  - eapply cell_inside; [done| |]; eapply cell_bounds in E; try done; lia.
Qed.

(** ** Step 9: the top-tile deriver *)

Lemma np_slice_init {A} (l : list A) : np_slice 0 (-1) l = take (length l - 1) l.
Proof.
  unfold np_slice, slice_bound. repeat case_decide; try lia.
  replace (Z.to_nat (0 `min` Z.of_nat (length l))) with 0%nat by lia.
  rewrite drop_0. f_equal. lia.
Qed.

Lemma np_slice_tail {A} (l : list A) : np_slice 1 (Z.of_nat (length l)) l = drop 1 l.
Proof.
  unfold np_slice, slice_bound. repeat case_decide; try lia.
  destruct l as [|a l]; [done|].
  replace (Z.to_nat (1 `min` Z.of_nat (length (a :: l)))) with 1%nat by (simpl; lia).
  apply take_ge. rewrite length_drop. simpl. lia.
Qed.

Lemma top_detection_rows (g : Grid) :
  top_detection g =
    take 1 g ++
    zip_with (zip_with (λ (m : bool) (v : Z), if m then T_TOP else v))
      (zip_with (zip_with (λ a b : Z, bool_decide (a = T_AIR) && bool_decide (b = T_FILL)))
         (take (length g - 1) g) (drop 1 g))
      (drop 1 g).
Proof. unfold top_detection, nrows. by rewrite np_slice_init, np_slice_tail. Qed.

Lemma top_detection_lookup (g : Grid) h w (i j : nat) :
  shape g h w →
  top_detection g !! i ≫= (.!! j) =
    derive (if decide (0 < i)%nat then g !! (i - 1)%nat ≫= (.!! j) else None)
           (g !! i ≫= (.!! j)).
Proof.
  intros [Hh Hw]. rewrite top_detection_rows.
  destruct i as [|i].
  - rewrite decide_False by lia. destruct g as [|r g]; [done|]. simpl.
    unfold derive. by destruct (r !! j).
  - rewrite decide_True by lia.
    replace (S i - 1)%nat with i by lia.
    destruct g as [|r0 g]; [done|].
    change (take 1 (r0 :: g)) with [r0]. change (drop 1 (r0 :: g)) with g.
    replace (length (r0 :: g) - 1)%nat with (length g) by (simpl; lia).
    change (([r0] ++ ?l) !! S i) with (l !! i).
    change ((r0 :: g) !! S i) with (g !! i).
    rewrite !lookup_zip_with.
    destruct (g !! i) as [b|] eqn:Eb; simpl.
    2:{ destruct (take (length g) (r0 :: g) !! i); simpl; done. }
    assert (Ha : is_Some ((r0 :: g) !! i)).
    { apply lookup_lt_is_Some. apply lookup_lt_Some in Eb. simpl. lia. }
    destruct Ha as [a Ea]. rewrite lookup_take_lt by (apply lookup_lt_Some in Eb; lia).
    rewrite Ea. simpl.
    assert (Hlen : length a = length b).
    { rewrite Forall_lookup in Hw. pose proof (Hw _ _ Ea).
      pose proof (Hw (S i) b Eb). lia. }
    rewrite !lookup_zip_with.
    destruct (b !! j) as [v|] eqn:Ev; simpl.
    2:{ destruct (a !! j); simpl; done. }
    destruct (a !! j) as [u|] eqn:Eu; simpl.
    2:{ apply lookup_lt_Some in Ev. apply lookup_ge_None in Eu. lia. }
    f_equal. repeat case_bool_decide; simpl; case_decide; naive_solver.
Qed.

Lemma shape_top_detection (g : Grid) h w : shape g h w → shape (top_detection g) h w.
Proof.
  intros [Hh Hw]. rewrite top_detection_rows. unfold shape, nrows in *.
  destruct g as [|r0 g]; [done|].
  change (take 1 (r0 :: g)) with [r0]. change (drop 1 (r0 :: g)) with g.
  replace (length (r0 :: g) - 1)%nat with (length g) by (simpl; lia).
  inversion Hw as [|?? Hr0 Hg]; subst.
  split.
  - simpl. rewrite !length_zip_with. rewrite length_take. simpl in *. lia.
  - constructor; [done|].
    apply Forall_lookup. intros i row Hrow.
    apply lookup_zip_with_Some in Hrow as (m & b & -> & Hm & Hb).
    apply lookup_zip_with_Some in Hm as (a & b' & -> & Ha & Hb').
    assert (b' = b) as -> by congruence.
    apply lookup_take_Some in Ha as [Ha _].
    rewrite Forall_lookup in Hg.
    rewrite !length_zip_with.
    pose proof (Hg _ _ Hb).
    assert (Z.of_nat (length a) = Z.of_nat (length r0)).
    { destruct i; simpl in Ha; [congruence|]. by apply Hg in Ha. }
    lia.
Qed.

Lemma cell_nat {A} (a : list (list A)) (y x : Z) :
  cell a y x = if decide (0 ≤ y ∧ 0 ≤ x) then a !! Z.to_nat y ≫= (.!! Z.to_nat x) else None.
Proof.
  rewrite cell_unfold. repeat case_decide; try done; try lia.
  - destruct (a !! Z.to_nat y); simpl; [|done]. unfold zlookup. by rewrite decide_True by lia.
  - destruct (a !! Z.to_nat y); simpl; [|done]. unfold zlookup. by rewrite decide_False by lia.
Qed.

Lemma cell_top_detection (g : Grid) h w y x :
  shape g h w →
  cell (top_detection g) y x = derive (cell g (y - 1) x) (cell g y x).
Proof.
  intros Hs. rewrite !cell_nat.
  destruct (decide (0 ≤ y ∧ 0 ≤ x)) as [[Hy Hx]|Hn]; [|done].
  rewrite (top_detection_lookup g h w) by done.
  f_equal. destruct (decide (0 < Z.to_nat y)%nat).
  - rewrite decide_True by lia. do 2 f_equal. lia.
  - by rewrite decide_False by lia.
Qed.

(** ** Outcomes *)

Lemma bind_Ok {A B} (m : Outcome A) (f : A → Outcome B) b :
  m ≫= f = Ok b ↔ ∃ a, m = Ok a ∧ f a = Ok b.
Proof. destruct m; simpl; split; try naive_solver. Qed.

Lemma foldM_inv {A S} (I : S → Prop) (f : S → A → Outcome S) l s s' :
  (∀ s a s', a ∈ l → I s → f s a = Ok s' → I s') →
  I s → foldM f l s = Ok s' → I s'.
Proof.
  revert s. induction l as [|a l IH]; intros s Hf Hs; simpl.
  - by intros [= <-].
  - intros (s1 & H1 & H2)%bind_Ok. eapply IH; [| |done].
    + intros ?????. eapply Hf; [|done..]. by right.
    + eapply Hf; [|done..]. by left.
Qed.

Ltac inv_bind H :=
  repeat match type of H with
  | _ ≫= _ = Ok _ => let a := fresh "a" in let E := fresh "E" in
                     apply bind_Ok in H as (a & E & H)
  | (let '(_, _) := ?p in _) = Ok _ => destruct p; cbv beta iota in H
  end.

(** ** What each stage writes *)

Section Stages.
Context {R : Type} `{!Generator R} `{!Oracles}.
Implicit Types (st : BlueprintGenerator_ (R:=R)) (g : Grid) (r : R).

Lemma writes_set_column_above g y x : writes is_air g (set_column_above g y x T_AIR).
Proof. apply writes_foldl. intros. by apply writes_put. Qed.

Lemma writes_carve_cross w h half clearance x y g :
  writes is_air g (carve_cross w h half clearance x y g).
Proof.
  apply writes_foldl. intros. apply writes_foldl. intros.
  simpl. case_decide; [by apply writes_put | apply writes_refl].
Qed.

Lemma writes_branch_walk n w h half clearance dir bx by_ g r :
  writes is_air g (branch_walk n w h half clearance dir bx by_ g r).1.
Proof.
  revert bx by_ g r. induction n as [|n IH]; intros; simpl; [apply writes_refl|].
  destruct (rng_random r) as [k r']. case_decide; simpl.
  - apply writes_carve_cross.
  - eapply writes_trans; [apply writes_carve_cross | apply IH].
Qed.

Lemma writes_tunnel_step c half clearance x y g r :
  writes is_air g (tunnel_step c half clearance x y g r).1.2.
Proof.
  unfold tunnel_step.
  destruct (rng_random r) as [d r1].
  destruct (if flt_lt (unit_float d) f0_6 then _ else _) as [x1 y1].
  destruct (rng_random r1) as [k2 r2]. destruct (rng_random r2) as [k3 r3].
  destruct (_ && _).
  - destruct (rng_integers 10 30 r3) as [bl r4].
    destruct (rng_choice_of [-1; 1] r4) as [bd r5].
    pose proof (writes_branch_walk (Z.to_nat bl) (width c) (height c) half clearance bd x1
      (if flt_lt (unit_float k2) f0_3 then y1 + 1 else y1)
      (carve_cross (width c) (height c) half clearance x y g) r5) as Hb.
    destruct (branch_walk _ _ _ _ _ _ _ _ _ _) as [g' r']. simpl in *.
    eapply writes_trans; [apply writes_carve_cross | done].
  - simpl. apply writes_carve_cross.
Qed.

Lemma writes_tunnel_walk fuel c half clearance x y g r g' r' :
  tunnel_walk fuel c half clearance x y g r = Ok (g', r') → writes is_air g g'.
Proof.
  revert x y g r. induction fuel as [|fuel IH]; intros x y g r; simpl.
  - case_decide; [done|]. intros [= <- <-]. apply writes_refl.
  - case_decide; [|intros [= <- <-]; apply writes_refl].
    pose proof (writes_tunnel_step c half clearance x y g r) as Hs.
    destruct (tunnel_step c half clearance x y g r) as [[[x1 y1] g1] r1]. simpl in Hs.
    intros Hw. eapply writes_trans; [done | by eapply IH].
Qed.

Lemma writes_carve_tunnel fuel c surface sx min_w clearance g r g' r' :
  _carve_tunnel fuel c surface sx min_w clearance g r = Ok (g', r') → writes is_air g g'.
Proof.
  unfold _carve_tunnel. intros Hrun. inv_bind Hrun. by eapply writes_tunnel_walk.
Qed.

Lemma step3_writes fuel st st' :
  _step3_tunnels fuel st = Ok st' →
  writes is_air (grid st) (grid st') ∧ cfg st' = cfg st ∧ surface_line st' = surface_line st.
Proof.
  unfold _step3_tunnels. case_decide; [done|]. intros Hrun. inv_bind Hrun.
  injection Hrun as <-. simpl. split; [|done].
  eapply (foldM_inv (λ s, writes is_air (grid st) s.1)) in E; [done| |apply writes_refl].
  intros [g1 r1] sx [g2 r2] _ Hg1 Hc. simpl in *. inv_bind Hc.
  eapply writes_trans; [done|]. by eapply writes_carve_tunnel.
Qed.

Lemma writes_carve_cave c surface_max cx cy radii g :
  writes is_air g (carve_cave c surface_max cx cy radii g).
Proof.
  apply writes_foldl. intros. apply writes_foldl. intros.
  destruct (cave_inside _ _ _ _ _ _ _); [by apply writes_put | apply writes_refl].
Qed.

Lemma step4_writes st st' :
  _step4_caves st = Ok st' →
  writes is_air (grid st) (grid st') ∧ cfg st' = cfg st ∧ surface_line st' = surface_line st.
Proof.
  unfold _step4_caves. intros Hrun. inv_bind Hrun.
  injection Hrun as <-. simpl. split; [|done].
  eapply (foldM_inv (λ s, writes is_air (grid st) s.1)) in E1; [done| |apply writes_refl].
  intros [g1 r1] i [g2 r2] _ Hg1 Hc. simpl in *. inv_bind Hc.
  injection Hc as <- <-.
  eapply writes_trans; [done|]. apply writes_carve_cave.
Qed.

Lemma writes_fill_region g region : writes is_fill g (fill_region g region).
Proof. apply writes_foldl. intros g' [rx ry]. by apply writes_put. Qed.

Lemma writes_filter_cell c gv y x gv' :
  filter_cell c gv y x = Ok gv' → writes is_fill gv.1 gv'.1.
Proof.
  unfold filter_cell. destruct (_ && _); [|intros [= <-]; apply writes_refl].
  intros Hrun. inv_bind Hrun.
  case_decide; injection Hrun as <-; simpl; [apply writes_fill_region | apply writes_refl].
Qed.

Lemma writes_filter_scan c gv gv' :
  filter_scan c gv = Ok gv' → writes is_fill gv.1 gv'.1.
Proof.
  unfold filter_scan. intros Hrun.
  eapply (foldM_inv (λ s, writes is_fill gv.1 s.1)) in Hrun; [done| |apply writes_refl].
  intros s y s' _ Hs Hrow.
  eapply (foldM_inv (λ s, writes is_fill gv.1 s.1)) in Hrow; [done| |done].
  intros s1 x s2 _ Hs1 Hc. eapply writes_trans; [done|]. by eapply writes_filter_cell.
Qed.

Lemma step5_writes st st' :
  _step5_filter st = Ok st' →
  writes is_fill (grid st) (grid st') ∧ cfg st' = cfg st ∧ surface_line st' = surface_line st.
Proof.
  unfold _step5_filter. intros Hrun. inv_bind Hrun. injection Hrun as <-. simpl.
  split; [|done]. by apply writes_filter_scan in E0.
Qed.

Lemma writes_carve_l_tunnel c a b g : writes is_air g (_carve_l_tunnel c a b g).
Proof.
  unfold _carve_l_tunnel. destruct a as [ax ay], b as [bx by_]. cbv zeta.
  eapply writes_trans; last first.
  - apply writes_foldl. intros. apply writes_foldl. intros.
    case_decide; [by apply writes_put | apply writes_refl].
  - apply writes_foldl. intros. apply writes_foldl. intros.
    case_decide; [by apply writes_put | apply writes_refl].
Qed.

Lemma writes_connect_region c g r ss region g' r' ss' :
  connect_region c (g, r, ss) region = Ok (g', r', ss') → writes is_air g g'.
Proof.
  unfold connect_region.
  intros Hrun. inv_bind Hrun.
  destruct (closest_pair _ _) as [[[d pa] pb]|]; injection Hrun as <- <- <-.
  - apply writes_carve_l_tunnel.
  - apply writes_refl.
Qed.

Lemma step6_writes st st' :
  _step6_connect st = Ok st' →
  writes is_air (grid st) (grid st') ∧ cfg st' = cfg st ∧ surface_line st' = surface_line st.
Proof.
  unfold _step6_connect. intros Hrun. inv_bind Hrun.
  case_decide; [injection Hrun as <-; split; [apply writes_refl|done]|].
  inv_bind Hrun. injection Hrun as <-. simpl. split; [|done].
  eapply (foldM_inv (λ s, writes is_air (grid st) s.1.1)) in E0; [done| |apply writes_refl].
  intros [[g1 r1] s1] [i region] [[g2 r2] s2] _ Hg1 Hc. simpl in *.
  case_decide; [by injection Hc as <- <- <-|].
  eapply writes_trans; [done|]. by eapply writes_connect_region.
Qed.

Lemma writes_setitem (P : Z → Prop) g y x v g' :
  P v → setitem g y x v = Ok g' → writes P g g'.
Proof.
  intros Hv Hrun. unfold setitem in Hrun. inv_bind Hrun. injection Hrun as <-. by apply writes_put.
Qed.

Lemma writes_carve_shaft w half cx ys g g' :
  carve_shaft w half cx ys g = Ok g' → writes is_air g g'.
Proof.
  unfold carve_shaft. intros Hrun.
  eapply (foldM_inv (λ s, writes is_air g s)) in Hrun; [done| |apply writes_refl].
  intros g1 y g2 _ Hg1 Hrow.
  eapply (foldM_inv (λ s, writes is_air g s)) in Hrow; [done| |done].
  intros g3 dx g4 _ Hg3 Hc. simpl in Hc. eapply writes_trans; [done|].
  case_decide; [by eapply writes_setitem | injection Hc as <-; apply writes_refl].
Qed.

Lemma step7_writes st st' :
  _step7_surface_entry_check st = Ok st' →
  writes is_air (grid st) (grid st') ∧ cfg st' = cfg st ∧ surface_line st' = surface_line st.
Proof.
  unfold _step7_surface_entry_check. intros Hrun. inv_bind Hrun.
  destruct a1; [injection Hrun as <-; split; [apply writes_refl|done]|].
  inv_bind Hrun. injection Hrun as <-. simpl. split; [|done].
  by eapply writes_carve_shaft.
Qed.

Lemma writes_place_goal w h g sx sy : writes is_marker g (place_goal w h g sx sy).
Proof.
  unfold place_goal. destruct (goal_scan w h g sx sy).1 as [[x y]|].
  - apply writes_put. by right.
  - apply writes_refl.
Qed.

Lemma step8_writes st st' :
  _step8_spawn_goal st = Ok st' →
  writes is_marker (grid st) (grid st') ∧ cfg st' = cfg st ∧ surface_line st' = surface_line st.
Proof.
  unfold _step8_spawn_goal. intros Hrun. inv_bind Hrun. injection Hrun as <-. simpl.
  split; [|done]. eapply writes_trans; [|apply writes_place_goal].
  eapply writes_setitem; [|done]. by left.
Qed.

Lemma step2_writes st st' :
  _step2_surface st = Ok st' →
  writes is_air (grid st) (grid st') ∧ cfg st' = cfg st.
Proof.
  unfold _step2_surface. case_decide; [done|]. intros Hrun. inv_bind Hrun.
  injection Hrun as <-. simpl. split; [|done].
  eapply (foldM_inv (λ s, writes is_air (grid st) s.1.1.2)) in E0; [done| |apply writes_refl].
  intros [[[y1 g1] r1] s1] x [[[y2 g2] r2] s2] _ Hg1 Hc. simpl in *. inv_bind Hc.
  injection Hc as <- <- <- <-.
  eapply writes_trans; [done|]. apply writes_set_column_above.
Qed.

End Stages.

Section Pipeline.
Context {R : Type} `{!Generator R} `{!Oracles}.
Implicit Types (st : BlueprintGenerator_ (R:=R)) (g : Grid) (r : R).

Lemma BlueprintGenerator_Ok c st :
  BlueprintGenerator c = Ok st →
  grid_ok st ∧ cfg st = c ∧ rng st = default_rng (seed c) ∧ surface_line st = None.
Proof.
  unfold BlueprintGenerator. repeat case_decide; try done. intros [= <-].
  split; [|done]. apply shape_replicate; simpl; lia.
Qed.

Lemma cell_step1 st y x :
  cell (grid (_step1_init st)) y x = (λ _, T_FILL) <$> cell (grid st) y x.
Proof.
  simpl. rewrite !cell_nat. case_decide; [|done].
  rewrite list_lookup_fmap. destruct (grid st !! Z.to_nat y) as [row|]; simpl; [|done].
  by rewrite list_lookup_fmap.
Qed.

Lemma shape_step1 st h w : shape (grid st) h w → shape (grid (_step1_init st)) h w.
Proof.
  intros [Hh Hw]. split; simpl.
  - unfold nrows in *. by rewrite length_fmap.
  - apply Forall_fmap. eapply Forall_impl; [done|]. intros row Hrow. simpl.
    by rewrite length_fmap.
Qed.

(** The stages of a completed run, with what each leaves behind. *)
Lemma generate_Ok fuel st st' :
  generate fuel st = Ok st' →
  ∃ s2 s3 s4 s5 s6 s7 s8,
    _step2_surface (_step1_init st) = Ok s2 ∧
    _step3_tunnels fuel s2 = Ok s3 ∧
    _step4_caves s3 = Ok s4 ∧
    _step5_filter s4 = Ok s5 ∧
    _step6_connect s5 = Ok s6 ∧
    _step7_surface_entry_check s6 = Ok s7 ∧
    _step8_spawn_goal s7 = Ok s8 ∧
    st' = _step9_top_detection s8.
Proof.
  unfold generate. intros Hrun. inv_bind Hrun. injection Hrun as <-.
  repeat eexists; done.
Qed.

(** Before step 8 the grid holds air and fill only; before step 9 it holds
    no top tile. *)
Lemma generate_before_step8 fuel st s2 s3 s4 s5 s6 s7 :
  grid_ok st →
  _step2_surface (_step1_init st) = Ok s2 →
  _step3_tunnels fuel s2 = Ok s3 →
  _step4_caves s3 = Ok s4 →
  _step5_filter s4 = Ok s5 →
  _step6_connect s5 = Ok s6 →
  _step7_surface_entry_check s6 = Ok s7 →
  grid_ok s7 ∧ cfg s7 = cfg st ∧ surface_line s7 = surface_line s2 ∧
  ∀ y x v, cell (grid s7) y x = Some v → v = T_AIR ∨ v = T_FILL.
Proof.
  intros Hok (W2 & C2)%step2_writes (W3 & C3 & L3)%step3_writes
    (W4 & C4 & L4)%step4_writes (W5 & C5 & L5)%step5_writes
    (W6 & C6 & L6)%step6_writes (W7 & C7 & L7)%step7_writes.
  assert (W : writes (λ v, v = T_AIR ∨ v = T_FILL) (grid (_step1_init st)) (grid s7)).
  { eapply writes_trans; [|eapply writes_weaken; [|exact W7]; unfold is_air; auto].
    eapply writes_trans; [|eapply writes_weaken; [|exact W6]; unfold is_air; auto].
    eapply writes_trans; [|eapply writes_weaken; [|exact W5]; unfold is_fill; auto].
    eapply writes_trans; [|eapply writes_weaken; [|exact W4]; unfold is_air; auto].
    eapply writes_trans; [|eapply writes_weaken; [|exact W3]; unfold is_air; auto].
    eapply writes_weaken; [|exact W2]; unfold is_air; auto. }
  assert (C : cfg s7 = cfg st) by (simpl in *; congruence).
  split_and!.
  - unfold grid_ok. rewrite C. eapply writes_shape; [done|]. by apply shape_step1.
  - done.
  - congruence.
  - intros y x v Hv. destruct W as [_ W]. destruct (W y x) as [E|(v' & Hv' & E)].
    + rewrite E, cell_step1 in Hv. destruct (cell (grid st) y x); naive_solver.
    + naive_solver.
Qed.

End Pipeline.

Lemma derive_Some_air a v : derive a v = Some T_AIR ↔ v = Some T_AIR.
Proof.
  unfold derive. destruct v as [v|]; simpl; [|done].
  case_decide as E; [|done]. destruct E as [_ ->]. done.
Qed.

Lemma derive_Some_top a v :
  derive a v = Some T_TOP ↔ v = Some T_TOP ∨ (a = Some T_AIR ∧ v = Some T_FILL).
Proof.
  unfold derive. destruct v as [v|]; simpl; [|naive_solver].
  case_decide as E.
  - destruct E as [-> ->]. naive_solver.
  - split; [intros [= ->]; by left|]. intros [[= ->]|[-> [= ->]]]; [done|]. by destruct E.
Qed.

Lemma derive_Some_fill a v :
  derive a v = Some T_FILL ↔ v = Some T_FILL ∧ a ≠ Some T_AIR.
Proof.
  unfold derive. destruct v as [v|]; simpl; [|naive_solver].
  case_decide as E.
  - destruct E as [-> ->]. naive_solver.
  - split; [intros [= ->]|intros [[= ->] _]; done]. split; [done|]. intros ->. by destruct E.
Qed.

Lemma derive_unchanged a v :
  ¬ (a = Some T_AIR ∧ v = T_FILL) → derive a (Some v) = Some v.
Proof. intros E. unfold derive. simpl. by rewrite decide_False. Qed.

Lemma derive_derive a0 a v : derive (derive a0 a) (derive a v) = derive a v.
Proof.
  destruct v as [v|]; [|done].
  destruct (decide (a = Some T_AIR ∧ v = T_FILL)) as [[-> ->]|E].
  - replace (derive (Some T_AIR) (Some T_FILL)) with (Some T_TOP) by done.
    apply derive_unchanged. by intros [_ ?].
  - rewrite (derive_unchanged a v E). apply derive_unchanged.
    intros [Ha ->]. apply E. split; [|done]. by apply derive_Some_air in Ha.
Qed.

(** C9.  The Top-Tile Deriver is idempotent: on every grid (a rectangular
    array), applying the pass twice yields the same grid as applying it
    once. *)
Theorem top_detection_idempotent (g : Grid) (h w : Z) :
  shape g h w → top_detection (top_detection g) = top_detection g.
Proof.
  intros Hs. pose proof (shape_top_detection g h w Hs) as Hs1.
  eapply shape_cell_ext; [by apply shape_top_detection | done |].
  intros y x. rewrite (cell_top_detection _ h w) by done.
  rewrite !(cell_top_detection g h w) by done.
  apply derive_derive.
Qed.

Lemma top_detection_idempotent_witness :
  shape [[0; 2]; [2; 0]; [2; 2]] 3 2 ∧
  top_detection (top_detection [[0; 2]; [2; 0]; [2; 2]]) = top_detection [[0; 2]; [2; 0]; [2; 2]].
Proof.
  assert (Hs : shape [[0; 2]; [2; 0]; [2; 2]] 3 2).
  { split; [reflexivity | repeat constructor]. }
  split; [exact Hs | exact (top_detection_idempotent _ 3 2 Hs)].
Defined.

Section Claims.
Context {R : Type} `{!Generator R} `{!Oracles}.
Implicit Types (st : BlueprintGenerator_ (R:=R)) (g : Grid) (r : R).

Lemma run_Ok fuel c st' :
  run fuel c = Ok st' →
  ∃ st, BlueprintGenerator c = Ok st ∧ generate fuel st = Ok st'.
Proof. unfold run. by intros ?%bind_Ok. Qed.

(** C5.  The deriver runs last, on a grid without Top tiles, and
    reclassifies to Top exactly the Fill tiles with Air immediately above:
    a tile of the final grid is Top iff it was such a tile when stage 8
    returned, every other tile is what stage 8 left, and so after the full
    pipeline every Top tile has an Air tile immediately above it, and no
    Fill tile has. *)
Theorem top_tiles_have_air_above (fuel : nat) (c : BlueprintConfig) st' :
  run fuel c = Ok st' →
  ∃ st s2 s3 s4 s5 s6 s7 s8,
    BlueprintGenerator c = Ok st ∧
    _step2_surface (_step1_init st) = Ok s2 ∧
    _step3_tunnels fuel s2 = Ok s3 ∧
    _step4_caves s3 = Ok s4 ∧
    _step5_filter s4 = Ok s5 ∧
    _step6_connect s5 = Ok s6 ∧
    _step7_surface_entry_check s6 = Ok s7 ∧
    _step8_spawn_goal s7 = Ok s8 ∧
    st' = _step9_top_detection s8 ∧
    (∀ y x, cell (grid s8) y x ≠ Some T_TOP) ∧
    top_tiles_derived (grid s8) (grid st') ∧
    tops_under_air (grid st').
Proof.
  intros (st & Hst & Hgen)%run_Ok.
  pose proof (BlueprintGenerator_Ok _ _ Hst) as (Hok & _).
  apply generate_Ok in Hgen as (s2 & s3 & s4 & s5 & s6 & s7 & s8 & H2 & H3 & H4 & H5 & H6 & H7 & H8 & ->).
  destruct (generate_before_step8 _ _ _ _ _ _ _ _ Hok H2 H3 H4 H5 H6 H7) as (Hok7 & C7 & _ & Hv7).
  pose proof (step8_writes _ _ H8) as (W8 & C8 & _).
  assert (Hs8 : shape (grid s8) (height (cfg s7)) (width (cfg s7))) by by eapply writes_shape.
  assert (Hno : ∀ y x, cell (grid s8) y x ≠ Some T_TOP).
  { intros y' x' E. destruct W8 as [_ W8].
    destruct (W8 y' x') as [E'|(v & Hm & E')]; rewrite E' in E.
    - by apply Hv7 in E as [?|?].
    - injection E as ->. by destruct Hm. }
  exists st, s2, s3, s4, s5, s6, s7, s8. split_and!; try done.
  - intros y x. simpl. rewrite (cell_top_detection _ _ _ _ _ Hs8). split.
    + rewrite derive_Some_top. split; [|naive_solver].
      intros [E|[Ha Hf]]; [by apply Hno in E|done].
    + intros Hne. unfold derive in *. destruct (cell (grid s8) y x) as [v|]; [|done].
      simpl in *. case_decide; [done|done].
  - intros y x. simpl. rewrite !(cell_top_detection _ _ _ _ _ Hs8). split.
    + intros [E|[Ha Hf]]%derive_Some_top; [by apply Hno in E|].
      by apply derive_Some_air.
    + intros [Hf Ha]%derive_Some_fill. by rewrite derive_Some_air.
Qed.

(** C10.  The carving stages only open tiles: each of stages 3, 4, 6 and 7
    writes the Air kind only, so a tile that is Air before the stage is Air
    after it, and a tile that the stage changed is Air. *)
Theorem carving_stages_keep_air (fuel : nat) st st' :
  _step3_tunnels fuel st = Ok st' ∨ _step4_caves st = Ok st' ∨
  _step6_connect st = Ok st' ∨ _step7_surface_entry_check st = Ok st' →
  only_opens (grid st) (grid st').
Proof.
  intros Hstage y x.
  assert (W : writes is_air (grid st) (grid st')).
  { destruct Hstage as [Hs|[Hs|[Hs|Hs]]].
    - by apply step3_writes in Hs as [? _].
    - by apply step4_writes in Hs as [? _].
    - by apply step6_writes in Hs as [? _].
    - by apply step7_writes in Hs as [? _]. }
  split.
  - by apply writes_only.
  - intros Hne. destruct W as [_ W]. by destruct (W y x) as [?|(v & -> & ?)].
Qed.

End Claims.

(** ** Goal selection *)

Lemma foldl_fmap {A B C} (f : A → C → A) (k : B → C) (l : list B) (a : A) :
  foldl f a (k <$> l) = foldl (λ a b, f a (k b)) a l.
Proof. revert a. induction l; intros; simpl; auto. Qed.

Lemma goal_scan_flat w h g sx sy :
  goal_scan w h g sx sy =
    foldl (λ best (c : Z * Z), goal_visit g sx sy best c.2 c.1) (None, -1) (scan_order w h).
Proof.
  unfold goal_scan, scan_order. generalize (@None (Z * Z), -1).
  induction (py_range_down h) as [|y ys IH]; intros b; simpl; [done|].
  rewrite foldl_app, foldl_fmap. simpl. apply IH.
Qed.

Lemma elem_of_scan_order w h x y :
  (x, y) ∈ scan_order w h ↔ 0 ≤ x < w ∧ 0 ≤ y < h.
Proof.
  unfold scan_order. rewrite list_elem_of_bind. split.
  - intros (y' & Hx & Hy). apply list_elem_of_fmap in Hx as (x' & [= -> ->] & Hx).
    apply elem_of_py_range in Hx. unfold py_range_down in Hy.
    apply elem_of_reverse, elem_of_seqZ in Hy. lia.
  - intros [Hx Hy]. exists y. split.
    + apply list_elem_of_fmap. exists x. split; [done|]. by apply elem_of_py_range.
    + unfold py_range_down. apply elem_of_reverse, elem_of_seqZ. lia.
Qed.

(** Earlier in the list is earlier in the scan. *)
Lemma scan_order_before w h i j a b :
  scan_order w h !! i = Some a → scan_order w h !! j = Some b →
  (i < j)%nat ↔ scans_before a b.
Proof.
  assert (Hrow : ∀ (y : Z) k, (k < Z.to_nat w)%nat →
    ((λ x, (x, y)) <$> py_range 0 w) !! k = Some (Z.of_nat k, y)).
  { intros y k Hk. rewrite list_lookup_fmap. unfold py_range.
    rewrite lookup_seqZ_lt by lia. simpl. f_equal; f_equal; lia. }
  assert (Hlen : ∀ y : Z, length ((λ x, (x, y)) <$> py_range 0 w) = Z.to_nat w).
  { intros y. rewrite length_fmap. unfold py_range. rewrite length_seqZ. lia. }
  assert (Hidx : ∀ (ys : list Z) i (a : Z * Z),
     (ys ≫= λ y, (λ x, (x, y)) <$> py_range 0 w) !! i = Some a →
     ∃ r, ys !! r = Some a.2 ∧ (i = r * Z.to_nat w + Z.to_nat a.1)%nat ∧ 0 ≤ a.1 < w).
  { induction ys as [|y ys IH]; intros i' a' Hi; simpl in Hi; [done|].
    apply lookup_app_Some in Hi as [Hi|[Hge Hi]].
    - pose proof (lookup_lt_Some _ _ _ Hi) as Hlt. rewrite Hlen in Hlt.
      rewrite Hrow in Hi by done. injection Hi as <-. exists 0%nat. simpl.
      split; [done|]. lia.
    - rewrite Hlen in Hge, Hi. apply IH in Hi as (r & Hr & Hi & Hb).
      exists (S r). split; [done|]. split; [|done]. lia. }
  intros Hi Hj. unfold scan_order in *.
  apply Hidx in Hi as (ri & Hri & -> & Hbi). apply Hidx in Hj as (rj & Hrj & -> & Hbj).
  unfold py_range_down in *.
  apply reverse_lookup_Some in Hri as [Hri Hri']. apply reverse_lookup_Some in Hrj as [Hrj Hrj'].
  apply lookup_seqZ in Hri as [Hri ?]. apply lookup_seqZ in Hrj as [Hrj ?].
  rewrite length_seqZ in *. unfold scans_before.
  nia.
Qed.

Lemma goal_score_nonneg {A} (a : list (list A)) sx sy x y v :
  cell a y x = Some v → 0 ≤ goal_score sx sy x y.
Proof.
  rewrite cell_unfold. case_decide; [|done]. intros _. unfold goal_score. lia.
Qed.

Lemma first_best_snoc g sx sy l best c :
  first_best g sx sy l best →
  first_best g sx sy (l ++ [c]) (goal_visit g sx sy best c.2 c.1).
Proof.
  destruct c as [cx cy]. destruct best as [[b|] bs]; unfold first_best, goal_visit; simpl.
  - intros (i & Hi & Hb & -> & Hmax).
    destruct (decide (cell g cy cx = Some T_AIR)) as [Hc|Hc].
    + case_decide as Hgt; simpl.
      * exists (length l). split_and!; [by apply list_lookup_middle|done|done|].
        intros j c' Hj Hc'. apply lookup_app_Some in Hj as [Hj|[Hge Hj]].
        -- destruct (Hmax j c' Hj Hc'). split; lia.
        -- apply list_lookup_singleton_Some in Hj as [_ <-]. simpl. split; lia.
      * exists i. split_and!; [by apply lookup_app_l_Some|done|done|].
        intros j c' Hj Hc'. apply lookup_app_Some in Hj as [Hj|[Hge Hj]].
        -- by apply Hmax.
        -- apply list_lookup_singleton_Some in Hj as [Hj <-].
           apply lookup_lt_Some in Hi. simpl. split; lia.
    + simpl. exists i. split_and!; [by apply lookup_app_l_Some|done|done|].
      intros j c' Hj Hc'. apply lookup_app_Some in Hj as [Hj|[Hge Hj]].
      * by apply Hmax.
      * apply list_lookup_singleton_Some in Hj as [Hj <-]. done.
  - intros [-> Hnone].
    destruct (decide (cell g cy cx = Some T_AIR)) as [Hc|Hc].
    + pose proof (goal_score_nonneg _ sx sy _ _ _ Hc).
      rewrite decide_True by lia. simpl.
      exists (length l). split_and!; [by apply list_lookup_middle|done|done|].
      intros j c' Hj Hc'. apply lookup_app_Some in Hj as [Hj|[Hge Hj]].
      * destruct (Hnone c'); [by eapply list_elem_of_lookup_2|done].
      * apply list_lookup_singleton_Some in Hj as [Hj <-]. simpl. split; lia.
    + simpl. split; [done|]. intros c' [Hc'|Hc']%elem_of_app; [by apply Hnone|].
      apply list_elem_of_singleton in Hc' as ->. done.
Qed.

Lemma first_best_foldl g sx sy l1 l2 best :
  first_best g sx sy l1 best →
  first_best g sx sy (l1 ++ l2)
    (foldl (λ best (c : Z * Z), goal_visit g sx sy best c.2 c.1) best l2).
Proof.
  revert l1 best. induction l2 as [|c l2 IH]; intros l1 best Hb; simpl.
  - by rewrite app_nil_r.
  - rewrite cons_middle, app_assoc. apply IH. by apply first_best_snoc.
Qed.

Lemma goal_scan_first_best w h g sx sy :
  first_best g sx sy (scan_order w h) (goal_scan w h g sx sy).
Proof.
  rewrite goal_scan_flat. apply (first_best_foldl g sx sy []).
  split; [done|]. by intros c ?%elem_of_nil.
Qed.

(** C3, as the code has it.  Among the Air tiles at the greatest score
    [depth * 2 + Manhattan distance from the spawn], the Goal is the one the
    bottom-to-top, row-major scan finds first: the update is guarded by a
    strict [score > best_goal_score]. *)
Theorem goal_first_found_wins (w h : Z) (g : Grid) (spawn_x spawn_y : Z) :
  shape g h w → first_found_wins w h g spawn_x spawn_y.
Proof.
  intros Hs x y Hair Hmax.
  pose proof (goal_scan_first_best w h g spawn_x spawn_y) as Hb.
  assert (Hin : ∀ x y, cell g y x = Some T_AIR → (x, y) ∈ scan_order w h).
  { intros x' y' E. apply elem_of_scan_order. eapply cell_bounds in E; [|done]. lia. }
  unfold place_goal, first_best in *.
  destruct (goal_scan w h g spawn_x spawn_y).1 as [[bx by_]|].
  - destruct Hb as (i & Hi & Hbair & _ & Hbmax). simpl in *.
    pose proof (Hin _ _ Hair) as Hj. apply list_elem_of_lookup in Hj as [j Hj].
    destruct (Hmax bx by_ Hbair) as [Hle Hlt].
    destruct (Hbmax j (x, y) Hj Hair) as [Hle' Hlt']. simpl in *.
    assert (i = j) as <-.
    { destruct (Nat.lt_trichotomy i j) as [Hij|[?|Hji]]; [|done|].
      - apply (scan_order_before w h i j (bx, by_) (x, y) Hi Hj) in Hij.
        apply Hlt in Hij. lia.
      - specialize (Hlt' Hji). lia. }
    assert (bx = x ∧ by_ = y) as [-> ->] by (split; congruence).
    rewrite cell_put_eq, Hair. done.
  - destruct Hb as [_ Hnone]. destruct (Hnone (x, y)); [by apply Hin|done].
Qed.

Lemma goal_first_found_wins_witness :
  shape [[0; 9; 0]] 1 3 ∧ first_found_wins 3 1 [[0; 9; 0]] 1 0.
Proof.
  assert (Hs : shape [[0; 9; 0]] 1 3) by (split; [reflexivity | repeat constructor]).
  split; [exact Hs | exact (goal_first_found_wins 3 1 _ 1 0 Hs)].
Defined.

(** C3, as the specification has it, fails: with two Air tiles at the same
    score to the left and to the right of the spawn, the scan finds the
    right one last and the Goal goes to the left one. *)
Lemma goal_last_found_loses : ¬ last_found_wins 3 1 [[0; 9; 0]] 1 0.
Proof.
  intros Hlast. specialize (Hlast 2 0 eq_refl).
  assert (Hgoal : cell (place_goal 3 1 [[0; 9; 0]] 1 0) 0 2 = Some T_AIR) by reflexivity.
  rewrite Hlast in Hgoal; [done|].
  intros x' y' Hair.
  assert (Hs : shape [[0; 9; 0]] 1 3) by (split; [reflexivity | repeat constructor]).
  pose proof (cell_bounds _ _ _ _ _ _ Hs Hair) as [Hy Hx].
  assert (y' = 0) as -> by lia.
  assert (x' = 0 ∨ x' = 1 ∨ x' = 2) as [-> | [-> | ->]] by lia.
  - split; [by vm_compute|]. unfold scans_before. simpl. lia.
  - done.
  - split; [by vm_compute|]. unfold scans_before. simpl. lia.
Qed.

(** ** NumPy indices *)

Lemma np_index_Ok i n j :
  np_index i n = Ok j ↔ (0 ≤ i < n ∧ j = i) ∨ (- n ≤ i < 0 ∧ j = i + n).
Proof.
  unfold np_index. repeat case_decide; split; try naive_solver lia.
Qed.

Lemma np_index_bound i n j : np_index i n = Ok j → 0 ≤ j < n.
Proof. rewrite np_index_Ok. lia. Qed.

Lemma getitem1_Ok {A} (l : list A) i v :
  getitem1 l i = Ok v ↔
    ∃ j, np_index i (Z.of_nat (length l)) = Ok j ∧ zlookup l j = Some v.
Proof.
  unfold getitem1. split.
  - intros (j & Hj & Hv)%bind_Ok. exists j. split; [done|].
    destruct (zlookup l j); by simplify_eq.
  - intros (j & Hj & Hv). apply bind_Ok. exists j. by rewrite Hv.
Qed.

Lemma setitem_Ok (g : Grid) y x v g' h w :
  shape g h w → setitem g y x v = Ok g' →
  ∃ y' x', np_index y h = Ok y' ∧ np_index x w = Ok x' ∧ g' = put g y' x' v.
Proof.
  intros Hs Hset. unfold setitem in Hset. inv_bind Hset. injection Hset as <-.
  pose proof Hs as [Hh Hw]. rewrite Hh in *.
  pose proof (np_index_bound _ _ _ E) as Hb.
  rewrite (ncols_shape g h w) in E0 by (done || lia). eauto.
Qed.

(** ** Where the Spawn tile lands *)

Section Spawn.
Context {R : Type} `{!Generator R} `{!Oracles}.
Implicit Types (st : BlueprintGenerator_ (R:=R)) (g : Grid) (r : R).

Lemma place_goal_keeps w h g sx sy y x v :
  v ≠ T_AIR → v ≠ T_GOAL →
  cell (place_goal w h g sx sy) y x = Some v ↔ cell g y x = Some v.
Proof.
  intros Hair Hgoal. unfold place_goal.
  pose proof (goal_scan_first_best w h g sx sy) as Hb. unfold first_best in Hb.
  destruct (goal_scan w h g sx sy).1 as [[bx by_]|]; [|done].
  destruct Hb as (_ & _ & Hbair & _). simpl in Hbair.
  rewrite cell_put. case_decide as E; [|done].
  injection E as -> ->. rewrite Hbair. simpl. split; congruence.
Qed.

Lemma step8_spawn st st' s :
  grid_ok st → surface_line st = Some s → _step8_spawn_goal st = Ok st' →
  ∃ spawn_x surf y x,
    spawn_column (width (cfg st)) s = Ok spawn_x ∧
    getitem1 s spawn_x = Ok surf ∧
    np_index (surf - 1) (height (cfg st)) = Ok y ∧
    np_index spawn_x (width (cfg st)) = Ok x ∧
    grid st' = place_goal (width (cfg st)) (height (cfg st))
                 (put (grid st) y x T_SPAWN) spawn_x (surf - 1) ∧
    cell (grid st') y x = Some T_SPAWN.
Proof.
  intros Hok Hs Hrun. unfold _step8_spawn_goal, the_surface_line in Hrun.
  rewrite Hs in Hrun. inv_bind Hrun. injection E as <-. injection Hrun as <-.
  eapply setitem_Ok in E2 as (y & x & Hy & Hx & ->); [|done].
  exists a0, a1, y, x. split_and!; try done.
  simpl. apply place_goal_keeps; [done..|].
  rewrite cell_put_eq.
  destruct (cell_inside (grid st) _ _ y x Hok) as [v ->]; [by eapply np_index_bound..|done].
Qed.

Lemma cell_top_detection_keeps g h w y x v :
  shape g h w → v ≠ T_TOP → v ≠ T_FILL →
  cell (top_detection g) y x = Some v ↔ cell g y x = Some v.
Proof.
  intros Hs Htop Hfill. rewrite (cell_top_detection g h w) by done.
  unfold derive. destruct (cell g y x) as [u|]; simpl; [|done].
  case_decide as E.
  - destruct E as [_ ->]. split; congruence.
  - done.
Qed.

(** C4 at its failing input.  On a surface line of height 0 the Spawn store
    is aimed at row -1; it is neither skipped nor a fault: NumPy wraps the
    index and the tile lands on the bottom row. *)
Theorem spawn_write_wraps st st' (s : list Z) :
  grid_ok st → surface_line st = Some s → Forall (λ v, v = 0) s →
  _step8_spawn_goal st = Ok st' →
  ∃ x, cell (grid st') (height (cfg st) - 1) x = Some T_SPAWN.
Proof.
  intros Hok Hs Hzero Hrun.
  destruct (step8_spawn st st' s Hok Hs Hrun)
    as (spawn_x & surf & y & x & _ & Hsurf & Hy & _ & _ & Hcell).
  apply getitem1_Ok in Hsurf as (j & _ & Hj).
  apply zlookup_Some in Hj as [_ Hj].
  rewrite Forall_lookup in Hzero. apply Hzero in Hj as ->.
  apply np_index_Ok in Hy as [[? ->]|[? ->]]; [lia|].
  exists x. by replace (height (cfg st) - 1) with (0 - 1 + height (cfg st)) by lia.
Qed.

End Spawn.

(** A fold that succeeds keeps an invariant of the elements done so far. *)
Lemma foldM_inv_from {A S} (I : list A → S → Prop) (f : S → A → Outcome S)
    (seen l : list A) s s' :
  (∀ l1 a l2 s s', seen ++ l = l1 ++ a :: l2 → I l1 s → f s a = Ok s' → I (l1 ++ [a]) s') →
  I seen s → foldM f l s = Ok s' → I (seen ++ l) s'.
Proof.
  revert s seen. induction l as [|a l IH]; intros s seen Hf Hs; simpl.
  - intros [= <-]. by rewrite app_nil_r.
  - intros (s1 & H1 & H2)%bind_Ok.
    rewrite cons_middle, app_assoc. eapply IH; [| |done].
    + intros l1 b l2 t t' E. apply (Hf l1 b l2). by rewrite <- E, <- app_assoc.
    + by eapply (Hf seen a l).
Qed.

Lemma foldM_inv_prefix {A S} (I : list A → S → Prop) (f : S → A → Outcome S) l s s' :
  (∀ l1 a l2 s s', l = l1 ++ a :: l2 → I l1 s → f s a = Ok s' → I (l1 ++ [a]) s') →
  I [] s → foldM f l s = Ok s' → I l s'.
Proof. apply (foldM_inv_from I f [] l). Qed.

Lemma slice_bound_range i n : 0 ≤ n → 0 ≤ slice_bound i n ≤ n.
Proof. unfold slice_bound. case_decide; lia. Qed.

Lemma slice_bound_nonneg i n : 0 ≤ i → 0 ≤ n → slice_bound i n = Z.min i n.
Proof. intros. unfold slice_bound. by rewrite decide_False by lia. Qed.

Lemma cell_put_rows {A} (a : list (list A)) rows x v y' x' :
  cell (foldl (λ a r, put a r x v) a rows) y' x' =
    if decide (x' = x ∧ y' ∈ rows) then (λ _, v) <$> cell a y' x' else cell a y' x'.
Proof.
  revert a. induction rows as [|r rows IH]; intros a; simpl.
  - rewrite decide_False; [done|]. intros [_ ?%elem_of_nil]. done.
  - rewrite IH. destruct (decide (x' = x ∧ y' ∈ rows)) as [[-> Hin]|Hn].
    + rewrite (decide_True (P := x = x ∧ y' ∈ r :: rows)) by (split; [done|by right]).
      rewrite cell_put. case_decide as E; [|done].
      injection E as ->. by destruct (cell a r x).
    + rewrite cell_put. destruct (decide ((y', x') = (r, x))) as [[= -> ->]|Hne].
      * by rewrite decide_True by (split; [done|by left]).
      * rewrite decide_False; [done|]. intros [-> [->|?]%elem_of_cons]; tauto.
Qed.

Lemma cell_set_column_above (g : Grid) h w v x y' x' :
  shape g h w →
  cell (set_column_above g v x T_AIR) y' x' =
    if decide (x' = x ∧ 0 ≤ y' < slice_bound v h) then (λ _, T_AIR) <$> cell g y' x'
    else cell g y' x'.
Proof.
  intros [Hh _]. unfold set_column_above. rewrite cell_put_rows, Hh.
  destruct (decide (x' = x ∧ 0 ≤ y' < slice_bound v h)) as [[-> ?]|Hn].
  - rewrite decide_True; [done|]. split; [done|]. by apply elem_of_py_range.
  - rewrite decide_False; [done|]. intros [-> ?%elem_of_py_range]. tauto.
Qed.

(** ** Step 2: the surface line and the sky *)

Section Surface.
Context {R : Type} `{!Generator R} `{!Oracles}.
Implicit Types (st : BlueprintGenerator_ (R:=R)) (g : Grid) (r : R).

Lemma step2_spec st st' :
  grid_ok st → _step2_surface st = Ok st' →
  surface_y_min (cfg st) ≤ surface_y_max (cfg st) ∧
  ∃ s, surface_line st' = Some s ∧
       Z.of_nat (length s) = width (cfg st) ∧
       (∀ x v, zlookup s x = Some v →
          surface_y_min (cfg st) ≤ v ≤ surface_y_max (cfg st)) ∧
       (∀ y x, sky s (height (cfg st)) x y →
          cell (grid st') y x = (λ _, T_AIR) <$> cell (grid st) y x) ∧
       (∀ y x, ¬ sky s (height (cfg st)) x y → cell (grid st') y x = cell (grid st) y x).
Proof.
  intros Hok. unfold _step2_surface. case_decide as Hw; [done|]. intros Hrun.
  inv_bind Hrun. injection Hrun as <-. simpl.
  unfold draw_integers in E. case_decide as Hmm; [|done]. split; [lia|].
  set (h := height (cfg st)) in *. set (w := width (cfg st)) in *.
  set (y_min := surface_y_min (cfg st)) in *. set (y_max := surface_y_max (cfg st)) in *.
  eapply (foldM_inv_prefix (λ done (s : Z * Grid * R * list Z),
     shape s.1.1.2 h w ∧ Z.of_nat (length s.2) = w ∧
     (∀ x v, x ∈ done → zlookup s.2 x = Some v → y_min ≤ v ≤ y_max) ∧
     (∀ y x, x ∈ done → sky s.2 h x y →
        cell s.1.1.2 y x = (λ _, T_AIR) <$> cell (grid st) y x) ∧
     (∀ y x, ¬ (x ∈ done ∧ sky s.2 h x y) → cell s.1.1.2 y x = cell (grid st) y x)))
    in E0.
  - simpl in E0. destruct E0 as (_ & Hlen & Hrange & Hsky & Hground).
    eexists. split; [done|]. split; [done|].
    assert (Hall : ∀ x v, zlookup l x = Some v → x ∈ py_range 0 w).
    { intros x v Hx%zlookup_bound. apply elem_of_py_range. lia. }
    split_and!.
    + intros x v Hx. eapply Hrange; [by eapply Hall|done].
    + intros y x Hs. apply Hsky; [|done]. destruct Hs as (v & Hv & _). by eapply Hall.
    + intros y x Hs. apply Hground. tauto.
  - intros done x rest [[[y g] rr] s] [[[y' g'] rr'] s'] Hl (Hs & Hlen & Hrange & Hsky & Hground) Hstep.
    simpl in *. inv_bind Hstep. injection Hstep as <- <- <- <-.
    match goal with |- context [zinsert x ?v s] => set (ynew := v) in * end.
    assert (Hynew : y_min ≤ ynew ≤ y_max) by (unfold ynew, clip; lia).
    clearbody ynew.
    assert (Hx : 0 ≤ x < w).
    { apply (elem_of_py_range 0 w). rewrite Hl. apply elem_of_app. right. by left. }
    assert (Hnew : x ∉ done).
    { pose proof (NoDup_seqZ 0 (w - 0)) as Hnd. fold (py_range 0 w) in Hnd.
      rewrite Hl in Hnd. apply NoDup_app in Hnd as (_ & Hnd & _).
      intros Hin. apply (Hnd _ Hin). by left. }
    assert (Hlook : ∀ x', zlookup (zinsert x ynew s) x' =
       if decide (x' = x) then Some ynew else zlookup s x').
    { intros x'. case_decide as Hxx.
      - subst x'. rewrite zlookup_zinsert_eq.
        destruct (zlookup_lt s x) as [v ->]; [lia|done].
      - by rewrite zlookup_zinsert_ne. }
    assert (Hskyeq : ∀ x' y', x' ≠ x →
      sky (zinsert x ynew s) h x' y' ↔ sky s h x' y').
    { intros x' y' Hne. unfold sky. by rewrite Hlook, decide_False. }
    split_and!.
    + by apply writes_shape with (P := is_air) (g := g); [apply writes_set_column_above|].
    + by rewrite length_zinsert.
    + intros x' v [Hin|Hin]%elem_of_app.
      * rewrite Hlook, decide_False by (intros ->; done). by apply Hrange.
      * apply list_elem_of_singleton in Hin as ->. rewrite Hlook, decide_True by done.
        intros [= <-]. done.
    + intros y' x' Hin Hsk. rewrite (cell_set_column_above g h w) by done.
      apply elem_of_app in Hin as [Hin|Hin].
      * assert (x' ≠ x) by (intros ->; done).
        rewrite decide_False by tauto. apply Hsky; [done|]. by apply Hskyeq.
      * apply list_elem_of_singleton in Hin as ->.
        destruct Hsk as (v & Hv & Hy). rewrite Hlook, decide_True in Hv by done.
        injection Hv as <-. rewrite decide_True by done.
        rewrite Hground; [done|]. tauto.
    + intros y' x' Hn. rewrite (cell_set_column_above g h w) by done.
      destruct (decide (x' = x)) as [->|Hne].
      * rewrite decide_False.
        -- apply Hground. tauto.
        -- intros [_ Hy]. apply Hn. split; [apply elem_of_app; right; by left|].
           exists ynew. by rewrite Hlook, decide_True.
      * rewrite decide_False by tauto. apply Hground.
        intros [Hin Hsk]. apply Hn. split; [apply elem_of_app; by left|]. by apply Hskyeq.
  - simpl. split_and!.
    + done.
    + rewrite length_replicate. lia.
    + by intros x v ?%elem_of_nil.
    + by intros y x ?%elem_of_nil.
    + done.
Qed.

End Surface.

(** ** Regions of air *)

Lemma neighbours_sym x y x' y' : (x', y') ∈ neighbours x y → (x, y) ∈ neighbours x' y'.
Proof.
  unfold neighbours. rewrite !elem_of_cons, !elem_of_nil.
  intros [[= -> ->]|[[= -> ->]|[[= -> ->]|[[= -> ->]|[]]]]].
  - right; left. f_equal; lia.
  - left. f_equal; lia.
  - do 3 right; left. f_equal; lia.
  - do 2 right; left. f_equal; lia.
Qed.

Lemma air_step_sym g a b : air_step g a b → air_step g b a.
Proof.
  destruct a as [ax ay], b as [bx by_]. intros (Ha & Hb & Hn).
  split_and!; [done..|]. by apply neighbours_sym.
Qed.

Lemma connected_sym g a b : connected g a b → connected g b a.
Proof.
  induction 1 as [|a b c Hab _ IH]; [apply rtc_refl|].
  eapply rtc_r; [done|]. by apply air_step_sym.
Qed.

Lemma sky_dec s h x y : Decision (sky s h x y).
Proof.
  unfold sky. destruct (zlookup s x) as [v|].
  - destruct (decide (0 ≤ y < slice_bound v h)); [left; eauto|].
    right. by intros (v' & [= <-] & ?).
  - right. by intros (v' & [=] & ?).
Qed.

Section SurfaceClaims.
Context {R : Type} `{!Generator R} `{!Oracles}.
Implicit Types (st : BlueprintGenerator_ (R:=R)) (g : Grid) (r : R).

Lemma grid_ok_step1 st : grid_ok st → grid_ok (_step1_init st).
Proof. intros Hok. by apply shape_step1. Qed.

(** After steps 1 and 2 the air tiles are exactly the sky. *)
Lemma step2_air st st' :
  grid_ok st → _step2_surface (_step1_init st) = Ok st' →
  ∃ s, surface_line st' = Some s ∧
       Z.of_nat (length s) = width (cfg st) ∧
       (∀ x v, zlookup s x = Some v →
          surface_y_min (cfg st) ≤ v ≤ surface_y_max (cfg st)) ∧
       ∀ x y, is_air_at (grid st') (x, y) ↔ sky s (height (cfg st)) x y.
Proof.
  intros Hok Hrun.
  destruct (step2_spec _ _ (grid_ok_step1 _ Hok) Hrun) as (_ & s & Hs & Hlen & Hrange & Hsky & Hground).
  exists s. split_and!; [done..|]. intros x y. unfold is_air_at. simpl.
  destruct (sky_dec s (height (cfg st)) x y) as [Hin|Hout].
  - split; [done|]. intros _. rewrite Hsky by done.
    destruct Hin as (v & Hv & Hy). apply zlookup_bound in Hv.
    destruct (cell_inside (grid (_step1_init st)) _ _ y x (grid_ok_step1 _ Hok)) as [u ->];
      simpl in *; [|lia|done].
    pose proof (slice_bound_range v (height (cfg st))).
    destruct Hok as [Hh _]. unfold nrows in Hh. lia.
  - split; [|done]. rewrite Hground by done. rewrite cell_step1.
    by destruct (cell (grid st) y x).
Qed.

(** C8, as the code has it.  When the least surface height is at least 1
    (and the grid is not empty), after the Surface Carver every column has a
    height in [surface_y_min, surface_y_max] and the air tiles form exactly
    one 4-connected region: every column of sky reaches row 0, which is all
    air.  The step bound plays no part. *)
Theorem surface_carver_one_sky st st' :
  grid_ok st →
  1 ≤ surface_y_min (cfg st) → 0 < width (cfg st) → 0 < height (cfg st) →
  _step2_surface (_step1_init st) = Ok st' →
  heights_in_bounds st' ∧ one_air_region (grid st').
Proof.
  intros Hok Hmin Hw Hh Hrun.
  destruct (step2_air st st' Hok Hrun) as (s & Hs & Hlen & Hrange & Hair).
  assert (Hcfg : cfg st' = cfg st) by (by apply step2_writes in Hrun as [_ ?]).
  assert (Hcol : ∀ x, 0 ≤ x < width (cfg st) →
            ∃ v, zlookup s x = Some v ∧
                 surface_y_min (cfg st) ≤ v ≤ surface_y_max (cfg st)).
  { intros x Hx. destruct (zlookup_lt s x) as [v Hv]; [lia|]. eauto. }
  split.
  { exists s. rewrite Hcfg. done. }
  assert (Htop : ∀ x, 0 ≤ x < width (cfg st) → is_air_at (grid st') (x, 0)).
  { intros x Hx. apply Hair. destruct (Hcol x Hx) as (v & Hv & Hb).
    exists v. split; [done|]. rewrite slice_bound_nonneg by lia. lia. }
  assert (Hdown : ∀ x y y', is_air_at (grid st') (x, y) → 0 ≤ y' ≤ y →
            is_air_at (grid st') (x, y')).
  { intros x y y' (v & Hv & Hy)%Hair Hy'. apply Hair. exists v. split; [done|lia]. }
  assert (Hup : ∀ n x y, Z.of_nat n = y → is_air_at (grid st') (x, y) →
            connected (grid st') (x, y) (x, 0)).
  { induction n as [|n IH]; intros x y Hn Ha.
    - replace y with 0 by lia. apply rtc_refl.
    - eapply rtc_l; [|apply (IH x (y - 1)); [lia|apply (Hdown x y); [done|lia]]].
      split_and!; [done|apply (Hdown x y); [done|lia]|].
      simpl. unfold neighbours. do 2 right. by left. }
  assert (Hleft : ∀ n x, Z.of_nat n = x → x < width (cfg st) →
            connected (grid st') (x, 0) (0, 0)).
  { induction n as [|n IH]; intros x Hn Hx.
    - replace x with 0 by lia. apply rtc_refl.
    - eapply rtc_l; [|apply (IH (x - 1)); lia].
      split_and!; [apply Htop; lia|apply Htop; lia|].
      simpl. unfold neighbours. by left. }
  assert (Hroot : ∀ a, is_air_at (grid st') a → connected (grid st') a (0, 0)).
  { intros [x y] Ha. pose proof Ha as (v & Hv & Hy)%Hair.
    apply zlookup_bound in Hv.
    etrans; [apply (Hup (Z.to_nat y)); [lia|done]|].
    apply (Hleft (Z.to_nat x)); lia. }
  split.
  - exists (0, 0). apply Htop. lia.
  - intros a b Ha Hb. etrans; [by apply Hroot|]. by apply connected_sym, Hroot.
Qed.

End SurfaceClaims.

Section SpawnClaims.
Context {R : Type} `{!Generator R} `{!Oracles}.
Implicit Types (st : BlueprintGenerator_ (R:=R)) (g : Grid) (r : R).

(** A completed run leaves exactly one Spawn tile: in the column [x] that
    step 8 chose, on the row that NumPy makes of [surface_line[x] - 1]. *)
Lemma run_spawn_unique fuel c st' :
  run fuel c = Ok st' →
  ∃ s x surf y,
    surface_line st' = Some s ∧ zlookup s x = Some surf ∧
    surface_y_min c ≤ surf ≤ surface_y_max c ∧
    np_index (surf - 1) (height c) = Ok y ∧
    cfg st' = c ∧
    ∀ y' x', cell (grid st') y' x' = Some T_SPAWN ↔ y' = y ∧ x' = x.
Proof.
  intros (st & Hst & Hgen)%run_Ok.
  apply BlueprintGenerator_Ok in Hst as (Hok & Hc & _).
  apply generate_Ok in Hgen
    as (s2 & s3 & s4 & s5 & s6 & s7 & s8 & H2 & H3 & H4 & H5 & H6 & H7 & H8 & ->).
  destruct (generate_before_step8 _ _ _ _ _ _ _ _ Hok H2 H3 H4 H5 H6 H7)
    as (Hok7 & C7 & L7 & Hv7).
  destruct (step2_spec _ _ (grid_ok_step1 _ Hok) H2) as (_ & s & Hs & Hlen & Hrange & _).
  simpl in Hlen, Hrange. rewrite Hs in L7.
  destruct (step8_spawn s7 s8 s Hok7 L7 H8)
    as (spawn_x & surf & y & x & _ & Hsurf & Hy & Hx & Hg8 & Hcell).
  pose proof (step8_writes _ _ H8) as (W8 & C8 & L8).
  apply getitem1_Ok in Hsurf as (j & Hj & Hsurf).
  rewrite C7, Hc in *. rewrite Hlen in Hj. assert (j = x) as -> by congruence.
  exists s, x, surf, y.
  split; [simpl; by rewrite L8|]. split; [done|]. split; [by eapply Hrange|]. split; [done|].
  split; [done|].
  intros y' x'. simpl.
  assert (Hs8 : shape (grid s8) (height c) (width c)).
  { eapply writes_shape; [done|]. unfold grid_ok in Hok7. by rewrite C7 in Hok7. }
  rewrite (cell_top_detection_keeps _ _ _ _ _ _ Hs8) by done.
  rewrite Hg8, place_goal_keeps by done. rewrite cell_put.
  case_decide as E.
  - injection E as -> ->. split; [done|]. intros _.
    rewrite Hg8, place_goal_keeps in Hcell by done. by rewrite cell_put_eq in Hcell.
  - split; [|by intros [-> ->]]. by intros [?|?]%Hv7.
Qed.

(** C6 at its failing input.  A Config with [surface_y_min = surface_y_max
    = 0] puts every column at height 0; the one Spawn tile of a completed
    run is then on the bottom row, [height] rows away from the row
    [surface_height - 1 = -1] it was aimed at. *)
Theorem spawn_far_from_surface fuel c st' :
  surface_y_min c = 0 → surface_y_max c = 0 → run fuel c = Ok st' →
  spawn_on_bottom_row st'.
Proof.
  intros Hmin Hmax (s & x & surf & y & Hs & Hx & Hsurf & Hy & Hc & Honly)%run_spawn_unique.
  assert (surf = 0) as -> by lia.
  apply np_index_Ok in Hy as [[? ->]|[? ->]]; [lia|].
  exists s, x. split_and!; [done..|]. intros y' x'. rewrite Honly, Hc. lia.
Qed.

(** Where the specification's Spawn placement does hold: with surface
    heights between 1 and [height] the row is [surface_height - 1]. *)
Lemma spawn_on_surface fuel c st' :
  1 ≤ surface_y_min c → surface_y_max c ≤ height c → run fuel c = Ok st' →
  ∃ s x surf, surface_line st' = Some s ∧ zlookup s x = Some surf ∧
         ∀ y' x', cell (grid st') y' x' = Some T_SPAWN ↔ y' = surf - 1 ∧ x' = x.
Proof.
  intros Hmin Hmax (s & x & surf & y & Hs & Hx & Hsurf & Hy & _ & Honly)%run_spawn_unique.
  apply np_index_Ok in Hy as [[? ->]|[? ->]]; [|lia].
  exists s, x, surf. split_and!; done.
Qed.

End SpawnClaims.

(** ** Flood fill *)

Lemma length_scan_order w h : length (scan_order w h) = (Z.to_nat h * Z.to_nat w)%nat.
Proof.
  unfold scan_order, py_range_down.
  assert (Hl : length (reverse (seqZ 0 h)) = Z.to_nat h)
    by (by rewrite length_reverse, length_seqZ).
  revert Hl. generalize (reverse (seqZ 0 h)) as ys. generalize (Z.to_nat h) as n.
  intros n ys. revert n. induction ys as [|y ys IH]; intros n Hn.
  - simpl in *. by subst.
  - rewrite bind_cons, length_app, length_fmap. unfold py_range at 1.
    rewrite length_seqZ. simpl in Hn.
    destruct n as [|n]; [done|]. rewrite (IH n) by lia. lia.
Qed.

(** Distinct tiles inside the grid are at most [w * h]. *)
Lemma NoDup_inside_length w h (l : list (Z * Z)) :
  NoDup l → (∀ c, c ∈ l → 0 ≤ c.1 < w ∧ 0 ≤ c.2 < h) →
  (length l ≤ Z.to_nat (w * h))%nat.
Proof.
  intros Hnd Hin.
  assert (Hsub : l ⊆+ scan_order w h).
  { apply NoDup_submseteq; [done|]. intros [x y] Hc. apply elem_of_scan_order.
    apply (Hin (x, y) Hc). }
  apply submseteq_length in Hsub. rewrite length_scan_order in Hsub.
  destruct l as [|c l]; [simpl; lia|].
  destruct (Hin c) as [? ?]; [by left|]. nia.
Qed.

Lemma is_air_at_inside (g : Grid) h w c :
  shape g h w → is_air_at g c → 0 ≤ c.1 < w ∧ 0 ≤ c.2 < h.
Proof. intros Hs Ha. eapply cell_bounds in Ha; [|done]. lia. Qed.

Lemma vis_at_put (v : Visited) (n c : Z * Z) h w :
  shape v h w → 0 ≤ n.1 < w ∧ 0 ≤ n.2 < h →
  vis_at (put v n.2 n.1 true) c ↔ c = n ∨ vis_at v c.
Proof.
  intros Hs Hn. unfold vis_at. rewrite cell_put.
  destruct c as [cx cy], n as [nx ny]. simpl in *.
  case_decide as E.
  - injection E as -> ->. destruct (cell_inside v h w ny nx Hs) as [b ->]; [lia..|].
    simpl. naive_solver.
  - split; [by right|]. intros [[= -> ->]|?]; done.
Qed.

Lemma not_vis_at (v : Visited) h w c :
  shape v h w → 0 ≤ c.1 < w ∧ 0 ≤ c.2 < h →
  cell v c.2 c.1 = Some false ↔ ¬ vis_at v c.
Proof.
  intros Hs Hc. unfold vis_at.
  destruct (cell_inside v h w c.2 c.1 Hs) as [[] ->]; [lia..| |]; naive_solver.
Qed.

Section Flood.
Context (w h : Z) (g : Grid) (v0 : Visited) (s : Z * Z).
Hypothesis Hg : shape g h w.
Hypothesis Hclosed : closed_visited g v0.

Lemma bfs_visit_inv rg q v c n :
  flood_inv w h g v0 s rg q v → c ∈ rg → n ∈ neighbours c.1 c.2 →
  flood_inv w h g v0 s rg (bfs_visit w h g (q, v) n).1 (bfs_visit w h g (q, v) n).2 ∧
  (∀ d, vis_at v d → vis_at (bfs_visit w h g (q, v) n).2 d) ∧
  (is_air_at g n → vis_at (bfs_visit w h g (q, v) n).2 n).
Proof.
  intros [Hshape Hnd Hstart Hfound Hvis] Hc Hn.
  destruct n as [nx ny]. unfold bfs_visit. simpl.
  destruct (bool_decide (0 ≤ nx < w ∧ 0 ≤ ny < h)) eqn:Hin; simpl.
  2:{ split; [done|]. split; [done|]. intros Ha.
      apply (is_air_at_inside g h w) in Ha; [|done]. simpl in Ha.
      apply bool_decide_eq_false in Hin. tauto. }
  apply bool_decide_eq_true in Hin.
  destruct (bool_decide (cell v ny nx = Some false)) eqn:Hnv; simpl.
  2:{ split; [done|]. split; [done|]. intros _.
      apply bool_decide_eq_false in Hnv.
      unfold vis_at. simpl.
      destruct (cell_inside v h w ny nx Hshape) as [[] E]; [lia..|done|congruence]. }
  apply bool_decide_eq_true in Hnv.
  apply (not_vis_at v h w (nx, ny) Hshape Hin) in Hnv.
  destruct (bool_decide (cell g ny nx = Some T_AIR)) eqn:Hair; simpl.
  2:{ split; [done|]. split; [done|]. intros Ha.
      apply bool_decide_eq_false in Hair. done. }
  apply bool_decide_eq_true in Hair.
  assert (Hnew : (nx, ny) ∉ rg ++ q).
  { intros Hin'. apply Hnv, Hvis. by right. }
  assert (Hnv0 : ¬ vis_at v0 (nx, ny)).
  { intros Hv. apply Hnv, Hvis. by left. }
  destruct (Hfound c) as (Hca & _ & Hcs); [apply elem_of_app; by left|].
  split; [|split].
  - constructor.
    + by apply shape_put.
    + rewrite app_assoc. apply NoDup_app. split_and!; [done| |apply NoDup_singleton].
      intros d Hd ->%list_elem_of_singleton. done.
    + rewrite app_assoc. apply elem_of_app. by left.
    + intros d. rewrite app_assoc. intros [Hd| ->%list_elem_of_singleton]%elem_of_app.
      * by apply Hfound.
      * split_and!; [done..|]. eapply rtc_r; [done|]. split_and!; done.
    + intros d. rewrite (vis_at_put v (nx, ny) d h w) by done.
      rewrite Hvis, !elem_of_app, list_elem_of_singleton. tauto.
  - intros d Hd. apply (vis_at_put v (nx, ny) d h w); [done..|]. by right.
  - intros _. apply (vis_at_put v (nx, ny) (nx, ny) h w); [done..|]. by left.
Qed.

Lemma bfs_neighbours_inv rg q v c ns :
  flood_inv w h g v0 s rg q v → c ∈ rg → (∀ n, n ∈ ns → n ∈ neighbours c.1 c.2) →
  flood_inv w h g v0 s rg (foldl (bfs_visit w h g) (q, v) ns).1 (foldl (bfs_visit w h g) (q, v) ns).2 ∧
  (∀ d, vis_at v d → vis_at (foldl (bfs_visit w h g) (q, v) ns).2 d) ∧
  (∀ n, n ∈ ns → is_air_at g n → vis_at (foldl (bfs_visit w h g) (q, v) ns).2 n).
Proof.
  revert q v. induction ns as [|n ns IH]; intros q v Hinv Hc Hns; simpl.
  - split; [done|]. split; [done|]. by intros n ?%elem_of_nil.
  - destruct (bfs_visit_inv rg q v c n Hinv Hc) as (Hinv1 & Hmono1 & Hn1);
      [apply Hns; by left|].
    destruct (bfs_visit w h g (q, v) n) as [q1 v1] eqn:E. simpl in *.
    destruct (IH q1 v1 Hinv1 Hc) as (Hinv2 & Hmono2 & Hn2);
      [intros; apply Hns; by right|].
    split; [done|]. split; [by auto|].
    intros n' [-> |Hn']%elem_of_cons Ha; [apply Hmono2; by apply Hn1 | by apply Hn2].
Qed.

Lemma bfs_loop_cons fuel x y q v rg :
  bfs_loop (S fuel) w h g ((x, y) :: q) v rg =
    bfs_loop fuel w h g (foldl (bfs_visit w h g) (q, v) (neighbours x y)).1
      (foldl (bfs_visit w h g) (q, v) (neighbours x y)).2 (rg ++ [(x, y)]).
Proof.
  change (bfs_loop (S fuel) w h g ((x, y) :: q) v rg) with
    (let '(queue, visited) := foldl (bfs_visit w h g) (q, v) (neighbours x y) in
     bfs_loop fuel w h g queue visited (rg ++ [(x, y)])).
  by destruct (foldl (bfs_visit w h g) (q, v) (neighbours x y)).
Qed.

(** The loop returns within its budget, with the region of [s]. *)
Lemma bfs_loop_spec fuel rg q v :
  flood_inv w h g v0 s rg q v →
  (∀ c n, c ∈ rg → n ∈ neighbours c.1 c.2 → is_air_at g n → vis_at v n) →
  (Z.to_nat (w * h) ≤ length rg + fuel)%nat →
  ∃ rg' v', bfs_loop fuel w h g q v rg = Ok (rg', v') ∧
            flood_inv w h g v0 s rg' [] v' ∧
            (∀ c n, c ∈ rg' → n ∈ neighbours c.1 c.2 → is_air_at g n → vis_at v' n).
Proof.
  revert rg q v. induction fuel as [|fuel IH]; intros rg q v Hinv Hnb Hfuel.
  - destruct q as [|[x y] q]; simpl; [eauto|].
    destruct Hinv as [_ Hnd _ Hfound _].
    assert (length (rg ++ (x, y) :: q) ≤ Z.to_nat (w * h))%nat.
    { apply NoDup_inside_length; [done|]. intros c Hc.
      apply (is_air_at_inside g h w); [done|]. by apply Hfound. }
    rewrite length_app in *. simpl in *. lia.
  - destruct q as [|[x y] q]; [simpl; eauto|]. rewrite bfs_loop_cons.
    assert (Hinv' : flood_inv w h g v0 s (rg ++ [(x, y)]) q v).
    { destruct Hinv as [? ? ? ? ?]. constructor; try done; by rewrite <- app_assoc. }
    destruct (bfs_neighbours_inv (rg ++ [(x, y)]) q v (x, y) (neighbours x y) Hinv')
      as (Hinv1 & Hmono & Hair); [apply elem_of_app; right; by left|done|].
    apply IH; [done| |].
    + intros c n [Hc| ->%list_elem_of_singleton]%elem_of_app Hn Ha.
      * apply Hmono. by eapply Hnb.
      * by apply Hair.
    + rewrite length_app. simpl. lia.
Qed.

Lemma flood_region rg v c :
  flood_inv w h g v0 s rg [] v →
  (∀ c n, c ∈ rg → n ∈ neighbours c.1 c.2 → is_air_at g n → vis_at v n) →
  c ∈ rg ↔ connected g s c.
Proof.
  intros [Hshape Hnd Hstart Hfound Hvis] Hnb. rewrite app_nil_r in *.
  split; [intros Hc; by apply Hfound|].
  revert c. apply (rtc_ind_r (λ c, c ∈ rg) s); [done|].
  intros b c Hsb (Hb & Hc & Hn) IH.
  destruct (proj1 (Hvis c)) as [Hv0|Hin]; [by apply (Hnb b)| |done].
  destruct (Hfound b IH) as (_ & Hbv & _). destruct Hbv.
  apply (Hclosed c b); [|done]. apply air_step_sym. by split_and!.
Qed.

End Flood.

Lemma bfs_flood_spec w h (g : Grid) (v0 : Visited) sx sy :
  shape g h w → closed_visited g v0 →
  shape v0 h w → is_air_at g (sx, sy) → ¬ vis_at v0 (sx, sy) →
  ∃ rg v, _bfs_flood w h g sx sy v0 = Ok (rg, v) ∧
          shape v h w ∧ NoDup rg ∧
          (∀ c, c ∈ rg ↔ connected g (sx, sy) c) ∧
          (∀ c, vis_at v c ↔ vis_at v0 c ∨ c ∈ rg).
Proof.
  intros Hg Hclosed Hv0 Hair Hnv. unfold _bfs_flood.
  pose proof (is_air_at_inside g h w _ Hg Hair) as Hin.
  destruct (bfs_loop_spec w h g v0 (sx, sy) Hg (Z.to_nat (w * h)) [] [(sx, sy)]
              (put v0 sy sx true))
    as (rg & v & Hrun & Hinv & Hnb).
  - constructor; simpl.
    + by apply shape_put.
    + apply NoDup_singleton.
    + by left.
    + intros c ->%list_elem_of_singleton. split_and!; [done..|apply rtc_refl].
    + intros c. rewrite (vis_at_put v0 (sx, sy) c h w) by done.
      rewrite list_elem_of_singleton. tauto.
  - by intros c n ?%elem_of_nil.
  - simpl. lia.
  - exists rg, v. split; [done|].
    pose proof Hinv as [Hshape Hnd _ _ Hvis]. rewrite app_nil_r in *.
    split_and!; [done..| |done].
    intros c. by apply (flood_region w h g v0 (sx, sy) Hclosed rg v).
Qed.

(** ** Step 5: the region filter *)

Lemma foldM_total_from {A S} (I : list A → S → Prop) (f : S → A → Outcome S)
    (seen l : list A) s :
  (∀ l1 a l2 s, seen ++ l = l1 ++ a :: l2 → I l1 s → ∃ s', f s a = Ok s' ∧ I (l1 ++ [a]) s') →
  I seen s → ∃ s', foldM f l s = Ok s' ∧ I (seen ++ l) s'.
Proof.
  revert s seen. induction l as [|a l IH]; intros s seen Hf Hs; simpl.
  - exists s. by rewrite app_nil_r.
  - destruct (Hf seen a l s eq_refl Hs) as (s1 & -> & Hs1). simpl.
    rewrite cons_middle, app_assoc. apply IH; [|done].
    intros l1 b l2 t E. apply (Hf l1 b l2). by rewrite <- E, <- app_assoc.
Qed.

Lemma foldM_total {A S} (I : list A → S → Prop) (f : S → A → Outcome S) l s :
  (∀ l1 a l2 s, l = l1 ++ a :: l2 → I l1 s → ∃ s', f s a = Ok s' ∧ I (l1 ++ [a]) s') →
  I [] s → ∃ s', foldM f l s = Ok s' ∧ I l s'.
Proof. apply (foldM_total_from I f [] l). Qed.

Lemma foldM_app {A S} (f : S → A → Outcome S) l1 l2 s :
  foldM f (l1 ++ l2) s = foldM f l1 s ≫= foldM f l2.
Proof.
  revert s. induction l1 as [|a l1 IH]; intros s; simpl; [done|].
  destruct (f s a); simpl; [apply IH|done..].
Qed.

Lemma foldM_fmap {A B S} (f : S → B → Outcome S) (k : A → B) l s :
  foldM f (k <$> l) s = foldM (λ s a, f s (k a)) l s.
Proof.
  revert s. induction l as [|a l IH]; intros s; simpl; [done|].
  destruct (f s (k a)); simpl; [apply IH|done..].
Qed.

Lemma foldM_row_major {S} (f : S → Z → Z → Outcome S) w h s :
  foldM (λ s y, foldM (λ s x, f s y x) (py_range 0 w) s) (py_range 0 h) s =
  foldM (λ s (c : Z * Z), f s c.2 c.1) (row_major w h) s.
Proof.
  unfold row_major. revert s.
  induction (py_range 0 h) as [|y ys IH]; intros s; [done|].
  rewrite bind_cons, foldM_app, foldM_fmap. simpl.
  destruct (foldM _ (py_range 0 w) s); simpl; [apply IH|done..].
Qed.

Lemma elem_of_row_major w h c : c ∈ row_major w h ↔ 0 ≤ c.1 < w ∧ 0 ≤ c.2 < h.
Proof.
  unfold row_major. rewrite list_elem_of_bind. destruct c as [x y]. simpl. split.
  - intros (y' & Hx & Hy). apply list_elem_of_fmap in Hx as (x' & [= -> ->] & Hx).
    apply elem_of_py_range in Hx, Hy. lia.
  - intros [Hx Hy]. exists y. split; [|by apply elem_of_py_range].
    apply list_elem_of_fmap. exists x. split; [done|]. by apply elem_of_py_range.
Qed.

Lemma cell_fill_region (g : Grid) rg y x :
  cell (fill_region g rg) y x =
    if decide ((x, y) ∈ rg) then (λ _, T_FILL) <$> cell g y x else cell g y x.
Proof.
  unfold fill_region. revert g. induction rg as [|[rx ry] rg IH]; intros g.
  - rewrite decide_False; [done|]. by intros ?%elem_of_nil.
  - change (foldl ?f g ((rx, ry) :: rg)) with (foldl f (put g ry rx T_FILL) rg).
    rewrite IH. destruct (decide ((x, y) ∈ rg)) as [Hin|Hn].
    + rewrite (decide_True (P := (x, y) ∈ (rx, ry) :: rg)) by by right.
      rewrite cell_put. case_decide as E; [|done].
      injection E as -> ->. by destruct (cell g ry rx).
    + rewrite cell_put. destruct (decide ((y, x) = (ry, rx))) as [[= -> ->]|Hne].
      * by rewrite decide_True by by left.
      * rewrite decide_False; [done|]. intros [[= -> ->]|?]%elem_of_cons; tauto.
Qed.

Lemma connected_trans g a b c : connected g a b → connected g b c → connected g a c.
Proof. intros. by etrans. Qed.

Lemma connected_air g a b : is_air_at g a → connected g a b → is_air_at g b.
Proof. intros Ha Hc. induction Hc as [|a b c (_ & Hb & _) _ IH]; auto. Qed.

Section Filter.
Context (w h m : Z) (g0 : Grid).

(** Filling a whole region back leaves the other regions as they were. *)
Lemma fill_region_connected (g : Grid) rg s c d :
  (∀ e, e ∈ rg ↔ connected g s e) →
  is_air_at (fill_region g rg) c → connected g c d →
  connected (fill_region g rg) c d.
Proof.
  intros Hrg Hc Hcd.
  assert (Hout : ∀ e, c ∉ rg → connected g c e → is_air_at g e →
            is_air_at (fill_region g rg) e).
  { intros e Hcn Hce He. unfold is_air_at. rewrite cell_fill_region.
    rewrite decide_False; [done|]. destruct e as [ex ey]. simpl.
    intros He'%Hrg. apply Hcn, Hrg. etrans; [done|]. by apply connected_sym. }
  assert (Hcn : c ∉ rg).
  { intros Hin. unfold is_air_at in Hc. rewrite cell_fill_region in Hc.
    destruct c as [cx cy]. simpl in Hc. rewrite decide_True in Hc by done.
    by destruct (cell g cy cx). }
  assert (Hcg : is_air_at g c).
  { unfold is_air_at in *. rewrite cell_fill_region in Hc.
    destruct c as [cx cy]. simpl in *. by rewrite decide_False in Hc. }
  revert d Hcd. apply (rtc_ind_r (λ d, connected (fill_region g rg) c d) c); [apply rtc_refl|].
  intros a b Hca (Ha & Hb & Hn) IH. eapply rtc_r; [done|].
  split_and!; [by apply Hout| |done].
  apply Hout; [done| |done]. eapply rtc_r; [done|]. by split_and!.
Qed.

Lemma fill_region_sub (g : Grid) rg c :
  is_air_at (fill_region g rg) c → is_air_at g c ∧ c ∉ rg.
Proof.
  unfold is_air_at. rewrite cell_fill_region. destruct c as [cx cy]. simpl.
  case_decide; [by destruct (cell g cy cx)|done].
Qed.

Lemma air_step_sub (g g' : Grid) a b :
  (∀ c, is_air_at g' c → is_air_at g c) → air_step g' a b → air_step g a b.
Proof. intros Hsub (Ha & Hb & Hn). split_and!; auto. Qed.

Lemma connected_sub (g g' : Grid) a b :
  (∀ c, is_air_at g' c → is_air_at g c) → connected g' a b → connected g a b.
Proof.
  intros Hsub Hc. induction Hc as [|a b c Hab _ IH]; [apply rtc_refl|].
  eapply rtc_l; [|done]. by eapply air_step_sub.
Qed.

Lemma filter_cell_spec (c : BlueprintConfig) seen gv x y :
  width c = w → height c = h → min_region_size c = m →
  filter_inv w h m g0 seen gv → 0 ≤ x < w → 0 ≤ y < h →
  ∃ gv', filter_cell c gv y x = Ok gv' ∧ filter_inv w h m g0 (seen ++ [(x, y)]) gv'.
Proof.
  intros Hw Hh Hm [Hg Hv Hclosed Hbig Hseen Hsub Hsame] Hx Hy.
  destruct gv as [g v]. unfold filter_cell. simpl in *. rewrite Hw, Hh, Hm.
  destruct (bool_decide (cell g y x = Some T_AIR)) eqn:Hair; simpl.
  2:{ eexists. split; [done|]. constructor; try done. simpl.
      intros d [Hd| ->%list_elem_of_singleton]%elem_of_app Ha; [by apply Hseen|].
      apply bool_decide_eq_false in Hair. done. }
  apply bool_decide_eq_true in Hair.
  destruct (bool_decide (cell v y x = Some false)) eqn:Hnv; simpl.
  2:{ eexists. split; [done|]. constructor; try done. simpl.
      intros d [Hd| ->%list_elem_of_singleton]%elem_of_app Ha; [by apply Hseen|].
      apply bool_decide_eq_false in Hnv. unfold vis_at. simpl.
      destruct (cell_inside v h w y x Hv) as [[] E]; [lia..|done|congruence]. }
  apply bool_decide_eq_true in Hnv.
  destruct (bfs_flood_spec w h g v x y Hg Hclosed Hv Hair) as (rg & v' & -> & Hv' & Hnd & Hrg & Hvis).
  { unfold vis_at. simpl. congruence. }
  simpl. case_decide as Hsmall.
  - eexists. split; [done|].
    assert (Hfsub : ∀ d, is_air_at (fill_region g rg) d → is_air_at g d).
    { intros d Hd. by apply fill_region_sub in Hd as [? _]. }
    constructor; simpl.
    + by apply (writes_shape is_fill g); [apply writes_fill_region|].
    + done.
    + intros a b Hab. pose proof Hab as (Ha & Hb & _).
      apply fill_region_sub in Ha as [Ha Han]. apply fill_region_sub in Hb as [Hb Hbn].
      rewrite !Hvis. intros [Hva|?]; [|done]. left.
      apply (Hclosed a b); [|done]. by eapply air_step_sub.
    + intros d Hd [Hvd|Hin]%Hvis; [|by apply fill_region_sub in Hd as [_ ?]].
      destruct (Hbig d) as (l & Hl & Hconn & Hlen); [by apply Hfsub|done|].
      exists l. split_and!; [done| |done].
      intros e He. eapply fill_region_connected; [done..|]. by apply Hconn.
    + intros d Hd Ha. pose proof (fill_region_sub _ _ _ Ha) as [Hag Hn].
      apply Hvis. apply elem_of_app in Hd as [Hd| ->%list_elem_of_singleton].
      * left. by apply Hseen.
      * destruct Hn. apply Hrg, rtc_refl.
    + intros d Hd. by apply Hsub, Hfsub.
    + intros d e Hd Hde. eapply fill_region_connected; [done..|].
      apply Hsame; [by apply Hfsub|done].
  - eexists. split; [done|]. constructor; simpl; try done.
    + intros a b Hab. rewrite !Hvis. intros [Hva|Hin].
      * left. by apply (Hclosed a b).
      * right. apply Hrg. eapply rtc_r; [by apply Hrg|done].
    + intros d Hd [Hvd|Hin]%Hvis; [by apply Hbig|].
      exists rg. split_and!; [done| |lia].
      intros e He. etrans; [apply connected_sym; by apply Hrg|by apply Hrg].
    + intros d Hd Ha. apply Hvis. apply elem_of_app in Hd as [Hd| ->%list_elem_of_singleton].
      * left. by apply Hseen.
      * right. apply Hrg, rtc_refl.
Qed.

End Filter.

Lemma vis_at_new_visited w h v :
  new_visited w h = Ok v → shape v h w ∧ ∀ c, ¬ vis_at v c.
Proof.
  unfold new_visited. case_decide as E; [done|]. intros [= <-]. split.
  - apply shape_replicate; lia.
  - intros c. unfold vis_at. rewrite cell_replicate. by case_decide.
Qed.

Lemma filter_scan_spec (c : BlueprintConfig) (g : Grid) (v : Visited) :
  shape g (height c) (width c) → new_visited (width c) (height c) = Ok v →
  ∃ gv, filter_scan c (g, v) = Ok gv ∧
        filter_inv (width c) (height c) (min_region_size c) g
          (row_major (width c) (height c)) gv.
Proof.
  intros Hg Hv. unfold filter_scan.
  rewrite (foldM_row_major (λ gv y x, filter_cell c gv y x)).
  apply (foldM_total (filter_inv (width c) (height c) (min_region_size c) g)).
  - intros l1 [x y] l2 gv Hl Hinv.
    assert (Hin : (x, y) ∈ row_major (width c) (height c)).
    { rewrite Hl. apply elem_of_app. right. by left. }
    apply elem_of_row_major in Hin as [Hx Hy]. simpl in *.
    by apply filter_cell_spec.
  - pose proof (vis_at_new_visited _ _ _ Hv) as [Hshape Hnew].
    constructor; simpl; try done.
    + intros a b _ Ha. by apply Hnew in Ha.
    + intros a _ Ha. by apply Hnew in Ha.
    + by intros a ?%elem_of_nil.
Qed.

Section FilterClaim.
Context {R : Type} `{!Generator R} `{!Oracles}.
Implicit Types (st : BlueprintGenerator_ (R:=R)).

(** The Region Filter returns, and what it leaves. *)
Lemma region_filter_spec st :
  grid_ok st → 0 ≤ width (cfg st) →
  ∃ st', _step5_filter st = Ok st' ∧
         regions_filtered (min_region_size (cfg st)) (grid st) (grid st').
Proof.
  intros Hok Hw. unfold _step5_filter.
  assert (Hh : 0 ≤ height (cfg st)).
  { destruct Hok as [<- _]. unfold nrows. lia. }
  destruct (new_visited (width (cfg st)) (height (cfg st))) as [v| |] eqn:Hv;
    try (unfold new_visited in Hv; case_decide; [lia|done]).
  simpl.
  destruct (filter_scan_spec (cfg st) (grid st) v Hok Hv)
    as ([g' v'] & -> & [Hg' Hv' _ Hbig Hseen Hsub Hsame]).
  simpl in *. eexists. split; [done|]. simpl.
  intros c Hc. split_and!.
  - apply Hbig; [done|]. apply Hseen; [|done].
    apply elem_of_row_major. by apply (is_air_at_inside g').
  - by apply Hsub.
  - intros d. split; [by apply Hsame|]. by apply connected_sub.
Qed.

(** C7.  The Region Filter returns, and immediately after it every region
    of air (every maximal 4-connected set of Air tiles) has at least
    [min_region_size] tiles.  The air that is left is air that was there,
    in the region it was in: filling a small region back shrinks no other
    region. *)
Theorem region_filter_leaves_big_regions st :
  grid_ok st → 0 ≤ width (cfg st) →
  ∃ st', _step5_filter st = Ok st' ∧
         regions_filtered (min_region_size (cfg st)) (grid st) (grid st').
Proof. apply region_filter_spec. Qed.

End FilterClaim.

(** ** Determinism *)

Lemma same_outcome_bind {A1 A2 B1 B2} (P : A1 → A2 → Prop) (Q : B1 → B2 → Prop)
    (m1 : Outcome A1) (m2 : Outcome A2) (f1 : A1 → Outcome B1) (f2 : A2 → Outcome B2) :
  same_outcome P m1 m2 →
  (∀ a1 a2, P a1 a2 → same_outcome Q (f1 a1) (f2 a2)) →
  same_outcome Q (m1 ≫= f1) (m2 ≫= f2).
Proof. destruct m1, m2; simpl; try done. intros. auto. Qed.

Lemma same_outcome_foldM {A S1 S2} (P : S1 → S2 → Prop)
    (f1 : S1 → A → Outcome S1) (f2 : S2 → A → Outcome S2) l s1 s2 :
  (∀ s1 s2 a, P s1 s2 → same_outcome P (f1 s1 a) (f2 s2 a)) →
  P s1 s2 → same_outcome P (foldM f1 l s1) (foldM f2 l s2).
Proof.
  intros Hf. revert s1 s2. induction l as [|a l IH]; intros s1 s2 Hs; simpl; [done|].
  eapply same_outcome_bind; [by apply Hf|]. auto.
Qed.

Section Determinism.
Context {R1 R2 : Type} (G1 : Generator R1) (G2 : Generator R2) `{!Oracles}.
Context (sim : R1 → R2 → Prop) (Hsim : same_draws G1 G2 sim).

Lemma same_draw_integers lo hi r1 r2 :
  sim r1 r2 →
  same_outcome (same_draw sim) (draw_integers (Generator0 := G1) lo hi r1)
    (draw_integers (Generator0 := G2) lo hi r2).
Proof.
  intros Hr. unfold draw_integers. case_decide; [|done]. simpl.
  by apply (sd_integers _ _ _ Hsim).
Qed.

(** Step 1 forgets what the grid held. *)
Lemma step1_grid (st1 : BlueprintGenerator_ (R:=R1)) (st2 : BlueprintGenerator_ (R:=R2)) h w :
  shape (grid st1) h w → shape (grid st2) h w →
  grid (_step1_init st1) = grid (_step1_init st2).
Proof.
  intros H1 H2. apply (shape_cell_ext _ _ h w); [by apply shape_step1..|].
  intros y x. rewrite !cell_step1.
  destruct (decide (0 ≤ y < h ∧ 0 ≤ x < w)) as [[Hy Hx]|Hout].
  - destruct (cell_inside _ _ _ y x H1 Hy Hx) as [? ->].
    by destruct (cell_inside _ _ _ y x H2 Hy Hx) as [? ->].
  - by rewrite (cell_outside _ _ _ _ _ H1 Hout), (cell_outside _ _ _ _ _ H2 Hout).
Qed.

(** Step 2 forgets the surface line, and draws the new one. *)
Lemma same_step2 (st1 : BlueprintGenerator_ (R:=R1)) (st2 : BlueprintGenerator_ (R:=R2)) :
  cfg st1 = cfg st2 → grid st1 = grid st2 → sim (rng st1) (rng st2) →
  same_outcome (same_state sim) (_step2_surface (Generator0 := G1) st1)
    (_step2_surface (Generator0 := G2) st2).
Proof.
  intros Hc Hg Hr. unfold _step2_surface. rewrite Hc, Hg. case_decide; [done|].
  eapply same_outcome_bind; [by apply same_draw_integers|].
  intros [y r1] [y' r2] [Hy Hr']. simpl in Hy, Hr'. subst y'.
  eapply (same_outcome_bind
    (λ (a : Z * Grid * R1 * list Z) (b : Z * Grid * R2 * list Z),
       a.1.1.1 = b.1.1.1 ∧ a.1.1.2 = b.1.1.2 ∧ sim a.1.2 b.1.2 ∧ a.2 = b.2)).
  - apply same_outcome_foldM; [|done].
    intros [[[y1 g1] q1] s1] [[[y2 g2] q2] s2] x (Ey & Eg & Hq & Es). simpl in *. subst.
    eapply same_outcome_bind; [by apply same_draw_integers|].
    intros [dy q1'] [dy' q2'] [Hdy Hq']. simpl in *. by subst.
  - intros [[[y1 g1] q1] s1] [[[y2 g2] q2] s2] (Ey & Eg & Hq & Es). simpl in *. by subst.
Qed.

Lemma same_branch_walk n w h half clearance dir bx by_ g r1 r2 :
  sim r1 r2 →
  (same_draw sim) (branch_walk (Generator0 := G1) n w h half clearance dir bx by_ g r1)
    (branch_walk (Generator0 := G2) n w h half clearance dir bx by_ g r2).
Proof.
  revert bx by_ g r1 r2. induction n as [|n IH]; intros bx by_ g r1 r2 Hr; simpl; [done|].
  destruct (sd_random _ _ _ Hsim r1 r2 Hr) as [Hk Hr'].
  destruct (rng_random r1) as [k q1], (rng_random r2) as [k' q2]. simpl in Hk, Hr'. subst k'.
  case_decide; [done|]. by apply IH.
Qed.

Lemma same_tunnel_step c half clearance x y g r1 r2 :
  sim r1 r2 →
  (tunnel_step (Generator0 := G1) c half clearance x y g r1).1 =
    (tunnel_step (Generator0 := G2) c half clearance x y g r2).1 ∧
  sim (tunnel_step (Generator0 := G1) c half clearance x y g r1).2
    (tunnel_step (Generator0 := G2) c half clearance x y g r2).2.
Proof.
  intros Hr. unfold tunnel_step.
  destruct (sd_random _ _ _ Hsim r1 r2 Hr) as [Hd Hr1].
  destruct (rng_random r1) as [d q1], (rng_random r2) as [d' q2]. simpl in Hd, Hr1. subst d'.
  destruct (if flt_lt (unit_float d) f0_6 then _ else _) as [x1 y1].
  destruct (sd_random _ _ _ Hsim q1 q2 Hr1) as [Hk Hr2].
  destruct (rng_random q1) as [k p1], (rng_random q2) as [k' p2]. simpl in Hk, Hr2. subst k'.
  destruct (sd_random _ _ _ Hsim p1 p2 Hr2) as [Hk3 Hr3].
  destruct (rng_random p1) as [k3 o1], (rng_random p2) as [k3' o2]. simpl in Hk3, Hr3. subst k3'.
  destruct (_ && _); [|done].
  destruct (sd_integers _ _ _ Hsim 10 30 o1 o2 Hr3) as [Hb Hr4].
  destruct (rng_integers 10 30 o1) as [bl n1], (rng_integers 10 30 o2) as [bl' n2].
  simpl in Hb, Hr4. subst bl'.
  destruct (sd_choice_of _ _ _ Hsim [-1; 1] n1 n2 Hr4) as [Hbd Hr5].
  destruct (rng_choice_of [-1; 1] n1) as [bd m1], (rng_choice_of [-1; 1] n2) as [bd' m2].
  simpl in Hbd, Hr5. subst bd'.
  pose proof (same_branch_walk (Z.to_nat bl) (width c) (height c) half clearance bd x1
                (if flt_lt (unit_float k) f0_3 then y1 + 1 else y1)
                (carve_cross (width c) (height c) half clearance x y g) m1 m2 Hr5) as [Hg Hr6].
  destruct (branch_walk _ _ _ _ _ _ _ _ _ m1) as [g1 l1].
  destruct (branch_walk _ _ _ _ _ _ _ _ _ m2) as [g2 l2].
  simpl in *. by subst.
Qed.

Lemma same_tunnel_walk fuel c half clearance x y g r1 r2 :
  sim r1 r2 →
  same_outcome (same_draw sim) (tunnel_walk (Generator0 := G1) fuel c half clearance x y g r1)
    (tunnel_walk (Generator0 := G2) fuel c half clearance x y g r2).
Proof.
  revert x y g r1 r2. induction fuel as [|fuel IH]; intros x y g r1 r2 Hr; simpl.
  - by case_decide.
  - case_decide; [|done].
    destruct (same_tunnel_step c half clearance x y g r1 r2 Hr) as [Hv Hr'].
    destruct (tunnel_step c half clearance x y g r1) as [[[x1 y1] g1] q1].
    destruct (tunnel_step c half clearance x y g r2) as [[[x2 y2] g2] q2].
    simpl in Hv, Hr'. injection Hv as -> -> ->. by apply IH.
Qed.

Lemma same_step3 fuel (st1 : BlueprintGenerator_ (R:=R1)) (st2 : BlueprintGenerator_ (R:=R2)) :
  same_state sim st1 st2 →
  same_outcome (same_state sim) (_step3_tunnels (Generator0 := G1) fuel st1)
    (_step3_tunnels (Generator0 := G2) fuel st2).
Proof.
  intros (Hc & Hg & Hl & Hr). unfold _step3_tunnels, the_surface_line.
  rewrite Hc, Hg, Hl. case_decide; [done|].
  eapply (same_outcome_bind (same_draw sim)).
  - apply same_outcome_foldM; [|done].
    intros [g1 q1] [g2 q2] sx [Eg Hq]. simpl in Eg, Hq. subst g2.
    destruct (surface_line st2) as [surface|]; simpl; [|done].
    unfold _carve_tunnel. destruct (getitem1 surface sx) as [y| |]; simpl; [|done..].
    by apply same_tunnel_walk.
  - intros [g1 q1] [g2 q2] [Eg Hq]. simpl in *. subst. done.
Qed.

Lemma same_step4 (st1 : BlueprintGenerator_ (R:=R1)) (st2 : BlueprintGenerator_ (R:=R2)) :
  same_state sim st1 st2 →
  same_outcome (same_state sim) (_step4_caves (Generator0 := G1) st1)
    (_step4_caves (Generator0 := G2) st2).
Proof.
  intros (Hc & Hg & Hl & Hr). unfold _step4_caves, the_surface_line.
  rewrite Hc, Hg, Hl.
  destruct (surface_line st2) as [surface|] eqn:Hs; simpl; [|done].
  destruct (array_max surface) as [m| |]; simpl; [|done..].
  eapply (same_outcome_bind (same_draw sim)).
  - apply same_outcome_foldM; [|done].
    intros [g1 q1] [g2 q2] i [Eg Hq]. simpl in Eg, Hq. subst g2.
    eapply same_outcome_bind; [by apply same_draw_integers|].
    intros [cx p1] [cx' p2] [Ex Hp]. simpl in Ex, Hp. subst cx'.
    eapply same_outcome_bind; [by apply same_draw_integers|].
    intros [cy o1] [cy' o2] [Ey Ho]. simpl in Ey, Ho. subst cy'.
    destruct (sd_random_n _ _ _ Hsim 36 o1 o2 Ho) as [Hrad Hn].
    destruct (rng_random_n 36 o1) as [radii n1], (rng_random_n 36 o2) as [radii' n2].
    simpl in *. by subst.
  - intros [g1 q1] [g2 q2] [Eg Hq]. simpl in *. subst.
    unfold same_state. simpl. split_and!; congruence || done.
Qed.

(** The stages that draw nothing. *)
Lemma same_step5 (st1 : BlueprintGenerator_ (R:=R1)) (st2 : BlueprintGenerator_ (R:=R2)) :
  same_state sim st1 st2 →
  same_outcome (same_state sim) (_step5_filter st1) (_step5_filter st2).
Proof.
  intros (Hc & Hg & Hl & Hr). unfold _step5_filter. rewrite Hc, Hg.
  destruct (new_visited _ _) as [v| |]; simpl; [|done..].
  destruct (filter_scan _ _) as [gv| |]; simpl; done.
Qed.

Lemma same_connect_region c g q1 q2 ss region :
  sim q1 q2 →
  same_outcome
    (λ (a : Grid * R1 * list (Z * Z)) (b : Grid * R2 * list (Z * Z)),
       a.1.1 = b.1.1 ∧ sim a.1.2 b.1.2 ∧ a.2 = b.2)
    (connect_region (Generator0 := G1) c (g, q1, ss) region)
    (connect_region (Generator0 := G2) c (g, q2, ss) region).
Proof.
  intros Hq. unfold connect_region.
  destruct (sd_choice _ _ _ Hsim (Z.of_nat (length region))
              (Z.min 200 (Z.of_nat (length region))) q1 q2 Hq) as [Hjs Hp].
  destruct (rng_choice _ _ q1) as [js p1], (rng_choice _ _ q2) as [js' p2].
  simpl in Hjs, Hp. subst js'.
  destruct (mapM (getitem1 region) js) as [sample_region| |]; simpl; [|done..].
  destruct (sd_choice _ _ _ Hsim (Z.of_nat (length (set_iteration ss)))
              (Z.min 200 (Z.of_nat (length (set_iteration ss)))) p1 p2 Hp) as [Hks Ho].
  destruct (rng_choice _ _ p1) as [ks o1], (rng_choice _ _ p2) as [ks' o2].
  simpl in Hks, Ho. subst ks'.
  destruct (mapM (getitem1 (set_iteration ss)) ks) as [sample_surface| |]; simpl; [|done..].
  by destruct (closest_pair sample_region sample_surface) as [[[d a] b]|].
Qed.

Lemma same_step6 (st1 : BlueprintGenerator_ (R:=R1)) (st2 : BlueprintGenerator_ (R:=R2)) :
  same_state sim st1 st2 →
  same_outcome (same_state sim) (_step6_connect (Generator0 := G1) st1)
    (_step6_connect (Generator0 := G2) st2).
Proof.
  intros (Hc & Hg & Hl & Hr). unfold _step6_connect. rewrite Hc, Hg.
  destruct (_find_air_regions _ _) as [regions| |]; simpl; [|done..].
  case_decide; [done|].
  eapply (same_outcome_bind
    (λ (a : Grid * R1 * list (Z * Z)) (b : Grid * R2 * list (Z * Z)),
       a.1.1 = b.1.1 ∧ sim a.1.2 b.1.2 ∧ a.2 = b.2)).
  - apply same_outcome_foldM; [|done].
    intros [[g1 q1] ss1] [[g2 q2] ss2] [i region] (Eg & Hq & Es). simpl in Eg, Hq, Es. subst.
    case_decide; [done|]. by apply same_connect_region.
  - intros [[g1 q1] ss1] [[g2 q2] ss2] (Eg & Hq & Es). simpl in *. by subst.
Qed.

Lemma same_step7 (st1 : BlueprintGenerator_ (R:=R1)) (st2 : BlueprintGenerator_ (R:=R2)) :
  same_state sim st1 st2 →
  same_outcome (same_state sim) (_step7_surface_entry_check st1)
    (_step7_surface_entry_check st2).
Proof.
  intros (Hc & Hg & Hl & Hr). unfold _step7_surface_entry_check, the_surface_line.
  rewrite Hc, Hg, Hl.
  destruct (surface_line st2) as [surface|] eqn:Hs; simpl; [|done].
  destruct (array_max surface) as [m| |]; simpl; [|done..].
  destruct (find_entry _ _ _ _) as [[|]| |]; simpl; [|..|done|done].
  { unfold same_state. split_and!; congruence || done. }
  destruct (getitem1 surface _) as [surf_y| |]; simpl; [|done..].
  destruct (carve_shaft _ _ _ _ _) as [g| |]; simpl; [|done..].
  unfold same_state. simpl. split_and!; congruence || done.
Qed.

Lemma same_step8 (st1 : BlueprintGenerator_ (R:=R1)) (st2 : BlueprintGenerator_ (R:=R2)) :
  same_state sim st1 st2 →
  same_outcome (same_state sim) (_step8_spawn_goal st1) (_step8_spawn_goal st2).
Proof.
  intros (Hc & Hg & Hl & Hr). unfold _step8_spawn_goal, the_surface_line.
  rewrite Hc, Hg, Hl.
  destruct (surface_line st2) as [surface|] eqn:Hs; simpl; [|done].
  destruct (spawn_column _ _) as [spawn_x| |]; simpl; [|done..].
  destruct (getitem1 surface spawn_x) as [sy| |]; simpl; [|done..].
  destruct (setitem _ _ _ _) as [g| |]; simpl; [|done..].
  unfold same_state. simpl. split_and!; congruence || done.
Qed.

Lemma same_step9 (st1 : BlueprintGenerator_ (R:=R1)) (st2 : BlueprintGenerator_ (R:=R2)) :
  same_state sim st1 st2 →
  same_state sim (_step9_top_detection st1) (_step9_top_detection st2).
Proof. intros (Hc & Hg & Hl & Hr). unfold same_state. simpl. by rewrite Hg. Qed.

(** The pipeline reads the Config, the draws of the generator and the
    shape of the grid, and nothing else. *)
Lemma same_generate fuel (st1 : BlueprintGenerator_ (R:=R1)) (st2 : BlueprintGenerator_ (R:=R2)) :
  cfg st1 = cfg st2 → sim (rng st1) (rng st2) → grid_ok st1 → grid_ok st2 →
  same_outcome (same_state sim) (generate (Generator0 := G1) fuel st1)
    (generate (Generator0 := G2) fuel st2).
Proof.
  intros Hc Hr H1 H2. unfold generate, grid_ok in *. rewrite Hc in H1.
  eapply same_outcome_bind.
  { apply same_step2; [done| |done]. by apply (step1_grid st1 st2 _ _ H1 H2). }
  intros s2 s2' Hs2. eapply same_outcome_bind; [by apply same_step3|].
  intros s3 s3' Hs3. eapply same_outcome_bind; [by apply same_step4|].
  intros s4 s4' Hs4. eapply same_outcome_bind; [by apply same_step5|].
  intros s5 s5' Hs5. eapply same_outcome_bind; [by apply same_step6|].
  intros s6 s6' Hs6. eapply same_outcome_bind; [by apply same_step7|].
  intros s7 s7' Hs7. eapply same_outcome_bind; [by apply same_step8|].
  intros s8 s8' Hs8. by apply same_step9.
Qed.

Lemma same_run fuel c :
  same_outcome (same_state sim) (run (Generator0 := G1) fuel c)
    (run (Generator0 := G2) fuel c).
Proof.
  unfold run.
  destruct (BlueprintGenerator (Generator0 := G1) c) as [st1| |] eqn:E1;
    destruct (BlueprintGenerator (Generator0 := G2) c) as [st2| |] eqn:E2;
    unfold BlueprintGenerator in E1, E2; repeat case_decide; simplify_eq; simpl; try done.
  apply same_generate; simpl; [done|apply (sd_default _ _ _ Hsim)|..];
    apply shape_replicate; simpl; lia.
Qed.

End Determinism.


(** ** Termination *)

Lemma no_fuel_bind {A B} (m : Outcome A) (f : A → Outcome B) :
  no_fuel m → (∀ a, m = Ok a → no_fuel (f a)) → no_fuel (m ≫= f).
Proof.
  unfold no_fuel. destruct m as [a| |]; simpl; intros Hm Hf; [by apply Hf|done..].
Qed.

Lemma no_fuel_foldM {A S} (f : S → A → Outcome S) l s :
  (∀ s a, no_fuel (f s a)) → no_fuel (foldM f l s).
Proof.
  intros Hf. revert s. induction l as [|a l IH]; intros s; simpl; [done|].
  apply no_fuel_bind; auto.
Qed.

Lemma no_fuel_mapM {A B} (f : A → Outcome B) l :
  (∀ a, no_fuel (f a)) → no_fuel (mapM f l).
Proof.
  intros Hf. induction l as [|a l IH]; simpl; [done|].
  apply no_fuel_bind; [done|]. intros b _. apply no_fuel_bind; [done|]. done.
Qed.

Lemma foldM_OutOfFuel {A S} (f : S → A → Outcome S) l s :
  foldM f l s = OutOfFuel → ∃ s' a, f s' a = OutOfFuel.
Proof.
  revert s. induction l as [|a l IH]; intros s; simpl; [done|].
  destruct (f s a) as [s1| |] eqn:E; simpl; [apply IH|done|eauto].
Qed.

Lemma foldM_OutOfFuel_at {A S} (f : S → A → Outcome S) l s :
  foldM f l s = OutOfFuel ↔
  ∃ l1 a l2 s', l = l1 ++ a :: l2 ∧ foldM f l1 s = Ok s' ∧ f s' a = OutOfFuel.
Proof.
  split.
  - revert s. induction l as [|a l IH]; intros s; simpl; [done|].
    destruct (f s a) as [s1| |] eqn:E; simpl; [|done|].
    + intros (l1 & b & l2 & s' & -> & Hl1 & Hb)%IH.
      exists (a :: l1), b, l2, s'. simpl. by rewrite E.
    + intros _. by exists [], a, l, s.
  - intros (l1 & a & l2 & s' & -> & Hl1 & Ha).
    rewrite foldM_app, Hl1. simpl. by rewrite Ha.
Qed.

Lemma foldM_ext {A S} (f f' : S → A → Outcome S) l s :
  (∀ s a, f s a = f' s a) → foldM f l s = foldM f' l s.
Proof.
  intros Hf. revert s. induction l as [|a l IH]; intros s; simpl; [done|].
  rewrite Hf. destruct (f' s a); simpl; auto.
Qed.

(** A fold that returns within a budget returns the same with a budget
    under which each of its steps does. *)
Lemma foldM_budget {A S} (f f' : S → A → Outcome S) l s :
  (∀ s a, f s a ≠ OutOfFuel → f' s a = f s a) →
  foldM f l s ≠ OutOfFuel → foldM f' l s = foldM f l s.
Proof.
  intros Hf. revert s. induction l as [|a l IH]; intros s; simpl; [done|].
  destruct (f s a) as [s1| |] eqn:E; simpl; intros Hne; [| |done].
  - rewrite Hf, E by (by rewrite E). simpl. by apply IH.
  - by rewrite Hf, E by (by rewrite E).
Qed.

Lemma no_fuel_np_index i n : no_fuel (np_index i n).
Proof. unfold np_index. by repeat case_decide. Qed.

Lemma no_fuel_getitem1 {A} (l : list A) i : no_fuel (getitem1 l i).
Proof.
  unfold getitem1. apply no_fuel_bind; [apply no_fuel_np_index|].
  intros j _. by destruct (zlookup l j).
Qed.

Lemma no_fuel_getitem g y x : no_fuel (getitem g y x).
Proof.
  unfold getitem. apply no_fuel_bind; [apply no_fuel_np_index|]. intros y' _.
  apply no_fuel_bind; [apply no_fuel_np_index|]. intros x' _.
  by destruct (cell g y' x').
Qed.

Lemma no_fuel_setitem g y x v : no_fuel (setitem g y x v).
Proof.
  unfold setitem. apply no_fuel_bind; [apply no_fuel_np_index|]. intros y' _.
  apply no_fuel_bind; [apply no_fuel_np_index|]. done.
Qed.

Lemma no_fuel_array_max l : no_fuel (array_max l).
Proof. by destruct l. Qed.

Lemma no_fuel_array_min l : no_fuel (array_min l).
Proof. by destruct l. Qed.

Section Termination.
Context {R : Type} `{!Generator R} `{!Oracles}.
Implicit Types (st : BlueprintGenerator_ (R:=R)) (g : Grid) (r : R).

(** An iteration moves [y] down by one for a direction draw below 0.6 and
    by one more for a step draw below 0.3, and not otherwise. *)
Lemma tunnel_step_depth c half clearance x y g r :
  (tunnel_step c half clearance x y g r).1.1.2 =
    y + (if flt_lt (unit_float (rng_random r).1) f0_6 then 1 else 0)
      + (if flt_lt (unit_float (rng_random (rng_random r).2).1) f0_3 then 1 else 0).
Proof.
  unfold tunnel_step. destruct (rng_random r) as [d r1]. simpl.
  destruct (flt_lt (unit_float d) f0_6); [|destruct (flt_lt (unit_float d) f0_8)];
    destruct (rng_random r1) as [k r2]; simpl;
    destruct (rng_random r2) as [k3 r3]; destruct (_ && _);
    try (destruct (rng_integers 10 30 r3) as [bl r4];
         destruct (rng_choice_of [-1; 1] r4) as [bd r5];
         destruct (branch_walk _ _ _ _ _ _ _ _ _ _) as [g' r']);
    simpl; destruct (flt_lt (unit_float k) f0_3); lia.
Qed.

Lemma tunnel_step_monotone c half clearance x y g r :
  y ≤ (tunnel_step c half clearance x y g r).1.1.2.
Proof.
  rewrite tunnel_step_depth. repeat destruct (flt_lt _ _); lia.
Qed.

Lemma walk_depth_monotone c half clearance n x y g r :
  y ≤ walk_depth c half clearance n x y g r.
Proof.
  revert x y g r. induction n as [|n IH]; intros x y g r; simpl; [lia|].
  pose proof (tunnel_step_monotone c half clearance x y g r) as Hs.
  destruct (tunnel_step c half clearance x y g r) as [[[x1 y1] g1] r1]. simpl in Hs.
  specialize (IH x1 y1 g1 r1). lia.
Qed.

(** The walk runs out of any budget exactly when the draws have not yet
    taken [y] down to [height - 5]. *)
Lemma tunnel_walk_OutOfFuel fuel c half clearance x y g r :
  tunnel_walk fuel c half clearance x y g r = OutOfFuel ↔
  walk_depth c half clearance fuel x y g r < height c - 5.
Proof.
  revert x y g r. induction fuel as [|fuel IH]; intros x y g r; simpl.
  - case_decide; [done|]. split; [done|lia].
  - case_decide as Hy.
    + destruct (tunnel_step c half clearance x y g r) as [[[x1 y1] g1] r1]. apply IH.
    + split; [done|].
      pose proof (walk_depth_monotone c half clearance (S fuel) x y g r) as Hm.
      simpl in Hm. lia.
Qed.

Lemma tunnel_walk_no_Raise fuel c half clearance x y g r e :
  tunnel_walk fuel c half clearance x y g r ≠ Raise e.
Proof.
  revert x y g r. induction fuel as [|fuel IH]; intros x y g r; simpl.
  - by case_decide.
  - case_decide; [|done].
    destruct (tunnel_step c half clearance x y g r) as [[[x1 y1] g1] r1]. apply IH.
Qed.

End Termination.

Ltac no_fuel_step :=
  first
    [ done
    | apply no_fuel_getitem1 | apply no_fuel_getitem | apply no_fuel_setitem
    | apply no_fuel_array_max | apply no_fuel_array_min | apply no_fuel_np_index
    | apply no_fuel_bind; [|intros ? _]
    | apply no_fuel_foldM; intros
    | apply no_fuel_mapM; intros
    | case_decide
    | match goal with p : (_ * _)%type |- _ => destruct p end
    | progress cbv beta iota
    | match goal with
      | |- no_fuel (let '(_, _) := ?p in _) => destruct p
      | |- no_fuel (match ?p with _ => _ end) => destruct p
      | |- no_fuel (if ?b then _ else _) => destruct b
      end ].

Section StageTermination.
Context {R : Type} `{!Generator R} `{!Oracles}.
Implicit Types (st : BlueprintGenerator_ (R:=R)) (g : Grid) (r : R).

Lemma no_fuel_draw_integers lo hi r : no_fuel (draw_integers lo hi r).
Proof. unfold draw_integers. by case_decide. Qed.

Lemma no_fuel_the_surface_line st : no_fuel (the_surface_line st).
Proof. unfold the_surface_line. by destruct (surface_line st). Qed.

Lemma step2_no_fuel st : no_fuel (_step2_surface st).
Proof.
  unfold _step2_surface.
  repeat first [apply no_fuel_draw_integers | no_fuel_step].
Qed.

Lemma step4_no_fuel st : no_fuel (_step4_caves st).
Proof.
  unfold _step4_caves.
  repeat first [apply no_fuel_draw_integers | apply no_fuel_the_surface_line | no_fuel_step].
Qed.

Lemma no_fuel_column_is_air g x ys : no_fuel (column_is_air g x ys).
Proof. induction ys as [|y ys IH]; simpl; repeat no_fuel_step. Qed.

Lemma no_fuel_find_entry g surface limit xs : no_fuel (find_entry g surface limit xs).
Proof.
  induction xs as [|x xs IH]; simpl;
    repeat first [apply no_fuel_column_is_air | no_fuel_step].
Qed.

Lemma step7_no_fuel st : no_fuel (_step7_surface_entry_check st).
Proof.
  unfold _step7_surface_entry_check, carve_shaft.
  repeat first [apply no_fuel_find_entry | apply no_fuel_the_surface_line | no_fuel_step].
Qed.

Lemma step8_no_fuel st : no_fuel (_step8_spawn_goal st).
Proof.
  unfold _step8_spawn_goal, spawn_column.
  repeat first [apply no_fuel_the_surface_line | no_fuel_step].
Qed.

Lemma no_fuel_connect_region c s region : no_fuel (connect_region c s region).
Proof. unfold connect_region. repeat no_fuel_step. Qed.

End StageTermination.

Section PipelineTermination.
Context {R : Type} `{!Generator R} `{!Oracles}.
Implicit Types (st : BlueprintGenerator_ (R:=R)) (g : Grid) (r : R).

(** The scan of [_find_air_regions] returns: its flood fills start from
    air that no earlier fill reached. *)
Lemma find_air_regions_returns (c : BlueprintConfig) g :
  shape g (height c) (width c) → 0 ≤ width c →
  ∃ regions, _find_air_regions c g = Ok regions.
Proof.
  intros Hg Hw. unfold _find_air_regions.
  assert (Hh : 0 ≤ height c) by (destruct Hg as [<- _]; unfold nrows; lia).
  destruct (new_visited (width c) (height c)) as [v| |] eqn:Hv;
    try (unfold new_visited in Hv; case_decide; [lia|done]).
  simpl. rewrite (foldM_row_major (λ rv y x, find_cell c g rv y x)).
  destruct (foldM_total
    (λ _ (rv : list (list (Z * Z)) * Visited),
       shape rv.2 (height c) (width c) ∧ closed_visited g rv.2)
    (λ rv (a : Z * Z), find_cell c g rv a.2 a.1)
    (row_major (width c) (height c)) ([], v)) as (rv & -> & _); [| |by eexists].
  - intros l1 [x y] l2 [regions v1] Hl [Hv1 Hclosed]. simpl in *.
    unfold find_cell. simpl.
    destruct (bool_decide (cell g y x = Some T_AIR)) eqn:Hair; simpl; [|by eexists].
    destruct (bool_decide (cell v1 y x = Some false)) eqn:Hnv; simpl; [|by eexists].
    apply bool_decide_eq_true in Hair, Hnv.
    destruct (bfs_flood_spec _ _ g v1 x y Hg Hclosed Hv1 Hair)
      as (rg & v' & -> & Hv' & _ & Hrg & Hvis).
    { unfold vis_at. simpl. congruence. }
    simpl. eexists. split; [done|]. simpl. split; [done|].
    intros a b Hab. rewrite !Hvis. intros [Hva|Hin].
    + left. by apply (Hclosed a b).
    + right. apply Hrg. eapply rtc_r; [by apply Hrg|done].
  - pose proof (vis_at_new_visited _ _ _ Hv) as [Hshape Hnew]. simpl.
    split; [done|]. intros a b _ Ha. by apply Hnew in Ha.
Qed.

Lemma step6_no_fuel st : grid_ok st → no_fuel (_step6_connect st).
Proof.
  intros Hok. unfold _step6_connect.
  destruct (decide (0 ≤ width (cfg st))) as [Hw|Hw].
  - destruct (find_air_regions_returns (cfg st) (grid st) Hok Hw) as [regions ->].
    simpl. case_decide; [done|].
    apply no_fuel_bind; [|by intros [[g r] ss] _].
    apply no_fuel_foldM. intros s [i region]. simpl.
    case_decide; [done|apply no_fuel_connect_region].
  - unfold _find_air_regions, new_visited. rewrite decide_True by lia. done.
Qed.

End PipelineTermination.

Section RunTermination.
Context {R : Type} `{!Generator R} `{!Oracles}.
Implicit Types (st : BlueprintGenerator_ (R:=R)) (g : Grid) (r : R).

Lemma writes_grid_ok P st st' :
  grid_ok st → writes P (grid st) (grid st') → cfg st' = cfg st → grid_ok st'.
Proof. unfold grid_ok. intros Hok W ->. by eapply writes_shape. Qed.

Lemma step5_no_fuel st : grid_ok st → no_fuel (_step5_filter st).
Proof.
  intros Hok. destruct (decide (0 ≤ width (cfg st))) as [Hw|Hw].
  - by destruct (region_filter_spec st Hok Hw) as (st' & -> & _).
  - unfold _step5_filter, new_visited. rewrite decide_True by lia. done.
Qed.

Lemma tunnel_walk_budget n m c half clearance x y g r :
  (n ≤ m)%nat → tunnel_walk n c half clearance x y g r ≠ OutOfFuel →
  tunnel_walk m c half clearance x y g r = tunnel_walk n c half clearance x y g r.
Proof.
  revert m x y g r. induction n as [|n IH]; intros m x y g r Hnm; simpl.
  - case_decide; [done|]. intros _. destruct m; simpl; by rewrite decide_False.
  - destruct m as [|m]; [lia|]. simpl. case_decide; [|done].
    destruct (tunnel_step c half clearance x y g r) as [[[x1 y1] g1] r1].
    apply IH. lia.
Qed.

Lemma step3_budget n m st :
  (n ≤ m)%nat → _step3_tunnels n st ≠ OutOfFuel →
  _step3_tunnels m st = _step3_tunnels n st.
Proof.
  intros Hnm. unfold _step3_tunnels. case_decide; [done|].
  set (f k := λ '(g, r) sx,
         the_surface_line st ≫= λ surface,
           _carve_tunnel k (cfg st) surface sx (tunnel_min_width (cfg st))
             (tunnel_vertical_clearance (cfg st)) g r).
  intros Hne.
  rewrite (foldM_budget (f n) (f m)); [done| |].
  - intros [g r] sx. unfold f. destruct (the_surface_line st) as [surface| |]; simpl; [|done..].
    unfold _carve_tunnel. destruct (getitem1 surface sx) as [y| |]; simpl; [|done..].
    by apply tunnel_walk_budget.
  - intros E. apply Hne. unfold f in E. by rewrite E.
Qed.

Lemma generate_budget n m st :
  (n ≤ m)%nat → generate n st ≠ OutOfFuel → generate m st = generate n st.
Proof.
  intros Hnm. unfold generate.
  destruct (_step2_surface (_step1_init st)) as [s2| |]; simpl; [|done..].
  intros Hne. rewrite (step3_budget n m s2 Hnm); [done|].
  intros E. apply Hne. by rewrite E.
Qed.

(** The run exhausts its budget exactly in a tunnel walk that it starts. *)
Lemma generate_OutOfFuel_iff fuel st :
  grid_ok st →
  generate fuel st = OutOfFuel ↔
  ∃ sx y g r,
    starts_walk fuel st sx y g r ∧
    tunnel_walk fuel (cfg st) (tunnel_min_width (cfg st) `div` 2)
      (tunnel_vertical_clearance (cfg st)) sx y g r = OutOfFuel.
Proof.
  intros Hok.
  set (f (c : BlueprintConfig) surface := λ '(g, r) sx,
         _carve_tunnel fuel c surface sx (tunnel_min_width c)
           (tunnel_vertical_clearance c) g r).
  assert (Hstep3 : ∀ s2 surface,
    cfg s2 = cfg st → surface_line s2 = Some surface → 0 ≤ num_tunnels (cfg st) →
    _step3_tunnels fuel s2 =
      foldM (f (cfg st) surface) (linspace_int (width (cfg st)) (num_tunnels (cfg st)))
        (grid s2, rng s2) ≫= λ '(g, r), Ok (with_grid_rng s2 g r)).
  { intros s2 surface Hc Hs Hn. unfold _step3_tunnels, the_surface_line.
    rewrite Hc, Hs. rewrite decide_False by lia.
    rewrite (foldM_ext _ (f (cfg st) surface)); [done|]. by intros [g r] sx. }
  split.
  - unfold generate.
    destruct (_step2_surface (_step1_init st)) as [s2| |] eqn:E2; simpl;
      [|done|by destruct (step2_no_fuel (_step1_init st))].
    pose proof (step2_writes _ _ E2) as (W2 & C2).
    pose proof (writes_grid_ok _ _ _ (grid_ok_step1 _ Hok) W2 C2) as Hok2.
    change (cfg (_step1_init st)) with (cfg st) in C2.
    destruct (_step3_tunnels fuel s2) as [s3| |] eqn:E3; simpl.
    + pose proof (step3_writes _ _ _ E3) as (W3 & C3 & _).
      pose proof (writes_grid_ok _ _ _ Hok2 W3 C3) as Hok3.
      destruct (_step4_caves s3) as [s4| |] eqn:E4; simpl;
        [|done|by destruct (step4_no_fuel s3)].
      pose proof (step4_writes _ _ E4) as (W4 & C4 & _).
      pose proof (writes_grid_ok _ _ _ Hok3 W4 C4) as Hok4.
      destruct (_step5_filter s4) as [s5| |] eqn:E5; simpl;
        [|done|by destruct (step5_no_fuel s4)].
      pose proof (step5_writes _ _ E5) as (W5 & C5 & _).
      pose proof (writes_grid_ok _ _ _ Hok4 W5 C5) as Hok5.
      destruct (_step6_connect s5) as [s6| |] eqn:E6; simpl;
        [|done|by destruct (step6_no_fuel s5)].
      destruct (_step7_surface_entry_check s6) as [s7| |] eqn:E7; simpl;
        [|done|by destruct (step7_no_fuel s6)].
      destruct (_step8_spawn_goal s7) as [s8| |] eqn:E8; simpl;
        [done|done|by destruct (step8_no_fuel s7)].
    + done.
    + intros _.
      assert (Hn : 0 ≤ num_tunnels (cfg st)).
      { unfold _step3_tunnels in E3. rewrite C2 in E3. by case_decide; [|lia]. }
      destruct (surface_line s2) as [surface|] eqn:Hs.
      2:{ unfold _step3_tunnels, the_surface_line in E3. rewrite Hs, C2 in E3.
          rewrite decide_False in E3 by lia.
          destruct (linspace_int _ _) as [|sx l]; simpl in E3; done. }
      rewrite (Hstep3 s2 surface C2 Hs Hn) in E3.
      destruct (foldM _ _ _) as [[g r]| |] eqn:E; simpl in E3; [done..|].
      apply foldM_OutOfFuel_at in E as (l1 & sx & l2 & [g r] & Hl & Hl1 & Hsx).
      unfold f, _carve_tunnel in Hsx.
      destruct (getitem1 surface sx) as [y| |] eqn:Ey; simpl in Hsx;
        [|done|by destruct (no_fuel_getitem1 surface sx)].
      exists sx, y, g, r. split; [|done].
      exists s2, surface, l1, l2. by split_and!.
  - intros (sx & y & g & r & (s2 & surface & l1 & l2 & E2 & Hs & Hn & Hl & Hl1 & Hy) & Hwalk).
    unfold generate. rewrite E2. simpl.
    pose proof (step2_writes _ _ E2) as (_ & C2).
    change (cfg (_step1_init st)) with (cfg st) in C2.
    rewrite (Hstep3 s2 surface C2 Hs Hn).
    assert (E : foldM (f (cfg st) surface)
                  (linspace_int (width (cfg st)) (num_tunnels (cfg st))) (grid s2, rng s2)
                = OutOfFuel).
    { apply foldM_OutOfFuel_at. exists l1, sx, l2, (g, r). split_and!; [done..|].
      unfold f, _carve_tunnel. rewrite Hy. done. }
    by rewrite E.
Qed.

(** C2, as the code has it.  Every loop of the pipeline but the [while] of
    [_carve_tunnel] is bounded by grid dimensions or fixed counts: a run
    exhausts a budget of iterations iff one of the tunnel walks that it
    starts has not ended within the budget, and a run that returns within a
    budget returns the same with every greater one.  The walk has no step
    budget: it ends exactly when the draws of the RNG stream have taken [y]
    down to [height - 5], one row for a direction draw below 0.6 and one
    for a step draw below 0.3, and after [n] iterations it is still running
    iff they have not. *)
Theorem run_terminates_with_its_walks (fuel : nat) st :
  grid_ok st → only_walks_run_on fuel st.
Proof.
  intros Hok. split_and!.
  - rewrite (generate_OutOfFuel_iff fuel st Hok).
    by setoid_rewrite tunnel_walk_OutOfFuel.
  - intros. apply tunnel_walk_OutOfFuel.
  - intros. simpl.
    pose proof (tunnel_step_depth (cfg st) half clearance x y g r) as Hd.
    by destruct (tunnel_step (cfg st) half clearance x y g r) as [[[x1 y1] g1] r1].
  - intros fuel' Hle Hne. by apply generate_budget.
Qed.

End RunTermination.

(** ** A stream that never lets a tunnel end *)

Lemma stuck_step half clearance x y g i :
  (tunnel_step (Generator0 := stuck_generator) stuck_config half clearance x y g
     (stuck_seed, i)).1.1.2 = y ∧
  (tunnel_step (Generator0 := stuck_generator) stuck_config half clearance x y g
     (stuck_seed, i)).2 = (stuck_seed, S (S (S i))).
Proof. done. Qed.

Lemma stuck_walk fuel half clearance x y g i :
  y < 15 →
  tunnel_walk (Generator0 := stuck_generator) fuel stuck_config half clearance x y g
    (stuck_seed, i) = OutOfFuel.
Proof.
  intros Hy. revert x g i. induction fuel as [|fuel IH]; intros x g i.
  - simpl. by rewrite decide_True by (simpl; lia).
  - change (tunnel_walk (S fuel) stuck_config half clearance x y g (stuck_seed, i)) with
      (if decide (y < height stuck_config - 5) then
         let '(x1, y1, g1, r1) :=
           tunnel_step (Generator0 := stuck_generator) stuck_config half clearance x y g
             (stuck_seed, i) in
         tunnel_walk (Generator0 := stuck_generator) fuel stuck_config half clearance
           x1 y1 g1 r1
       else Ok (g, (stuck_seed, i))).
    rewrite decide_True by (simpl; lia).
    destruct (stuck_step half clearance x y g i) as [Hy1 Hr1].
    destruct (tunnel_step _ _ _ _ _ _ _) as [[[x1 y1] g1] r1].
    simpl in Hy1, Hr1. subst. apply IH.
Qed.

(** C2 as the specification has it fails: on the RNG stream whose every
    draw is the largest double below 1, no direction draw is below 0.6 and
    no step draw is below 0.3; the first tunnel walk never moves down and
    no budget of iterations lets the run return. *)
Lemma stuck_run_never_returns :
  ¬ run_terminates (Generator0 := stuck_generator) (H := exact_oracles) stuck_config.
Proof.
  intros [fuel Hfuel]. apply Hfuel. clear Hfuel.
  unfold run.
  replace (BlueprintGenerator (Generator0 := stuck_generator) stuck_config)
    with (Ok {| cfg := stuck_config; rng := (stuck_seed, 0%nat);
                grid := replicate 20 (replicate 12 T_FILL);
                surface_line := None |}) by done.
  change (Ok ?s ≫= generate fuel) with (generate (Generator0 := stuck_generator) (H := exact_oracles) fuel s).
  unfold generate.
  destruct (_step2_surface _) as [s2| |] eqn:E2; [|by vm_compute in E2..].
  assert (Hs2 : cfg s2 = stuck_config ∧ rng s2 = (stuck_seed, 13%nat) ∧
                surface_line s2 = Some (replicate 12 2)).
  { vm_compute in E2. by injection E2 as <-. }
  destruct Hs2 as (Hc & Hr & Hl).
  change (Ok s2 ≫= ?f) with (f s2). cbv beta.
  assert (E3 : _step3_tunnels (Generator0 := stuck_generator) (H := exact_oracles) fuel s2
               = OutOfFuel); [|by rewrite E3].
  unfold _step3_tunnels, the_surface_line. rewrite Hc, Hr, Hl.
  rewrite decide_False by (simpl; lia).
  change (linspace_int (width stuck_config) (num_tunnels stuck_config)) with [1; 10].
  simpl foldM. unfold _carve_tunnel.
  assert (Hy : getitem1 [2; 2; 2; 2; 2; 2; 2; 2; 2; 2; 2; 2] 1 = Ok 2) by done.
  rewrite Hy. change (Ok 2 ≫= ?f) with (f 2). cbv beta.
  by rewrite stuck_walk by lia.
Qed.

(** * The properties at concrete inputs *)

Ltac shape_ok := split; [reflexivity | simpl; repeat constructor].

Lemma top_tiles_have_air_above_witness :
  ∃ st', run (Generator0 := lcg_generator) (H := exact_oracles) 100 small_config = Ok st' ∧
    ∃ st s2 s3 s4 s5 s6 s7 s8,
      BlueprintGenerator (Generator0 := lcg_generator) small_config = Ok st ∧
      _step2_surface (Generator0 := lcg_generator) (_step1_init st) = Ok s2 ∧
      _step3_tunnels (Generator0 := lcg_generator) (H := exact_oracles) 100 s2 = Ok s3 ∧
      _step4_caves (Generator0 := lcg_generator) (H := exact_oracles) s3 = Ok s4 ∧
      _step5_filter s4 = Ok s5 ∧
      _step6_connect (Generator0 := lcg_generator) (H := exact_oracles) s5 = Ok s6 ∧
      _step7_surface_entry_check s6 = Ok s7 ∧
      _step8_spawn_goal s7 = Ok s8 ∧
      st' = _step9_top_detection s8 ∧
      (∀ y x, cell (grid s8) y x ≠ Some T_TOP) ∧
      top_tiles_derived (grid s8) (grid st') ∧
      tops_under_air (grid st').
Proof.
  eexists. split; [vm_compute; reflexivity|].
  apply (top_tiles_have_air_above (Generator0 := lcg_generator) (H := exact_oracles)
           100 small_config).
  vm_compute. reflexivity.
Defined.

Lemma carving_stages_keep_air_witness :
  ∃ st', _step3_tunnels (Generator0 := lcg_generator) (H := exact_oracles) 100 small_carved
           = Ok st' ∧
         only_opens (grid small_carved) (grid st').
Proof.
  eexists. split; [vm_compute; reflexivity|].
  apply (carving_stages_keep_air (Generator0 := lcg_generator) (H := exact_oracles) 100).
  left. vm_compute. reflexivity.
Defined.

Lemma spawn_write_wraps_witness :
  grid_ok flat_state ∧
  ∃ st', _step8_spawn_goal flat_state = Ok st' ∧
         ∃ x, cell (grid st') (height (cfg flat_state) - 1) x = Some T_SPAWN.
Proof.
  assert (Hok : grid_ok flat_state) by shape_ok.
  split; [exact Hok|]. eexists. split; [vm_compute; reflexivity|].
  apply (spawn_write_wraps flat_state _ [0; 0; 0] Hok).
  - reflexivity.
  - repeat constructor.
  - vm_compute. reflexivity.
Defined.

Lemma spawn_far_from_surface_witness :
  ∃ st', run (Generator0 := lcg_generator) (H := exact_oracles) 100 flat_config = Ok st' ∧
         spawn_on_bottom_row st'.
Proof.
  eexists. split; [vm_compute; reflexivity|].
  apply (spawn_far_from_surface (Generator0 := lcg_generator) (H := exact_oracles)
           100 flat_config); [reflexivity..|].
  vm_compute. reflexivity.
Defined.

Lemma region_filter_leaves_big_regions_witness :
  grid_ok pocket_state ∧
  ∃ st', _step5_filter pocket_state = Ok st' ∧
         regions_filtered (min_region_size (cfg pocket_state)) (grid pocket_state) (grid st').
Proof.
  assert (Hok : grid_ok pocket_state) by shape_ok.
  split; [exact Hok|].
  apply (region_filter_leaves_big_regions pocket_state Hok).
  simpl. lia.
Defined.

Lemma surface_carver_one_sky_witness :
  grid_ok small_fresh ∧
  ∃ st', _step2_surface (Generator0 := lcg_generator) (_step1_init small_fresh) = Ok st' ∧
         heights_in_bounds st' ∧ one_air_region (grid st').
Proof.
  assert (Hok : grid_ok small_fresh) by shape_ok.
  split; [exact Hok|]. eexists. split; [vm_compute; reflexivity|].
  apply (surface_carver_one_sky (Generator0 := lcg_generator) small_fresh _ Hok);
    [simpl; lia..|].
  vm_compute. reflexivity.
Defined.

(** C8 as the specification has it fails.  With [surface_y_min = 0] a
    column may have height 0 and no sky: on heights 1, 0, 1 the air of the
    first column and the air of the third are two regions, whatever the
    step bound. *)
Lemma sky_with_a_gap : ¬ sky_is_one_region (Generator0 := gap_generator) gap_state.
Proof.
  intros Hone.
  destruct (Hone {| cfg := gap_config; rng := (0, 4%nat);
                    grid := [[0; 2; 0]; [2; 2; 2]];
                    surface_line := Some [1; 0; 1] |}) as [_ [_ Hconn]].
  - simpl. lia.
  - vm_compute. reflexivity.
  - simpl in Hconn. specialize (Hconn (0, 0) (2, 0) eq_refl eq_refl).
    assert (Hstay : ∀ b, connected [[0; 2; 0]; [2; 2; 2]] (0, 0) b → b = (0, 0)).
    { apply (rtc_ind_r (λ b, b = (0, 0))); [done|].
      intros a b _ (_ & Hb & Hn) ->. simpl in Hn.
      unfold neighbours in Hn. rewrite !elem_of_cons, elem_of_nil in Hn.
      destruct Hn as [-> | [-> | [-> | [-> | []]]]]; by vm_compute in Hb. }
    by apply Hstay in Hconn.
Qed.

Lemma stream_counter_same_draws f :
  same_draws (stream_generator f) (counter_generator f) same_position.
Proof.
  split.
  - done.
  - intros lo hi [sd n] [sd' z] [Hs Hz]. simpl in *. subst.
    rewrite Nat2Z.id. split; [done|]. split; simpl; [done|lia].
  - intros [sd n] [sd' z] [Hs Hz]. simpl in *. subst.
    rewrite Nat2Z.id. split; [done|]. split; simpl; [done|lia].
  - intros k [sd n] [sd' z] [Hs Hz]. simpl in *. subst.
    rewrite Nat2Z.id. split; [done|]. split; simpl; [done|lia].
  - intros l [sd n] [sd' z] [Hs Hz]. simpl in *. subst.
    rewrite Nat2Z.id. split; [done|]. split; simpl; [done|lia].
  - intros m k [sd n] [sd' z] [Hs Hz]. simpl in *. subst.
    rewrite Nat2Z.id. split; [done|]. split; simpl; [done|lia].
Qed.


Lemma run_terminates_with_its_walks_witness :
  grid_ok small_fresh ∧
  only_walks_run_on (Generator0 := lcg_generator) (H := exact_oracles) 100 small_fresh.
Proof.
  assert (Hok : grid_ok small_fresh) by shape_ok.
  split; [exact Hok|].
  exact (run_terminates_with_its_walks (Generator0 := lcg_generator) (H := exact_oracles)
           100 small_fresh Hok).
Defined.

(** ** The surface line *)

Lemma py_range_split lo hi l1 a l2 :
  py_range lo hi = l1 ++ a :: l2 → l1 = py_range lo a ∧ lo ≤ a < hi.
Proof.
  unfold py_range. intros E.
  assert (Ha : seqZ lo (hi - lo) !! length l1 = Some a).
  { rewrite E. by apply list_lookup_middle. }
  apply lookup_seqZ in Ha as [-> Hlt]. split; [|lia].
  replace (lo + Z.of_nat (length l1) - lo) with (Z.of_nat (length l1)) by lia.
  apply (f_equal (take (length l1))) in E. rewrite take_app_length in E.
  rewrite <- E at 1.
  replace (hi - lo) with (Z.of_nat (length l1) + (hi - lo - Z.of_nat (length l1))) by lia.
  rewrite seqZ_app by lia. by rewrite take_app_length' by (rewrite length_seqZ; lia).
Qed.

Section SurfaceLine.
Context {R : Type} `{!Generator R} `{!Oracles}.
Implicit Types (st : BlueprintGenerator_ (R:=R)) (g : Grid) (r : R).

(** X1.  After init and the Surface Carver a tile of the grid is Air iff
    its row is inside the slice [[:surface_line[x]]] of its column (row
    below [surface_line[x]] for a height that is not negative), and Fill
    otherwise. *)
Theorem surface_carver_tiles st st' :
  grid_ok st → _step2_surface (_step1_init st) = Ok st' →
  ∃ s, surface_line st' = Some s ∧
       Z.of_nat (length s) = width (cfg st) ∧
       ∀ x y, 0 ≤ x < width (cfg st) → 0 ≤ y < height (cfg st) →
         ∃ v, zlookup s x = Some v ∧
              cell (grid st') y x =
                Some (if decide (y < slice_bound v (height (cfg st))) then T_AIR else T_FILL) ∧
              (0 ≤ v → (y < slice_bound v (height (cfg st)) ↔ y < v)).
Proof.
  intros Hok Hrun.
  destruct (step2_spec _ _ (grid_ok_step1 _ Hok) Hrun) as (_ & s & Hs & Hlen & _ & Hsky & Hground).
  change (cfg (_step1_init st)) with (cfg st) in *.
  exists s. split_and!; [done..|]. intros x y Hx Hy.
  destruct (zlookup_lt s x) as [v Hv]; [lia|]. exists v. split; [done|].
  assert (Hfill : cell (grid (_step1_init st)) y x = Some T_FILL).
  { rewrite cell_step1.
    destruct (cell_inside (grid st) _ _ y x Hok) as [u ->]; done. }
  split.
  - case_decide as Hd.
    + rewrite Hsky; [by rewrite Hfill|]. exists v. split; [done|lia].
    + rewrite Hground; [done|]. intros (v' & Hv' & Hy'). simplify_eq. lia.
  - intros Hv0. rewrite slice_bound_nonneg by lia. lia.
Qed.

(** X2.  With a generator whose [integers] draws are in range, neighbouring
    columns of the surface line differ by at most [surface_step_max]. *)
Theorem surface_line_steps st st' s x a b :
  integers_in_range R →
  _step2_surface st = Ok st' → surface_line st' = Some s →
  zlookup s x = Some a → zlookup s (x + 1) = Some b →
  Z.abs (b - a) ≤ surface_step_max (cfg st).
Proof.
  intros Hlaw. unfold _step2_surface. case_decide as Hw; [done|]. intros Hrun.
  inv_bind Hrun. injection Hrun as <-. simpl. intros [= <-].
  unfold draw_integers in E. case_decide as Hmm; [|done].
  set (w := width (cfg st)) in *.
  set (y_min := surface_y_min (cfg st)) in *. set (y_max := surface_y_max (cfg st)) in *.
  set (step := surface_step_max (cfg st)) in *.
  revert x a b.
  eapply (foldM_inv_prefix (λ done (s : Z * Grid * R * list Z),
     Z.of_nat (length s.2) = w ∧
     (∀ x, x ∈ done → x + 1 ∉ done → zlookup s.2 x = Some s.1.1.1 ∧ y_min ≤ s.1.1.1 ≤ y_max) ∧
     (∀ x a b, x + 1 ∈ done → zlookup s.2 x = Some a → zlookup s.2 (x + 1) = Some b →
        Z.abs (b - a) ≤ step)))
    in E0.
  - simpl in E0. destruct E0 as (Hlen & _ & Hsteps). intros x a b Ha Hb.
    eapply Hsteps; [|done..]. apply elem_of_py_range. apply zlookup_bound in Ha, Hb. lia.
  - intros done x rest [[[y g] rr] s] [[[y' g'] rr'] s'] Hl (Hlen & Hlast & Hsteps) Hstep.
    simpl in *. inv_bind Hstep. injection Hstep as <- <- <- <-.
    unfold draw_integers in E1. case_decide as Hst; [|done]. injection E1 as E1.
    pose proof (Hlaw _ _ rr Hst) as Hdy. rewrite E1 in Hdy. simpl in Hdy.
    apply py_range_split in Hl as [-> Hx].
    match goal with |- context [zinsert x ?v s] => set (ynew := v) in * end.
    assert (Hlook : ∀ x', zlookup (zinsert x ynew s) x' =
       if decide (x' = x) then Some ynew else zlookup s x').
    { intros x'. case_decide as Hxx.
      - subst x'. rewrite zlookup_zinsert_eq.
        destruct (zlookup_lt s x) as [v ->]; [lia|done].
      - by rewrite zlookup_zinsert_ne. }
    split_and!.
    + by rewrite length_zinsert.
    + intros x' Hin Hnin. assert (x' = x) as ->.
      { apply elem_of_app in Hin as [Hin%elem_of_py_range|Hin%list_elem_of_singleton]; [|done].
        destruct (decide (x' + 1 = x)) as [E'|NE].
        - exfalso. apply Hnin. apply elem_of_app. right. rewrite E'. by left.
        - exfalso. apply Hnin. apply elem_of_app. left. apply elem_of_py_range. lia. }
      rewrite Hlook, decide_True by done. split; [done|]. unfold ynew, clip. lia.
    + intros x' a b Hin. rewrite !Hlook.
      apply elem_of_app in Hin as [Hin%elem_of_py_range|Hin%list_elem_of_singleton].
      * rewrite !decide_False by lia. apply Hsteps. apply elem_of_py_range. lia.
      * rewrite decide_False by lia. rewrite decide_True by done.
        intros Ha [= <-].
        destruct (Hlast x') as [Hy Hyr].
        { apply elem_of_py_range. apply zlookup_bound in Ha. lia. }
        { rewrite elem_of_py_range. lia. }
        rewrite Ha in Hy. injection Hy as ->. unfold ynew, clip. lia.
  - simpl. split_and!.
    + rewrite length_replicate. lia.
    + by intros x ?%elem_of_nil.
    + by intros x a b ?%elem_of_nil.
Qed.

End SurfaceLine.

(** ** More of the flood fill and the region filter *)

Lemma bfs_loop_prefix fuel w h g q v rg rg' v' :
  bfs_loop fuel w h g q v rg = Ok (rg', v') →
  rg `prefix_of` rg' ∧ ∀ c q', q = c :: q' → (rg ++ [c]) `prefix_of` rg'.
Proof.
  revert q v rg. induction fuel as [|fuel IH]; intros q v rg.
  - destruct q as [|[x y] q]; simpl; [|done].
    intros [= <- <-]. split; [done|]. by intros c q' ?.
  - destruct q as [|[x y] q].
    + simpl. intros [= <- <-]. split; [done|]. by intros c q' ?.
    + rewrite bfs_loop_cons. intros [Hp _]%IH. split.
      * etrans; [|done]. by apply prefix_app_r.
      * intros c q' [= <- <-]. done.
Qed.

(** X3.  The flood fill returns the region of its start tile: every Air
    tile that a path of 4-adjacent Air tiles joins to the start, each once
    and the start first, and it marks exactly these visited.  It needs no
    more than [w * h] iterations. *)
Theorem bfs_flood_returns_region w h (g : Grid) (v0 : Visited) sx sy :
  shape g h w → shape v0 h w → closed_visited g v0 →
  is_air_at g (sx, sy) → ¬ vis_at v0 (sx, sy) →
  ∃ rg v, _bfs_flood w h g sx sy v0 = Ok (rg, v) ∧
          head rg = Some (sx, sy) ∧ NoDup rg ∧
          (∀ c, c ∈ rg ↔ connected g (sx, sy) c) ∧
          (∀ c, vis_at v c ↔ vis_at v0 c ∨ c ∈ rg).
Proof.
  intros Hg Hv0 Hclosed Hair Hnv.
  destruct (bfs_flood_spec w h g v0 sx sy) as (rg & v & Hrun & _ & Hnd & Hrg & Hvis); [done..|].
  exists rg, v. split_and!; [done| |done..].
  apply bfs_loop_prefix in Hrun as [_ Hp].
  destruct (Hp (sx, sy) [] eq_refl) as [k ->]. done.
Qed.

Section FilterEffect.
Context (w h m : Z) (g0 : Grid).

Lemma filter_cell_keeps (c : BlueprintConfig) seen gv gv' x y :
  width c = w → height c = h → min_region_size c = m →
  filter_inv w h m g0 seen gv → filter_keeps m g0 gv.1 →
  filter_cell c gv y x = Ok gv' → filter_keeps m g0 gv'.1.
Proof.
  intros Hw Hh Hm [Hg Hv Hclosed Hbig Hseen Hsub Hsame] [Hkeep Hsolid].
  destruct gv as [g v]. unfold filter_cell. simpl in *. rewrite Hw, Hh, Hm.
  destruct (bool_decide (cell g y x = Some T_AIR)) eqn:Hair; simpl;
    [|intros [= <-]; by split].
  apply bool_decide_eq_true in Hair.
  destruct (bool_decide (cell v y x = Some false)) eqn:Hnv; simpl;
    [|intros [= <-]; by split].
  apply bool_decide_eq_true in Hnv.
  destruct (bfs_flood_spec w h g v x y Hg Hclosed Hv Hair) as (rg & v' & -> & Hv' & Hnd & Hrg & Hvis).
  { unfold vis_at. simpl. congruence. }
  simpl. case_decide as Hsmall; intros [= <-]; simpl; [|by split].
  split.
  - intros d Hd0 (l & Hl & Hconn & Hlen).
    pose proof (Hkeep d Hd0 (ex_intro _ l (conj Hl (conj Hconn Hlen)))) as Hd.
    unfold is_air_at. rewrite cell_fill_region. destruct d as [dx dy]. simpl.
    rewrite decide_False; [done|]. intros Hin.
    assert (Hsubl : l ⊆+ rg).
    { apply NoDup_submseteq; [done|]. intros e He. apply Hrg.
      etrans; [by apply Hrg|]. apply Hsame; [done|]. by apply Hconn. }
    apply submseteq_length in Hsubl. lia.
  - intros y' x' Hn. rewrite cell_fill_region. rewrite decide_False; [by apply Hsolid|].
    intros Hin%Hrg. apply (connected_air g) in Hin; [|done].
    apply Hsub in Hin. done.
Qed.

End FilterEffect.

Lemma filter_scan_keeps (c : BlueprintConfig) (g : Grid) (v : Visited) gv :
  shape g (height c) (width c) → new_visited (width c) (height c) = Ok v →
  filter_scan c (g, v) = Ok gv →
  filter_inv (width c) (height c) (min_region_size c) g (row_major (width c) (height c)) gv ∧
  filter_keeps (min_region_size c) g gv.1.
Proof.
  intros Hg Hv. unfold filter_scan.
  rewrite (foldM_row_major (λ gv y x, filter_cell c gv y x)).
  intros Hrun.
  eapply (foldM_inv_prefix (λ seen gv,
     filter_inv (width c) (height c) (min_region_size c) g seen gv ∧
     filter_keeps (min_region_size c) g gv.1)) in Hrun; [done| |].
  - intros l1 [x y] l2 gv1 gv2 Hl [Hinv Hk] Hstep.
    assert (Hin : (x, y) ∈ row_major (width c) (height c)).
    { rewrite Hl. apply elem_of_app. right. by left. }
    apply elem_of_row_major in Hin as [Hx Hy]. simpl in *.
    destruct (filter_cell_spec (width c) (height c) (min_region_size c) g c l1 gv1 x y)
      as (gv3 & Hgv3 & Hinv3); [done..|].
    rewrite Hstep in Hgv3. injection Hgv3 as <-. split; [done|].
    by apply (filter_cell_keeps (width c) (height c) (min_region_size c) g c l1 gv1 gv2 x y).
  - pose proof (vis_at_new_visited _ _ _ Hv) as [Hshape Hnew].
    split; [|by split].
    constructor; simpl; try done.
    + intros a b _ Ha. by apply Hnew in Ha.
    + intros a _ Ha. by apply Hnew in Ha.
    + by intros a ?%elem_of_nil.
Qed.

Section FilterTiles.
Context {R : Type} `{!Generator R} `{!Oracles}.
Implicit Types (st : BlueprintGenerator_ (R:=R)).

Lemma step5_effect st st' :
  grid_ok st → _step5_filter st = Ok st' →
  regions_filtered (min_region_size (cfg st)) (grid st) (grid st') ∧
  filter_keeps (min_region_size (cfg st)) (grid st) (grid st') ∧
  shape (grid st') (height (cfg st)) (width (cfg st)) ∧
  st' = with_grid st (grid st').
Proof.
  intros Hok. unfold _step5_filter. intros Hrun. inv_bind Hrun. injection Hrun as <-.
  destruct (filter_scan_keeps _ _ _ _ Hok E E0) as [[Hg' Hv' _ Hbig Hseen Hsub Hsame] Hk].
  simpl. split_and!; [|done..].
  intros c Hc. split_and!.
  - apply Hbig; [done|]. apply Hseen; [|done].
    apply elem_of_row_major. by eapply is_air_at_inside.
  - by apply Hsub.
  - intros d. split; [by apply Hsame|]. by apply connected_sub.
Qed.

(** X4.  What the Region Filter does to each tile: an Air tile whose
    region has at least [min_region_size] tiles stays Air, an Air tile of
    a smaller region becomes Fill, and a tile that is not Air is left as it
    is. *)
Theorem region_filter_effect st st' c :
  grid_ok st → _step5_filter st = Ok st' →
  (is_air_at (grid st) c → big_region (min_region_size (cfg st)) (grid st) c →
     is_air_at (grid st') c) ∧
  (is_air_at (grid st) c → ¬ big_region (min_region_size (cfg st)) (grid st) c →
     cell (grid st') c.2 c.1 = Some T_FILL) ∧
  (¬ is_air_at (grid st) c → cell (grid st') c.2 c.1 = cell (grid st) c.2 c.1).
Proof.
  intros Hok Hrun.
  destruct (step5_effect st st' Hok Hrun) as (Hreg & [Hkeep Hsolid] & _ & _).
  pose proof (step5_writes _ _ Hrun) as [[_ W] _].
  split_and!.
  - apply Hkeep.
  - intros Ha Hsmall. destruct (W c.2 c.1) as [E|(v & -> & E)]; [|done].
    exfalso. apply Hsmall.
    assert (Hc' : is_air_at (grid st') c) by (unfold is_air_at; congruence).
    destruct (Hreg c Hc') as ((l & Hl & Hconn & Hlen) & _ & Hsame).
    exists l. split_and!; [done| |done]. intros d Hd. by apply Hsame, Hconn.
  - intros Hn. by apply Hsolid.
Qed.

(** X5.  The Region Filter is idempotent: run on its own result it
    returns, and changes nothing. *)
Theorem region_filter_idempotent st st' :
  grid_ok st → _step5_filter st = Ok st' → _step5_filter st' = Ok st'.
Proof.
  intros Hok Hrun.
  destruct (step5_effect st st' Hok Hrun) as (Hreg & _ & Hshape & Hst').
  assert (Hcfg : cfg st' = cfg st) by (by rewrite Hst').
  assert (Hok' : grid_ok st') by (unfold grid_ok; by rewrite Hcfg).
  assert (Hw : 0 ≤ width (cfg st')).
  { unfold _step5_filter, new_visited in Hrun. rewrite Hcfg. case_decide; [done|lia]. }
  destruct (region_filter_spec st' Hok' Hw) as (st2 & Hrun2 & _).
  rewrite Hrun2. f_equal.
  destruct (step5_effect st' st2 Hok' Hrun2) as (_ & [Hkeep Hsolid] & Hshape2 & Hst2).
  assert (Hgrid : grid st2 = grid st').
  { rewrite Hcfg in Hshape2.
    apply (shape_cell_ext _ _ _ _ Hshape2 Hshape). intros y x.
    destruct (decide (cell (grid st') y x = Some T_AIR)) as [Ha|Hn]; [|by apply Hsolid].
    rewrite Ha. apply (Hkeep (x, y)); [done|].
    rewrite Hcfg. by apply (Hreg (x, y)). }
  rewrite Hst2, Hgrid. by destruct st'.
Qed.

End FilterTiles.

(** ** Step 6: the regions and their tunnels *)

Lemma closed_connected g v a b :
  closed_visited g v → connected g a b → vis_at v a → vis_at v b.
Proof.
  intros Hcl Hc. induction Hc as [|a b c Hab _ IH]; [done|].
  intros Ha. apply IH. by apply (Hcl a b).
Qed.

Lemma bfs_flood_region w h (g : Grid) (v0 : Visited) sx sy :
  shape g h w → shape v0 h w → closed_visited g v0 →
  is_air_at g (sx, sy) → ¬ vis_at v0 (sx, sy) →
  ∃ rg v, _bfs_flood w h g sx sy v0 = Ok (rg, v) ∧
          shape v h w ∧ closed_visited g v ∧ air_region g rg ∧
          head rg = Some (sx, sy) ∧
          (∀ c, c ∈ rg → ¬ vis_at v0 c) ∧
          (∀ c, vis_at v c ↔ vis_at v0 c ∨ c ∈ rg).
Proof.
  intros Hg Hv0 Hclosed Hair Hnv.
  destruct (bfs_flood_spec w h g v0 sx sy) as (rg & v & Hrun & Hv & Hnd & Hrg & Hvis); [done..|].
  exists rg, v.
  assert (Hhead : head rg = Some (sx, sy)).
  { apply bfs_loop_prefix in Hrun as [_ Hp].
    by destruct (Hp (sx, sy) [] eq_refl) as [k ->]. }
  split_and!; [done..| | |done| |done].
  - intros a b Hab. rewrite !Hvis. intros [Hva|Hin].
    + left. by apply (Hclosed a b).
    + right. apply Hrg. eapply rtc_r; [by apply Hrg|done].
  - by exists (sx, sy).
  - intros c Hc%Hrg Hvc. apply Hnv.
    apply (closed_connected g v0 c); [done| |done]. by apply connected_sym.
Qed.

Lemma find_cell_spec (c : BlueprintConfig) g seen rv x y :
  shape g (height c) (width c) →
  find_inv (width c) (height c) g seen rv → 0 ≤ x < width c → 0 ≤ y < height c →
  ∃ rv', find_cell c g rv y x = Ok rv' ∧
         find_inv (width c) (height c) g (seen ++ [(x, y)]) rv'.
Proof.
  intros Hg [Hv Hclosed Hregions Hfound Hseen Honce] Hx Hy.
  destruct rv as [rs v]. unfold find_cell. simpl in *.
  destruct (bool_decide (cell g y x = Some T_AIR)) eqn:Hair; simpl.
  2:{ eexists. split; [done|]. constructor; try done. simpl.
      intros d [Hd| ->%list_elem_of_singleton]%elem_of_app Ha; [by apply Hseen|].
      apply bool_decide_eq_false in Hair. done. }
  apply bool_decide_eq_true in Hair.
  destruct (bool_decide (cell v y x = Some false)) eqn:Hnv; simpl.
  2:{ eexists. split; [done|]. constructor; try done. simpl.
      intros d [Hd| ->%list_elem_of_singleton]%elem_of_app Ha; [by apply Hseen|].
      apply bool_decide_eq_false in Hnv. unfold vis_at. simpl.
      destruct (cell_inside v _ _ y x Hv) as [[] E]; [lia..|done|congruence]. }
  apply bool_decide_eq_true in Hnv.
  destruct (bfs_flood_region _ _ g v x y Hg Hv Hclosed Hair)
    as (rg & v' & -> & Hv' & Hclosed' & Hrg & Hhead & Hfresh & Hvis).
  { unfold vis_at. simpl. congruence. }
  simpl. eexists. split; [done|]. constructor; simpl; try done.
  - intros rg' [Hin| ->%list_elem_of_singleton]%elem_of_app; [by apply Hregions|done].
  - intros d. rewrite Hvis, Hfound. split.
    + intros [(rg' & Hin & Hd)|Hd].
      * exists rg'. split; [|done]. apply elem_of_app. by left.
      * exists rg. split; [|done]. apply elem_of_app. right. by left.
    + intros (rg' & [Hin| ->%list_elem_of_singleton]%elem_of_app & Hd); [|by right].
      left. by exists rg'.
  - intros d Hd Ha. apply Hvis. apply elem_of_app in Hd as [Hd| ->%list_elem_of_singleton].
    + left. by apply Hseen.
    + right. destruct Hrg as (s & Hs & _ & _ & Hrg). rewrite Hhead in Hs.
      injection Hs as <-. apply Hrg, rtc_refl.
  - assert (Hold : ∀ i rg1 d, rs !! i = Some rg1 → d ∈ rg1 → d ∈ rg → False).
    { intros i rg1 d Hi Hd1 Hd. apply (Hfresh d Hd). apply Hfound.
      exists rg1. split; [|done]. by eapply list_elem_of_lookup_2. }
    intros i j rg1 rg2 d Hi Hj Hd1 Hd2.
    destruct (decide (i < length rs)%nat) as [Hil|Hil],
             (decide (j < length rs)%nat) as [Hjl|Hjl].
    + rewrite lookup_app_l in Hi, Hj by done. by eapply Honce.
    + rewrite lookup_app_l in Hi by done. rewrite lookup_app_r in Hj by lia.
      apply list_lookup_singleton_Some in Hj as [_ <-]. by destruct (Hold i rg1 d).
    + rewrite lookup_app_l in Hj by done. rewrite lookup_app_r in Hi by lia.
      apply list_lookup_singleton_Some in Hi as [_ <-]. by destruct (Hold j rg2 d).
    + rewrite lookup_app_r in Hi, Hj by lia.
      apply list_lookup_singleton_Some in Hi as [Hi _].
      apply list_lookup_singleton_Some in Hj as [Hj _]. lia.
Qed.

Lemma find_air_regions_spec (c : BlueprintConfig) g :
  shape g (height c) (width c) → 0 ≤ width c →
  ∃ regions, _find_air_regions c g = Ok regions ∧ air_regions g regions.
Proof.
  intros Hg Hw. unfold _find_air_regions.
  assert (Hh : 0 ≤ height c) by (destruct Hg as [<- _]; unfold nrows; lia).
  destruct (new_visited (width c) (height c)) as [v| |] eqn:Hv;
    try (unfold new_visited in Hv; case_decide; [lia|done]).
  simpl. rewrite (foldM_row_major (λ rv y x, find_cell c g rv y x)).
  destruct (foldM_total (find_inv (width c) (height c) g)
    (λ rv (a : Z * Z), find_cell c g rv a.2 a.1)
    (row_major (width c) (height c)) ([], v)) as (rv & -> & Hinv).
  - intros l1 [x y] l2 rv Hl Hinv.
    assert (Hin : (x, y) ∈ row_major (width c) (height c)).
    { rewrite Hl. apply elem_of_app. right. by left. }
    apply elem_of_row_major in Hin as [Hx Hy]. simpl in *.
    by apply find_cell_spec.
  - pose proof (vis_at_new_visited _ _ _ Hv) as [Hshape Hnew].
    constructor; simpl; try done.
    + intros a b _ Ha. by apply Hnew in Ha.
    + by intros rg ?%elem_of_nil.
    + intros d. split; [by intros ?%Hnew|]. by intros (rg & ?%elem_of_nil & _).
    + by intros a ?%elem_of_nil.
  - simpl. eexists. split; [done|].
    destruct Hinv as [_ _ Hregions Hfound Hseen Honce].
    split_and!; [done| |done].
    intros d Hd. apply Hfound, Hseen; [|done].
    apply elem_of_row_major. by eapply is_air_at_inside.
Qed.

(** X6.  [_find_air_regions] returns the regions of air of the grid: each
    list is one whole region (the Air tiles joined to its first tile by a
    path of 4-adjacent Air tiles), without repetition, and every Air tile is
    in exactly one of the lists. *)
Theorem find_air_regions_partitions (c : BlueprintConfig) g :
  shape g (height c) (width c) → 0 ≤ width c →
  ∃ regions, _find_air_regions c g = Ok regions ∧ air_regions g regions.
Proof. apply find_air_regions_spec. Qed.

Lemma is_air_put (g : Grid) h w y x c :
  shape g h w → 0 ≤ x < w → 0 ≤ y < h →
  is_air_at (put g y x T_AIR) c ↔ c = (x, y) ∨ is_air_at g c.
Proof.
  intros Hg Hx Hy. unfold is_air_at. rewrite cell_put. destruct c as [cx cy]. simpl.
  case_decide as E.
  - injection E as -> ->. destruct (cell_inside g h w y x Hg) as [u ->]; [lia..|].
    simpl. split; [by left|done].
  - split; [by right|]. intros [[= -> ->]|?]; done.
Qed.

(** The air after a loop of stores of Air. *)
Lemma is_air_foldl {B} (F : Grid → B → Grid) (Q : B → Prop) h w (l : list B) (g : Grid) c :
  (∀ g i, shape g h w → shape (F g i) h w) →
  (∀ g i, shape g h w → is_air_at (F g i) c ↔ Q i ∨ is_air_at g c) →
  shape g h w →
  shape (foldl F g l) h w ∧
  (is_air_at (foldl F g l) c ↔ (∃ i, i ∈ l ∧ Q i) ∨ is_air_at g c).
Proof.
  intros HF HQ. revert g. induction l as [|i l IH]; intros g Hg; simpl.
  - split; [done|]. split; [by right|]. by intros [(i & ?%elem_of_nil & _)|?].
  - destruct (IH (F g i)) as [Hs Hiff]; [by apply HF|]. split; [done|].
    rewrite Hiff, HQ by done. split.
    + intros [(j & Hj & Hq)|[Hq|Ha]].
      * left. exists j. split; [by right|done].
      * left. exists i. split; [by left|done].
      * by right.
    + intros [(j & [->|Hj]%elem_of_cons & Hq)|Ha].
      * right. by left.
      * left. by exists j.
      * right. by right.
Qed.

Lemma carve_l_tunnel_air (c : BlueprintConfig) a b (g : Grid) d :
  shape g (height c) (width c) →
  shape (_carve_l_tunnel c a b g) (height c) (width c) ∧
  (is_air_at (_carve_l_tunnel c a b g) d ↔ in_l_tunnel c a b d ∨ is_air_at g d).
Proof.
  intros Hg. destruct a as [ax ay], b as [bx by_]. unfold _carve_l_tunnel. cbv zeta.
  set (half := tunnel_min_width c `div` 2). set (w := width c) in *. set (h := height c) in *.
  assert (Hstep : ∀ (g : Grid) y x, shape g h w →
    shape (if decide (0 ≤ x < w ∧ 0 ≤ y < h) then put g y x T_AIR else g) h w ∧
    (is_air_at (if decide (0 ≤ x < w ∧ 0 ≤ y < h) then put g y x T_AIR else g) d ↔
       ((0 ≤ x < w ∧ 0 ≤ y < h) ∧ d = (x, y)) ∨ is_air_at g d)).
  { intros g1 y x Hg1. case_decide as Hin.
    - split; [by apply shape_put|]. rewrite (is_air_put g1 h w) by tauto. tauto.
    - split; [done|]. tauto. }
  set (F1 := λ (g : Grid) (x : Z),
    foldl (λ (g : Grid) (dy : Z),
             if decide (0 ≤ x < w ∧ 0 ≤ ay + dy < h) then put g (ay + dy) x T_AIR else g)
          g (py_range (- half) (half + 1))).
  set (F2 := λ (g : Grid) (y : Z),
    foldl (λ (g : Grid) (dx : Z),
             if decide (0 ≤ bx + dx < w ∧ 0 ≤ y < h) then put g y (bx + dx) T_AIR else g)
          g (py_range (- half) (half + 1))).
  assert (H1 : ∀ (g : Grid) x, shape g h w →
    shape (F1 g x) h w ∧
    (is_air_at (F1 g x) d ↔
       (∃ dy, dy ∈ py_range (- half) (half + 1) ∧
              (0 ≤ x < w ∧ 0 ≤ ay + dy < h) ∧ d = (x, ay + dy)) ∨ is_air_at g d)).
  { intros g1 x Hg1. unfold F1.
    apply (is_air_foldl _ (λ dy, (0 ≤ x < w ∧ 0 ≤ ay + dy < h) ∧ d = (x, ay + dy)) h w);
      [| |done]; intros g2 dy Hg2; by apply Hstep. }
  assert (H2 : ∀ (g : Grid) y, shape g h w →
    shape (F2 g y) h w ∧
    (is_air_at (F2 g y) d ↔
       (∃ dx, dx ∈ py_range (- half) (half + 1) ∧
              (0 ≤ bx + dx < w ∧ 0 ≤ y < h) ∧ d = (bx + dx, y)) ∨ is_air_at g d)).
  { intros g1 y Hg1. unfold F2.
    apply (is_air_foldl _ (λ dx, (0 ≤ bx + dx < w ∧ 0 ≤ y < h) ∧ d = (bx + dx, y)) h w);
      [| |done]; intros g2 dx Hg2; by apply Hstep. }
  destruct (is_air_foldl F1 _ h w (py_range (Z.min ax bx) (Z.max ax bx + 1)) g d
              (λ g x Hg, proj1 (H1 g x Hg)) (λ g x Hg, proj2 (H1 g x Hg)) Hg) as [Hs1 Ha1].
  destruct (is_air_foldl F2 _ h w (py_range (Z.min ay by_) (Z.max ay by_ + 1)) _ d
              (λ g x Hg, proj1 (H2 g x Hg)) (λ g x Hg, proj2 (H2 g x Hg)) Hs1) as [Hs2 Ha2].
  split; [done|]. rewrite Ha2, Ha1. unfold in_l_tunnel. cbv zeta. fold half w h. simpl.
  destruct d as [dx' dy']. simpl. split.
  - intros [(y & Hy%elem_of_py_range & dx & Hdx%elem_of_py_range & Hin & [= -> ->])
           |[(x & Hx%elem_of_py_range & dy & Hdy%elem_of_py_range & Hin & [= -> ->])|Ha]].
    + left. split; [lia|]. right. lia.
    + left. split; [lia|]. left. lia.
    + by right.
  - intros [[Hin [Hleg|Hleg]]|Ha].
    + right. left. exists dx'. split; [apply elem_of_py_range; lia|].
      exists (dy' - ay). split; [apply elem_of_py_range; lia|].
      split; [lia|]. f_equal. lia.
    + left. exists dy'. split; [apply elem_of_py_range; lia|].
      exists (dx' - bx). split; [apply elem_of_py_range; lia|].
      split; [lia|]. f_equal. lia.
    + right. by right.
Qed.

Lemma connected_row_up g y x1 (n : nat) :
  (∀ x, x1 ≤ x ≤ x1 + Z.of_nat n → is_air_at g (x, y)) →
  connected g (x1, y) (x1 + Z.of_nat n, y).
Proof.
  induction n as [|n IH]; intros Ha.
  - replace (x1 + Z.of_nat 0) with x1 by lia. apply rtc_refl.
  - eapply rtc_r; [apply IH; intros; apply Ha; lia|].
    split_and!; [apply Ha; lia..|]. simpl. unfold neighbours.
    rewrite !elem_of_cons. right. left. f_equal. lia.
Qed.

Lemma connected_row g y x1 x2 :
  (∀ x, Z.min x1 x2 ≤ x ≤ Z.max x1 x2 → is_air_at g (x, y)) →
  connected g (x1, y) (x2, y).
Proof.
  intros Ha. destruct (decide (x1 ≤ x2)).
  - replace x2 with (x1 + Z.of_nat (Z.to_nat (x2 - x1))) by lia.
    apply connected_row_up. intros. apply Ha. lia.
  - apply connected_sym.
    replace x1 with (x2 + Z.of_nat (Z.to_nat (x1 - x2))) by lia.
    apply connected_row_up. intros. apply Ha. lia.
Qed.

Lemma connected_col_up g x y1 (n : nat) :
  (∀ y, y1 ≤ y ≤ y1 + Z.of_nat n → is_air_at g (x, y)) →
  connected g (x, y1) (x, y1 + Z.of_nat n).
Proof.
  induction n as [|n IH]; intros Ha.
  - replace (y1 + Z.of_nat 0) with y1 by lia. apply rtc_refl.
  - eapply rtc_r; [apply IH; intros; apply Ha; lia|].
    split_and!; [apply Ha; lia..|]. simpl. unfold neighbours.
    rewrite !elem_of_cons. do 3 right. left. f_equal. lia.
Qed.

Lemma connected_col g x y1 y2 :
  (∀ y, Z.min y1 y2 ≤ y ≤ Z.max y1 y2 → is_air_at g (x, y)) →
  connected g (x, y1) (x, y2).
Proof.
  intros Ha. destruct (decide (y1 ≤ y2)).
  - replace y2 with (y1 + Z.of_nat (Z.to_nat (y2 - y1))) by lia.
    apply connected_col_up. intros. apply Ha. lia.
  - apply connected_sym.
    replace y1 with (y2 + Z.of_nat (Z.to_nat (y1 - y2))) by lia.
    apply connected_col_up. intros. apply Ha. lia.
Qed.

(** Every tile of an L-tunnel is joined to its start. *)
Lemma carve_l_tunnel_joins (c : BlueprintConfig) a b (g g' : Grid) d :
  0 ≤ tunnel_min_width c →
  0 ≤ a.1 < width c ∧ 0 ≤ a.2 < height c →
  0 ≤ b.1 < width c ∧ 0 ≤ b.2 < height c →
  (∀ e, in_l_tunnel c a b e → is_air_at g' e) →
  in_l_tunnel c a b d → connected g' a d.
Proof.
  intros Hw Ha Hb Hair. destruct a as [ax ay], b as [bx by_], d as [x y].
  unfold in_l_tunnel in *. cbv zeta in *. simpl in *.
  assert (Hhalf : 0 ≤ tunnel_min_width c `div` 2) by (apply Z.div_pos; lia).
  set (half := tunnel_min_width c `div` 2) in *.
  intros [Hin [Hleg|Hleg]].
  - etrans; [apply (connected_row g' ay ax x)|apply (connected_col g' x ay y)].
    + intros x' Hx'. apply Hair. simpl. lia.
    + intros y' Hy'. apply Hair. simpl. lia.
  - etrans; [apply (connected_row g' ay ax bx)|].
    { intros x' Hx'. apply Hair. simpl. lia. }
    etrans; [apply (connected_col g' bx ay y)|apply (connected_row g' y bx x)].
    + intros y' Hy'. apply Hair. simpl. lia.
    + intros x' Hx'. apply Hair. simpl. lia.
Qed.

(** X7.  An L-tunnel between two tiles of the grid joins them: after
    [_carve_l_tunnel(a, b)] a path of 4-adjacent Air tiles leads from [a] to
    [b]; the tunnel opens the tiles of its two bands that are inside the
    grid, and no other. *)
Theorem l_tunnel_joins_its_ends (c : BlueprintConfig) a b (g : Grid) :
  shape g (height c) (width c) → 0 ≤ tunnel_min_width c →
  0 ≤ a.1 < width c ∧ 0 ≤ a.2 < height c →
  0 ≤ b.1 < width c ∧ 0 ≤ b.2 < height c →
  connected (_carve_l_tunnel c a b g) a b ∧
  ∀ d, is_air_at (_carve_l_tunnel c a b g) d ↔ in_l_tunnel c a b d ∨ is_air_at g d.
Proof.
  intros Hg Hw Ha Hb. split; [|intros d; by apply carve_l_tunnel_air].
  apply (carve_l_tunnel_joins c a b g); [done..| |].
  - intros e He. apply carve_l_tunnel_air; [done|]. by left.
  - unfold in_l_tunnel. cbv zeta.
    assert (0 ≤ tunnel_min_width c `div` 2) by (apply Z.div_pos; lia).
    split; [done|]. right. lia.
Qed.

Lemma foldl_inv_from {A S} (I : list A → S → Prop) (f : S → A → S) (seen l : list A) s :
  (∀ l1 a s, I l1 s → I (l1 ++ [a]) (f s a)) →
  I seen s → I (seen ++ l) (foldl f s l).
Proof.
  intros Hf. revert seen s. induction l as [|a l IH]; intros seen s Hs; simpl.
  - by rewrite app_nil_r.
  - rewrite cons_middle, app_assoc. apply IH. by apply Hf.
Qed.

Lemma foldl_bind {A B S} (f : S → B → S) (k : A → list B) (l : list A) s :
  foldl f s (l ≫= k) = foldl (λ s a, foldl f s (k a)) s l.
Proof.
  revert s. induction l as [|a l IH]; intros s; [done|].
  rewrite bind_cons, foldl_app. apply IH.
Qed.

(** The pair that [closest_pair] returns is a sampled pair at the least
    Manhattan distance. *)
Lemma closest_pair_spec (sr ss : list (Z * Z)) :
  match closest_pair sr ss with
  | None => sr = [] ∨ ss = []
  | Some (d, a, b) =>
    a ∈ sr ∧ b ∈ ss ∧ d = manhattan a b ∧
    ∀ a' b', a' ∈ sr → b' ∈ ss → d ≤ manhattan a' b'
  end.
Proof.
  set (step := λ (best : option (Z * (Z * Z) * (Z * Z))) (p : (Z * Z) * (Z * Z)),
    let d := Z.abs (p.1.1 - p.2.1) + Z.abs (p.1.2 - p.2.2) in
    match best with
    | None => Some (d, p.1, p.2)
    | Some (best_dist, _, _) => if decide (d < best_dist) then Some (d, p.1, p.2) else best
    end).
  set (pairs := a ← sr; (λ b, (a, b)) <$> ss).
  assert (Hflat : closest_pair sr ss = foldl step None pairs).
  { unfold closest_pair, pairs. rewrite foldl_bind. generalize (@None (Z * (Z * Z) * (Z * Z))).
    induction sr as [|a sr IH]; intros best; [done|]. simpl.
    rewrite foldl_fmap. apply IH. }
  assert (Hin : ∀ a b, (a, b) ∈ pairs ↔ a ∈ sr ∧ b ∈ ss).
  { intros a b. unfold pairs. rewrite list_elem_of_bind. split.
    - intros (a' & (b' & [= -> ->] & Hb)%list_elem_of_fmap & Ha). done.
    - intros [Ha Hb]. exists a. split; [|done]. apply list_elem_of_fmap. by exists b. }
  rewrite Hflat.
  pose proof (foldl_inv_from (λ seen best,
    match best with
    | None => seen = []
    | Some (d, a, b) => (a, b) ∈ seen ∧ d = manhattan a b ∧
                        ∀ p, p ∈ seen → d ≤ manhattan p.1 p.2
    end) step [] pairs None) as Hinv.
  simpl in Hinv. destruct (foldl step None pairs) as [[[d a] b]|].
  - destruct Hinv as (Hab & Hd & Hmin); [|done|].
    + intros l1 [a1 b1] [[[d0 a0] b0]|].
      * intros (Hin0 & -> & Hmin). unfold step. simpl.
        fold (manhattan a1 b1). case_decide as Hlt.
        -- split_and!; [apply elem_of_app; right; by left|done|].
           intros p [Hp| ->%list_elem_of_singleton]%elem_of_app; [|done].
           specialize (Hmin p Hp). lia.
        -- split_and!; [apply elem_of_app; by left|done|].
           intros p [Hp| ->%list_elem_of_singleton]%elem_of_app; [by apply Hmin|].
           simpl. lia.
      * intros ->. unfold step. simpl. fold (manhattan a1 b1).
        split_and!; [by left|done|]. by intros p ->%list_elem_of_singleton.
    + apply Hin in Hab as [Ha Hb]. split_and!; [done..|].
      intros a' b' Ha' Hb'. apply (Hmin (a', b')). by apply Hin.
  - destruct sr as [|a sr]; [by left|]. destruct ss as [|b ss]; [by right|].
    exfalso. assert (Hp : (a, b) ∈ pairs) by (apply Hin; split; by left).
    rewrite Hinv in Hp; [by apply elem_of_nil in Hp| |done].
    intros l1 [a1 b1] [[[d0 a0] b0]|]; unfold step; simpl.
    + intros (Hin0 & -> & Hmin). fold (manhattan a1 b1). case_decide as Hlt.
      -- split_and!; [apply elem_of_app; right; by left|done|].
         intros p [Hp'| ->%list_elem_of_singleton]%elem_of_app; [|done].
         specialize (Hmin p Hp'). lia.
      -- split_and!; [apply elem_of_app; by left|done|].
         intros p [Hp'| ->%list_elem_of_singleton]%elem_of_app; [by apply Hmin|].
         simpl. lia.
    + intros ->. fold (manhattan a1 b1).
      split_and!; [by left|done|]. by intros p ->%list_elem_of_singleton.
Qed.

Lemma mapM_getitem1 {A} (l : list A) (js : list Z) :
  (∀ j, j ∈ js → 0 ≤ j < Z.of_nat (length l)) →
  ∃ out, mapM (getitem1 l) js = Ok out ∧ length out = length js ∧ ∀ c, c ∈ out → c ∈ l.
Proof.
  induction js as [|j js IH]; intros Hjs; simpl.
  - exists []. split_and!; [done..|]. by intros c ?%elem_of_nil.
  - destruct IH as (out & -> & Hlen & Hout); [intros; apply Hjs; by right|].
    destruct (zlookup_lt l j) as [v Hv]; [apply Hjs; by left|].
    assert (Hg : getitem1 l j = Ok v).
    { apply getitem1_Ok. exists j. split; [|done]. apply np_index_Ok. left.
      split; [|done]. apply Hjs. by left. }
    rewrite Hg. simpl. eexists. split; [done|]. split; [simpl; by rewrite Hlen|].
    intros c [->|Hc]%elem_of_cons; [|by apply Hout].
    apply zlookup_Some in Hv as [_ Hv]. by eapply list_elem_of_lookup_2.
Qed.

Lemma surface_region_index_valid h (regions : list (list (Z * Z))) :
  regions ≠ [] → (surface_region_index h regions < length regions)%nat.
Proof.
  intros Hne. unfold surface_region_index.
  pose proof (foldl_inv_from (λ (seen : list (nat * list (Z * Z))) (acc : Z * nat),
    acc.2 = 0%nat ∨ ∃ rg, (acc.2, rg) ∈ seen)
    (λ acc ir, foldl (λ (acc : Z * nat) (xy : Z * Z),
                        if decide (xy.2 < acc.1) then (xy.2, ir.1) else acc) acc ir.2)
    [] (imap (λ i (region : list (Z * Z)), (i, region)) regions) (h, 0%nat)) as Hinv.
  simpl in Hinv. destruct Hinv as [-> | (rg & Hin)].
  - intros l1 [i rg] acc Hacc. simpl.
    assert (Hgen : ∀ (cells : list (Z * Z)) (acc : Z * nat),
      foldl (λ (acc : Z * nat) (xy : Z * Z),
               if decide (xy.2 < acc.1) then (xy.2, i) else acc) acc cells = acc ∨
      (foldl (λ (acc : Z * nat) (xy : Z * Z),
                if decide (xy.2 < acc.1) then (xy.2, i) else acc) acc cells).2 = i).
    { induction cells as [|xy cells IH]; intros acc0; simpl; [by left|].
      destruct (IH (if decide (xy.2 < acc0.1) then (xy.2, i) else acc0)) as [->|?]; [|by right].
      case_decide; [by right|by left]. }
    destruct (Hgen rg acc) as [-> | ->].
    + destruct Hacc as [?|(rg' & ?)]; [by left|].
      right. exists rg'. apply elem_of_app. by left.
    + right. exists rg. apply elem_of_app. right. by left.
  - by left.
  - destruct regions; [done|simpl; lia].
  - apply elem_of_lookup_imap_1 in Hin as (i & y & [= -> ->] & Hi).
    by apply lookup_lt_Some in Hi.
Qed.

Lemma air_region_nonempty g rg : air_region g rg → (0 < length rg)%nat.
Proof. intros (s & Hs & _). destruct rg; [done|simpl; lia]. Qed.

Lemma air_region_air g rg d : air_region g rg → d ∈ rg → is_air_at g d.
Proof. intros (s & _ & Hs & _ & Hrg) Hd%Hrg. by eapply connected_air. Qed.

Lemma air_region_joined g rg d e :
  air_region g rg → d ∈ rg → e ∈ rg → connected g d e.
Proof.
  intros (s & _ & _ & _ & Hrg) Hd%Hrg He%Hrg.
  etrans; [by apply connected_sym|done].
Qed.

Lemma connected_mono (g g' : Grid) a b :
  (∀ c, is_air_at g c → is_air_at g' c) → connected g a b → connected g' a b.
Proof. intros Hm. by apply connected_sub. Qed.

Section Connect.
Context {R : Type} `{!Generator R} `{!Oracles}.
Implicit Types (st : BlueprintGenerator_ (R:=R)) (g : Grid) (r : R).

Lemma connect_region_spec (c : BlueprintConfig) g0 rs seen (s : Grid * R * list (Z * Z)) i rg :
  choice_in_range R → set_iteration_keeps →
  shape g0 (height c) (width c) → 0 ≤ tunnel_min_width c →
  air_region g0 rs → air_region g0 rg →
  connect_inv (width c) (height c) g0 rs seen s →
  ∃ s', connect_region c s rg = Ok s' ∧
        connect_inv (width c) (height c) g0 rs (seen ++ [(i, rg)]) s'.
Proof.
  intros Hchoice Hset Hg0 Hw Hrs Hrg [Hshape Hmono Hsurface Hair Hjoined Hseen Hcarved].
  destruct s as [[g r] sset]. simpl in *. unfold connect_region.
  pose proof (air_region_nonempty _ _ Hrg) as Hn.
  destruct (rng_choice (Z.of_nat (length rg)) (Z.min 200 (Z.of_nat (length rg))) r)
    as [js r1] eqn:Ejs.
  destruct (Hchoice (Z.of_nat (length rg)) (Z.min 200 (Z.of_nat (length rg))) r) as [Hjs1 Hjs2];
    [lia|]. rewrite Ejs in Hjs1, Hjs2. simpl in Hjs1, Hjs2.
  destruct (mapM_getitem1 rg js Hjs2) as (sr & -> & Hsrlen & Hsr). simpl.
  assert (Hss0 : ∃ d, d ∈ set_iteration sset).
  { destruct Hrs as (s0 & Hs0 & _ & _ & Hrs). exists s0. apply Hset, Hsurface, Hrs, rtc_refl. }
  assert (Hm : (0 < length (set_iteration sset))%nat).
  { destruct Hss0 as [d Hd]. destruct (set_iteration sset); [by apply elem_of_nil in Hd|simpl; lia]. }
  destruct (rng_choice (Z.of_nat (length (set_iteration sset)))
              (Z.min 200 (Z.of_nat (length (set_iteration sset)))) r1) as [ks r2] eqn:Eks.
  destruct (Hchoice (Z.of_nat (length (set_iteration sset)))
              (Z.min 200 (Z.of_nat (length (set_iteration sset)))) r1) as [Hks1 Hks2];
    [lia|]. rewrite Eks in Hks1, Hks2. simpl in Hks1, Hks2.
  destruct (mapM_getitem1 (set_iteration sset) ks Hks2) as (ss & -> & Hsslen & Hss). simpl.
  pose proof (closest_pair_spec sr ss) as Hcp.
  destruct (closest_pair sr ss) as [[[d a] b]|].
  2:{ exfalso. destruct Hcp as [-> | ->].
      - destruct js; [done|simpl in Hsrlen; lia].
      - destruct ks; [done|simpl in Hsslen; lia]. }
  destruct Hcp as (Ha%Hsr & Hb%Hss & _ & _). apply (proj1 (Hset _ _)) in Hb.
  eexists. split; [done|].
  assert (Hain : 0 ≤ a.1 < width c ∧ 0 ≤ a.2 < height c).
  { apply (is_air_at_inside g0 (height c) (width c)); [done|]. by eapply air_region_air. }
  assert (Hbin : 0 ≤ b.1 < width c ∧ 0 ≤ b.2 < height c).
  { apply (is_air_at_inside g (height c) (width c)); [done|]. by apply Hair. }
  set (g' := _carve_l_tunnel c a b g).
  assert (Hg' : ∀ e, is_air_at g' e ↔ in_l_tunnel c a b e ∨ is_air_at g e).
  { intros e. by apply carve_l_tunnel_air. }
  assert (Hup : ∀ e, is_air_at g e → is_air_at g' e) by (intros e He; apply Hg'; by right).
  assert (Htun : ∀ e, in_l_tunnel c a b e → connected g' a e).
  { intros e He. apply (carve_l_tunnel_joins c a b g g'); [done..| |done].
    intros e' He'. apply Hg'. by left. }
  assert (Hab : connected g' a b).
  { apply Htun. unfold in_l_tunnel. cbv zeta.
    assert (0 ≤ tunnel_min_width c `div` 2) by (apply Z.div_pos; lia).
    split; [done|]. right. lia. }
  assert (Hroot : ∀ e, e ∈ sset ++ rg → connected g' b e).
  { intros e [He|He]%elem_of_app.
    - apply (connected_mono g); [done|]. by apply Hjoined.
    - etrans; [by apply connected_sym|].
      apply (connected_mono g0); [by auto|]. by eapply air_region_joined. }
  constructor; simpl.
  - by apply carve_l_tunnel_air.
  - by auto.
  - intros e He. apply elem_of_app. left. by apply Hsurface.
  - intros e [He|He]%elem_of_app; [by auto|].
    apply Hup, Hmono. by eapply air_region_air.
  - intros e1 e2 H1 H2. etrans; [apply connected_sym; by apply Hroot|by apply Hroot].
  - intros j rg' e [Hin|[= -> ->]%list_elem_of_singleton]%elem_of_app He.
    + apply elem_of_app. left. by eapply Hseen.
    + apply elem_of_app. by right.
  - intros e [He|He]%Hg'.
    + right. exists a. split; [apply elem_of_app; by right|by apply Htun].
    + destruct (Hcarved e He) as [?|(e' & He' & Hc)]; [by left|].
      right. exists e'. split; [apply elem_of_app; by left|].
      by apply (connected_mono g).
Qed.

Lemma step6_spec st :
  choice_in_range R → set_iteration_keeps →
  grid_ok st → 0 ≤ width (cfg st) → 0 ≤ tunnel_min_width (cfg st) →
  ∃ st', _step6_connect st = Ok st' ∧
         ∀ a b, is_air_at (grid st') a → is_air_at (grid st') b →
                connected (grid st') a b.
Proof.
  intros Hchoice Hset Hok Hw Htw. unfold _step6_connect.
  destruct (find_air_regions_spec (cfg st) (grid st) Hok Hw)
    as (regions & -> & Hregions & Hcover & Honce).
  simpl. case_decide as Hlen.
  - eexists. split; [done|]. intros a b Ha Hb.
    destruct (Hcover a Ha) as (rg1 & Hr1 & Ha1), (Hcover b Hb) as (rg2 & Hr2 & Hb2).
    assert (rg1 = rg2) as <-.
    { apply list_elem_of_lookup in Hr1 as [i Hi], Hr2 as [j Hj].
      pose proof (lookup_lt_Some _ _ _ Hi). pose proof (lookup_lt_Some _ _ _ Hj).
      assert (i = j) as -> by lia. congruence. }
    eapply air_region_joined; [by apply Hregions|done..].
  - set (idx := surface_region_index (height (cfg st)) regions).
    assert (Hidx : (idx < length regions)%nat).
    { apply surface_region_index_valid. intros ->. simpl in Hlen. lia. }
    destruct (lookup_lt_is_Some_2 _ _ Hidx) as [rs Hrs]. rewrite Hrs. simpl.
    assert (Hrsr : air_region (grid st) rs).
    { apply Hregions. by eapply list_elem_of_lookup_2. }
    destruct (foldM_total (connect_inv (width (cfg st)) (height (cfg st)) (grid st) rs)
      (λ s (ir : nat * list (Z * Z)),
         if decide (ir.1 = idx) then Ok s else connect_region (cfg st) s ir.2)
      (imap (λ i (region : list (Z * Z)), (i, region)) regions)
      (grid st, rng st, rs)) as ([[g r] sset] & -> & Hinv).
    + intros l1 [i rg] l2 s Hl Hinv. simpl.
      assert (Hi : regions !! i = Some rg).
      { assert (Hin : (i, rg) ∈ imap (λ i (region : list (Z * Z)), (i, region)) regions).
        { rewrite Hl. apply elem_of_app. right. by left. }
        by apply elem_of_lookup_imap_1 in Hin as (i' & y & [= -> ->] & Hi). }
      case_decide as Hii.
      * subst i. eexists. split; [done|].
        assert (rg = rs) as -> by congruence.
        destruct Hinv as [? ? Hsurface ? ? Hseen ?]. constructor; try done.
        intros j rg' e [Hin|[= -> ->]%list_elem_of_singleton]%elem_of_app He.
        -- by eapply Hseen.
        -- by apply Hsurface.
      * apply connect_region_spec; try done.
        apply Hregions. by eapply list_elem_of_lookup_2.
    + constructor; simpl; try done.
      * intros d Hd. by eapply air_region_air.
      * intros d e Hd He. by eapply air_region_joined.
      * by intros i rg d ?%elem_of_nil.
      * intros d Hd. by left.
    + simpl. eexists. split; [done|]. simpl.
      destruct Hinv as [_ _ _ Hair Hjoined Hseen Hcarved]. simpl in *.
      assert (Hroot : ∀ a, is_air_at g a → ∃ e, e ∈ sset ∧ connected g e a).
      { intros a Ha. destruct (Hcarved a Ha) as [Ha0|?]; [|done].
        destruct (Hcover a Ha0) as (rg & Hrg & Harg).
        apply list_elem_of_lookup in Hrg as [i Hi].
        exists a. split; [|apply rtc_refl].
        eapply (Hseen i rg); [|done].
        by apply (elem_of_lookup_imap_2 (λ i (region : list (Z * Z)), (i, region))). }
      intros a b Ha Hb.
      destruct (Hroot a Ha) as (ea & Hea & Hca), (Hroot b Hb) as (eb & Heb & Hcb).
      etrans; [apply connected_sym, Hca|]. etrans; [by apply Hjoined|done].
Qed.

(** X8.  With a generator whose [choice] draws are in range and sets that
    iterate over their elements, on a grid of the shape of its Config and
    with a tunnel width that is not negative, [_step6_connect] returns and
    leaves all the air of the grid in one region: a path of 4-adjacent Air
    tiles joins any two Air tiles. *)
Theorem connect_leaves_one_region st :
  choice_in_range R → set_iteration_keeps →
  grid_ok st → 0 ≤ width (cfg st) → 0 ≤ tunnel_min_width (cfg st) →
  ∃ st', _step6_connect st = Ok st' ∧
         ∀ a b, is_air_at (grid st') a → is_air_at (grid st') b →
                connected (grid st') a b.
Proof. apply step6_spec. Qed.

End Connect.

(** X9.  The pair of tiles that [closest_pair] picks for a tunnel is a
    sampled pair at the least Manhattan distance; there is none only when a
    sample is empty. *)
Theorem closest_pair_is_closest (sr ss : list (Z * Z)) :
  match closest_pair sr ss with
  | None => sr = [] ∨ ss = []
  | Some (d, a, b) =>
    a ∈ sr ∧ b ∈ ss ∧ d = manhattan a b ∧
    ∀ a' b', a' ∈ sr → b' ∈ ss → d ≤ manhattan a' b'
  end.
Proof. apply closest_pair_spec. Qed.

(** ** Step 7: the surface entry *)

Lemma getitem_cell (g : Grid) h w y x v :
  shape g h w → 0 ≤ y → 0 ≤ x → getitem g y x = Ok v → cell g y x = Some v.
Proof.
  intros Hg Hy Hx Hget. unfold getitem in Hget. inv_bind Hget.
  apply np_index_Ok in E as [[_ ->]|[? _]]; [|lia].
  apply np_index_Ok in E0 as [[_ ->]|[? _]]; [|lia].
  by destruct (cell g y x); simplify_eq.
Qed.

Lemma column_is_air_true (g : Grid) x ys :
  column_is_air g x ys = Ok true → ∀ y, y ∈ ys → getitem g y x = Ok T_AIR.
Proof.
  induction ys as [|y ys IH]; simpl; [by intros _ y ?%elem_of_nil|].
  intros (v & Hv & Hrest)%bind_Ok. case_decide as E; [|done]. subst v.
  intros y' [->|Hin]%elem_of_cons; [done|by apply IH].
Qed.

Lemma find_entry_true (g : Grid) surface limit xs :
  find_entry g surface limit xs = Ok true →
  ∃ x surf, x ∈ xs ∧ getitem1 surface x = Ok surf ∧
            column_is_air g x (py_range surf limit) = Ok true.
Proof.
  induction xs as [|x xs IH]; simpl; [done|].
  intros (surf & Hsurf & Hrest)%bind_Ok.
  apply bind_Ok in Hrest as ([] & Hcol & Hrest).
  - exists x, surf. split_and!; [by left|done..].
  - destruct (IH Hrest) as (x' & surf' & Hin & ? & ?). exists x', surf'.
    split_and!; [by right|done..].
Qed.

Lemma getitem_setitem (g g' : Grid) h w y x y' x' :
  shape g h w → setitem g y x T_AIR = Ok g' →
  shape g' h w ∧ getitem g' y x = Ok T_AIR ∧
  (getitem g y' x' = Ok T_AIR → getitem g' y' x' = Ok T_AIR).
Proof.
  intros Hg Hset. pose proof Hset as Hset'.
  apply (setitem_Ok g y x T_AIR g' h w Hg) in Hset as (j & i & Hj & Hi & ->).
  assert (Hg' : shape (put g j i T_AIR) h w) by (by apply shape_put).
  split; [done|].
  pose proof (np_index_bound _ _ _ Hj) as Hjb. pose proof (np_index_bound _ _ _ Hi) as Hib.
  assert (Hrows : nrows (put g j i T_AIR) = nrows g).
  { destruct Hg as [-> _], Hg' as [-> _]. done. }
  assert (Hcols : ncols (put g j i T_AIR) = ncols g).
  { rewrite (ncols_shape _ h w Hg'), (ncols_shape _ h w Hg) by lia. done. }
  assert (Hnr : nrows g = h) by (by destruct Hg).
  assert (Hnc : ncols g = w) by (apply (ncols_shape g h w Hg); lia).
  split.
  - unfold getitem. rewrite Hrows, Hcols, Hnr, Hnc, Hj, Hi. simpl.
    rewrite cell_put_eq. by destruct (cell_inside g h w j i Hg) as [u ->].
  - unfold getitem. rewrite Hrows, Hcols.
    destruct (np_index y' (nrows g)) as [j'| |]; simpl; [|done..].
    destruct (np_index x' (ncols g)) as [i'| |]; simpl; [|done..].
    rewrite cell_put. case_decide as E; [|done].
    injection E as -> ->. by destruct (cell g j i).
Qed.

Lemma carve_shaft_column (g g' : Grid) h w half cx ys :
  shape g h w → 0 ≤ half → 0 ≤ cx < w →
  carve_shaft w half cx ys g = Ok g' →
  shape g' h w ∧
  (∀ y, y ∈ ys → getitem g' y cx = Ok T_AIR) ∧
  (∀ y x, getitem g y x = Ok T_AIR → getitem g' y x = Ok T_AIR).
Proof.
  intros Hg Hhalf Hcx. unfold carve_shaft. intros Hrun.
  eapply (foldM_inv_prefix (λ done (s : Grid),
     shape s h w ∧ (∀ y, y ∈ done → getitem s y cx = Ok T_AIR) ∧
     (∀ y x, getitem g y x = Ok T_AIR → getitem s y x = Ok T_AIR))) in Hrun; [done| |].
  - intros l1 y l2 g1 g2 _ (Hg1 & Hdone & Hkeep) Hrow.
    eapply (foldM_inv_prefix (λ done (s : Grid),
       shape s h w ∧ (0 ∈ done → getitem s y cx = Ok T_AIR) ∧
       (∀ y x, getitem g1 y x = Ok T_AIR → getitem s y x = Ok T_AIR))) in Hrow.
    + destruct Hrow as (Hg2 & Hy & Hkeep2). split; [done|]. split.
      * intros y' [Hin| ->%list_elem_of_singleton]%elem_of_app; [by apply Hkeep2, Hdone|].
        apply Hy. apply elem_of_py_range. lia.
      * intros y' x' Hget. by apply Hkeep2, Hkeep.
    + intros d1 dx d2 g3 g4 _ (Hg3 & H0 & Hkeep3) Hstep. simpl in Hstep.
      case_decide as Hin.
      * split; [by eapply (getitem_setitem g3 g4 h w _ _ 0 0)|]. split.
        -- intros [Hd|Hd%list_elem_of_singleton]%elem_of_app.
           ++ eapply (getitem_setitem g3 g4 h w); [done..|by apply H0].
           ++ subst dx. replace (cx + 0) with cx in Hstep by lia.
              by eapply (getitem_setitem g3 g4 h w _ _ 0 0).
        -- intros y' x' Hget. eapply (getitem_setitem g3 g4 h w); [done..|by apply Hkeep3].
      * injection Hstep as <-. split; [done|]. split; [|done].
        intros [Hd|Hd%list_elem_of_singleton]%elem_of_app; [by apply H0|].
        subst dx. exfalso. apply Hin. lia.
    + split; [done|]. split; [by intros ?%elem_of_nil|done].
  - split; [done|]. split; [by intros y ?%elem_of_nil|done].
Qed.

Section SurfaceEntry.
Context {R : Type} `{!Generator R} `{!Oracles}.
Implicit Types (st : BlueprintGenerator_ (R:=R)).

Lemma step7_spec st st' s :
  grid_ok st → surface_line st = Some s →
  Z.of_nat (length s) = width (cfg st) → 0 ≤ tunnel_min_width (cfg st) →
  _step7_surface_entry_check st = Ok st' →
  ∃ m x surf, array_max s = Ok m ∧ 0 ≤ x < width (cfg st) ∧ zlookup s x = Some surf ∧
    ∀ y, surf ≤ y < Z.min (m + 7) (height (cfg st)) → 0 ≤ y →
         cell (grid st') y x = Some T_AIR.
Proof.
  intros Hok Hs Hlen Hw. unfold _step7_surface_entry_check, the_surface_line.
  rewrite Hs. simpl. intros Hrun.
  apply bind_Ok in Hrun as (m & Hm & Hrun). exists m.
  apply bind_Ok in Hrun as (found & Hfound & Hrun).
  replace (m + 2 + 5) with (m + 7) in Hfound by lia.
  assert (Hsurf : ∀ x surf, 0 ≤ x → getitem1 s x = Ok surf → x < width (cfg st) ∧ zlookup s x = Some surf).
  { intros x surf Hx (j & Hj & Hv)%getitem1_Ok.
    apply np_index_Ok in Hj as [[? ->]|[? _]]; [|lia]. split; [lia|done]. }
  destruct found.
  - injection Hrun as <-.
    apply find_entry_true in Hfound as (x & surf & Hx%elem_of_py_range & Hsurf' & Hcol).
    destruct (Hsurf x surf) as [Hxw Hv]; [lia|done|].
    exists x, surf. split_and!; [done|lia|lia|done|].
    intros y Hy Hy0. apply (getitem_cell _ _ _ _ _ _ Hok); [done|lia|].
    apply (column_is_air_true _ _ _ Hcol). apply elem_of_py_range. lia.
  - apply bind_Ok in Hrun as (surf & Hsurf' & Hrun).
    apply bind_Ok in Hrun as (g' & Hcarve & Hrun). injection Hrun as <-. simpl.
    assert (Hwpos : 0 < width (cfg st)).
    { destruct s; [done|]. simpl in Hlen. lia. }
    assert (Hcx : 0 ≤ width (cfg st) `div` 2 < width (cfg st)).
    { split; [apply Z.div_pos; lia|apply Z.div_lt_upper_bound; lia]. }
    destruct (Hsurf _ surf (proj1 Hcx) Hsurf') as [_ Hv].
    exists (width (cfg st) `div` 2), surf. split_and!; [done|lia|lia|done|].
    destruct (carve_shaft_column (grid st) g' _ _ _ _ _ Hok
                (Z.div_pos _ 2 Hw ltac:(lia)) Hcx Hcarve) as (Hg' & Hcol & _).
    intros y Hy Hy0. apply (getitem_cell _ _ _ _ _ _ Hg'); [done|lia|].
    apply Hcol. apply elem_of_py_range. lia.
Qed.

(** X10.  On a grid of the shape of its Config, with one surface height for
    each column and a tunnel width that is not negative, after the surface
    entry check some column is open from its surface height down to the
    row above [min(max height + 7, height)]: the stage found such a column,
    or has carved one at the centre. *)
Theorem surface_entry_exists st st' s :
  grid_ok st → surface_line st = Some s →
  Z.of_nat (length s) = width (cfg st) → 0 ≤ tunnel_min_width (cfg st) →
  _step7_surface_entry_check st = Ok st' →
  ∃ m x surf, array_max s = Ok m ∧ 0 ≤ x < width (cfg st) ∧ zlookup s x = Some surf ∧
    ∀ y, surf ≤ y < Z.min (m + 7) (height (cfg st)) → 0 ≤ y →
         cell (grid st') y x = Some T_AIR.
Proof. apply step7_spec. Qed.

End SurfaceEntry.

(** ** The Goal tile and the grid of a run *)

Lemma place_goal_spec w h (g : Grid) sx sy :
  shape g h w → (∀ y x, cell g y x ≠ Some T_GOAL) →
  (∃ c, is_air_at g c ∧
        ∀ y x, cell (place_goal w h g sx sy) y x = Some T_GOAL ↔ (x, y) = c) ∨
  ((∀ c, ¬ is_air_at g c) ∧ place_goal w h g sx sy = g).
Proof.
  intros Hg Hno. pose proof (goal_scan_first_best w h g sx sy) as Hbest.
  unfold first_best, place_goal in *.
  destruct (goal_scan w h g sx sy).1 as [[bx by_]|].
  - left. destruct Hbest as (i & _ & Hb & _). simpl in Hb. exists (bx, by_). split; [done|].
    intros y x. rewrite cell_put. case_decide as E.
    + injection E as -> ->. rewrite Hb. done.
    + split; [by intros ?%Hno|]. intros [= -> ->]. done.
  - right. split; [|done]. destruct Hbest as [_ Hnone]. intros [x y] Ha.
    apply (Hnone (x, y)); [|done]. apply elem_of_scan_order.
    by apply (is_air_at_inside g h w (x, y)).
Qed.

(** X11.  Goal placement writes exactly one Goal tile, on a tile that was
    Air, whenever the grid holds an Air tile; on a grid with no Air tile it
    writes nothing. *)
Theorem goal_is_placed_once w h (g : Grid) sx sy :
  shape g h w → (∀ y x, cell g y x ≠ Some T_GOAL) →
  (∃ c, is_air_at g c ∧
        ∀ y x, cell (place_goal w h g sx sy) y x = Some T_GOAL ↔ (x, y) = c) ∨
  ((∀ c, ¬ is_air_at g c) ∧ place_goal w h g sx sy = g).
Proof. apply place_goal_spec. Qed.

Section RunOutput.
Context {R : Type} `{!Generator R} `{!Oracles}.
Implicit Types (st : BlueprintGenerator_ (R:=R)).

Lemma run_output_spec fuel c st' :
  run fuel c = Ok st' →
  shape (grid st') (height c) (width c) ∧
  (∀ y x v, cell (grid st') y x = Some v →
     v ∈ [T_AIR; T_TOP; T_FILL; T_GOAL; T_SPAWN]) ∧
  (∃ x y, ∀ y' x', cell (grid st') y' x' = Some T_SPAWN ↔ y' = y ∧ x' = x) ∧
  (∀ y1 x1 y2 x2, cell (grid st') y1 x1 = Some T_GOAL →
     cell (grid st') y2 x2 = Some T_GOAL → y1 = y2 ∧ x1 = x2) ∧
  ∃ s, surface_line st' = Some s ∧ Z.of_nat (length s) = width c ∧
       ∀ x v, zlookup s x = Some v → surface_y_min c ≤ v ≤ surface_y_max c.
Proof.
  intros Hrun.
  destruct (run_spawn_unique fuel c st' Hrun)
    as (s0 & sx & surf & sy & _ & _ & _ & _ & _ & Hspawn).
  apply run_Ok in Hrun as (st & Hst & Hgen).
  apply BlueprintGenerator_Ok in Hst as (Hok & Hc & _).
  apply generate_Ok in Hgen
    as (s2 & s3 & s4 & s5 & s6 & s7 & s8 & H2 & H3 & H4 & H5 & H6 & H7 & H8 & ->).
  destruct (generate_before_step8 _ _ _ _ _ _ _ _ Hok H2 H3 H4 H5 H6 H7)
    as (Hok7 & C7 & L7 & Hv7).
  destruct (step2_spec _ _ (grid_ok_step1 _ Hok) H2) as (_ & s & Hs & Hlen & Hrange & _).
  simpl in Hlen, Hrange. rewrite Hs in L7.
  destruct (step8_spawn s7 s8 s Hok7 L7 H8)
    as (spawn_x & surf' & y & x & _ & _ & _ & _ & Hg8 & _).
  pose proof (step8_writes _ _ H8) as (W8 & C8 & L8).
  unfold grid_ok in Hok7. rewrite C7, Hc in *.
  assert (Hs8 : shape (grid s8) (height c) (width c)) by (by eapply writes_shape).
  assert (Hput : shape (put (grid s7) y x T_SPAWN) (height c) (width c)) by (by apply shape_put).
  assert (Hv8 : ∀ y' x' v, cell (grid s8) y' x' = Some v →
            v = T_AIR ∨ v = T_FILL ∨ v = T_GOAL ∨ v = T_SPAWN).
  { intros y' x' v Hv. destruct W8 as [_ W8].
    destruct (W8 y' x') as [E|(u & [-> | ->] & E)].
    - rewrite E in Hv. apply Hv7 in Hv as [-> | ->]; auto.
    - rewrite E in Hv. injection Hv as <-. auto.
    - rewrite E in Hv. injection Hv as <-. auto. }
  split_and!.
  - simpl. by apply (shape_top_detection _ _ _ Hs8).
  - intros y' x' v. simpl. rewrite (cell_top_detection _ _ _ _ _ Hs8).
    unfold derive. destruct (cell (grid s8) y' x') as [u|] eqn:Eu; simpl; [|done].
    intros [= <-]. rewrite !elem_of_cons. case_decide; [by auto|].
    destruct (Hv8 _ _ _ Eu) as [-> |[-> |[-> | ->]]]; auto 6.
  - by exists sx, sy.
  - intros y1 x1 y2 x2. simpl.
    rewrite !(cell_top_detection_keeps _ _ _ _ _ _ Hs8) by done. rewrite Hg8.
    destruct (place_goal_spec (width c) (height c) (put (grid s7) y x T_SPAWN)
                spawn_x (surf' - 1) Hput) as [(cg & _ & Hgoal)|[_ ->]].
    + intros y' x'. rewrite cell_put. case_decide.
      * by destruct (cell (grid s7) y x).
      * intros [?|?]%Hv7; done.
    + intros E1%Hgoal E2%Hgoal. rewrite <- E2 in E1. by injection E1.
    + rewrite cell_put. case_decide.
      * by destruct (cell (grid s7) y x).
      * intros [?|?]%Hv7; done.
  - exists s. simpl. rewrite L8. done.
Qed.

(** X12.  The grid of a completed run has the shape of its Config, holds
    only the five tile kinds, exactly one Spawn tile and at most one Goal
    tile; its surface line has one height for each column, within
    [[surface_y_min, surface_y_max]]. *)
Theorem run_output_well_formed fuel c st' :
  run fuel c = Ok st' →
  shape (grid st') (height c) (width c) ∧
  (∀ y x v, cell (grid st') y x = Some v →
     v ∈ [T_AIR; T_TOP; T_FILL; T_GOAL; T_SPAWN]) ∧
  (∃ x y, ∀ y' x', cell (grid st') y' x' = Some T_SPAWN ↔ y' = y ∧ x' = x) ∧
  (∀ y1 x1 y2 x2, cell (grid st') y1 x1 = Some T_GOAL →
     cell (grid st') y2 x2 = Some T_GOAL → y1 = y2 ∧ x1 = x2) ∧
  ∃ s, surface_line st' = Some s ∧ Z.of_nat (length s) = width c ∧
       ∀ x v, zlookup s x = Some v → surface_y_min c ≤ v ≤ surface_y_max c.
Proof. apply run_output_spec. Qed.

(** The Top tiles of a completed run are under Air. *)
Lemma run_tops_under_air fuel c st' y x :
  run fuel c = Ok st' →
  cell (grid st') y x = Some T_TOP → cell (grid st') (y - 1) x = Some T_AIR.
Proof.
  intros (st & Hst & Hgen)%run_Ok.
  apply BlueprintGenerator_Ok in Hst as (Hok & _).
  apply generate_Ok in Hgen
    as (s2 & s3 & s4 & s5 & s6 & s7 & s8 & H2 & H3 & H4 & H5 & H6 & H7 & H8 & ->).
  destruct (generate_before_step8 _ _ _ _ _ _ _ _ Hok H2 H3 H4 H5 H6 H7)
    as (Hok7 & C7 & _ & Hv7).
  apply step8_writes in H8 as (W8 & C8 & _).
  assert (Hs8 : shape (grid s8) (height (cfg s7)) (width (cfg s7))) by by eapply writes_shape.
  simpl. rewrite !(cell_top_detection _ _ _ _ _ Hs8).
  intros [E|[Ha Hf]]%derive_Some_top; [|by apply derive_Some_air].
  destruct W8 as [_ W8]. destruct (W8 y x) as [E'|(v & Hm & E')]; rewrite E' in E.
  - by apply Hv7 in E as [?|?].
  - injection E as ->. by destruct Hm.
Qed.

End RunOutput.

(** ** The checks of [verify_blueprint] *)

Lemma cell_fmap {A B} (f : A → B) (a : list (list A)) y x :
  cell ((λ row : list A, f <$> row) <$> a) y x = f <$> cell a y x.
Proof.
  rewrite !cell_unfold. case_decide; [|done].
  rewrite list_lookup_fmap. destruct (a !! Z.to_nat y) as [row|]; simpl; [|done].
  unfold zlookup. case_decide; [|done]. by rewrite list_lookup_fmap.
Qed.

Lemma shape_fmap {A B} (f : A → B) (a : list (list A)) h w :
  shape a h w → shape ((λ row : list A, f <$> row) <$> a) h w.
Proof.
  intros [Hh Hw]. split.
  - unfold nrows in *. by rewrite length_fmap.
  - apply Forall_fmap. eapply Forall_impl; [done|]. intros row Hrow. simpl.
    by rewrite length_fmap.
Qed.

Lemma ncols_fmap {A B} (f : A → B) (a : list (list A)) :
  ncols ((λ row : list A, f <$> row) <$> a) = ncols a.
Proof. unfold ncols. destruct a as [|row a]; simpl; [done|]. by rewrite length_fmap. Qed.

Lemma nrows_fmap {A B} (f : A → B) (a : list (list A)) :
  nrows ((λ row : list A, f <$> row) <$> a) = nrows a.
Proof. unfold nrows. by rewrite length_fmap. Qed.

Lemma walkable_air (g : Grid) y x :
  cell (walkable g) y x = Some T_AIR ↔ cell (air_mask g) y x = Some true.
Proof.
  unfold walkable, air_mask. rewrite !cell_fmap.
  destruct (cell g y x) as [v|]; simpl; [|done]. by destruct (is_open v).
Qed.

Lemma is_air_at_walkable (g : Grid) c :
  is_air_at (walkable g) c ↔ ∃ v, cell g c.2 c.1 = Some v ∧ is_open v = true.
Proof.
  unfold is_air_at, walkable. rewrite cell_fmap.
  destruct (cell g c.2 c.1) as [v|]; simpl.
  - destruct (is_open v) eqn:E.
    + split; [intros _; by exists v|done].
    + split; [done|]. intros (v' & [= <-] & ?). congruence.
  - split; [done|]. by intros (v' & ? & _).
Qed.

Lemma mask_visit_bfs_visit w h (g : Grid) qv n :
  mask_visit w h (air_mask g) qv n = bfs_visit w h (walkable g) qv n.
Proof.
  unfold mask_visit, bfs_visit. destruct n as [nx ny].
  by rewrite (bool_decide_ext _ _ (walkable_air g ny nx)).
Qed.

Lemma mask_loop_bfs_loop fuel w h (g : Grid) q v rg rg' v' :
  bfs_loop fuel w h (walkable g) q v rg = Ok (rg', v') →
  mask_loop fuel w h (air_mask g) q v = Ok v'.
Proof.
  revert q v rg. induction fuel as [|fuel IH]; intros q v rg.
  - destruct q as [|[x y] q]; simpl; [|done]. by intros [= _ <-].
  - destruct q as [|[x y] q]; [simpl; by intros [= _ <-]|].
    rewrite bfs_loop_cons.
    change (mask_loop (S fuel) w h (air_mask g) ((x, y) :: q) v) with
      (let '(queue, visited) := foldl (mask_visit w h (air_mask g)) (q, v) (neighbours x y) in
       mask_loop fuel w h (air_mask g) queue visited).
    assert (Hf : foldl (mask_visit w h (air_mask g)) (q, v) (neighbours x y) =
                 foldl (bfs_visit w h (walkable g)) (q, v) (neighbours x y)).
    { generalize (q, v). induction (neighbours x y) as [|n ns IHn]; intros qv; simpl; [done|].
      by rewrite mask_visit_bfs_visit, IHn. }
    rewrite Hf. destruct (foldl (bfs_visit w h (walkable g)) (q, v) (neighbours x y)).
    apply IH.
Qed.

(** The scan of check 1 counts what [_find_air_regions] would list. *)
Lemma count_cell_find_cell (c : BlueprintConfig) (g : Grid) rs v y x rv' :
  find_cell c (walkable g) (rs, v) y x = Ok rv' →
  count_cell (width c) (height c) (air_mask g) (Z.of_nat (length rs), v) y x =
    Ok (Z.of_nat (length rv'.1), rv'.2).
Proof.
  unfold find_cell, count_cell. simpl.
  rewrite <- (bool_decide_ext _ _ (walkable_air g y x)).
  destruct (bool_decide (cell (walkable g) y x = Some T_AIR) &&
            bool_decide (cell v y x = Some false)); [|by intros [= <-]].
  intros ([rg v'] & Hrun & [= <-])%bind_Ok. simpl.
  unfold _bfs_flood in Hrun. rewrite (mask_loop_bfs_loop _ _ _ _ _ _ _ _ _ Hrun). simpl.
  rewrite length_app. simpl. do 2 f_equal. lia.
Qed.

Lemma count_regions_spec (g : Grid) h w :
  shape g h w →
  ∃ regions, air_regions (walkable g) regions ∧
             count_regions g = Ok (Z.of_nat (length regions)).
Proof.
  intros Hg. unfold count_regions.
  assert (Hh : nrows g = h) by (by destruct Hg).
  assert (Hw0 : 0 ≤ ncols g) by (unfold ncols; lia).
  assert (Hh0 : 0 ≤ h) by (unfold nrows in Hh; lia).
  rewrite Hh.
  destruct (decide (h = 0)) as [->|Hne].
  { unfold new_visited. rewrite decide_False by lia. simpl.
    exists []. split; [|done]. split_and!.
    - by intros rg ?%elem_of_nil.
    - intros c (v & Hv & _)%is_air_at_walkable.
      apply (cell_bounds _ _ _ _ _ _ Hg) in Hv. lia.
    - by intros i j rg1 rg2 c ?. }
  rewrite (ncols_shape g h w Hg) by lia.
  assert (Hw : 0 ≤ w) by (rewrite <- (ncols_shape g h w Hg) by lia; done).
  set (c := {| seed := 0; width := w; height := h;
               surface_y_min := 0; surface_y_max := 0; surface_step_max := 0;
               num_tunnels := 0; tunnel_min_width := 0; tunnel_vertical_clearance := 0;
               tunnel_branch_chance := f0_15;
               num_caves := 0; cave_radius_min := 0; cave_radius_max := 0;
               cave_noise_strength := f0_35; min_region_size := 0 |}).
  assert (HG : shape (walkable g) (height c) (width c)) by (by apply shape_fmap).
  destruct (new_visited w h) as [v| |] eqn:Hv;
    try (unfold new_visited in Hv; case_decide; [lia|done]).
  simpl. rewrite (foldM_row_major (λ cv y x, count_cell w h (air_mask g) cv y x)).
  destruct (foldM_total
    (λ seen (cv : Z * Visited),
       ∃ rs, cv.1 = Z.of_nat (length rs) ∧ find_inv w h (walkable g) seen (rs, cv.2))
    (λ cv (a : Z * Z), count_cell w h (air_mask g) cv a.2 a.1)
    (row_major w h) (0, v)) as ([n v'] & -> & rs & Hn & Hinv).
  - intros l1 [x y] l2 [n1 v1] Hl (rs & Hn & Hinv). simpl in *. subst n1.
    assert (Hin : (x, y) ∈ row_major w h).
    { rewrite Hl. apply elem_of_app. right. by left. }
    apply elem_of_row_major in Hin as [Hx Hy]. simpl in *.
    destruct (find_cell_spec c (walkable g) l1 (rs, v1) x y HG Hinv Hx Hy) as (rv' & Hrv & Hinv').
    pose proof (count_cell_find_cell c g rs v1 y x rv' Hrv) as Hcc.
    change (width c) with w in Hcc. change (height c) with h in Hcc. rewrite Hcc.
    eexists. split; [done|]. simpl. exists rv'.1. split; [done|]. by destruct rv'.
  - exists []. split; [done|].
    pose proof (vis_at_new_visited _ _ _ Hv) as [Hshape Hnew].
    constructor; simpl; try done.
    + intros a b _ Ha. by apply Hnew in Ha.
    + by intros rg ?%elem_of_nil.
    + intros d. split; [by intros ?%Hnew|]. by intros (rg & ?%elem_of_nil & _).
    + by intros a ?%elem_of_nil.
  - simpl in *. subst n. exists rs. split; [|done].
    destruct Hinv as [_ _ Hregions Hfound Hseen Honce]. simpl in *.
    split_and!; [done| |done].
    intros d Hd. apply Hfound, Hseen; [|done].
    apply elem_of_row_major. by apply (is_air_at_inside (walkable g) h w).
Qed.

Lemma one_region_length (g : Grid) regions :
  air_regions g regions → (length regions = 1%nat ↔ one_air_region g).
Proof.
  intros (Hregions & Hcover & Honce). split.
  - intros Hlen. destruct regions as [|rg [|? ?]]; try done.
    assert (Hrg : air_region g rg) by (apply Hregions; by left).
    split.
    + destruct Hrg as (s & _ & Hs & _). by exists s.
    + intros a b Ha Hb.
      destruct (Hcover a Ha) as (rg1 & ->%list_elem_of_singleton & Ha1).
      destruct (Hcover b Hb) as (rg2 & ->%list_elem_of_singleton & Hb2).
      by eapply air_region_joined.
  - intros [[c Hc] Hall].
    destruct (Hcover c Hc) as (rg & Hrg & _).
    destruct regions as [|rg0 [|rg1 regions]]; [by apply elem_of_nil in Hrg|done|].
    exfalso.
    destruct (Hregions rg0) as (s0 & _ & Hs0 & _ & Hrg0); [by left|].
    destruct (Hregions rg1) as (s1 & _ & Hs1 & _ & Hrg1); [right; by left|].
    assert (0 = 1)%nat; [|done].
    apply (Honce 0%nat 1%nat rg0 rg1 s1); [done|done| |].
    + apply Hrg0. by apply Hall.
    + apply Hrg1, rtc_refl.
Qed.

Lemma NoDup_row_major w h : NoDup (row_major w h).
Proof.
  unfold row_major. apply NoDup_bind.
  - intros y1 y2 c _ _ (x1 & -> & _)%list_elem_of_fmap (x2 & [= _ ->] & _)%list_elem_of_fmap.
    done.
  - intros y _. apply NoDup_fmap_2; [|apply NoDup_seqZ]. by intros x1 x2 [= ->].
  - apply NoDup_seqZ.
Qed.

Lemma elem_of_argwhere (g : Grid) h w t y x :
  shape g h w → (y, x) ∈ argwhere g t ↔ cell g y x = Some t.
Proof.
  intros Hg. unfold argwhere. rewrite list_elem_of_fmap. split.
  - intros ([x' y'] & [= -> ->] & [Hc _]%list_elem_of_filter). done.
  - intros Hc. exists (x, y). split; [done|]. apply list_elem_of_filter. split; [done|].
    pose proof (cell_bounds _ _ _ _ _ _ Hg Hc) as [Hy Hx].
    apply elem_of_row_major. simpl.
    rewrite (ncols_shape g h w Hg) by lia. destruct Hg as [-> _]. done.
Qed.

Lemma NoDup_argwhere (g : Grid) t : NoDup (argwhere g t).
Proof.
  unfold argwhere. apply NoDup_fmap_2.
  - intros [x1 y1] [x2 y2] [= -> ->]. done.
  - apply NoDup_filter, NoDup_row_major.
Qed.

Lemma NoDup_singleton_eq {A} (l : list A) a :
  NoDup l → (∀ c, c ∈ l ↔ c = a) → l = [a].
Proof.
  intros Hnd Hl. destruct l as [|b l].
  { pose proof (proj2 (Hl a) eq_refl) as H0. by apply elem_of_nil in H0. }
  assert (b = a) as -> by (apply Hl; by left).
  destruct l as [|b' l]; [done|].
  assert (b' = a) as -> by (apply Hl; right; by left).
  apply NoDup_cons in Hnd as [Hn _]. destruct Hn. by left.
Qed.

Lemma getitem_inside (g : Grid) h w y x :
  shape g h w → 0 ≤ y < h → 0 ≤ x < w →
  ∃ v, getitem g y x = Ok v ∧ cell g y x = Some v.
Proof.
  intros Hg Hy Hx. destruct (cell_inside g h w y x Hg Hy Hx) as [v Hv]. exists v.
  split; [|done]. unfold getitem.
  destruct Hg as [Hh Hw]. rewrite Hh.
  rewrite (ncols_shape g h w (conj Hh Hw)) by lia.
  unfold np_index. rewrite !decide_True by lia. simpl. by rewrite Hv.
Qed.

(** *** Check 4 *)

Lemma top_row_check_spec (g : Grid) h w y xs :
  shape g h w → 1 ≤ y < h → (∀ x, x ∈ xs → 0 ≤ x < w) →
  (top_row_check g y xs = Ok None ∧ ∀ x, x ∈ xs → ¬ top_under_solid g x y) ∨
  (∃ l1 x l2 above, xs = l1 ++ x :: l2 ∧
     top_row_check g y xs = Ok (Some (TopUnderSolid x y above)) ∧
     cell g (y - 1) x = Some above ∧ top_under_solid g x y ∧
     ∀ x', x' ∈ l1 → ¬ top_under_solid g x' y).
Proof.
  intros Hg Hy. induction xs as [|x xs IH]; intros Hxs; simpl.
  - left. split; [done|]. by intros x ?%elem_of_nil.
  - destruct IH as [[Hrun Hnone]|(l1 & x1 & l2 & above & -> & Hrun & Habove & Hbad & Hbefore)];
      [intros; apply Hxs; by right| |].
    + destruct (bool_decide (cell g y x = Some T_TOP)) eqn:Htop.
      * apply bool_decide_eq_true in Htop.
        destruct (getitem_inside g h w (y - 1) x Hg) as (above & -> & Habove);
          [lia|apply Hxs; by left|]. simpl.
        destruct (bool_decide (above = T_AIR ∨ above = T_SPAWN ∨ above = T_GOAL)) eqn:Hopen.
        -- apply bool_decide_eq_true in Hopen. left. split; [done|].
           intros x' [->|Hin]%elem_of_cons; [|by apply Hnone].
           intros (_ & above' & Ha' & Hn). by simplify_eq.
        -- apply bool_decide_eq_false in Hopen. right.
           exists [], x, xs, above. split_and!; [done..| |by intros x' ?%elem_of_nil].
           split; [done|]. by exists above.
      * apply bool_decide_eq_false in Htop. left. split; [done|].
        intros x' [->|Hin]%elem_of_cons; [|by apply Hnone]. by intros [? _].
    + assert (Hskip : ¬ top_under_solid g x y →
                top_row_check g y (x :: l1 ++ x1 :: l2) = Ok (Some (TopUnderSolid x1 y above))).
      { intros Hn. simpl. destruct (bool_decide (cell g y x = Some T_TOP)) eqn:Htop; [|done].
        apply bool_decide_eq_true in Htop.
        destruct (getitem_inside g h w (y - 1) x Hg) as (above' & -> & Habove');
          [lia|apply Hxs; by left|]. simpl.
        rewrite bool_decide_eq_true_2; [done|].
        destruct (decide (above' = T_AIR ∨ above' = T_SPAWN ∨ above' = T_GOAL)); [done|].
        destruct Hn. split; [done|]. by exists above'. }
      destruct (bool_decide (cell g y x = Some T_TOP)) eqn:Htop.
      * apply bool_decide_eq_true in Htop.
        destruct (getitem_inside g h w (y - 1) x Hg) as (above' & Hget & Habove');
          [lia|apply Hxs; by left|]. rewrite Hget. simpl.
        destruct (bool_decide (above' = T_AIR ∨ above' = T_SPAWN ∨ above' = T_GOAL)) eqn:Hopen.
        -- apply bool_decide_eq_true in Hopen. right.
           exists (x :: l1), x1, l2, above. split_and!; [done..|].
           intros x' [->|Hin]%elem_of_cons; [|by apply Hbefore].
           intros (_ & a' & Ha' & Hn). by simplify_eq.
        -- apply bool_decide_eq_false in Hopen. right.
           exists [], x, (l1 ++ x1 :: l2), above'.
           split_and!; [done..| |by intros x' ?%elem_of_nil].
           split; [done|]. by exists above'.
      * apply bool_decide_eq_false in Htop. right.
        exists (x :: l1), x1, l2, above. split_and!; [done..|].
        intros x' [->|Hin]%elem_of_cons; [|by apply Hbefore]. by intros [? _].
Qed.

Lemma top_check_spec (g : Grid) h w ys :
  shape g h w → (∀ y, y ∈ ys → 1 ≤ y < h) →
  (top_check g w ys = Ok [] ∧
   ∀ x y, y ∈ ys → 0 ≤ x < w → ¬ top_under_solid g x y) ∨
  (∃ l1 y l2 x above, ys = l1 ++ y :: l2 ∧ 0 ≤ x < w ∧
     top_check g w ys = Ok [TopUnderSolid x y above] ∧
     cell g (y - 1) x = Some above ∧ top_under_solid g x y ∧
     (∀ x' y', y' ∈ l1 → 0 ≤ x' < w → ¬ top_under_solid g x' y') ∧
     (∀ x', 0 ≤ x' < x → ¬ top_under_solid g x' y)).
Proof.
  intros Hg. induction ys as [|y ys IH]; intros Hys; simpl.
  - left. split; [done|]. by intros x y ?%elem_of_nil.
  - destruct (top_row_check_spec g h w y (py_range 0 w) Hg) as
      [[-> Hnone]|(k1 & x & k2 & above & Hk & -> & Habove & Hbad & Hbefore)];
      [apply Hys; by left|by intros x ?%elem_of_py_range| |].
    + simpl.
      destruct IH as [[-> Hrest]|(l1 & y1 & l2 & x & above & -> & Hx & -> & Habove & Hbad & H1 & H2)];
        [intros; apply Hys; by right| |].
      * left. split; [done|]. intros x y' [->|Hin]%elem_of_cons Hx; [|by apply Hrest].
        apply Hnone. by apply elem_of_py_range.
      * right. exists (y :: l1), y1, l2, x, above.
        split_and!; [done|lia|lia|done|done|done| |done].
        intros x' y' [->|Hin]%elem_of_cons Hx'; [|by apply H1].
        apply Hnone. by apply elem_of_py_range.
    + simpl. right. exists [], y, ys, x, above.
      pose proof Hk as Hk'. apply py_range_split in Hk' as [-> Hx].
      split_and!; [done|lia|lia|done..| |].
      * by intros x' y' ?%elem_of_nil.
      * intros x' Hx'. apply Hbefore. by apply elem_of_py_range.
Qed.

(** *** Checks 2, 3 and 5 *)

Lemma getitem1_inside {A} (l : list A) i v :
  zlookup l i = Some v → getitem1 l i = Ok v.
Proof.
  intros Hv. apply getitem1_Ok. exists i. split; [|done].
  pose proof (zlookup_bound _ _ _ Hv). apply np_index_Ok. left. split; [lia|done].
Qed.

Lemma spawn_check_unique (g : Grid) s h w sy sx sv :
  shape g h w →
  (∀ y x, cell g y x = Some T_SPAWN ↔ y = sy ∧ x = sx) → zlookup s sx = Some sv →
  spawn_check g s =
    Ok (if decide (Z.abs (sy - (sv - 1)) > 2) then [SpawnNotNear sy (sv - 1)] else []).
Proof.
  intros Hg Hone Hsv. unfold spawn_check.
  rewrite (NoDup_singleton_eq (argwhere g T_SPAWN) (sy, sx)).
  - by rewrite (getitem1_inside s sx sv Hsv).
  - apply NoDup_argwhere.
  - intros [y x]. rewrite (elem_of_argwhere g h w) by done. rewrite Hone.
    split; [by intros [-> ->]|by intros [= -> ->]].
Qed.

Lemma spawn_check_returns (g : Grid) s h w :
  shape g h w → Z.of_nat (length s) = w →
  ∃ fs, spawn_check g s = Ok fs ∧ ∀ f, f ∈ fs → failure_check f = 2.
Proof.
  intros Hg Hlen. unfold spawn_check.
  destruct (argwhere g T_SPAWN) as [|[sy sx] [|p l]] eqn:E.
  - eexists. split; [done|]. by intros f ->%list_elem_of_singleton.
  - assert (Hin : (sy, sx) ∈ argwhere g T_SPAWN) by (rewrite E; by left).
    apply (elem_of_argwhere g h w) in Hin; [|done].
    apply (cell_bounds _ _ _ _ _ _ Hg) in Hin as [_ Hx].
    destruct (zlookup_lt s sx) as [sv Hsv]; [lia|].
    rewrite (getitem1_inside s sx sv Hsv). simpl. eexists. split; [done|].
    intros f. case_decide; [by intros ->%list_elem_of_singleton|by intros ?%elem_of_nil].
  - eexists. split; [done|]. by intros f ->%list_elem_of_singleton.
Qed.

Lemma goal_check_returns (g : Grid) s h w :
  shape g h w → Z.of_nat (length s) = w →
  ∃ fs, goal_check g s = Ok fs ∧ ∀ f, f ∈ fs → failure_check f = 3.
Proof.
  intros Hg Hlen. unfold goal_check.
  destruct (argwhere g T_GOAL) as [|[gy gx] l] eqn:E.
  - eexists. split; [done|]. by intros f ->%list_elem_of_singleton.
  - assert (Hin : (gy, gx) ∈ argwhere g T_GOAL) by (rewrite E; by left).
    apply (elem_of_argwhere g h w) in Hin; [|done].
    apply (cell_bounds _ _ _ _ _ _ Hg) in Hin as [_ Hx].
    destruct s as [|v s]; [simpl in Hlen; lia|]. simpl. eexists. split; [done|].
    intros f. case_decide; [by intros ->%list_elem_of_singleton|by intros ?%elem_of_nil].
Qed.

Lemma top_check_kind (g : Grid) w ys fs :
  top_check g w ys = Ok fs → ∀ f, f ∈ fs → failure_check f = 4.
Proof.
  revert fs. induction ys as [|y ys IH]; intros fs; simpl.
  - intros [= <-]. by intros f ?%elem_of_nil.
  - intros ([f0|] & Hrow & Hrest)%bind_Ok.
    + injection Hrest as <-. intros f ->%list_elem_of_singleton.
      clear IH. revert Hrow. induction (py_range 0 w) as [|x xs IHx]; simpl; [done|].
      destruct (bool_decide (cell g y x = Some T_TOP)); [|done].
      intros (above & _ & Hr)%bind_Ok. case_bool_decide; [by apply IHx|].
      by injection Hr as <-.
    + by apply IH.
Qed.

Lemma clear_above_pos (g : Grid) ty tx :
  cell g (ty - 1) tx = Some T_AIR → 0 < clear_above g ty tx.
Proof.
  intros Habove. unfold clear_above. change (py_range 1 4) with [1; 2; 3].
  assert (Hy : 0 ≤ ty - 1).
  { rewrite cell_unfold in Habove. by case_decide. }
  set (f := λ (clear dy : Z),
    if bool_decide (0 ≤ ty - dy) &&
       match cell g (ty - dy) tx with
       | Some v => bool_decide (v = T_AIR ∨ v = T_SPAWN ∨ v = T_GOAL ∨ v = T_TOP)
       | None => false
       end
    then clear + 1 else clear).
  assert (Hmono : ∀ c dy, c ≤ f c dy) by (intros c dy; unfold f; case_match; lia).
  assert (H1 : f 0 1 = 1).
  { unfold f. rewrite Habove. rewrite !bool_decide_eq_true_2 by (lia || auto). done. }
  change (0 < f (f (f 0 1) 2) 3). rewrite H1.
  pose proof (Hmono 1 2). pose proof (Hmono (f 1 2) 3). lia.
Qed.

Section Clearance.
Context {R : Type} `{!Generator R}.

Lemma clearance_check_returns (g : Grid) :
  choice_in_range R →
  ∃ fs, clearance_check (R := R) g = Ok fs ∧ ∀ f, f ∈ fs → failure_check f = 5.
Proof.
  intros Hchoice. unfold clearance_check. case_decide as Hn.
  2:{ eexists. split; [done|]. by intros f ?%elem_of_nil. }
  set (tops := argwhere g T_TOP) in *. set (n := Z.of_nat (length tops)) in *.
  destruct (Hchoice n (Z.min 50 n) (default_rng 0)) as [_ Hin]; [lia|].
  destruct (foldM_total (λ _ (fails : Z), True)
    (λ fails idx, t ← getitem1 tops idx;
                  Ok (if decide (clear_above g t.1 t.2 = 0) then fails + 1 else fails))
    (rng_choice n (Z.min 50 n) (default_rng 0)).1 0) as (fails & -> & _); [|done|].
  - intros l1 idx l2 fails Hl _.
    destruct (zlookup_lt tops idx) as [t Ht].
    { apply Hin. rewrite Hl. apply elem_of_app. right. by left. }
    rewrite (getitem1_inside tops idx t Ht). simpl. by eexists.
  - simpl. eexists. split; [done|]. intros f.
    case_decide; [by intros ->%list_elem_of_singleton|by intros ?%elem_of_nil].
Qed.

(** No sampled Top tile fails the spot check when each Top tile has an open
    tile right above it. *)
Lemma clearance_check_passes (g : Grid) fs :
  (∀ y x, cell g y x = Some T_TOP → cell g (y - 1) x = Some T_AIR) →
  clearance_check (R := R) g = Ok fs → fs = [].
Proof.
  intros Htops. unfold clearance_check. case_decide as Hn; [|by intros [= <-]].
  intros (fails & Hfold & Hrun)%bind_Ok.
  assert (fails = 0) as ->; [|by injection Hrun as <-; rewrite decide_False by lia].
  eapply (foldM_inv (λ fails : Z, fails = 0)) in Hfold; [done| |done].
  intros fails0 idx fails1 _ -> Hstep.
  apply bind_Ok in Hstep as ([ty tx] & Ht & Hstep). simpl in Hstep.
  apply getitem1_Ok in Ht as (j & _ & Ht). apply zlookup_Some in Ht as [_ Ht].
  apply list_elem_of_lookup_2 in Ht.
  unfold argwhere in Ht. apply list_elem_of_fmap in Ht as ([x y] & [= -> ->] & [Htop _]%list_elem_of_filter).
  simpl in Htop. pose proof (Htops _ _ Htop) as Habove.
  rewrite decide_False in Hstep; [by injection Hstep|].
  pose proof (clear_above_pos g y x Habove). lia.
Qed.

Lemma verify_parts (g : Grid) s h w :
  shape g h w → Z.of_nat (length s) = w → choice_in_range R →
  ∃ regions f2 f3 f4 f5,
    air_regions (walkable g) regions ∧
    spawn_check g s = Ok f2 ∧ (∀ f, f ∈ f2 → failure_check f = 2) ∧
    (∀ f, f ∈ f3 → failure_check f = 3) ∧
    top_check g w (py_range 1 h) = Ok f4 ∧ (∀ f, f ∈ f4 → failure_check f = 4) ∧
    clearance_check (R := R) g = Ok f5 ∧ (∀ f, f ∈ f5 → failure_check f = 5) ∧
    verify_blueprint (R := R) g s =
      Ok ((if decide (Z.of_nat (length regions) ≠ 1)
           then [RegionCount (Z.of_nat (length regions))] else [])
          ++ f2 ++ f3 ++ f4 ++ f5).
Proof.
  intros Hg Hlen Hchoice.
  destruct (count_regions_spec g h w Hg) as (regions & Hregions & Hcount).
  destruct (spawn_check_returns g s h w Hg Hlen) as (f2 & H2 & K2).
  destruct (goal_check_returns g s h w Hg Hlen) as (f3 & H3 & K3).
  destruct (clearance_check_returns g Hchoice) as (f5 & H5 & K5).
  assert (H4 : ∃ f4, top_check g (ncols g) (py_range 1 (nrows g)) = Ok f4 ∧
                     top_check g w (py_range 1 h) = Ok f4).
  { destruct Hg as [Hh Hw]. rewrite Hh. destruct (decide (1 < h)) as [Hh1|Hh1].
    - rewrite (ncols_shape g h w (conj Hh Hw)) by lia.
      destruct (top_check_spec g h w (py_range 1 h) (conj Hh Hw)) as
        [[E _]|(l1 & y & l2 & x & above & _ & _ & E & _)];
        [by intros y ?%elem_of_py_range|by eexists..].
    - rewrite py_range_nil by lia. by exists []. }
  destruct H4 as (f4 & H4 & H4').
  exists regions, f2, f3, f4, f5. split_and!; try done.
  - by eapply top_check_kind.
  - unfold verify_blueprint, region_check. rewrite Hcount. simpl.
    rewrite H2. simpl. rewrite H3. simpl. rewrite H4. simpl. rewrite H5. done.
Qed.

End Clearance.

(** *** What the checks establish *)


Section Verify.
Context {R : Type} `{!Generator R} `{!Oracles}.
Implicit Types (st : BlueprintGenerator_ (R:=R)).

(** X13.  Check 1 of [verify_blueprint] is exact: on a grid with its
    surface line the verifier returns, and it reports no region-count
    failure iff the open tiles (Air, Top, Spawn, Goal) are not empty and
    form one 4-connected region. *)
Theorem verify_counts_regions (g : Grid) s h w :
  shape g h w → Z.of_nat (length s) = w → choice_in_range R →
  ∃ fs, verify_blueprint (R := R) g s = Ok fs ∧
        ((∀ n, RegionCount n ∉ fs) ↔ one_air_region (walkable g)).
Proof.
  intros Hg Hlen Hchoice.
  destruct (verify_parts g s h w Hg Hlen Hchoice)
    as (regions & f2 & f3 & f4 & f5 & Hregions & _ & K2 & K3 & _ & K4 & _ & K5 & ->).
  eexists. split; [done|].
  rewrite <- (one_region_length _ _ Hregions). split.
  - intros Hnone. destruct (decide (Z.of_nat (length regions) ≠ 1)) as [Hne|He]; [|lia].
    destruct (Hnone (Z.of_nat (length regions))).
    apply elem_of_app. left. by left.
  - intros Hone n. rewrite decide_False by lia. simpl.
    rewrite !elem_of_app. intros [?|[?|[?|?]]];
      [by apply K2 in H0|by apply K3 in H0|by apply K4 in H0|by apply K5 in H0].
Qed.

(** X14.  Check 4 of [verify_blueprint] reports the first Top tile, in
    row-major order, that lies under a tile which is none of Air, Spawn and
    Goal, with that tile; it reports nothing else, and nothing when there is
    no such Top tile. *)
Theorem verify_reports_first_bad_top (g : Grid) s h w x y v :
  shape g h w → Z.of_nat (length s) = w → choice_in_range R →
  ∃ fs, verify_blueprint (R := R) g s = Ok fs ∧
        (TopUnderSolid x y v ∈ fs ↔
           top_under_solid g x y ∧ cell g (y - 1) x = Some v ∧
           ∀ x' y', y' < y ∨ (y' = y ∧ x' < x) → ¬ top_under_solid g x' y').
Proof.
  intros Hg Hlen Hchoice.
  destruct (verify_parts g s h w Hg Hlen Hchoice)
    as (regions & f2 & f3 & f4 & f5 & _ & _ & K2 & K3 & H4 & K4 & _ & K5 & ->).
  eexists. split; [done|].
  assert (Hin : TopUnderSolid x y v ∈
            (if decide (Z.of_nat (length regions) ≠ 1)
             then [RegionCount (Z.of_nat (length regions))] else [])
            ++ f2 ++ f3 ++ f4 ++ f5 ↔ TopUnderSolid x y v ∈ f4).
  { rewrite !elem_of_app. split; [|by auto].
    intros [Hf|[Hf|[Hf|[Hf|Hf]]]];
      [|by apply K2 in Hf|by apply K3 in Hf|done|by apply K5 in Hf].
    case_decide; [by apply list_elem_of_singleton in Hf|by apply elem_of_nil in Hf]. }
  rewrite Hin. clear Hin.
  assert (Hinside : ∀ x' y', top_under_solid g x' y' → 1 ≤ y' < h ∧ 0 ≤ x' < w).
  { intros x' y' (Htop & above & Habove & _).
    apply (cell_bounds _ _ _ _ _ _ Hg) in Htop, Habove. lia. }
  destruct (top_check_spec g h w (py_range 1 h) Hg) as
    [[E Hnone]|(l1 & y0 & l2 & x0 & above & Hl & Hx0 & E & Habove & Hbad & Hrows & Hcols)];
    [by intros y' ?%elem_of_py_range| |]; rewrite E in H4; injection H4 as <-.
  - split; [by intros ?%elem_of_nil|]. intros (Hbad & _).
    destruct (Hinside _ _ Hbad) as [Hy Hx].
    destruct (Hnone x y); [by apply elem_of_py_range|done..].
  - apply py_range_split in Hl as [-> Hy0].
    assert (Hfirst : ∀ x' y', y' < y0 ∨ (y' = y0 ∧ x' < x0) → ¬ top_under_solid g x' y').
    { intros x' y' Hlt Hb. destruct (Hinside _ _ Hb) as [Hy' Hx'].
      destruct Hlt as [Hlt|[-> Hlt]].
      - apply (Hrows x' y'); [apply elem_of_py_range; lia|done..].
      - apply (Hcols x'); [lia|done]. }
    rewrite list_elem_of_singleton. split.
    + intros [= -> -> ->]. done.
    + intros (Hb & Hv & Hbefore).
      destruct (Z.lt_total y y0) as [Hlt|[->|Hgt]].
      * destruct (Hfirst x y); [by left|done].
      * destruct (Z.lt_total x x0) as [Hlt|[->|Hgt]].
        -- destruct (Hfirst x y0); [by right|done].
        -- rewrite Habove in Hv. by injection Hv as ->.
        -- destruct (Hbefore x0 y0); [by right|done].
      * destruct (Hbefore x0 y0); [by left|done].
Qed.

(** X15.  On the grid of a completed run the verifier reports no Top tile
    under a solid tile and no clearance failure. *)
Theorem run_passes_top_checks fuel c st' :
  choice_in_range R → run fuel c = Ok st' →
  ∃ s fs, surface_line st' = Some s ∧
          verify_blueprint (R := R) (grid st') s = Ok fs ∧
          ∀ f, f ∈ fs → failure_check f ≠ 4 ∧ failure_check f ≠ 5.
Proof.
  intros Hchoice Hrun.
  destruct (run_output_spec fuel c st' Hrun) as (Hg & _ & _ & _ & s & Hs & Hlen & _).
  destruct (verify_parts (grid st') s _ _ Hg Hlen Hchoice)
    as (regions & f2 & f3 & f4 & f5 & _ & _ & K2 & K3 & H4 & K4 & H5 & K5 & Hv).
  exists s. eexists. split_and!; [done..|].
  assert (f5 = []) as ->.
  { eapply clearance_check_passes; [|done]. intros y x. by apply (run_tops_under_air fuel c). }
  assert (f4 = []) as ->.
  { destruct (top_check_spec (grid st') _ _ (py_range 1 (height c)) Hg) as
      [[E _]|(l1 & y0 & l2 & x0 & above & _ & _ & _ & _ & (Htop & a & Ha & Hn) & _)];
      [by intros y' ?%elem_of_py_range|congruence|].
    apply (run_tops_under_air fuel c) in Htop; [|done].
    rewrite Htop in Ha. injection Ha as <-. destruct Hn. by left. }
  intros f. rewrite !app_nil_r, !elem_of_app. intros [Hf|[Hf|Hf]].
  - case_decide; [apply list_elem_of_singleton in Hf as ->; done|by apply elem_of_nil in Hf].
  - apply K2 in Hf. rewrite Hf. done.
  - apply K3 in Hf. rewrite Hf. done.
Qed.

(** X16.  For a Config whose surface heights are between 1 and [height], the
    verifier finds the Spawn of a completed run in order: exactly one,
    right above the surface of its column. *)
Theorem run_passes_spawn_check fuel c st' :
  choice_in_range R → 1 ≤ surface_y_min c → surface_y_max c ≤ height c →
  run fuel c = Ok st' →
  ∃ s fs, surface_line st' = Some s ∧
          verify_blueprint (R := R) (grid st') s = Ok fs ∧
          ∀ f, f ∈ fs → failure_check f ≠ 2.
Proof.
  intros Hchoice Hmin Hmax Hrun.
  destruct (run_output_spec fuel c st' Hrun) as (Hg & _ & _ & _ & s & Hs & Hlen & _).
  destruct (spawn_on_surface fuel c st' Hmin Hmax Hrun) as (s' & x & surf & Hs' & Hx & Hone).
  assert (s' = s) as -> by congruence.
  destruct (verify_parts (grid st') s _ _ Hg Hlen Hchoice)
    as (regions & f2 & f3 & f4 & f5 & _ & H2 & _ & K3 & _ & K4 & _ & K5 & Hv).
  exists s. eexists. split_and!; [done..|].
  rewrite (spawn_check_unique (grid st') s _ _ (surf - 1) x surf Hg Hone Hx) in H2.
  rewrite decide_False in H2 by lia. injection H2 as <-.
  intros f. rewrite !elem_of_app. intros [Hf|[Hf|[Hf|[Hf|Hf]]]].
  - case_decide; [apply list_elem_of_singleton in Hf as ->; done|by apply elem_of_nil in Hf].
  - by apply elem_of_nil in Hf.
  - apply K3 in Hf. by rewrite Hf.
  - apply K4 in Hf. by rewrite Hf.
  - apply K5 in Hf. by rewrite Hf.
Qed.

(** X17.  The verifier flags the runs whose Spawn store wrapped around: for
    a Config with [surface_y_min = surface_y_max = 0] and more than two rows
    it reports the Spawn on the bottom row, away from the row [-1] it was
    aimed at. *)
Theorem verify_flags_wrapped_spawn fuel c st' :
  choice_in_range R → surface_y_min c = 0 → surface_y_max c = 0 → 2 < height c →
  run fuel c = Ok st' →
  ∃ s fs, surface_line st' = Some s ∧
          verify_blueprint (R := R) (grid st') s = Ok fs ∧
          SpawnNotNear (height c - 1) (-1) ∈ fs.
Proof.
  intros Hchoice Hmin Hmax Hh Hrun.
  destruct (run_output_spec fuel c st' Hrun) as (Hg & _ & _ & _ & s & Hs & Hlen & _).
  destruct (run_spawn_unique fuel c st' Hrun)
    as (s' & x & surf & y & Hs' & Hx & Hsurf & Hy & _ & Hone).
  assert (s' = s) as -> by congruence.
  assert (surf = 0) as -> by lia.
  apply np_index_Ok in Hy as [[? ->]|[? ->]]; [lia|].
  destruct (verify_parts (grid st') s _ _ Hg Hlen Hchoice)
    as (regions & f2 & f3 & f4 & f5 & _ & H2 & _ & _ & _ & _ & _ & _ & Hv).
  exists s. eexists. split_and!; [done..|].
  rewrite (spawn_check_unique (grid st') s _ _ (0 - 1 + height c) x 0 Hg Hone Hx) in H2.
  rewrite decide_True in H2 by lia. injection H2 as <-.
  rewrite !elem_of_app. right. left.
  replace (0 - 1 + height c) with (height c - 1) by lia. by left.
Qed.

End Verify.

(** ** The open tiles of a run *)

Lemma length_row_major w h : length (row_major w h) = (Z.to_nat h * Z.to_nat w)%nat.
Proof.
  unfold row_major.
  assert (Hl : length (py_range 0 h) = Z.to_nat h)
    by (unfold py_range; rewrite length_seqZ; lia).
  revert Hl. generalize (py_range 0 h) as ys. generalize (Z.to_nat h) as n.
  intros n ys. revert n. induction ys as [|y ys IH]; intros n Hn.
  - simpl in *. by subst.
  - rewrite bind_cons, length_app, length_fmap. unfold py_range at 1.
    rewrite length_seqZ. simpl in Hn.
    destruct n as [|n]; [done|]. rewrite (IH n) by lia. lia.
Qed.

(** A sky whose columns all reach row 0 is one region. *)
Lemma sky_joined (g : Grid) s h w a b :
  (∀ x y, is_air_at g (x, y) ↔ sky s h x y) →
  Z.of_nat (length s) = w → (∀ x v, zlookup s x = Some v → 1 ≤ v) → 0 < h →
  is_air_at g a → is_air_at g b → connected g a b.
Proof.
  intros Hair Hlen Hmin Hh.
  assert (Htop : ∀ x, 0 ≤ x < w → is_air_at g (x, 0)).
  { intros x Hx. apply Hair. destruct (zlookup_lt s x) as [v Hv]; [lia|].
    exists v. split; [done|]. specialize (Hmin x v Hv).
    rewrite slice_bound_nonneg by lia. lia. }
  assert (Hroot : ∀ c, is_air_at g c → 0 ≤ c.1 < w ∧ connected g c (0, 0)).
  { intros [x y] Ha. pose proof Ha as (v & Hv & Hy)%Hair.
    pose proof (zlookup_bound _ _ _ Hv) as Hx. simpl. split; [lia|].
    etrans; [apply (connected_col g x y 0)|apply (connected_row g 0 x 0)].
    - intros y' Hy'. apply Hair. exists v. split; [done|lia].
    - intros x' Hx'. apply Htop. lia. }
  intros Ha Hb. etrans; [by apply Hroot|]. by apply connected_sym, Hroot.
Qed.

(** The sky is a region of at least [w * y_min] tiles. *)
Lemma sky_big (g : Grid) s h w y_min c :
  (∀ x y, is_air_at g (x, y) ↔ sky s h x y) →
  Z.of_nat (length s) = w → (∀ x v, zlookup s x = Some v → y_min ≤ v) →
  1 ≤ y_min ≤ h → is_air_at g c → big_region (w * y_min) g c.
Proof.
  intros Hair Hlen Hmin Hy Hc.
  exists (row_major w y_min). split_and!.
  - apply NoDup_row_major.
  - intros [x y] [Hx Hy']%elem_of_row_major. simpl in *.
    apply (sky_joined g s h w); [done..| |lia|done|].
    + intros x' v Hv. specialize (Hmin x' v Hv). lia.
    + apply Hair. destruct (zlookup_lt s x) as [v Hv]; [lia|].
      exists v. split; [done|]. specialize (Hmin x v Hv).
      rewrite slice_bound_nonneg by lia. lia.
  - rewrite length_row_major.
    assert (0 ≤ w) by lia. nia.
Qed.

Lemma setitem_inside (g g' : Grid) h w y x v :
  shape g h w → 0 ≤ y → 0 ≤ x → setitem g y x v = Ok g' →
  g' = put g y x v ∧ y < h ∧ x < w.
Proof.
  intros Hg Hy Hx Hset.
  apply (setitem_Ok g y x v g' h w Hg) in Hset as (j & i & Hj & Hi & ->).
  apply np_index_Ok in Hj as [[? ->]|[? _]]; [|lia].
  apply np_index_Ok in Hi as [[? ->]|[? _]]; [|lia]. split; [done|lia].
Qed.

(** The air after [carve_shaft] from a row that is not negative: the air
    there was and the tiles of the shaft. *)
Lemma carve_shaft_air (g g' : Grid) h w half cx lo hi d :
  shape g h w → 0 ≤ lo →
  carve_shaft w half cx (py_range lo hi) g = Ok g' →
  shape g' h w ∧
  (is_air_at g' d ↔
     (lo ≤ d.2 < hi ∧ - half ≤ d.1 - cx ≤ half ∧ 0 ≤ d.1 < w) ∨ is_air_at g d).
Proof.
  intros Hg Hlo. unfold carve_shaft. intros Hrun.
  eapply (foldM_inv_prefix (λ done (s : Grid),
     shape s h w ∧
     (is_air_at s d ↔
        (d.2 ∈ done ∧ - half ≤ d.1 - cx ≤ half ∧ 0 ≤ d.1 < w) ∨ is_air_at g d))) in Hrun.
  - destruct Hrun as [Hs Hiff]. split; [done|]. rewrite Hiff, elem_of_py_range. done.
  - intros l1 y l2 g1 g2 Hl (Hg1 & Hiff1) Hrow.
    apply py_range_split in Hl as [-> Hy].
    eapply (foldM_inv_prefix (λ done (s : Grid),
       shape s h w ∧
       (is_air_at s d ↔
          (d.2 = y ∧ d.1 - cx ∈ done ∧ 0 ≤ d.1 < w) ∨ is_air_at g1 d))) in Hrow.
    + destruct Hrow as [Hs Hiff]. split; [done|]. rewrite Hiff, Hiff1.
      rewrite elem_of_app, list_elem_of_singleton, !elem_of_py_range. split.
      * intros [(? & ? & ?)|[(? & ? & ?)|?]]; [left|left|by right]; split_and!; auto; lia.
      * intros [([?|?] & ? & ?)|?]; [right; left|left|right; by right]; split_and!; auto; lia.
    + intros d1 dx d2 g3 g4 _ (Hg3 & Hiff3) Hstep. simpl in Hstep.
      rewrite elem_of_app, list_elem_of_singleton.
      case_decide as Hin.
      * apply (setitem_inside g3 g4 h w) in Hstep as (-> & Hyh & _); [|done|lia..].
        split; [by apply shape_put|].
        rewrite (is_air_put g3 h w) by (done || lia). rewrite Hiff3.
        destruct d as [dx' dy']. simpl. split.
        -- intros [[= -> ->]|[(? & ? & ?)|?]]; [left|left|by right]; split_and!; auto; try lia.
        -- intros [(-> & [?|?] & ?)|?]; [right; left; split_and!; auto; lia| |right; by right].
           left. f_equal. lia.
      * injection Hstep as <-. split; [done|]. rewrite Hiff3. split.
        -- intros [(? & ? & ?)|?]; [left|by right]. split_and!; auto; lia.
        -- intros [(? & [?|?] & ?)|?]; [left; split_and!; auto; lia| |by right].
           exfalso. apply Hin. lia.
    + split; [done|]. split; [by right|]. by intros [(_ & ?%elem_of_nil & _)|?].
  - split; [done|]. split; [by right|]. by intros [(?%elem_of_nil & _)|?].
Qed.

Lemma big_region_mono m m' (g g' : Grid) c :
  m' ≤ m → (∀ d, is_air_at g d → is_air_at g' d) → big_region m g c → big_region m' g' c.
Proof.
  intros Hm Hsub (l & Hl & Hconn & Hlen). exists l. split_and!; [done| |lia].
  intros d Hd. apply (connected_mono g); [done|]. by apply Hconn.
Qed.

Lemma writes_air_mono (g g' : Grid) d :
  writes is_air g g' → is_air_at g d → is_air_at g' d.
Proof. intros W Ha. by apply (writes_only T_AIR g g'). Qed.

Section OpenTiles.
Context {R : Type} `{!Generator R} `{!Oracles}.
Implicit Types (st : BlueprintGenerator_ (R:=R)).

(** The shaft of step 7 hangs from the sky. *)
Lemma step7_joined st st' s :
  grid_ok st → surface_line st = Some s → Z.of_nat (length s) = width (cfg st) →
  (∀ x v, zlookup s x = Some v → 1 ≤ v ∧ is_air_at (grid st) (x, v - 1)) →
  0 ≤ tunnel_min_width (cfg st) →
  (∀ a b, is_air_at (grid st) a → is_air_at (grid st) b → connected (grid st) a b) →
  _step7_surface_entry_check st = Ok st' →
  ∀ a b, is_air_at (grid st') a → is_air_at (grid st') b → connected (grid st') a b.
Proof.
  intros Hok Hs Hlen Hsky Hw Hjoined. unfold _step7_surface_entry_check, the_surface_line.
  rewrite Hs. simpl. intros Hrun.
  apply bind_Ok in Hrun as (m & Hm & Hrun).
  apply bind_Ok in Hrun as ([] & Hfound & Hrun); [by injection Hrun as <-|].
  apply bind_Ok in Hrun as (surf & Hsurf & Hrun).
  apply bind_Ok in Hrun as (g' & Hcarve & Hrun). injection Hrun as <-. simpl.
  set (w := width (cfg st)) in *. set (h := height (cfg st)) in *.
  set (half := tunnel_min_width (cfg st) `div` 2) in *.
  set (cx := w `div` 2) in *. set (hi := Z.min (m + 2 + 10) h) in *.
  assert (Hwpos : 0 < w) by (destruct s; [done|]; simpl in Hlen; lia).
  assert (Hcx : 0 ≤ cx < w).
  { split; [apply Z.div_pos; lia|apply Z.div_lt_upper_bound; lia]. }
  assert (Hhalf : 0 ≤ half) by (apply Z.div_pos; lia).
  apply getitem1_Ok in Hsurf as (j & Hj & Hsurf).
  apply np_index_Ok in Hj as [[_ ->]|[? _]]; [|lia].
  destruct (Hsky cx surf Hsurf) as [Hsurf1 Hroot].
  assert (Hair : ∀ d, is_air_at g' d ↔
            (surf ≤ d.2 < hi ∧ - half ≤ d.1 - cx ≤ half ∧ 0 ≤ d.1 < w) ∨ is_air_at (grid st) d).
  { intros d. by apply (carve_shaft_air (grid st) g' h w half cx surf hi d Hok); [lia|]. }
  assert (Hup : ∀ d, is_air_at (grid st) d → is_air_at g' d) by (intros d ?; apply Hair; by right).
  assert (Hall : ∀ d, is_air_at g' d → connected g' (cx, surf - 1) d).
  { intros [x y] [(Hy & Hx & Hxw)|Hd]%Hair; simpl in *.
    - etrans; [apply (connected_col g' cx (surf - 1) y)|apply (connected_row g' y cx x)].
      + intros y' Hy'. destruct (decide (y' = surf - 1)) as [->|Hne]; [by apply Hup|].
        apply Hair. left. simpl. lia.
      + intros x' Hx'. apply Hair. left. simpl. lia.
    - apply (connected_mono (grid st)); [done|]. by apply Hjoined. }
  intros a b Ha Hb. etrans; [apply connected_sym; by apply Hall|by apply Hall].
Qed.

(** Step 8 puts its markers on air: the open tiles after it are the air
    before it. *)
Lemma step8_open st st' s :
  grid_ok st → surface_line st = Some s → Z.of_nat (length s) = width (cfg st) →
  (∀ x v, zlookup s x = Some v → 1 ≤ v ≤ height (cfg st) ∧ is_air_at (grid st) (x, v - 1)) →
  (∀ y x v, cell (grid st) y x = Some v → v = T_AIR ∨ v = T_FILL) →
  _step8_spawn_goal st = Ok st' →
  shape (grid st') (height (cfg st)) (width (cfg st)) ∧
  (∃ d, is_air_at (grid st) d) ∧
  (∀ y x, cell (grid st') y x ≠ Some T_TOP) ∧
  ∀ d, is_air_at (grid st) d ↔
       ∃ v, cell (grid st') d.2 d.1 = Some v ∧ (v = T_AIR ∨ v = T_SPAWN ∨ v = T_GOAL).
Proof.
  intros Hok Hs Hlen Hsky Hv7 Hrun.
  destruct (step8_spawn st st' s Hok Hs Hrun)
    as (spawn_x & surf & y & x & _ & Hsurf & Hy & Hx & Hg8 & _).
  pose proof (step8_writes _ _ Hrun) as (W8 & _ & _).
  apply getitem1_Ok in Hsurf as (j & Hj & Hsurf). rewrite Hlen in Hj.
  assert (j = x) as -> by congruence.
  destruct (Hsky x surf Hsurf) as [Hsurf1 Hspawn].
  apply np_index_Ok in Hy as [[_ ->]|[? _]]; [|lia].
  set (gp := put (grid st) (surf - 1) x T_SPAWN) in *.
  assert (Hgp : ∀ y' x', cell gp y' x' =
            if decide ((y', x') = (surf - 1, x)) then Some T_SPAWN else cell (grid st) y' x').
  { intros y' x'. unfold gp. rewrite cell_put. case_decide; [|done].
    unfold is_air_at in Hspawn. simpl in Hspawn. by rewrite Hspawn. }
  assert (Hsgp : shape gp (height (cfg st)) (width (cfg st))) by (by apply shape_put).
  assert (Hnogoal : ∀ y' x', cell gp y' x' ≠ Some T_GOAL).
  { intros y' x'. rewrite Hgp. case_decide; [done|]. by intros [?|?]%Hv7. }
  assert (Hmark : ∀ y' x' v, v = T_SPAWN ∨ v = T_FILL →
            cell (grid st') y' x' = Some v ↔ cell gp y' x' = Some v).
  { intros y' x' v Hv. rewrite Hg8. apply place_goal_keeps; by destruct Hv as [-> | ->]. }
  assert (Hwp : writes is_marker gp (grid st')).
  { rewrite Hg8. apply writes_place_goal. }
  split_and!.
  - by eapply writes_shape.
  - by eexists.
  - intros y' x' E. destruct W8 as [_ W8].
    destruct (W8 y' x') as [E'|(v & Hm & E')]; rewrite E' in E.
    + by apply Hv7 in E as [?|?].
    + injection E as ->. by destruct Hm.
  - intros [dx dy]. simpl. split.
    + intros Ha. destruct (decide ((dy, dx) = (surf - 1, x))) as [E|E].
      * exists T_SPAWN. split; [|by auto]. apply Hmark; [by left|].
        by rewrite Hgp, decide_True.
      * assert (Hgpa : cell gp dy dx = Some T_AIR) by (by rewrite Hgp, decide_False).
        destruct Hwp as [_ Hwp]. destruct (Hwp dy dx) as [E'|(v & [-> | ->] & E')].
        -- exists T_AIR. split; [congruence|by auto].
        -- apply Hmark in E'; [by rewrite Hgpa in E'|by left].
        -- exists T_GOAL. split; [done|by auto].
    + intros (v & Hv & [-> |[-> | ->]]).
      * destruct Hwp as [_ Hwp]. destruct (Hwp dy dx) as [E'|(v & [-> | ->] & E')];
          [|by rewrite Hv in E'..].
        rewrite Hv in E'. symmetry in E'. rewrite Hgp in E'. by case_decide.
      * apply Hmark in Hv; [|by left]. rewrite Hgp in Hv. case_decide as E.
        -- by injection E as -> ->.
        -- by apply Hv7 in Hv as [?|?].
      * rewrite Hg8 in Hv.
        destruct (place_goal_spec (width (cfg st)) (height (cfg st)) gp spawn_x (surf - 1)
                    Hsgp Hnogoal) as [(cg & Hcg & Hgoal)|[_ E]].
        -- apply Hgoal in Hv. subst cg. unfold is_air_at in Hcg. simpl in Hcg.
           rewrite Hgp in Hcg. by case_decide.
        -- rewrite E in Hv. by apply Hnogoal in Hv.
Qed.

(** After step 9 the Top tiles hang from the air above them. *)
Lemma top_detection_open (g7 g8 : Grid) h w :
  shape g8 h w →
  (∃ d, is_air_at g7 d) →
  (∀ y x, cell g8 y x ≠ Some T_TOP) →
  (∀ d, is_air_at g7 d ↔
        ∃ v, cell g8 d.2 d.1 = Some v ∧ (v = T_AIR ∨ v = T_SPAWN ∨ v = T_GOAL)) →
  (∀ a b, is_air_at g7 a → is_air_at g7 b → connected g7 a b) →
  one_air_region (walkable (top_detection g8)).
Proof.
  intros Hg8 [d0 Hd0] Hnotop Hopen Hjoined.
  set (g9 := top_detection g8).
  assert (Hkeep : ∀ d, is_air_at g7 d → is_air_at (walkable g9) d).
  { intros d (v & Hv & Hv3)%Hopen. apply is_air_at_walkable. exists v. split.
    - apply (cell_top_detection_keeps g8 h w); [done| | |done];
        destruct Hv3 as [-> |[-> | ->]]; done.
    - unfold is_open. apply bool_decide_eq_true. tauto. }
  assert (Hroot : ∀ d, is_air_at (walkable g9) d →
            ∃ e, is_air_at g7 e ∧ connected (walkable g9) d e).
  { intros [x y] (v & Hv & Hov)%is_air_at_walkable. simpl in Hv.
    unfold is_open in Hov. apply bool_decide_eq_true in Hov.
    destruct (decide (v = T_TOP)) as [->|Hnt].
    - unfold g9 in Hv. rewrite (cell_top_detection g8 h w) in Hv by done.
      apply derive_Some_top in Hv as [Hv|[Ha Hf]]; [by apply Hnotop in Hv|].
      assert (Hu : is_air_at g7 (x, y - 1)).
      { apply Hopen. exists T_AIR. split; [done|by left]. }
      exists (x, y - 1). split; [done|]. apply rtc_once. split_and!.
      + apply is_air_at_walkable. exists T_TOP. simpl. split; [|done].
        unfold g9. rewrite (cell_top_detection g8 h w) by done.
        apply derive_Some_top. by right.
      + by apply Hkeep.
      + simpl. unfold neighbours. rewrite !elem_of_cons. right. right. by left.
    - exists (x, y). split; [|apply rtc_refl]. apply Hopen. exists v. simpl. split.
      + apply (cell_top_detection_keeps g8 h w) in Hv; [done..| |]; [done|].
        intros ->. destruct Hov as [?|[?|[?|?]]]; done.
      + tauto. }
  split.
  - exists d0. by apply Hkeep.
  - intros a b (ea & Hea & Hca)%Hroot (eb & Heb & Hcb)%Hroot.
    etrans; [done|]. etrans; [|by apply connected_sym].
    apply (connected_mono g7); [done|]. by apply Hjoined.
Qed.

Lemma run_open_tiles fuel c st' :
  choice_in_range R → set_iteration_keeps →
  1 ≤ surface_y_min c → surface_y_max c ≤ height c →
  min_region_size c ≤ width c * surface_y_min c →
  0 ≤ tunnel_min_width c →
  run fuel c = Ok st' →
  one_air_region (walkable (grid st')).
Proof.
  intros Hchoice Hset Hmin Hmax Hbig Htw Hrun.
  apply run_Ok in Hrun as (st & Hst & Hgen).
  apply BlueprintGenerator_Ok in Hst as (Hok & Hc & _).
  apply generate_Ok in Hgen
    as (s2 & s3 & s4 & s5 & s6 & s7 & s8 & H2 & H3 & H4 & H5 & H6 & H7 & H8 & ->).
  destruct (generate_before_step8 _ _ _ _ _ _ _ _ Hok H2 H3 H4 H5 H6 H7)
    as (Hok7 & C7 & L7 & Hv7).
  destruct (step2_air st s2 Hok H2) as (s & Hs & Hlen & Hrange & Hair2).
  destruct (step2_spec _ _ (grid_ok_step1 _ Hok) H2) as (Hmm & _).
  pose proof (step2_writes _ _ H2) as (W2 & C2).
  pose proof (step3_writes _ _ _ H3) as (W3 & C3 & L3).
  pose proof (step4_writes _ _ H4) as (W4 & C4 & L4).
  pose proof (step5_writes _ _ H5) as (W5 & C5 & L5).
  pose proof (step6_writes _ _ H6) as (W6 & C6 & L6).
  pose proof (step7_writes _ _ H7) as (W7 & _ & _).
  change (cfg (_step1_init st)) with (cfg st) in *.
  assert (E2 : cfg s2 = c) by congruence. assert (E3 : cfg s3 = c) by congruence.
  assert (E4 : cfg s4 = c) by congruence. assert (E5 : cfg s5 = c) by congruence.
  assert (E6 : cfg s6 = c) by congruence. assert (E7 : cfg s7 = c) by congruence.
  unfold grid_ok in *. rewrite Hc in *. rewrite E7 in *.
  set (h := height c) in *. set (w := width c) in *.
  assert (Hg2 : shape (grid s2) h w) by (eapply writes_shape; [done|]; by apply shape_step1).
  assert (Hg3 : shape (grid s3) h w) by (by eapply writes_shape).
  assert (Hg4 : shape (grid s4) h w) by (by eapply writes_shape).
  assert (Hg5 : shape (grid s5) h w) by (by eapply writes_shape).
  assert (Hg6 : shape (grid s6) h w) by (by eapply writes_shape).
  assert (Hw0 : 0 ≤ w) by (rewrite <- Hlen; lia).
  (* the sky survives the filter *)
  assert (Hsky5 : ∀ d, is_air_at (grid s2) d → is_air_at (grid s5) d).
  { intros d Hd.
    destruct (step5_effect s4 s5) as (_ & [Hkeep _] & _);
      [unfold grid_ok; by rewrite E4|done|].
    rewrite E4 in Hkeep. apply Hkeep.
    - by apply (writes_air_mono (grid s3)), (writes_air_mono (grid s2)).
    - apply (big_region_mono (w * surface_y_min c) _ (grid s2)); [done| |].
      + intros e He. by apply (writes_air_mono (grid s3)), (writes_air_mono (grid s2)).
      + apply (sky_big (grid s2) s h w); [by intros x y; apply Hair2|done| |lia|done].
        intros x v Hv. by apply Hrange in Hv as [? _]. }
  (* step 6 joins the regions *)
  destruct (step6_spec s5 Hchoice Hset) as (s6' & H6' & Hjoined6);
    [unfold grid_ok; by rewrite E5|by rewrite E5|by rewrite E5|].
  assert (s6' = s6) as -> by congruence.
  assert (Hsky6 : ∀ x v, zlookup s x = Some v →
            1 ≤ v ≤ h ∧ is_air_at (grid s6) (x, v - 1)).
  { intros x v Hv. pose proof (Hrange x v Hv). split; [lia|].
    apply (writes_air_mono (grid s5)); [done|]. apply Hsky5, Hair2.
    exists v. split; [done|]. rewrite slice_bound_nonneg by lia. lia. }
  assert (Ls6 : surface_line s6 = Some s) by congruence.
  assert (Hjoined7 : ∀ a b, is_air_at (grid s7) a → is_air_at (grid s7) b →
            connected (grid s7) a b).
  { apply (step7_joined s6 s7 s); unfold grid_ok; rewrite ?E6; try done.
    intros x v Hv. destruct (Hsky6 x v Hv). split; [lia|done]. }
  assert (Ls7 : surface_line s7 = Some s) by congruence.
  destruct (step8_open s7 s8 s) as (Hg8 & Hany & Hnotop & Hopen);
    unfold grid_ok; rewrite ?E7; try done.
  { intros x v Hv. destruct (Hsky6 x v Hv). split; [done|].
    by apply (writes_air_mono (grid s6)). }
  rewrite E7 in Hg8.
  by apply (top_detection_open (grid s7) (grid s8) h w).
Qed.

(** X18.  For a Config with surface heights between 1 and [height], a sky
    of at least [min_region_size] tiles ([min_region_size <= width *
    surface_y_min]) and a tunnel width that is not negative, the open tiles
    (Air, Top, Spawn, Goal) of a completed run form one 4-connected region,
    and the verifier reports no region-count failure. *)
Theorem run_is_connected fuel c st' :
  choice_in_range R → set_iteration_keeps →
  1 ≤ surface_y_min c → surface_y_max c ≤ height c →
  min_region_size c ≤ width c * surface_y_min c →
  0 ≤ tunnel_min_width c →
  run fuel c = Ok st' →
  one_air_region (walkable (grid st')) ∧
  ∃ s fs, surface_line st' = Some s ∧
          verify_blueprint (R := R) (grid st') s = Ok fs ∧
          ∀ n, RegionCount n ∉ fs.
Proof.
  intros Hchoice Hset Hmin Hmax Hbig Htw Hrun.
  pose proof (run_open_tiles fuel c st' Hchoice Hset Hmin Hmax Hbig Htw Hrun) as Hone.
  split; [done|].
  destruct (run_output_spec fuel c st' Hrun) as (Hg & _ & _ & _ & s & Hs & Hlen & _).
  destruct (verify_parts (grid st') s _ _ Hg Hlen Hchoice)
    as (regions & f2 & f3 & f4 & f5 & Hregions & _ & K2 & K3 & _ & K4 & _ & K5 & Hv).
  exists s. eexists. split_and!; [done..|].
  apply (one_region_length _ _ Hregions) in Hone.
  intros n. rewrite decide_False by lia. simpl.
  rewrite !elem_of_app. intros [Hf|[Hf|[Hf|Hf]]];
    [by apply K2 in Hf|by apply K3 in Hf|by apply K4 in Hf|by apply K5 in Hf].
Qed.

End OpenTiles.

(** ** The CSV file of a grid *)

Lemma mapM_fmap_Ok {A B} (f : A → Outcome B) (k : A → B) (l : list A) :
  (∀ a, a ∈ l → f a = Ok (k a)) → mapM f l = Ok (k <$> l).
Proof.
  induction l as [|a l IH]; intros Hf; simpl; [done|].
  rewrite Hf by by left. simpl. rewrite IH; [done|]. intros b Hb. apply Hf. by right.
Qed.

Lemma fmap_range_lookup {A} (d : A) (l : list A) :
  (λ i, default d (zlookup l i)) <$> py_range 0 (Z.of_nat (length l)) = l.
Proof.
  apply list_eq. intros i. rewrite list_lookup_fmap. unfold py_range.
  destruct (l !! i) as [a|] eqn:E.
  - rewrite lookup_seqZ_lt by (apply lookup_lt_Some in E; lia). simpl.
    unfold zlookup. rewrite decide_True by lia.
    replace (Z.to_nat (0 + Z.of_nat i)) with i by lia. by rewrite E.
  - rewrite lookup_seqZ_ge; [done|]. apply lookup_ge_None in E. lia.
Qed.

(** The text of a row: its cells between commas, and a line end. *)
Lemma export_csv_text (g : Grid) h w :
  shape g h w →
  export_csv g = Ok (concat ((λ row, join comma (py_str <$> row) ++ [newline]) <$> g)).
Proof.
  intros Hg. unfold export_csv.
  set (line := λ row : list Z, join comma (py_str <$> row) ++ [newline]).
  rewrite (mapM_fmap_Ok _ (λ y, line (default [] (zlookup g y)))).
  - simpl. do 2 f_equal. rewrite <- (fmap_range_lookup [] g) at 2.
    unfold nrows. by rewrite <- list_fmap_compose.
  - intros y Hy%elem_of_py_range.
    destruct (zlookup_lt g y) as [row Hrow]; [unfold nrows in Hy; lia|].
    rewrite Hrow. simpl.
    assert (Hw : Z.of_nat (length row) = ncols g).
    { pose proof Hg as [Hh Hw]. pose proof Hrow as Hrow'.
      apply zlookup_Some in Hrow' as [_ Hrow'].
      rewrite Forall_lookup in Hw. rewrite (Hw _ _ Hrow').
      symmetry. apply (ncols_shape g h w Hg). rewrite <- Hh. lia. }
    rewrite (mapM_fmap_Ok _ (λ x, py_str (default 0 (zlookup row x)))).
    + simpl. unfold line. do 3 f_equal. rewrite <- Hw.
      rewrite <- (fmap_range_lookup 0 row) at 2. by rewrite <- list_fmap_compose.
    + intros x Hx%elem_of_py_range.
      destruct (zlookup_lt row x) as [v Hv]; [lia|]. rewrite Hv. simpl.
      assert (Hcell : cell g y x = Some v) by (unfold cell; by rewrite Hrow).
      pose proof (cell_bounds _ _ _ _ _ _ Hg Hcell) as [Hyb Hxb].
      destruct (getitem_inside g h w y x Hg Hyb Hxb) as (v' & -> & Hv').
      simpl. congruence.
Qed.

Lemma universal_id (s : Text) :
  Forall (λ c, Ascii.eqb c carriage_return = false) s → universal s = s.
Proof.
  induction 1 as [|c s Hc _ IH]; simpl; [done|]. by rewrite Hc, IH.
Qed.

Lemma lines_app_newline (r rest : Text) :
  Forall (λ c, Ascii.eqb c newline = false) r →
  lines (r ++ newline :: rest) = (r ++ [newline]) :: lines rest.
Proof.
  induction 1 as [|c r Hc _ IH]; simpl.
  - done.
  - by rewrite Hc, IH.
Qed.

Lemma lines_concat (rows : list Text) :
  Forall (Forall (λ c, Ascii.eqb c newline = false)) rows →
  lines (concat ((λ r, r ++ [newline]) <$> rows)) = (λ r, r ++ [newline]) <$> rows.
Proof.
  induction 1 as [|r rows Hr _ IH]; [done|].
  rewrite !fmap_cons. simpl concat. rewrite <- app_assoc.
  change ([newline] ++ ?l) with (newline :: l).
  rewrite lines_app_newline by done. by rewrite IH.
Qed.

Lemma lstrip_id (s : Text) c :
  head s = Some c → is_space c = false → lstrip s = s.
Proof. destruct s as [|c' s]; [done|]. intros [= ->] Hc. simpl. by rewrite Hc. Qed.

Lemma strip_line (r : Text) a b :
  head r = Some a → is_space a = false → last r = Some b → is_space b = false →
  strip (r ++ [newline]) = r.
Proof.
  intros Ha Hsa Hb Hsb. unfold strip.
  rewrite (lstrip_id (r ++ [newline]) a); [|by destruct r|done].
  rewrite reverse_app. simpl.
  change (lstrip (newline :: reverse r)) with (lstrip (reverse r)).
  rewrite (lstrip_id (reverse r) b); [by rewrite reverse_involutive| |done].
  rewrite <- Hb. by rewrite head_reverse.
Qed.

Lemma split_on_nonempty sep s : split_on sep s ≠ [].
Proof. destruct s as [|c s]; simpl; [done|]. destruct (Ascii.eqb c sep); [done|]. by destruct (split_on sep s). Qed.

Lemma split_on_piece sep (p : Text) :
  Forall (λ c, Ascii.eqb c sep = false) p → split_on sep p = [p].
Proof. induction 1 as [|c p Hc _ IH]; simpl; [done|]. by rewrite Hc, IH. Qed.

Lemma split_on_app sep (p rest : Text) :
  Forall (λ c, Ascii.eqb c sep = false) p →
  split_on sep (p ++ sep :: rest) = p :: split_on sep rest.
Proof.
  induction 1 as [|c p Hc _ IH]; simpl.
  - by rewrite Ascii.eqb_refl.
  - by rewrite Hc, IH.
Qed.

Lemma split_join sep (pieces : list Text) :
  pieces ≠ [] → Forall (Forall (λ c, Ascii.eqb c sep = false)) pieces →
  split_on sep (join sep pieces) = pieces.
Proof.
  intros Hne Hall. induction Hall as [|p pieces Hp Hps IH]; [done|].
  destruct pieces as [|q pieces]; simpl.
  - by apply split_on_piece.
  - rewrite split_on_app by done. f_equal. by apply IH.
Qed.

Lemma head_join sep (p : Text) (pieces : list Text) c :
  head p = Some c → head (join sep (p :: pieces)) = Some c.
Proof. destruct p as [|c' p]; [done|]. intros [= ->]. by destruct pieces. Qed.

Lemma last_join sep (pieces : list Text) (p : Text) c :
  last pieces = Some p → last p = Some c → last (join sep pieces) = Some c.
Proof.
  induction pieces as [|q pieces IH]; [done|].
  destruct pieces as [|q' pieces]; simpl.
  - by intros [= ->].
  - intros Hl Hc. rewrite last_app. simpl in IH. rewrite last_cons.
    change (last (q' :: pieces)) with (last (q' :: pieces)) in Hl.
    by rewrite (IH Hl Hc).
Qed.

Lemma int8_text v :
  int8 v →
  py_int (py_str v) = Ok v ∧
  (∃ a, head (py_str v) = Some a ∧ is_space a = false) ∧
  (∃ b, last (py_str v) = Some b ∧ is_space b = false) ∧
  Forall (λ c, Ascii.eqb c comma = false ∧ Ascii.eqb c newline = false ∧
               Ascii.eqb c carriage_return = false) (py_str v).
Proof.
  intros Hv.
  assert (Hall : forallb cell_text_ok (seqZ (-128) 256) = true) by (vm_compute; reflexivity).
  assert (Hok : cell_text_ok v = true).
  { rewrite forallb_forall in Hall. apply Hall, list_elem_of_In, elem_of_seqZ.
    unfold int8 in Hv. lia. }
  unfold cell_text_ok in Hok. rewrite !andb_true_iff in Hok.
  destruct Hok as [[[H1 H2] H3] H4]. split_and!.
  - destruct (py_int (py_str v)) as [m| |]; [|done..]. apply bool_decide_eq_true in H1. by subst.
  - destruct (head (py_str v)) as [a|]; [|done]. exists a. split; [done|].
    by apply negb_true_iff.
  - destruct (last (py_str v)) as [b|]; [|done]. exists b. split; [done|].
    by apply negb_true_iff.
  - apply Forall_forall. intros c Hc. rewrite forallb_forall in H4.
    specialize (H4 c (proj1 (list_elem_of_In _ _) Hc)).
    rewrite !andb_true_iff, !negb_true_iff in H4. tauto.
Qed.

Lemma Forall_join (P : Ascii.ascii → Prop) sep (pieces : list Text) :
  P sep → Forall (Forall P) pieces → Forall P (join sep pieces).
Proof.
  intros Hsep. induction 1 as [|p pieces Hp Hps IH]; [done|].
  destruct pieces as [|q pieces]; [done|].
  change (join sep (p :: q :: pieces)) with (p ++ sep :: join sep (q :: pieces)).
  apply Forall_app. split; [done|]. by constructor.
Qed.

Lemma mapM_fmap_inv {A B} (f : B → Outcome A) (k : A → B) (l : list A) :
  (∀ a, a ∈ l → f (k a) = Ok a) → mapM f (k <$> l) = Ok l.
Proof.
  induction l as [|a l IH]; intros Hf; [done|]. rewrite fmap_cons.
  change (mapM f (k a :: (k <$> l))) with (b ← f (k a); bs ← mapM f (k <$> l); Ok (b :: bs)).
  rewrite Hf by by left. simpl. rewrite IH; [done|]. intros b Hb. apply Hf. by right.
Qed.

(** Reading back the line of a row. *)
Lemma load_row (row : list Z) :
  Forall int8 row → row ≠ [] →
  strip (join comma (py_str <$> row) ++ [newline]) = join comma (py_str <$> row) ∧
  join comma (py_str <$> row) ≠ [] ∧
  mapM py_int (split_on comma (join comma (py_str <$> row))) = Ok row.
Proof.
  intros Hrow Hne.
  assert (Hlast : ∃ v, last row = Some v) by (destruct (last row) eqn:E; [by eexists|];
    by apply last_None in E).
  destruct row as [|v0 row]; [done|]. destruct Hlast as [v1 Hv1].
  assert (H0 : int8 v0) by (by inversion Hrow).
  assert (H1 : int8 v1).
  { rewrite Forall_forall in Hrow. apply Hrow.
    apply last_Some in Hv1 as [l' ->]. apply elem_of_app. right. by left. }
  destruct (int8_text v0 H0) as (_ & (a & Ha & Hsa) & _ & _).
  destruct (int8_text v1 H1) as (_ & _ & (b & Hb & Hsb) & _).
  assert (Hhead : head (join comma (py_str <$> v0 :: row)) = Some a)
    by (by apply head_join).
  split_and!.
  - apply (strip_line _ a b); [done..| |done].
    apply (last_join _ _ (py_str v1)); [|done].
    by rewrite fmap_last, Hv1.
  - intros E. by rewrite E in Hhead.
  - rewrite split_join.
    + apply mapM_fmap_inv. intros v Hv. rewrite Forall_forall in Hrow.
      by apply int8_text, Hrow.
    + done.
    + apply Forall_fmap, Forall_forall. intros v Hv. simpl.
      rewrite Forall_forall in Hrow. destruct (int8_text v (Hrow v Hv)) as (_ & _ & _ & Hc).
      eapply Forall_impl; [done|]. by intros c (? & _ & _).
Qed.

Lemma load_rows (rows acc : list (list Z)) :
  Forall (Forall int8) rows →
  foldM (λ grid line,
           let line := strip line in
           if bool_decide (line ≠ []) then
             row ← mapM py_int (split_on comma line);
             Ok (grid ++ [row])
           else Ok grid)
        ((λ row, join comma (py_str <$> row) ++ [newline]) <$> rows) acc =
    Ok (acc ++ filter (λ row, row ≠ []) rows).
Proof.
  intros Hrows. revert acc. induction Hrows as [|row rows Hrow _ IH]; intros acc.
  - simpl. by rewrite app_nil_r.
  - rewrite fmap_cons. simpl foldM. destruct (decide (row = [])) as [->|Hne].
    + change (strip (join comma (py_str <$> []) ++ [newline])) with (@nil Ascii.ascii).
      rewrite bool_decide_eq_false_2 by (by intros ?). simpl.
      rewrite IH. by rewrite filter_cons_False by (by intros ?).
    + destruct (load_row row Hrow Hne) as (-> & Hne' & ->).
      rewrite bool_decide_eq_true_2 by done. simpl.
      rewrite IH. rewrite filter_cons_True by done. by rewrite <- app_assoc.
Qed.

Lemma csv_text_round_trip (g : Grid) h w :
  shape g h w → (∀ y x v, cell g y x = Some v → int8 v) →
  ∃ text, export_csv g = Ok text ∧
          load_grid text = Ok (if decide (w = 0) then [] else g).
Proof.
  intros Hg Hint. rewrite (export_csv_text g h w Hg). eexists. split; [done|].
  assert (Hrows : Forall (Forall int8) g).
  { apply Forall_forall. intros row Hrow. apply Forall_forall. intros v Hv.
    apply list_elem_of_lookup in Hrow as [i Hi], Hv as [j Hj].
    apply (Hint (Z.of_nat i) (Z.of_nat j)). rewrite cell_unfold, decide_True by lia.
    rewrite Nat2Z.id, Hi. simpl. unfold zlookup. by rewrite decide_True, Nat2Z.id by lia. }
  assert (Hchars : Forall (Forall (λ c, Ascii.eqb c newline = false ∧
                                       Ascii.eqb c carriage_return = false))
                     ((λ row, join comma (py_str <$> row)) <$> g)).
  { apply Forall_fmap, Forall_forall. intros row Hrow. simpl. apply Forall_join; [done|].
    apply Forall_fmap, Forall_forall. intros v Hv. simpl.
    rewrite Forall_forall in Hrows. specialize (Hrows row Hrow).
    rewrite Forall_forall in Hrows. destruct (int8_text v (Hrows v Hv)) as (_ & _ & _ & Hc).
    eapply Forall_impl; [done|]. by intros c (_ & ? & ?). }
  unfold load_grid.
  replace ((λ row, join comma (py_str <$> row) ++ [newline]) <$> g)
    with ((λ r, r ++ [newline]) <$> ((λ row, join comma (py_str <$> row)) <$> g))
    by (by rewrite <- list_fmap_compose).
  rewrite universal_id.
  2:{ apply Forall_concat, Forall_fmap. eapply Forall_impl; [done|].
      intros r Hr. simpl. apply Forall_app. split; [|by constructor].
      eapply Forall_impl; [done|]. by intros c [_ ?]. }
  rewrite lines_concat.
  2:{ eapply Forall_impl; [done|]. intros r Hr.
      eapply Forall_impl; [done|]. by intros c [? _]. }
  rewrite <- list_fmap_compose.
  change ((λ r, r ++ [newline]) ∘ (λ row, join comma (py_str <$> row)))
    with (λ row, join comma (py_str <$> row) ++ [newline]).
  pose proof (load_rows g [] Hrows) as Hl. cbv zeta in Hl. rewrite Hl. simpl. f_equal.
  destruct Hg as [_ Hw]. clear Hint Hrows Hchars Hl. case_decide as E.
  - subst w. induction Hw as [|row rows Hrow _ IH]; [done|].
    rewrite filter_cons_False; [done|]. intros Hne. by destruct row.
  - induction Hw as [|row rows Hrow _ IH]; [done|].
    rewrite filter_cons_True; [by rewrite IH|]. intros ->. simpl in Hrow. lia.
Qed.

(** X19.  A grid of [int8] tiles survives the CSV file: [load_grid] of the
    game reads back from the text that [export_csv] writes the same rows,
    when the grid has a column; of a grid with no column it reads back no
    row at all, as it skips the empty lines. *)
Theorem csv_round_trip (g : Grid) h w :
  shape g h w → (∀ y x v, cell g y x = Some v → int8 v) →
  ∃ text, export_csv g = Ok text ∧
          load_grid text = Ok (if decide (w = 0) then [] else g).
Proof. apply csv_text_round_trip. Qed.

(** ** The game's [find_tile] *)

Lemma find_col_spec tile_id c0 (row : list Z) :
  match find_col tile_id c0 row with
  | Some c => ∃ i : nat, c = c0 + Z.of_nat i ∧ row !! i = Some tile_id ∧
                         ∀ j, (j < i)%nat → row !! j ≠ Some tile_id
  | None => ∀ j, row !! j ≠ Some tile_id
  end.
Proof.
  revert c0. induction row as [|v row IH]; intros c0; simpl; [done|].
  case_decide as E.
  - subst v. exists 0%nat. split_and!; [lia|done|]. intros j ?. lia.
  - specialize (IH (c0 + 1)). destruct (find_col tile_id (c0 + 1) row) as [c|].
    + destruct IH as (i & -> & Hi & Hbefore). exists (S i). split_and!; [lia|done|].
      intros [|j] Hj; simpl; [congruence|]. apply Hbefore. lia.
    + intros [|j]; simpl; [congruence|done].
Qed.

Lemma find_row_spec tile_id r0 (grid : list (list Z)) :
  match find_row tile_id r0 grid with
  | Some (c, r) => ∃ i j : nat, r = r0 + Z.of_nat i ∧ c = Z.of_nat j ∧
      (∃ row, grid !! i = Some row ∧ row !! j = Some tile_id ∧
              ∀ j', (j' < j)%nat → row !! j' ≠ Some tile_id) ∧
      ∀ i' row j', (i' < i)%nat → grid !! i' = Some row → row !! j' ≠ Some tile_id
  | None => ∀ i row j, grid !! i = Some row → row !! j ≠ Some tile_id
  end.
Proof.
  revert r0. induction grid as [|row grid IH]; intros r0; simpl; [done|].
  pose proof (find_col_spec tile_id 0 row) as Hcol.
  destruct (find_col tile_id 0 row) as [c|].
  - destruct Hcol as (j & -> & Hj & Hbefore). exists 0%nat, j.
    split_and!; [lia|lia| |intros; lia]. by exists row.
  - specialize (IH (r0 + 1)). destruct (find_row tile_id (r0 + 1) grid) as [[c r]|].
    + destruct IH as (i & j & -> & -> & Hrow & Hbefore). exists (S i), j.
      split_and!; [lia|done|done|].
      intros [|i'] row' j' Hi' Hr; simpl in Hr.
      * injection Hr as <-. apply Hcol.
      * apply (Hbefore i'); [lia|done].
    + intros [|i] row' j Hr; simpl in Hr.
      * injection Hr as <-. apply Hcol.
      * by apply (IH i).
Qed.

Lemma find_tile_spec (grid : list (list Z)) tile_id :
  match find_tile grid tile_id with
  | Some (x, y) =>
    cell grid y x = Some tile_id ∧
    ∀ x' y', y' < y ∨ (y' = y ∧ x' < x) → cell grid y' x' ≠ Some tile_id
  | None => ∀ y x, cell grid y x ≠ Some tile_id
  end.
Proof.
  unfold find_tile. pose proof (find_row_spec tile_id 0 grid) as Hspec.
  assert (Hcell : ∀ y x, cell grid y x = Some tile_id →
            0 ≤ y ∧ 0 ≤ x ∧ ∃ row, grid !! Z.to_nat y = Some row ∧
                                   row !! Z.to_nat x = Some tile_id).
  { intros y x. rewrite cell_unfold. case_decide; [|done].
    destruct (grid !! Z.to_nat y) as [row|]; simpl; [|done].
    unfold zlookup. case_decide; [|done]. intros Hx. split_and!; [done..|by exists row]. }
  destruct (find_row tile_id 0 grid) as [[c r]|].
  - destruct Hspec as (i & j & -> & -> & (row & Hi & Hj & Hcols) & Hrows). split.
    + rewrite cell_unfold, decide_True by lia.
      replace (Z.to_nat (0 + Z.of_nat i)) with i by lia. rewrite Hi. simpl.
      unfold zlookup. by rewrite decide_True, Nat2Z.id by lia.
    + intros x' y' Hlt (Hy & Hx & row' & Hr & Hc)%Hcell.
      destruct Hlt as [Hlt|[-> Hlt]].
      * by apply (Hrows (Z.to_nat y') row' (Z.to_nat x')); [lia|..].
      * replace (Z.to_nat (0 + Z.of_nat i)) with i in Hr by lia.
        assert (row' = row) as -> by congruence.
        by apply (Hcols (Z.to_nat x')); [lia|].
  - intros y x (Hy & Hx & row & Hr & Hc)%Hcell. by apply (Hspec _ _ (Z.to_nat x) Hr).
Qed.

(** X20.  [find_tile] returns the first tile of the kind in row-major
    order, as [(col, row)], and [None] exactly when the grid holds no such
    tile. *)
Theorem find_tile_first (grid : list (list Z)) tile_id :
  match find_tile grid tile_id with
  | Some (x, y) =>
    cell grid y x = Some tile_id ∧
    ∀ x' y', y' < y ∨ (y' = y ∧ x' < x) → cell grid y' x' ≠ Some tile_id
  | None => ∀ y x, cell grid y x ≠ Some tile_id
  end.
Proof. apply find_tile_spec. Qed.

Section GameStart.
Context {R : Type} `{!Generator R} `{!Oracles}.

(** X21.  From the generator to the game: for a Config with surface
    heights between 1 and [height], the grid that the game loads from the
    exported CSV of a completed run is the grid of the run, and the
    [find_tile] of its Spawn is the tile right above the surface of the
    spawn column. *)
Theorem game_starts_at_spawn fuel c (st' : BlueprintGenerator_ (R:=R)) :
  1 ≤ surface_y_min c → surface_y_max c ≤ height c → run fuel c = Ok st' →
  ∃ text s x surf,
    export_csv (grid st') = Ok text ∧ load_grid text = Ok (grid st') ∧
    surface_line st' = Some s ∧ zlookup s x = Some surf ∧
    find_tile (grid st') T_SPAWN = Some (x, surf - 1).
Proof.
  intros Hmin Hmax Hrun.
  destruct (run_output_spec fuel c st' Hrun) as (Hg & Hkinds & _ & _ & _).
  destruct (spawn_on_surface fuel c st' Hmin Hmax Hrun) as (s & x & surf & Hs & Hx & Hone).
  destruct (csv_text_round_trip (grid st') _ _ Hg) as (text & Hexp & Hload).
  { intros y' x' v Hv%Hkinds. unfold int8.
    rewrite !elem_of_cons, elem_of_nil in Hv.
    destruct Hv as [-> |[-> |[-> |[-> |[-> |[]]]]]]; done. }
  assert (Hspawn : cell (grid st') (surf - 1) x = Some T_SPAWN) by (by apply Hone).
  assert (Hw : width c ≠ 0).
  { apply (cell_bounds _ _ _ _ _ _ Hg) in Hspawn. lia. }
  rewrite decide_False in Hload by done.
  exists text, s, x, surf. split_and!; [done..|].
  pose proof (find_tile_spec (grid st') T_SPAWN) as Hfind.
  destruct (find_tile (grid st') T_SPAWN) as [[x' y']|].
  - destruct Hfind as [Hc _]. apply Hone in Hc as [-> ->]. done.
  - by destruct (Hfind (surf - 1) x).
Qed.

End GameStart.

(** ** What a run needs, and what its verifier can report *)

Section RunNeeds.
Context {R : Type} `{!Generator R} `{!Oracles}.
Implicit Types (st : BlueprintGenerator_ (R:=R)).

(** X22.  For a Config with surface heights between 1 and [height], a sky
    of at least [min_region_size] tiles and a tunnel width that is not
    negative, the only failures that the verifier can report on a completed
    run are those of its Goal check. *)
Theorem run_fails_goal_check_only fuel c st' :
  choice_in_range R → set_iteration_keeps →
  1 ≤ surface_y_min c → surface_y_max c ≤ height c →
  min_region_size c ≤ width c * surface_y_min c →
  0 ≤ tunnel_min_width c →
  run fuel c = Ok st' →
  ∃ s fs, surface_line st' = Some s ∧
          verify_blueprint (R := R) (grid st') s = Ok fs ∧
          ∀ f, f ∈ fs → failure_check f = 3.
Proof.
  intros Hchoice Hset Hmin Hmax Hbig Htw Hrun.
  pose proof (run_open_tiles fuel c st' Hchoice Hset Hmin Hmax Hbig Htw Hrun) as Hone.
  destruct (run_output_spec fuel c st' Hrun) as (Hg & _ & _ & _ & s & Hs & Hlen & _).
  destruct (spawn_on_surface fuel c st' Hmin Hmax Hrun) as (s' & x & surf & Hs' & Hx & Hspawn).
  assert (s' = s) as -> by congruence.
  destruct (verify_parts (grid st') s _ _ Hg Hlen Hchoice)
    as (regions & f2 & f3 & f4 & f5 & Hregions & H2 & _ & K3 & H4 & _ & H5 & _ & Hv).
  exists s. eexists. split_and!; [done..|].
  apply (one_region_length _ _ Hregions) in Hone.
  rewrite decide_False by lia.
  rewrite (spawn_check_unique (grid st') s _ _ (surf - 1) x surf Hg Hspawn Hx) in H2.
  rewrite decide_False in H2 by lia. injection H2 as <-.
  assert (f5 = []) as ->.
  { eapply clearance_check_passes; [|done]. intros y' x'. by apply (run_tops_under_air fuel c). }
  assert (f4 = []) as ->.
  { destruct (top_check_spec (grid st') _ _ (py_range 1 (height c)) Hg) as
      [[E _]|(l1 & y0 & l2 & x0 & above & _ & _ & _ & _ & (Htop & a & Ha & Hn) & _)];
      [by intros y' ?%elem_of_py_range|congruence|].
    apply (run_tops_under_air fuel c) in Htop; [|done].
    rewrite Htop in Ha. injection Ha as <-. destruct Hn. by left. }
  intros f. simpl. rewrite !app_nil_r. apply K3.
Qed.


End RunNeeds.

(** ** The choice of the spawn column *)

Lemma spawn_score_Ok w (s : list Z) x :
  0 ≤ x < Z.of_nat (length s) → ∃ sc, spawn_score w s x = Ok sc.
Proof.
  intros Hx. unfold spawn_score.
  assert (Hne : np_slice (Z.max 0 (x - 2)) (x + 3) s ≠ []).
  { unfold np_slice, slice_bound. repeat case_decide; try lia.
    intros E%(f_equal length). rewrite length_take, length_drop in E. simpl in E. lia. }
  destruct (np_slice _ _ s) as [|v l]; [done|]. simpl. eauto.
Qed.

Lemma spawn_column_spec w (s : list Z) :
  let lo := Z.max 5 (w `div` 2 - w `div` 4) in
  let hi := Z.min (w - 5) (w `div` 2 + w `div` 4) in
  Z.of_nat (length s) = w →
  ∃ sx, spawn_column w s = Ok sx ∧
        if decide (lo < hi) then
          lo ≤ sx < hi ∧
          ∃ sc, spawn_score w s sx = Ok sc ∧
                ∀ x, lo ≤ x < hi →
                     ∃ sc', spawn_score w s x = Ok sc' ∧ sc ≤ sc' ∧ (x < sx → sc < sc')
        else sx = w `div` 2.
Proof.
  intros lo hi Hlen. unfold spawn_column. fold lo hi.
  set (f := λ (bs : option Z * Z) x, _).
  set (I := λ (l : list Z) (bs : option Z * Z),
         (l = [] ∧ bs = (None, w `div` 2)) ∨
         ∃ sc l1 l2, bs.1 = Some sc ∧ l = l1 ++ bs.2 :: l2 ∧
            spawn_score w s bs.2 = Ok sc ∧
            (∀ x, x ∈ l1 → ∃ sc', spawn_score w s x = Ok sc' ∧ sc < sc') ∧
            (∀ x, x ∈ l2 → ∃ sc', spawn_score w s x = Ok sc' ∧ sc ≤ sc')).
  destruct (foldM_total I f (py_range lo hi) (None, w `div` 2)) as (bs & Hfold & Hbs).
  - intros l1 a l2 bs0 Hl Hinv.
    apply py_range_split in Hl as [_ Ha].
    destruct (spawn_score_Ok w s a) as [sc Hsc]; [lia|].
    assert (Hf : f bs0 a = match bs0.1 with
                           | Some best => if decide (sc < best) then Ok (Some sc, a) else Ok bs0
                           | None => Ok (Some sc, a)
                           end).
    { unfold f. unfold spawn_score in Hsc.
      destruct (array_max _) as [hi'| |]; try done. simpl in *.
      destruct (array_min _) as [lo'| |]; try done. simpl in *.
      injection Hsc as <-. done. }
    rewrite Hf. destruct Hinv as [[-> ->]|(sc0 & k1 & k2 & Hb & -> & Hsc0 & Hk1 & Hk2)].
    + simpl. eexists. split; [done|]. right. exists sc, [], []. simpl.
      split_and!; try done; by intros ? ?%elem_of_nil.
    + rewrite Hb. case_decide as Hlt.
      * eexists. split; [done|]. right. exists sc, (k1 ++ bs0.2 :: k2), []. simpl.
        split_and!; try done; [|by intros ? ?%elem_of_nil].
        intros x. rewrite elem_of_app, elem_of_cons. intros [Hx|[->|Hx]].
        -- destruct (Hk1 x Hx) as (sc' & ? & ?). exists sc'. split; [done|lia].
        -- exists sc0. split; [done|lia].
        -- destruct (Hk2 x Hx) as (sc' & ? & ?). exists sc'. split; [done|lia].
      * eexists. split; [done|]. right. exists sc0, k1, (k2 ++ [a]).
        split_and!; try done; [by rewrite <- app_assoc|].
        intros x. rewrite elem_of_app, list_elem_of_singleton. intros [Hx| ->].
        -- by apply Hk2.
        -- exists sc. split; [done|lia].
  - by left.
  - exists bs.2. rewrite Hfold. split; [done|].
    destruct Hbs as [[Hl ->]|(sc & l1 & l2 & Hb & Hl & Hsc & Hl1 & Hl2)].
    + case_decide; [|done]. rewrite py_range_cons in Hl by done. done.
    + pose proof (py_range_split _ _ _ _ _ Hl) as [-> Hr].
      rewrite decide_True by lia. split; [done|]. exists sc. split; [done|].
      intros x Hx.
      assert (Hin : x ∈ py_range lo hi) by by apply elem_of_py_range.
      rewrite Hl, elem_of_app, elem_of_cons in Hin.
      destruct Hin as [Hin|[->|Hin]].
      * destruct (Hl1 x Hin) as (sc' & ? & ?). exists sc'. split; [done|]. lia.
      * exists sc. split; [done|]. lia.
      * destruct (Hl2 x Hin) as (sc' & ? & ?). exists sc'. split; [done|].
        split; [done|]. intros Hlt.
        assert (Hnd : NoDup (py_range lo hi)) by apply NoDup_seqZ.
        assert (x ∈ py_range lo bs.2) as Hx1 by (apply elem_of_py_range; lia).
        rewrite Hl in Hnd. apply NoDup_app in Hnd as (_ & Hnd & _).
        specialize (Hnd x Hx1). destruct Hnd. by right.
Qed.

Lemma array_min_le_max (l : list Z) a b :
  array_max l = Ok a → array_min l = Ok b → b ≤ a.
Proof.
  destruct l as [|v l]; [done|]. simpl. intros [= <-] [= <-].
  assert (Hmax : ∀ (k : list Z) u, u ≤ foldl Z.max u k).
  { induction k as [|c k IH]; intros u; simpl; [lia|]. specialize (IH (Z.max u c)). lia. }
  assert (Hmin : ∀ (k : list Z) u, foldl Z.min u k ≤ u).
  { induction k as [|c k IH]; intros u; simpl; [lia|]. specialize (IH (Z.min u c)). lia. }
  specialize (Hmax l v). specialize (Hmin l v). lia.
Qed.

Lemma wrap_int32_id v : - 2 ^ 31 ≤ v < 2 ^ 31 → wrap_int32 v = v.
Proof. intros Hv. unfold wrap_int32. rewrite Z.mod_small; lia. Qed.

Lemma spawn_score_exact w (s : list Z) x a b :
  array_max (np_slice (Z.max 0 (x - 2)) (x + 3) s) = Ok a →
  array_min (np_slice (Z.max 0 (x - 2)) (x + 3) s) = Ok b →
  a - b < 2 ^ 31 →
  spawn_score w s x = Ok ((a - b) * 10 + Z.abs (x - w `div` 2)).
Proof.
  intros Ha Hb Hlt. pose proof (array_min_le_max _ _ _ Ha Hb) as Hle.
  unfold spawn_score. rewrite Ha, Hb. simpl. by rewrite wrap_int32_id by lia.
Qed.

(** X24.  On a surface line as wide as the grid, the spawn column is, among
    the columns of the middle window, the first one of the least score,
    where the score of a column is ten times the flatness of the surface in
    the five columns around it plus its distance from the centre; when the
    window is empty it is the centre column.  The flatness is the
    [np.int32] difference of the greatest and the least height of the five
    columns: their difference where it is below [2^31], and wrapped
    around otherwise. *)
Theorem spawn_column_first_flattest w (s : list Z) :
  let lo := Z.max 5 (w `div` 2 - w `div` 4) in
  let hi := Z.min (w - 5) (w `div` 2 + w `div` 4) in
  Z.of_nat (length s) = w →
  (∃ sx, spawn_column w s = Ok sx ∧
         if decide (lo < hi) then
           lo ≤ sx < hi ∧
           ∃ sc, spawn_score w s sx = Ok sc ∧
                 ∀ x, lo ≤ x < hi →
                      ∃ sc', spawn_score w s x = Ok sc' ∧ sc ≤ sc' ∧ (x < sx → sc < sc')
         else sx = w `div` 2) ∧
  (∀ x a b,
     array_max (np_slice (Z.max 0 (x - 2)) (x + 3) s) = Ok a →
     array_min (np_slice (Z.max 0 (x - 2)) (x + 3) s) = Ok b →
     spawn_score w s x = Ok (wrap_int32 (a - b) * 10 + Z.abs (x - w `div` 2)) ∧
     (a - b < 2 ^ 31 →
      spawn_score w s x = Ok ((a - b) * 10 + Z.abs (x - w `div` 2)))).
Proof.
  intros lo hi Hlen. split; [by apply spawn_column_spec|].
  intros x a b Ha Hb. split; [|by apply spawn_score_exact].
  unfold spawn_score. by rewrite Ha, Hb.
Qed.

(** ** The reference implementations keep the laws *)

Lemma stream_integers_in_range f : integers_in_range (Z * nat) (Generator0 := stream_generator f).
Proof.
  intros lo hi r Hlt. simpl.
  pose proof (Z.mod_pos_bound (f r.1 r.2) (hi - lo)). lia.
Qed.

Lemma stream_choice_in_range f : choice_in_range (Z * nat) (Generator0 := stream_generator f).
Proof.
  intros n k r Hk. simpl. split.
  - rewrite (seqZ_cons 0 k) by lia. done.
  - intros j (i & -> & Hi)%list_elem_of_fmap.
    apply Z.mod_pos_bound. lia.
Qed.

Lemma exact_set_iteration_keeps : set_iteration_keeps (H := exact_oracles).
Proof. intros l c. done. Qed.

Lemma cell_Forall {A} (P : A → Prop) (a : list (list A)) y x v :
  Forall (Forall P) a → cell a y x = Some v → P v.
Proof.
  intros Ha Hc. unfold cell in Hc.
  destruct (zlookup a y) as [row|] eqn:Hr; simpl in Hc; [|done].
  apply zlookup_Some in Hr as [_ Hr]. apply zlookup_Some in Hc as [_ Hv].
  rewrite Forall_lookup in Ha. specialize (Ha _ _ Hr).
  rewrite Forall_lookup in Ha. by eapply Ha.
Qed.

(** ** The theorems at concrete inputs *)

Lemma surface_carver_tiles_witness :
  grid_ok small_fresh ∧
  ∃ st', _step2_surface (Generator0 := lcg_generator) (_step1_init small_fresh) = Ok st' ∧
    ∃ s, surface_line st' = Some s ∧
         Z.of_nat (length s) = width (cfg small_fresh) ∧
         ∀ x y, 0 ≤ x < width (cfg small_fresh) → 0 ≤ y < height (cfg small_fresh) →
           ∃ v, zlookup s x = Some v ∧
                cell (grid st') y x =
                  Some (if decide (y < slice_bound v (height (cfg small_fresh)))
                        then T_AIR else T_FILL) ∧
                (0 ≤ v → (y < slice_bound v (height (cfg small_fresh)) ↔ y < v)).
Proof.
  assert (Hok : grid_ok small_fresh) by shape_ok.
  split; [exact Hok|]. eexists. split; [vm_compute; reflexivity|].
  apply (surface_carver_tiles (Generator0 := lcg_generator) small_fresh _ Hok).
  vm_compute. reflexivity.
Defined.

Lemma surface_line_steps_witness :
  ∃ st' s a b,
    _step2_surface (Generator0 := lcg_generator) (_step1_init small_fresh) = Ok st' ∧
    surface_line st' = Some s ∧ zlookup s 0 = Some a ∧ zlookup s (0 + 1) = Some b ∧
    Z.abs (b - a) ≤ surface_step_max (cfg (_step1_init small_fresh)).
Proof.
  do 4 eexists.
  split; [vm_compute; reflexivity|]. split; [vm_compute; reflexivity|].
  split; [vm_compute; reflexivity|]. split; [vm_compute; reflexivity|].
  eapply (surface_line_steps (Generator0 := lcg_generator) (_step1_init small_fresh) _ _ 0);
    [apply stream_integers_in_range|vm_compute; reflexivity..].
Defined.

Lemma bfs_flood_returns_region_witness :
  ∃ rg v, _bfs_flood 4 3 (grid pocket_state) 0 0 (replicate 3 (replicate 4 false)) = Ok (rg, v) ∧
          head rg = Some (0, 0) ∧ NoDup rg ∧
          (∀ c, c ∈ rg ↔ connected (grid pocket_state) (0, 0) c) ∧
          (∀ c, vis_at v c ↔ vis_at (replicate 3 (replicate 4 false)) c ∨ c ∈ rg).
Proof.
  assert (Hnone : ∀ c, ¬ vis_at (replicate 3 (replicate 4 false)) c).
  { intros c Hc. eapply (cell_Forall (λ b, b = false)) in Hc; [done|].
    repeat constructor. }
  apply (bfs_flood_returns_region 4 3 (grid pocket_state)).
  - shape_ok.
  - shape_ok.
  - intros a b _ Ha. by apply Hnone in Ha.
  - reflexivity.
  - apply Hnone.
Defined.

Lemma region_filter_effect_witness :
  grid_ok pocket_state ∧
  ∃ st', _step5_filter pocket_state = Ok st' ∧
    (is_air_at (grid pocket_state) (0, 2) →
       big_region (min_region_size (cfg pocket_state)) (grid pocket_state) (0, 2) →
       is_air_at (grid st') (0, 2)) ∧
    (is_air_at (grid pocket_state) (0, 2) →
       ¬ big_region (min_region_size (cfg pocket_state)) (grid pocket_state) (0, 2) →
       cell (grid st') (0, 2).2 (0, 2).1 = Some T_FILL) ∧
    (¬ is_air_at (grid pocket_state) (0, 2) →
       cell (grid st') (0, 2).2 (0, 2).1 = cell (grid pocket_state) (0, 2).2 (0, 2).1).
Proof.
  assert (Hok : grid_ok pocket_state) by shape_ok.
  split; [exact Hok|]. eexists. split; [vm_compute; reflexivity|].
  apply (region_filter_effect pocket_state _ (0, 2) Hok).
  vm_compute. reflexivity.
Defined.

Lemma region_filter_idempotent_witness :
  grid_ok pocket_state ∧
  ∃ st', _step5_filter pocket_state = Ok st' ∧ _step5_filter st' = Ok st'.
Proof.
  assert (Hok : grid_ok pocket_state) by shape_ok.
  split; [exact Hok|]. eexists. split; [vm_compute; reflexivity|].
  apply (region_filter_idempotent pocket_state _ Hok).
  vm_compute. reflexivity.
Defined.

Lemma find_air_regions_partitions_witness :
  ∃ regions, _find_air_regions (cfg pocket_state) (grid pocket_state) = Ok regions ∧
             air_regions (grid pocket_state) regions.
Proof.
  apply (find_air_regions_partitions (cfg pocket_state) (grid pocket_state)).
  - shape_ok.
  - simpl. lia.
Defined.

Lemma l_tunnel_joins_its_ends_witness :
  connected (_carve_l_tunnel (cfg pocket_state) (0, 2) (3, 2) (grid pocket_state)) (0, 2) (3, 2) ∧
  ∀ d, is_air_at (_carve_l_tunnel (cfg pocket_state) (0, 2) (3, 2) (grid pocket_state)) d ↔
       in_l_tunnel (cfg pocket_state) (0, 2) (3, 2) d ∨ is_air_at (grid pocket_state) d.
Proof.
  apply (l_tunnel_joins_its_ends (cfg pocket_state) (0, 2) (3, 2) (grid pocket_state)).
  - shape_ok.
  - simpl. lia.
  - simpl. lia.
  - simpl. lia.
Defined.

Lemma connect_leaves_one_region_witness :
  ∃ st', _step6_connect (Generator0 := lcg_generator) (H := exact_oracles) pocket_state = Ok st' ∧
         ∀ a b, is_air_at (grid st') a → is_air_at (grid st') b →
                connected (grid st') a b.
Proof.
  apply (connect_leaves_one_region (Generator0 := lcg_generator) (H := exact_oracles)
           pocket_state).
  - apply stream_choice_in_range.
  - apply exact_set_iteration_keeps.
  - shape_ok.
  - simpl. lia.
  - simpl. lia.
Defined.

Lemma surface_entry_exists_witness :
  ∃ st', _step7_surface_entry_check pocket_state = Ok st' ∧
    ∃ m x surf, array_max [1; 1; 1; 1] = Ok m ∧ 0 ≤ x < width (cfg pocket_state) ∧
      zlookup [1; 1; 1; 1] x = Some surf ∧
      ∀ y, surf ≤ y < Z.min (m + 7) (height (cfg pocket_state)) → 0 ≤ y →
           cell (grid st') y x = Some T_AIR.
Proof.
  eexists. split; [vm_compute; reflexivity|].
  apply (surface_entry_exists pocket_state _ [1; 1; 1; 1]).
  - shape_ok.
  - reflexivity.
  - reflexivity.
  - simpl. lia.
  - vm_compute. reflexivity.
Defined.

Lemma goal_is_placed_once_witness :
  (∃ c, is_air_at (grid pocket_state) c ∧
        ∀ y x, cell (place_goal 4 3 (grid pocket_state) 1 0) y x = Some T_GOAL ↔ (x, y) = c) ∨
  ((∀ c, ¬ is_air_at (grid pocket_state) c) ∧
   place_goal 4 3 (grid pocket_state) 1 0 = grid pocket_state).
Proof.
  apply (goal_is_placed_once 4 3 (grid pocket_state) 1 0).
  - shape_ok.
  - intros y x Hc. eapply (cell_Forall (λ v, v ≠ T_GOAL)) in Hc; [done|].
    repeat constructor; done.
Defined.

Lemma run_output_well_formed_witness :
  ∃ st', run (Generator0 := lcg_generator) (H := exact_oracles) 100 small_config = Ok st' ∧
    shape (grid st') (height small_config) (width small_config) ∧
    (∀ y x v, cell (grid st') y x = Some v →
       v ∈ [T_AIR; T_TOP; T_FILL; T_GOAL; T_SPAWN]) ∧
    (∃ x y, ∀ y' x', cell (grid st') y' x' = Some T_SPAWN ↔ y' = y ∧ x' = x) ∧
    (∀ y1 x1 y2 x2, cell (grid st') y1 x1 = Some T_GOAL →
       cell (grid st') y2 x2 = Some T_GOAL → y1 = y2 ∧ x1 = x2) ∧
    ∃ s, surface_line st' = Some s ∧ Z.of_nat (length s) = width small_config ∧
         ∀ x v, zlookup s x = Some v →
                surface_y_min small_config ≤ v ≤ surface_y_max small_config.
Proof.
  eexists. split; [vm_compute; reflexivity|].
  apply (run_output_well_formed (Generator0 := lcg_generator) (H := exact_oracles)
           100 small_config).
  vm_compute. reflexivity.
Defined.

Lemma verify_counts_regions_witness :
  ∃ fs, verify_blueprint (Generator0 := lcg_generator) (grid pocket_state) [1; 1; 1; 1] = Ok fs ∧
        ((∀ n, RegionCount n ∉ fs) ↔ one_air_region (walkable (grid pocket_state))).
Proof.
  apply (verify_counts_regions (Generator0 := lcg_generator) (grid pocket_state) [1; 1; 1; 1] 3 4).
  - shape_ok.
  - reflexivity.
  - apply stream_choice_in_range.
Defined.

Lemma verify_reports_first_bad_top_witness :
  ∃ fs, verify_blueprint (Generator0 := lcg_generator) [[2; 0]; [1; 1]] [1; 0] = Ok fs ∧
        (TopUnderSolid 0 1 2 ∈ fs ↔
           top_under_solid [[2; 0]; [1; 1]] 0 1 ∧ cell [[2; 0]; [1; 1]] (1 - 1) 0 = Some 2 ∧
           ∀ x' y', y' < 1 ∨ (y' = 1 ∧ x' < 0) → ¬ top_under_solid [[2; 0]; [1; 1]] x' y').
Proof.
  apply (verify_reports_first_bad_top (Generator0 := lcg_generator)
           [[2; 0]; [1; 1]] [1; 0] 2 2 0 1 2).
  - shape_ok.
  - reflexivity.
  - apply stream_choice_in_range.
Defined.

Lemma run_passes_top_checks_witness :
  ∃ st', run (Generator0 := lcg_generator) (H := exact_oracles) 100 small_config = Ok st' ∧
    ∃ s fs, surface_line st' = Some s ∧
            verify_blueprint (Generator0 := lcg_generator) (grid st') s = Ok fs ∧
            ∀ f, f ∈ fs → failure_check f ≠ 4 ∧ failure_check f ≠ 5.
Proof.
  eexists. split; [vm_compute; reflexivity|].
  apply (run_passes_top_checks (Generator0 := lcg_generator) (H := exact_oracles)
           100 small_config).
  - apply stream_choice_in_range.
  - vm_compute. reflexivity.
Defined.

Lemma run_passes_spawn_check_witness :
  ∃ st', run (Generator0 := lcg_generator) (H := exact_oracles) 100 small_config = Ok st' ∧
    ∃ s fs, surface_line st' = Some s ∧
            verify_blueprint (Generator0 := lcg_generator) (grid st') s = Ok fs ∧
            ∀ f, f ∈ fs → failure_check f ≠ 2.
Proof.
  eexists. split; [vm_compute; reflexivity|].
  apply (run_passes_spawn_check (Generator0 := lcg_generator) (H := exact_oracles)
           100 small_config).
  - apply stream_choice_in_range.
  - simpl. lia.
  - simpl. lia.
  - vm_compute. reflexivity.
Defined.

Lemma verify_flags_wrapped_spawn_witness :
  ∃ st', run (Generator0 := lcg_generator) (H := exact_oracles) 100 flat_config = Ok st' ∧
    ∃ s fs, surface_line st' = Some s ∧
            verify_blueprint (Generator0 := lcg_generator) (grid st') s = Ok fs ∧
            SpawnNotNear (height flat_config - 1) (-1) ∈ fs.
Proof.
  eexists. split; [vm_compute; reflexivity|].
  apply (verify_flags_wrapped_spawn (Generator0 := lcg_generator) (H := exact_oracles)
           100 flat_config).
  - apply stream_choice_in_range.
  - reflexivity.
  - reflexivity.
  - simpl. lia.
  - vm_compute. reflexivity.
Defined.

Lemma run_is_connected_witness :
  ∃ st', run (Generator0 := lcg_generator) (H := exact_oracles) 100 small_config = Ok st' ∧
    one_air_region (walkable (grid st')) ∧
    ∃ s fs, surface_line st' = Some s ∧
            verify_blueprint (Generator0 := lcg_generator) (grid st') s = Ok fs ∧
            ∀ n, RegionCount n ∉ fs.
Proof.
  eexists. split; [vm_compute; reflexivity|].
  apply (run_is_connected (Generator0 := lcg_generator) (H := exact_oracles)
           100 small_config).
  - apply stream_choice_in_range.
  - apply exact_set_iteration_keeps.
  - simpl. lia.
  - simpl. lia.
  - simpl. lia.
  - simpl. lia.
  - vm_compute. reflexivity.
Defined.

Lemma csv_round_trip_witness :
  ∃ text, export_csv [[0; 2; 9]; [1; -5; 8]] = Ok text ∧
          load_grid text = Ok (if decide (3 = 0) then [] else [[0; 2; 9]; [1; -5; 8]]).
Proof.
  apply (csv_round_trip [[0; 2; 9]; [1; -5; 8]] 2 3).
  - shape_ok.
  - intros y x v Hc. eapply (cell_Forall int8) in Hc; [done|].
    repeat constructor; unfold int8; lia.
Defined.

Lemma game_starts_at_spawn_witness :
  ∃ st', run (Generator0 := lcg_generator) (H := exact_oracles) 100 small_config = Ok st' ∧
    ∃ text s x surf,
      export_csv (grid st') = Ok text ∧ load_grid text = Ok (grid st') ∧
      surface_line st' = Some s ∧ zlookup s x = Some surf ∧
      find_tile (grid st') T_SPAWN = Some (x, surf - 1).
Proof.
  eexists. split; [vm_compute; reflexivity|].
  apply (game_starts_at_spawn (Generator0 := lcg_generator) (H := exact_oracles)
           100 small_config).
  - simpl. lia.
  - simpl. lia.
  - vm_compute. reflexivity.
Defined.

Lemma run_fails_goal_check_only_witness :
  ∃ st', run (Generator0 := lcg_generator) (H := exact_oracles) 100 small_config = Ok st' ∧
    ∃ s fs, surface_line st' = Some s ∧
            verify_blueprint (Generator0 := lcg_generator) (grid st') s = Ok fs ∧
            ∀ f, f ∈ fs → failure_check f = 3.
Proof.
  eexists. split; [vm_compute; reflexivity|].
  apply (run_fails_goal_check_only (Generator0 := lcg_generator) (H := exact_oracles)
           100 small_config).
  - apply stream_choice_in_range.
  - apply exact_set_iteration_keeps.
  - simpl. lia.
  - simpl. lia.
  - simpl. lia.
  - simpl. lia.
  - vm_compute. reflexivity.
Defined.


Lemma spawn_column_first_flattest_witness :
  (∃ sx, spawn_column 12 [3; 3; 4; 4; 3; 2; 2; 2; 3; 3; 4; 4] = Ok sx ∧
         if decide (Z.max 5 (12 `div` 2 - 12 `div` 4) < Z.min (12 - 5) (12 `div` 2 + 12 `div` 4))
         then
           Z.max 5 (12 `div` 2 - 12 `div` 4) ≤ sx < Z.min (12 - 5) (12 `div` 2 + 12 `div` 4) ∧
           ∃ sc, spawn_score 12 [3; 3; 4; 4; 3; 2; 2; 2; 3; 3; 4; 4] sx = Ok sc ∧
                 ∀ x, Z.max 5 (12 `div` 2 - 12 `div` 4) ≤ x
                        < Z.min (12 - 5) (12 `div` 2 + 12 `div` 4) →
                      ∃ sc', spawn_score 12 [3; 3; 4; 4; 3; 2; 2; 2; 3; 3; 4; 4] x = Ok sc' ∧
                             sc ≤ sc' ∧ (x < sx → sc < sc')
         else sx = 12 `div` 2) ∧
  (∀ x a b,
     array_max (np_slice (Z.max 0 (x - 2)) (x + 3) [3; 3; 4; 4; 3; 2; 2; 2; 3; 3; 4; 4]) = Ok a →
     array_min (np_slice (Z.max 0 (x - 2)) (x + 3) [3; 3; 4; 4; 3; 2; 2; 2; 3; 3; 4; 4]) = Ok b →
     spawn_score 12 [3; 3; 4; 4; 3; 2; 2; 2; 3; 3; 4; 4] x =
       Ok (wrap_int32 (a - b) * 10 + Z.abs (x - 12 `div` 2)) ∧
     (a - b < 2 ^ 31 →
      spawn_score 12 [3; 3; 4; 4; 3; 2; 2; 2; 3; 3; 4; 4] x =
        Ok ((a - b) * 10 + Z.abs (x - 12 `div` 2)))).
Proof.
  apply (spawn_column_first_flattest 12 [3; 3; 4; 4; 3; 2; 2; 2; 3; 3; 4; 4]).
  reflexivity.
Defined.
